(* ===== verification/_CoqProject ===== *)
-Q . S2P
Prelude.v
Ring.v
Queue.v
Text.v
Sha256.v
Auth.v
Netip.v
Discovery.v
TTLMap.v
Relay.v
Errors.v
Http.v
Mux.v
Url.v
Control.v
CA.v
Models.v
Registar.v
P2P.v
Client.v
Udp.v
Sse.v
Forms.v
Web.v
Forwarder.v
Admin.v
Dial.v
AddrText.v
Events.v
RateLimit.v
Config.v
Hostname.v
Cert.v
Pages.v
Router.v
Pump.v
Main.v
Process.v
Setup.v
Logs.v
WebSite.v
Reach.v
Commands.v
Play.v
