(* ===== verification/Prelude.v ===== *)
(** * Star: a verification development

    Star lets players host a game behind a NAT.  A registar server (package
    [registar]) knows the hosts by a game key; a peer that joins under the same
    key is connected to the host directly (package [p2p], by hole punching) or
    through a relay on the server (package [relay]); the forwarder on each side
    copies UDP datagrams between the game and that connection.  A web page and
    an admin page drive and show all this.

    ** How the program is modelled

    A Go function becomes a function on the same data.  An [error] result is
    [result] or an option of the error trees of [Errors]; a panic is the
    constructor [Panic] of [outcome].  Integers are [Z] with the wrap-around of
    their width written out ([u8] ... [u64]), bytes and strings are lists of
    [Z], a map is a [gmap].  Pointers that two parts share (buffers of the
    relay, items of the TTL map, channels) are numbers into a heap.

    Concurrent code is a step machine: a task or goroutine is a value whose
    constructor is its program counter, a step runs one critical section or one
    blocking call, and a schedule is a list of labels.  What a library, the
    operating system or the other side answers comes with the label, so that a
    theorem on all schedules covers all answers.  [star] below is reachability;
    its principle [star_invariant] is used for every invariant.

    ** The files, in their order

    - [Prelude]: results, panics, machine integers, reachability, the hint
      database [star] and the lemmas on lists the components share.
    - [Ring]: windows of a slice used as a ring, and rings that keep the last
      elements; shared by [Queue], [Sse] and [Admin].
    - [Queue]: [internal/platform/queue.go].  [queue_refines_fifo]: the ring
      implements a first-in-first-out list and never panics.
    - [Text], [Sha256]: UTF-8, base32, base64, hexadecimal, SHA-256 and HMAC of
      the Go standard library, as far as keys and tokens use them.
    - [Auth]: [internal/registar/auth].  What texts parse as a key, with the
      round trips of keys ([UnmarshalText_correct]), and [VerifyToken_iff]: a
      token is accepted exactly when it is the one [NewToken] makes for its key
      under the secret.
    - [Netip]: the addresses of [net/netip] and [net].
    - [Discovery]: [internal/discovery/discovery.go].  The wire format is exact
      and round-trips; [Bind] returns only what the server sent for its request,
      and through an honest server it learns the address its packets come from
      ([Bind_through_server]).
    - [TTLMap]: [internal/platform/ttlmap.go], with a store of items and a clock
      read at each call.  [GetOrSet_correct]: which entries are kept, found and
      dropped, by the time of their last use.
    - [Relay]: [internal/relay].  One reader and the workers of [Serve] with the
      inbox, the pool of buffers, the routes and the counters.  Packets and
      bytes are conserved and never mixed, [Close] stops everything with at most
      one packet dropped uncounted ([Serve_returns]), and what happens when a
      write fails.
    - [Errors]: error trees, [errors.Is], [errors.As]; [internal/errcode] and
      [httpplatform/error.go].
    - [Http]: the middleware of [internal/platform/httpplatform] and
      [http3platform]: who reaches a handler and with which key.  A handler is a
      function on the response, the request and a state, so that the middleware
      composes with the limiter and the server below; its lemmas serve the
      theorems of [Router] and [Main].
    - [Mux]: the multiplexer of [net/http] as the routers use it, with the
      lemmas that say which pattern a path reaches.
    - [Url]: paths and the text of URLs: what a path goes through between the
      text of a URL and the request that a server reads ([plain_travels]).
    - [Control]: [internal/registar/control], both ends of the control protocol:
      the request with its target, the agent's multiplexer, and a response with
      or without a length, for which the controller may wait ([control_exchange]).
    - [CA]: [internal/registar/ca.go] and the peer verification of client.go.
      The class [SessionAuthority] with its laws [SessionAuthorityLaws] is what
      the server relies on; the authority of the program is an instance.  Two
      peers complete a handshake exactly in one session and in time.
    - [Models]: [internal/registar/models.go] and the JSON of a registration on
      both sides: messages round-trip, and which bodies make either side panic.
    - [Registar]: [internal/registar/server.go] and [peer.go], proved against
      that class: the server forgets what has ended, a relay session pairs
      exactly two streams, a host serves one peer at a time and a failed direct
      connection falls back to the relay, unless an agent's answer does not end
      ([peers_one_at_a_time]); and interleavings that leave stale entries.
    - [P2P]: [internal/registar/p2p/connector.go].  The tie break selects exactly
      one connection, and every attempt is accounted for
      ([handshake_tie_break]).
    - [Client]: [internal/registar/client.go]: registration and its errors, the
      callbacks of the agent, [Join], [Accept] and [Close]; its predicates on
      errors agree with those of [internal/errcode].
    - [Udp]: [internal/platform/udp]: the listener with its read loop and lock.
      Connections read their own packets in order; two hazards of [Close]; what
      [Read] and [Write] answer under a deadline.
    - [Sse]: [internal/webserver/sse.go]: the log broadcaster, whose lemmas
      [Logs] uses.
    - [Forms], [Web]: [internal/webserver] models.go, server.go, session.go: which
      forms are accepted, and the life of a session under concurrent requests:
      at most one is current, each is stopped once, [Stop] terminates; hazards.
    - [Forwarder]: [internal/forwarder]: the link between game and peer with its
      clock and error group, and the loops of host and peer.
    - [Admin]: [internal/registar/admin/admin.go]: the bandwidth ring, its
      scraper and its handler, which read and write it word by word without a
      common lock, and the password check.
    - [Dial]: the connections of a client, in [internal/registar/client.go] and
      [internal/forwarder], over the open sockets and transports: which are open
      after any sequence of attempts, closings and collections of the garbage
      collector, whose finalizers close what the program no longer holds, and
      the address dialled.
    - [AddrText]: the texts of [net/netip] addresses.
    - [Events]: the callbacks, the host list, the event stream and [Stop] of the
      admin page, as a machine composed with that of [Registar]: which hosts are
      listed, what a reader of the events gets, and what a host can forge.
    - [RateLimit]: the limiter of [httpplatform] over [TTLMap], against the class
      [TokenBucket] of [x/time/rate] and the law [Refills]: it answers as a map
      in which nothing expires ([limiter_refines]).
    - [Config]: the configuration of both commands ([cmd/registar], [cmd/star])
      with the flag parser and [TrimSpace]; the invite code and the token of the
      one are what the other admits ([commands_agree]).
    - [Hostname]: the host name check of [crypto/x509]: texts of IP addresses,
      letter case, wildcards.
    - [Cert]: [internal/cert] and the self-signed certificate of
      [cmd/registar/main.go], with the client that was given its CA; its lemmas
      serve [Setup].
    - [Pages]: the health check, the admin page behind its password and the
      landing page, as routes both servers of [cmd/registar] share.
    - [Router]: the handler [main] puts in front of the server: limiter, log,
      host check, the routes of the registar and the pages on [Mux], and the
      token check, composed with [Registar] ([registar_entry], [keys_typed]).
    - [Pump]: the datagram pump of a relayed session ([relay_pump]), and the
      accept loops of [Serve] and [ServeQUICConn] ([connections_served]).
    - [Main]: the handlers of the three servers of [cmd/registar]: who sees the
      admin page ([pages_served]), and what the two servers on TCP answer
      ([tcp_servers]).
    - [Process]: the life of that process: its servers, signals, shutdown and
      exit status, with the relays and connections that [Server.Close] waits for
      ([shutdown]).
    - [Setup]: what [main] of [cmd/registar] does before that: configuration,
      authority, certificates and servers ([registar_setup]).
    - [Logs]: the requests of the web page to [/logs] over [Sse]
      ([log_stream]).
    - [WebSite]: the routes, pages and templates of the web page ([web_site]),
      and [star] without arguments, from its set-up to its end ([run_web]).
    - [Reach]: the URLs of the client's requests, and that the registar's router
      takes each to the call it is meant for ([client_reaches_registar]).
    - [Commands]: [star host] and [star peer] over [Dial], [Client] and
      [Forwarder], to their exit status ([commands_end]).
    - [Play]: a peer, the relay or a direct connection, and a host, composed over
      a network that loses datagrams: what one game sends the other gets
      ([game_played]).

    A definition bears the name of the function, method or type it translates,
    with the receiver in front where two would clash ([Token_Key],
    [Conn_Close]); a method that runs in several critical sections is one
    function per section, composed by the [step] of its file.

    ** Bounds and fuel

    Loops are structural: on the bytes still to decode, on the script of answers
    (a loop that waits for the network has consumed its script and returns
    [None]), or on the steps of a schedule.  Fuel occurs in two places: [Itoa] of
    [Http] has the base-two logarithm of the number and one, which
    [itoa_loop_spec] shows to be enough, and the loops over the eight groups of
    an IPv6 address in [AddrText] and [Hostname] have eight iterations.  Theorems that say something ends give a schedule of
    steps that need nothing from outside ([web_stop_and_hazards],
    [link_correct]), or only what they name ([shutdown]: [orderly]), or a
    measure.  The steps of [shutdown] are bounded by 16, 4 for each relay and,
    for each connection, 3 and one for each of its handlers.

    ** What is assumed

    No axiom.  Code that is not in the repository appears as an argument: the
    answers of quic-go, HTTP/3 and the operating system in labels and scripts,
    [url.Parse] of what a user types, [gzip], templates, the file server, the challenge handler of
    ACME, the case table of [unicode], float division and the reading of the
    environment as functions of which nothing is assumed, but that the redirects
    of the multiplexer and the file server leave the header [Alt-Svc] alone
    ([Main]).  Where an answer matters it is a law of a class with an instance:
    the bucket of [x/time/rate] refills ([RateLimit]); DER, PEM and the text of
    addresses decode to what was encoded ([Models], [Cert]).  [CA] takes
    signatures symbolically, as [crypto/x509] documents them.  Of the standard
    library, what decides a property is written out: the multiplexer, paths and
    URLs ([Mux], [Url]), the check of host names ([Hostname]), the flag parser, the texts of addresses and numbers,
    SHA-256 with HMAC.

    ** What is not modelled

    The test helpers ([quictest], [http3test], [registartest], [controltest],
    [p2ptest], [udp/pipe.go]) and what only they call ([NewIPCert], [NewTLSConf]
    of package [cert]); the dialer of [platform/net.go], which nothing calls; the
    embedded templates and static files, which are data; the certificate manager
    of ACME, which is a library's; the template of the client's certificate
    request; debug messages, except the request log; loggers; and the calls
    [Listen] of packages [discovery] and [relay], which the program does not use,
    with the wrappers that give the connections of quic-go one interface. *)
From stdpp Require Export base list gmap strings option numbers sorting.
From Stdlib Require Export ZArith Lia.

(** * Results of Go functions *)

(** A Go function [func(...) (A, error)]: either the value, or the error. *)
Inductive result (E A : Type) : Type :=
| Ok (a : A)
| Err (e : E).
Arguments Ok {E A} a.
Arguments Err {E A} e.

(** A computation that may panic (index out of range, close of a closed
    channel, nil dereference); a panic unwinds and yields no value. *)
Inductive outcome (A : Type) : Type :=
| Ret (a : A)
| Panic.
Arguments Ret {A} a.
Arguments Panic {A}.

#[export] Instance result_ret E : MRet (result E) := fun A a => Ok a.
#[export] Instance result_bind E : MBind (result E) := fun A B f m =>
  match m with Ok a => f a | Err e => Err e end.
#[export] Instance outcome_ret : MRet outcome := fun A a => Ret a.
#[export] Instance outcome_bind : MBind outcome := fun A B f m =>
  match m with Ret a => f a | Panic => Panic end.

#[export] Instance result_eq_dec E A `{EqDecision E, EqDecision A} :
  EqDecision (result E A).
Proof. solve_decision. Defined.
#[export] Instance outcome_eq_dec A `{EqDecision A} : EqDecision (outcome A).
Proof. solve_decision. Defined.

Definition is_ok {E A} (r : result E A) : bool :=
  match r with Ok _ => true | Err _ => false end.

(** Reading a slot that may be out of range: an index panic. *)
Definition or_panic {A} (o : option A) : outcome A :=
  match o with Some a => Ret a | None => Panic end.

(** [l[i]], [l[i] = x] and [a % b], each with the panic Go raises. *)
Definition go_get {A} (l : list A) (i : nat) : outcome A := or_panic (l !! i).

Definition go_set {A} (l : list A) (i : nat) (x : A) : outcome (list A) :=
  if decide (i < length l) then Ret (<[i:=x]> l) else Panic.

Definition go_mod (a b : nat) : outcome nat :=
  if decide (b = 0) then Panic else Ret (a mod b).

(** [copy(dst, src)] into the whole of [dst]: as many elements as both have. *)
Definition go_copy {A} (dst src : list A) : list A :=
  take (length dst) src ++ drop (length src) dst.

(** [append(arr[:n], data...)] for a slice of an array: the array itself is
    written when its capacity suffices, otherwise it is left unchanged and the
    result lives in fresh memory. *)
Definition go_append_array {A} (arr : list A) (n : nat) (data : list A) : list A * list A :=
  if decide (n + length data <= length arr)
  then let arr' := take n arr ++ data ++ drop (n + length data) arr in
       (arr', take (n + length data) arr')
  else (arr, take n arr ++ data).

(** * Machine integers *)

(** A Go [byte]/[uint8], [uint16], [uint32], [uint64] is a [Z] in range; every
    operation that can leave the range is followed by the wrap-around. *)
Definition u8 (z : Z) : Z := (z mod 256)%Z.
Definition u16 (z : Z) : Z := (z mod 2 ^ 16)%Z.
Definition u32 (z : Z) : Z := (z mod 2 ^ 32)%Z.
Definition u64 (z : Z) : Z := (z mod 2 ^ 64)%Z.

Definition is_byte (z : Z) : Prop := (0 <= z < 256)%Z.
Definition bytes_ok (l : list Z) : Prop := Forall is_byte l.

#[export] Instance is_byte_dec z : Decision (is_byte z).
Proof. unfold is_byte. apply _. Defined.
#[export] Instance bytes_ok_dec l : Decision (bytes_ok l).
Proof. unfold bytes_ok. apply _. Defined.

(** The bytes of a Rocq string: how a Go string constant is read. *)
Definition bytes_of_string (s : string) : list Z :=
  map (fun a => Z.of_nat (Ascii.nat_of_ascii a)) (String.list_ascii_of_string s).

(** * Reflexive transitive closure of a step relation *)

Section star.
Context {S : Type} (step : S -> S -> Prop).

Inductive star : S -> S -> Prop :=
| star_refl s : star s s
| star_step s1 s2 s3 : step s1 s2 -> star s2 s3 -> star s1 s3.

(** Induction principle used for every invariant of the development. *)
Lemma star_invariant (I : S -> Prop) :
  (forall s s', I s -> step s s' -> I s') ->
  forall s s', star s s' -> I s -> I s'.
Proof. intros Hstep s s' Hs. induction Hs; eauto. Qed.

Lemma star_one s s' : step s s' -> star s s'.
Proof. eauto using star. Qed.

Lemma star_trans s1 s2 s3 : star s1 s2 -> star s2 s3 -> star s1 s3.
Proof. induction 1; eauto using star. Qed.
End star.

(** * Automation *)

Create HintDb star discriminated.
#[export] Hint Constructors star : star.
#[export] Hint Resolve star_one star_trans : star.

(** Case analysis on every [match]/[if] of a hypothesis, keeping equations. *)
Ltac split_match_in H :=
  repeat match type of H with
  | context [match ?x with _ => _ end] => destruct x eqn:?; try discriminate H
  end.

Ltac split_match :=
  repeat match goal with
  | |- context [match ?x with _ => _ end] => destruct x eqn:?
  end.

(** * Panicking operations: shared lemmas *)

Lemma go_get_Some {A} (l : list A) i x : l !! i = Some x -> go_get l i = Ret x.
Proof. unfold go_get. by intros ->. Qed.

Lemma go_set_lt {A} (l : list A) i x :
  i < length l -> go_set l i x = Ret (<[i:=x]> l).
Proof. intros H. unfold go_set. by rewrite decide_True. Qed.

Lemma go_mod_pos a b : 0 < b -> go_mod a b = Ret (a mod b).
Proof. intros H. unfold go_mod. rewrite decide_False; [done|lia]. Qed.

(** The place of an element in a list, and the lists that replace or drop it. *)
Lemma lookup_split {A} (l : list A) i x :
  l !! i = Some x ->
  exists l1 l2, l = l1 ++ x :: l2 /\ (forall y, <[i := y]> l = l1 ++ y :: l2) /\ delete i l = l1 ++ l2.
Proof.
  intros Hi. exists (take i l), (drop (S i) l). split_and!.
  - by rewrite take_drop_middle.
  - intros y. apply insert_take_drop. by eapply lookup_lt_Some.
  - apply delete_take_drop.
Qed.

Lemma forallb_false_lookup {A} (f : A -> bool) l :
  forallb f l = false -> exists i x, l !! i = Some x /\ f x = false.
Proof.
  induction l as [|x l IH]; [done|]. cbn. intros [H|H]%andb_false_iff.
  - by exists 0, x.
  - destruct (IH H) as (i & y & Hi & Hy). by exists (S i), y.
Qed.

Lemma NoDup_submseteq_sub {A} (l k : list A) : l ⊆+ k -> NoDup k -> NoDup l.
Proof.
  intros [k' Hk]%submseteq_Permutation Hnd. rewrite Hk in Hnd. by apply NoDup_app in Hnd as [? _].
Qed.

(** * Integers and bytes: shared lemmas *)

Lemma u8_byte z : is_byte (u8 z).
Proof. unfold is_byte, u8. apply Z.mod_pos_bound. lia. Qed.

Lemma u8_id z : is_byte z -> u8 z = z.
Proof. unfold is_byte, u8. intros. by apply Z.mod_small. Qed.

Lemma u64_range z : (0 <= u64 z < 2 ^ 64)%Z.
Proof. apply Z.mod_pos_bound. lia. Qed.

Lemma u64_add_l a b : u64 (u64 a + b) = u64 (a + b).
Proof. unfold u64. by rewrite Zplus_mod_idemp_l. Qed.

Lemma u64_add_r a b : u64 (a + u64 b) = u64 (a + b).
Proof. unfold u64. by rewrite Zplus_mod_idemp_r. Qed.

(** [a << k | b] is an addition when [b] fits in the freed bits. *)
Lemma land_shiftl_low a b k :
  (0 <= k)%Z -> (0 <= b < 2 ^ k)%Z -> Z.land (Z.shiftl a k) b = 0%Z.
Proof.
  intros Hk Hb. apply Z.bits_inj'. intros i Hi.
  rewrite Z.land_spec, Z.bits_0.
  destruct (decide (i < k)%Z).
  - by rewrite Z.shiftl_spec_low.
  - rewrite <- (Z.mod_small b (2 ^ k)) by done.
    rewrite Z.mod_pow2_bits_high by lia. apply andb_false_r.
Qed.

Lemma lor_shiftl_add a b k :
  (0 <= k)%Z -> (0 <= b < 2 ^ k)%Z ->
  Z.lor (Z.shiftl a k) b = (a * 2 ^ k + b)%Z.
Proof.
  intros Hk Hb. pose proof (Z.add_lor_land (Z.shiftl a k) b) as E.
  rewrite land_shiftl_low in E by done.
  rewrite <- Z.shiftl_mul_pow2 by done. rewrite Z.add_0_r in E. exact E.
Qed.

#[export] Hint Resolve u8_byte : star.
