(* ===== verification/Ring.v ===== *)
(** Circular buffers over a Go slice.

    Three components keep a window of a fixed slice addressed modulo its
    capacity: [platform.Queue], the bandwidth ring of the admin page and the
    history ring of the log handler.  [window buf s n] is the list of the [n]
    slots starting at [s]; the lemmas say how the window moves when a slot is
    written or the window advances. *)
From S2P Require Import Prelude.

Section ring.
Context {A : Type}.
Implicit Types (buf : list A) (s n i : nat) (x : A).

(** Slot [i] of the window that starts at [s]. *)
Definition slot buf s i : option A := buf !! ((s + i) mod length buf).

Definition window buf s n : list A := omap (slot buf s) (seq 0 n).

Lemma slot_is_Some buf s i : buf ≠ [] -> is_Some (slot buf s i).
Proof.
  intros Hne. apply lookup_lt_is_Some. apply Nat.mod_upper_bound.
  by destruct buf.
Qed.

Lemma slot_mod L buf s i : L = length buf -> slot buf (s mod L) i = slot buf s i.
Proof. intros ->. unfold slot. by rewrite Nat.Div0.add_mod_idemp_l. Qed.

Lemma slot_shift buf s i : slot buf (S s) i = slot buf s (S i).
Proof. unfold slot. do 2 f_equal. lia. Qed.

Lemma window_mod L buf s n :
  L = length buf -> window buf (s mod L) n = window buf s n.
Proof.
  intros ->. unfold window. induction (seq 0 n) as [|i l IH]; [done|].
  cbn. by rewrite slot_mod, IH by done.
Qed.

Lemma window_0 buf s : window buf s 0 = [].
Proof. done. Qed.

Lemma omap_slot_shift buf s k n :
  omap (slot buf s) (seq (S k) n) = omap (slot buf (S s)) (seq k n).
Proof.
  revert k. induction n as [|n IH]; intros k; [done|].
  cbn. by rewrite slot_shift, IH.
Qed.

Lemma window_cons buf s n x :
  slot buf s 0 = Some x -> window buf s (S n) = x :: window buf (S s) n.
Proof.
  intros Hx. unfold window. cbn. by rewrite Hx, omap_slot_shift.
Qed.

Lemma window_snoc buf s n x :
  slot buf s n = Some x -> window buf s (S n) = window buf s n ++ [x].
Proof.
  intros Hx. unfold window. rewrite seq_S, omap_app. cbn. by rewrite Hx.
Qed.

Lemma window_length buf s n : buf ≠ [] -> length (window buf s n) = n.
Proof.
  intros Hne. induction n as [|n IH]; [done|].
  destruct (slot_is_Some buf s n Hne) as [x Hx].
  rewrite (window_snoc _ _ _ x Hx), length_app, IH. cbn. lia.
Qed.
Lemma window_ext buf buf' s s' n :
  (forall i, i < n -> slot buf s i = slot buf' s' i) ->
  window buf s n = window buf' s' n.
Proof.
  induction n as [|n IH]; intros Hext; [done|].
  unfold window in *. rewrite seq_S, !omap_app, IH by auto.
  cbn. by rewrite Hext by lia.
Qed.

Lemma mod_inj L s i j :
  i < L -> j < L -> (s + i) mod L = (s + j) mod L -> i = j.
Proof.
  intros Hi Hj Heq.
  pose proof (Nat.div_mod_eq (s + i) L). pose proof (Nat.div_mod_eq (s + j) L).
  assert ((s + i) / L = (s + j) / L \/ (s + i) / L < (s + j) / L
          \/ (s + j) / L < (s + i) / L) as [|[]] by lia; nia.
Qed.

Lemma slot_insert_eq buf s j x :
  buf ≠ [] -> slot (<[(s + j) mod length buf := x]> buf) s j = Some x.
Proof.
  intros Hne. unfold slot. rewrite length_insert.
  apply list_lookup_insert_eq, Nat.mod_upper_bound. by destruct buf.
Qed.

Lemma slot_insert_ne buf s i j x :
  i < length buf -> j < length buf -> i ≠ j ->
  slot (<[(s + j) mod length buf := x]> buf) s i = slot buf s i.
Proof.
  intros Hi Hj Hne. unfold slot. rewrite length_insert.
  apply list_lookup_insert_ne. eauto using mod_inj.
Qed.

(** Writing just after the window appends to it. *)
Lemma window_push buf s n x :
  n < length buf ->
  window (<[(s + n) mod length buf := x]> buf) s (S n) = window buf s n ++ [x].
Proof.
  intros Hn. rewrite (window_snoc _ _ _ x).
  - f_equal. apply window_ext. intros i Hi. apply slot_insert_ne; lia.
  - apply slot_insert_eq. by destruct buf; cbn in *; [lia|].
Qed.

(** Writing just after a full window drops its oldest element. *)
Lemma window_push_full buf s x :
  buf ≠ [] ->
  window (<[s mod length buf := x]> buf) (S s) (length buf)
  = tail (window buf s (length buf)) ++ [x].
Proof.
  intros Hne. destruct (length buf) as [|n] eqn:HL; [by destruct buf|].
  destruct (slot_is_Some buf s 0 Hne) as [y Hy].
  rewrite (window_cons buf s n y Hy). cbn [tail].
  rewrite (window_snoc _ _ _ x).
  - f_equal. apply window_ext. intros i Hi. rewrite !slot_shift, <- HL.
    replace s with (s + 0) at 1 by lia. apply slot_insert_ne; lia.
  - rewrite slot_shift. unfold slot. rewrite length_insert, HL.
    replace (s + S n) with (s + 1 * S n) by lia. rewrite Nat.Div0.mod_add.
    apply list_lookup_insert_eq. rewrite HL. by apply Nat.mod_upper_bound.
Qed.

Lemma window_full_lookup buf s n i :
  n <= length buf -> i < n -> window buf s n !! i = slot buf s i.
Proof.
  intros Hn Hi. assert (buf ≠ []) as Hne by (destruct buf; cbn in *; [lia|done]).
  induction n as [|n IH]; [lia|].
  destruct (slot_is_Some buf s n Hne) as [x Hx].
  rewrite (window_snoc _ _ _ x Hx).
  destruct (decide (i = n)) as [->|].
  - rewrite lookup_app_r; rewrite window_length by done; [|lia].
    by rewrite Nat.sub_diag, Hx.
  - rewrite lookup_app_l by (rewrite window_length by done; lia). apply IH; lia.
Qed.

(** ** Rings that keep the last elements

    [pos] is the next slot to write, [count] how many slots are used. *)
Definition lastn n (l : list A) : list A := drop (length l - n) l.

Lemma lastn_all n l : (length l <= n)%nat -> lastn n l = l.
Proof. intros H. unfold lastn. replace (_ - _) with 0 by lia. done. Qed.

Lemma length_lastn n (l : list A) : length (lastn n l) = Nat.min n (length l).
Proof. unfold lastn. rewrite length_drop. lia. Qed.

Lemma tail_drop n (l : list A) : tail (drop n l) = drop (S n) l.
Proof. revert l. induction n; intros [|x l]; try done. apply IHn. Qed.

Record holds_last (buf : list A) (pos count : nat) (ls : list A) : Prop := {
  hl_pos : (pos < length buf)%nat;
  hl_count : count = Nat.min (length ls) (length buf);
  hl_window : window buf (pos + (length buf - count)) count = lastn (length buf) ls;
}.

Lemma holds_last_nil buf : buf <> [] -> holds_last buf 0 0 [].
Proof. intros H. constructor; cbn; try done. destruct buf; [done|cbn; lia]. Qed.

Lemma holds_last_push buf pos count ls x :
  holds_last buf pos count ls ->
  holds_last (<[pos := x]> buf) ((pos + 1) mod length buf)
    (if decide (count < length buf) then count + 1 else count) (ls ++ [x]).
Proof.
  intros [H2 H3 H4].
  pose proof (Nat.mod_upper_bound (pos + 1) (length buf)) as Hpos.
  constructor; rewrite ?length_insert; [lia|rewrite length_app; cbn; case_decide; lia|].
  case_decide as Hc.
  - rewrite lastn_all in H4 by lia. rewrite lastn_all by (rewrite length_app; cbn; lia). rewrite <- H4.
    rewrite <- (window_push buf (pos + (length buf - count)) count x) by lia.
    replace (pos + (length buf - count) + count) with (pos + 1 * length buf) by lia.
    rewrite Nat.Div0.mod_add, (Nat.mod_small pos) by lia.
    replace (count + 1) with (S count) by lia.
    rewrite <- (window_mod (length buf)) by (by rewrite length_insert).
    rewrite <- (window_mod (length buf) _ (pos + (length buf - count))) by (by rewrite length_insert).
    f_equal. rewrite Nat.Div0.add_mod_idemp_l. f_equal. lia.
  - assert (count = length buf) as Hfull by lia.
    rewrite Hfull, Nat.sub_diag, Nat.add_0_r in *.
    rewrite (window_mod (length buf)) by (by rewrite length_insert).
    replace (pos + 1) with (S pos) by lia.
    assert (buf <> []) as Hne by (intros ->; cbn in H2; lia).
    pose proof (window_push_full buf pos x Hne) as Hw.
    rewrite (Nat.mod_small pos), H4 in Hw by lia. rewrite Hw. unfold lastn. rewrite length_app. cbn [length].
    rewrite drop_app_le by lia. f_equal.
    replace (length ls + 1 - length buf) with (S (length ls - length buf)) by lia. apply tail_drop.
Qed.
End ring.
#[global] Arguments window : simpl never.
#[global] Arguments slot : simpl never.
