(* ===== verification/Queue.v ===== *)
(** The FIFO queue of [internal/platform/queue.go].

    A queue is a ring buffer in a Go slice whose length equals its capacity.
    The operations are translated with the panics Go would raise (index out of
    range, remainder by a zero capacity); [contents] is the abstract queue, and
    the theorems show that the operations implement a list used first in, first
    out, and that they never panic. *)
From S2P Require Import Prelude Ring.

Section queue.
Context {T : Type} (zero : T).

(** [type Queue[T any] struct]: the slice always has [len(buf) = cap(buf)]. *)
Record Queue := mkQueue { buf : list T; head : nat; qlen : nat }.

(** The zero value of the struct: a nil slice. *)
Definition empty : Queue := mkQueue [] 0 0.

(** [Queue.Peek] *)
Definition Peek (rb : Queue) : outcome (T * bool) :=
  if decide (qlen rb = 0) then Ret (zero, false)
  else x ← go_get (buf rb) (head rb); Ret (x, true).

(** [Queue.Pop] *)
Definition Pop (rb : Queue) : outcome (Queue * (T * bool)) :=
  if decide (qlen rb = 0) then Ret (rb, (zero, false))
  else
    item ← go_get (buf rb) (head rb);
    buf' ← go_set (buf rb) (head rb) zero;
    head' ← go_mod (head rb + 1) (length buf');
    Ret (mkQueue buf' head' (qlen rb - 1), (item, true)).

(** The loop of [Queue.grow]: [for i := range rb.len]. *)
Fixpoint grow_loop (rb : Queue) (i n : nat) (nbuf : list T) : outcome (list T) :=
  match n with
  | 0 => Ret nbuf
  | S n' =>
      pos ← go_mod (head rb + i) (length (buf rb));
      x ← go_get (buf rb) pos;
      nbuf' ← go_set nbuf i x;
      grow_loop rb (S i) n' nbuf'
  end.

(** [Queue.grow] *)
Definition grow (rb : Queue) : outcome Queue :=
  nbuf ← grow_loop rb 0 (qlen rb) (replicate ((length (buf rb) + 1) * 2) zero);
  Ret (mkQueue nbuf 0 (qlen rb)).

(** [Queue.Push] *)
Definition Push (rb : Queue) (item : T) : outcome Queue :=
  rb' ← (if decide (qlen rb = length (buf rb)) then grow rb else Ret rb);
  pos ← go_mod (head rb' + qlen rb') (length (buf rb'));
  buf' ← go_set (buf rb') pos item;
  Ret (mkQueue buf' (head rb') (qlen rb' + 1)).

(** A client's sequence of calls, and what each call returns. *)
Inductive op := OpPush (x : T) | OpPop | OpPeek.

Definition apply_op (rb : Queue) (o : op) : outcome (Queue * option (T * bool)) :=
  match o with
  | OpPush x => rb' ← Push rb x; Ret (rb', None)
  | OpPop => '(rb', r) ← Pop rb; Ret (rb', Some r)
  | OpPeek => r ← Peek rb; Ret (rb, Some r)
  end.

Fixpoint run (rb : Queue) (ops : list op) : outcome (Queue * list (option (T * bool))) :=
  match ops with
  | [] => Ret (rb, [])
  | o :: ops' =>
      '(rb', r) ← apply_op rb o;
      '(rb'', rs) ← run rb' ops';
      Ret (rb'', r :: rs)
  end.

(** The specification: the same calls on a list. *)
Definition spec_op (l : list T) (o : op) : list T * option (T * bool) :=
  match o with
  | OpPush x => (l ++ [x], None)
  | OpPop => (tail l, Some (default zero (hd_error l), bool_decide (l ≠ [])))
  | OpPeek => (l, Some (default zero (hd_error l), bool_decide (l ≠ [])))
  end.

Fixpoint spec_run (l : list T) (ops : list op) : list T * list (option (T * bool)) :=
  match ops with
  | [] => (l, [])
  | o :: ops' =>
      let '(l', r) := spec_op l o in
      let '(l'', rs) := spec_run l' ops' in
      (l'', r :: rs)
  end.

(** The abstract queue, and the representation invariant: the head is inside
    the slice, and every slot outside the queue has been cleared. *)
Definition contents (rb : Queue) : list T := window (buf rb) (head rb) (qlen rb).

Record wf (rb : Queue) : Prop := {
  wf_len : qlen rb <= length (buf rb);
  wf_head : head rb < length (buf rb) \/ (head rb = 0 /\ buf rb = []);
  wf_cleared : forall i, qlen rb <= i < length (buf rb) ->
               slot (buf rb) (head rb) i = Some zero;
}.

Lemma empty_wf : wf empty.
Proof. constructor; cbn; [lia|by right|lia]. Qed.

Lemma contents_nil rb : wf rb -> contents rb = [] <-> qlen rb = 0.
Proof.
  intros [Hlen Hhead _]. unfold contents. split; [|by intros ->].
  intros Hnil. destruct (decide (buf rb = [])) as [Hb|Hb].
  - rewrite Hb in Hlen. cbn in Hlen. lia.
  - apply (f_equal length) in Hnil. by rewrite window_length in Hnil.
Qed.

(** The slot at the head, when the queue is not empty. *)
Lemma head_slot rb :
  wf rb -> qlen rb ≠ 0 ->
  head rb < length (buf rb) /\ exists x, buf rb !! head rb = Some x
  /\ contents rb = x :: window (buf rb) (S (head rb)) (qlen rb - 1).
Proof.
  intros [Hlen Hhead _] Hne. assert (head rb < length (buf rb)) as Hlt.
  { destruct Hhead as [|[_ Hb]]; [done|]. rewrite Hb in Hlen. cbn in Hlen. lia. }
  split; [done|]. destruct (lookup_lt_is_Some_2 _ _ Hlt) as [x Hx].
  exists x. split; [done|]. unfold contents.
  destruct (qlen rb) as [|n]; [lia|]. cbn [Nat.sub].
  rewrite Nat.sub_0_r. apply window_cons.
  unfold slot. by rewrite Nat.add_0_r, Nat.mod_small.
Qed.

Lemma Peek_contents rb :
  wf rb ->
  Peek rb = Ret (default zero (hd_error (contents rb)), bool_decide (contents rb ≠ [])).
Proof.
  intros Hwf. unfold Peek. case_decide as Hz.
  - apply (contents_nil _ Hwf) in Hz. by rewrite Hz.
  - destruct (head_slot rb Hwf Hz) as (Hlt & x & Hx & Hc).
    rewrite (go_get_Some _ _ x Hx), Hc. done.
Qed.

Lemma Pop_contents rb :
  wf rb ->
  exists rb', Pop rb = Ret (rb', (default zero (hd_error (contents rb)),
                                  bool_decide (contents rb ≠ [])))
  /\ wf rb' /\ contents rb' = tail (contents rb).
Proof.
  intros Hwf. unfold Pop. case_decide as Hz.
  - exists rb. apply (contents_nil _ Hwf) in Hz. by rewrite Hz.
  - destruct (head_slot rb Hwf Hz) as (Hlt & x & Hx & Hc).
    rewrite (go_get_Some _ _ x Hx). cbn.
    rewrite go_set_lt by done. cbn. rewrite length_insert, go_mod_pos by lia.
    eexists. rewrite Hc. split; [done|]. split.
    + destruct Hwf as [Hlen Hhead Hclr]. constructor; cbn; rewrite length_insert.
      * lia.
      * left. apply Nat.mod_upper_bound. lia.
      * intros i Hi. rewrite slot_mod by (by rewrite length_insert).
        rewrite Nat.add_1_r, slot_shift.
        destruct (decide (S i = length (buf rb))) as [HS|HS].
        -- unfold slot. rewrite length_insert, HS.
           replace (head rb + length (buf rb)) with (head rb + 1 * length (buf rb)) by lia.
           rewrite Nat.Div0.mod_add, Nat.mod_small by done.
           by apply list_lookup_insert_eq.
        -- replace (head rb) with ((head rb + 0) mod length (buf rb)) at 1
             by (rewrite Nat.add_0_r; by apply Nat.mod_small).
           rewrite slot_insert_ne by lia. apply Hclr. lia.
    + unfold contents; cbn. rewrite window_mod by (by rewrite length_insert).
      rewrite Nat.add_1_r. apply window_ext. intros i Hi.
      rewrite !slot_shift. destruct Hwf as [Hlen _ _].
      replace (head rb) with ((head rb + 0) mod length (buf rb)) at 1
        by (rewrite Nat.add_0_r; by apply Nat.mod_small).
      apply slot_insert_ne; lia.
Qed.

(** The copying loop puts slot [j] of the old window in slot [j]. *)
Lemma grow_loop_spec rb i n nbuf :
  buf rb ≠ [] \/ n = 0 -> i + n <= length nbuf ->
  exists nbuf', grow_loop rb i n nbuf = Ret nbuf'
  /\ length nbuf' = length nbuf
  /\ (forall j, j < i \/ i + n <= j -> nbuf' !! j = nbuf !! j)
  /\ (forall j, i <= j < i + n -> nbuf' !! j = slot (buf rb) (head rb) j).
Proof.
  revert i nbuf. induction n as [|n IH]; intros i nbuf Hb Hlen.
  - exists nbuf. cbn. split_and!; [done|done|done|lia].
  - destruct Hb as [Hb|]; [|lia]. cbn [grow_loop].
    rewrite go_mod_pos by (destruct (buf rb); cbn; [done|lia]). cbn.
    destruct (slot_is_Some (buf rb) (head rb) i Hb) as [x Hx].
    rewrite (go_get_Some _ _ x) by exact Hx. cbn.
    rewrite go_set_lt by lia. cbn.
    destruct (IH (S i) (<[i:=x]> nbuf)) as (nb & -> & HL & Hout & Hin);
      [by left|rewrite length_insert; lia|].
    exists nb. rewrite length_insert in HL. split_and!; [done|done| |].
    + intros j Hj. rewrite Hout by lia. apply list_lookup_insert_ne. lia.
    + intros j Hj. destruct (decide (j = i)) as [->|].
      * rewrite Hout by lia. rewrite list_lookup_insert_eq by lia. done.
      * apply Hin. lia.
Qed.

Lemma grow_contents rb :
  wf rb -> exists rb', grow rb = Ret rb' /\ wf rb' /\ contents rb' = contents rb
  /\ qlen rb' < length (buf rb').
Proof.
  intros [Hlen Hhead _]. unfold grow.
  destruct (grow_loop_spec rb 0 (qlen rb)
              (replicate ((length (buf rb) + 1) * 2) zero))
    as (nb & -> & HL & Hout & Hin).
  { destruct (buf rb); cbn in *; [right; lia|by left]. }
  { rewrite length_replicate. lia. }
  rewrite length_replicate in HL. cbn. eexists. split; [done|].
  assert (forall i, i < length nb -> slot nb 0 i = nb !! i) as Hslot.
  { intros i Hi. unfold slot. by rewrite Nat.add_0_l, Nat.mod_small. }
  split_and!.
  - constructor; cbn; [lia|left; lia|]. intros i Hi.
    rewrite Hslot, Hout by lia. apply lookup_replicate_2. lia.
  - unfold contents; cbn. apply window_ext. intros i Hi.
    rewrite Hslot by lia. apply Hin. lia.
  - cbn. lia.
Qed.

Lemma Push_contents rb x :
  wf rb -> exists rb', Push rb x = Ret rb' /\ wf rb' /\ contents rb' = contents rb ++ [x].
Proof.
  intros Hwf. unfold Push.
  assert (exists rb1, (if decide (qlen rb = length (buf rb)) then grow rb else Ret rb)
            = Ret rb1 /\ wf rb1 /\ contents rb1 = contents rb
            /\ qlen rb1 < length (buf rb1)) as (rb1 & -> & [Hlen Hhead Hclr] & <- & Hlt).
  { case_decide; [by apply grow_contents|]. exists rb. repeat split; try apply Hwf.
    destruct Hwf. lia. }
  cbn. rewrite go_mod_pos by lia. cbn.
  rewrite go_set_lt by (apply Nat.mod_upper_bound; lia). cbn.
  eexists. split; [done|]. split.
  - constructor; cbn; rewrite length_insert; [lia|left; lia|].
    intros i Hi. rewrite slot_insert_ne by lia. apply Hclr. lia.
  - unfold contents; cbn. rewrite Nat.add_1_r. by apply window_push.
Qed.

Lemma apply_op_spec rb o :
  wf rb -> exists rb', apply_op rb o = Ret (rb', (spec_op (contents rb) o).2)
  /\ wf rb' /\ contents rb' = (spec_op (contents rb) o).1.
Proof.
  intros Hwf. destruct o as [x| |]; cbn.
  - destruct (Push_contents rb x Hwf) as (rb' & -> & ?). by exists rb'.
  - destruct (Pop_contents rb Hwf) as (rb' & -> & ?). by exists rb'.
  - rewrite Peek_contents by done. by exists rb.
Qed.

Lemma run_spec rb ops :
  wf rb -> exists rb', run rb ops = Ret (rb', (spec_run (contents rb) ops).2)
  /\ wf rb' /\ contents rb' = (spec_run (contents rb) ops).1.
Proof.
  revert rb. induction ops as [|o ops IH]; intros rb Hwf; [by exists rb|].
  cbn. destruct (apply_op_spec rb o Hwf) as (rb1 & -> & Hwf1 & Hc).
  destruct (spec_op (contents rb) o) as [l r]. cbn in *. subst l.
  destruct (IH rb1 Hwf1) as (rb2 & -> & Hwf2 & Hc2).
  destruct (spec_run (contents rb1) ops) as [l rs]. cbn in *. by exists rb2.
Qed.

(** C18. Any sequence of [Push], [Pop] and [Peek] calls on a zero-value queue
    runs without a panic, returns exactly what a FIFO list returns, and
    leaves a queue whose contents are that list and whose unused slots are
    all cleared. *)
Theorem queue_refines_fifo (ops : list op) :
  exists rb, run empty ops = Ret (rb, (spec_run [] ops).2)
  /\ contents rb = (spec_run [] ops).1 /\ wf rb.
Proof.
  destruct (run_spec empty ops empty_wf) as (rb & Hr & Hwf & Hc).
  change (contents empty) with (@nil T) in *. by exists rb.
Qed.
End queue.
Arguments Queue T : clear implicits.
