(* ===== verification/Text.v ===== *)
(** The text encodings of the Go standard library that the program uses.

    [bytes.Map] over UTF-8 (package bytes, unicode/utf8), base32 with a custom
    alphabet and standard padding (encoding/base32), URL-safe base64
    (encoding/base64) and lower-case hexadecimal (encoding/hex).  The decoders
    follow the library's control flow: what is skipped (line breaks), where
    padding is recognised, which inputs are corrupt, and the index panic of a
    destination that is too short. *)
From S2P Require Import Prelude.
Local Open Scope Z_scope.

(** * UTF-8 *)

Definition RuneError : Z := 65533.
Definition RuneSelf : Z := 128.

Definition in_range (lo hi c : Z) : bool := (lo <=? c) && (c <=? hi).

(** The class of a first byte: length of the sequence and range of byte two. *)
Definition first_info (c : Z) : option (nat * Z * Z) :=
  if in_range 194 223 c then Some (2%nat, 128, 191)
  else if c =? 224 then Some (3%nat, 160, 191)
  else if in_range 225 236 c then Some (3%nat, 128, 191)
  else if c =? 237 then Some (3%nat, 128, 159)
  else if in_range 238 239 c then Some (3%nat, 128, 191)
  else if c =? 240 then Some (4%nat, 144, 191)
  else if in_range 241 243 c then Some (4%nat, 128, 191)
  else if c =? 244 then Some (4%nat, 128, 143)
  else None.

(** [utf8.DecodeRune]: the rune and its width; a bad sequence is one byte. *)
Definition DecodeRune (p : list Z) : Z * nat :=
  match p with
  | [] => (RuneError, 0%nat)
  | c0 :: t =>
      if c0 <? RuneSelf then (c0, 1%nat)
      else
        match first_info c0, t with
        | Some (2%nat, lo, hi), c1 :: _ =>
            if in_range lo hi c1
            then (Z.lor (Z.shiftl (Z.land c0 31) 6) (Z.land c1 63), 2%nat)
            else (RuneError, 1%nat)
        | Some (3%nat, lo, hi), c1 :: c2 :: _ =>
            if in_range lo hi c1 && in_range 128 191 c2
            then (Z.lor (Z.lor (Z.shiftl (Z.land c0 15) 12)
                           (Z.shiftl (Z.land c1 63) 6)) (Z.land c2 63), 3%nat)
            else (RuneError, 1%nat)
        | Some (4%nat, lo, hi), c1 :: c2 :: c3 :: _ =>
            if in_range lo hi c1 && in_range 128 191 c2 && in_range 128 191 c3
            then (Z.lor (Z.lor (Z.lor (Z.shiftl (Z.land c0 7) 18)
                                  (Z.shiftl (Z.land c1 63) 12))
                           (Z.shiftl (Z.land c2 63) 6)) (Z.land c3 63), 4%nat)
            else (RuneError, 1%nat)
        | _, _ => (RuneError, 1%nat)
        end
  end.

(** The three-byte form, also used for the replacement rune. *)
Definition rune3 (r : Z) : list Z :=
  [Z.lor 224 (Z.shiftr r 12); Z.lor 128 (Z.land (Z.shiftr r 6) 63);
   Z.lor 128 (Z.land r 63)].

(** [utf8.AppendRune nil r], for a rune that is not negative. *)
Definition AppendRune (r : Z) : list Z :=
  if r <? 128 then [r]
  else if r <? 2048 then [Z.lor 192 (Z.shiftr r 6); Z.lor 128 (Z.land r 63)]
  else if in_range 55296 57343 r || (1114111 <? r) then rune3 RuneError
  else if r <? 65536 then rune3 r
  else [Z.lor 240 (Z.shiftr r 18); Z.lor 128 (Z.land (Z.shiftr r 12) 63);
        Z.lor 128 (Z.land (Z.shiftr r 6) 63); Z.lor 128 (Z.land r 63)].

(** [bytes.Map mapping s]: [skip] bytes of [s] belong to a rune already read. *)
Fixpoint bytes_Map_from (mapping : Z -> Z) (skip : nat) (s : list Z) : list Z :=
  match s with
  | [] => []
  | _ :: t =>
      match skip with
      | S k => bytes_Map_from mapping k t
      | O =>
          let '(r, wid) := DecodeRune s in
          let r' := mapping r in
          (if 0 <=? r' then AppendRune r' else []) ++ bytes_Map_from mapping (wid - 1) t
      end
  end.

Definition bytes_Map (mapping : Z -> Z) (s : list Z) : list Z :=
  bytes_Map_from mapping 0 s.

(** * Alphabets *)

(** [enc.encode[v]] and [enc.decodeMap[c]] ([None] is the 0xFF marker). *)
Definition enc_char (alphabet : list Z) (v : Z) : Z := nth (Z.to_nat v) alphabet 0.

Definition decode_map (alphabet : list Z) (c : Z) : option Z :=
  '(i, _) ← list_find (fun a => a = c) alphabet; Some (Z.of_nat i).

Definition pad_char : Z := 61.
Definition is_newline (c : Z) : bool := (c =? 10) || (c =? 13).

(** * Base 32 *)

(** [Encoding.Encode] on one group of five bytes: [hi] and [lo] are the two
    32-bit loads of the library's loop. *)
Definition b32_encode5 (alphabet : list Z) (b0 b1 b2 b3 b4 : Z) : list Z :=
  let hi := Z.lor (Z.lor (Z.lor (Z.shiftl b0 24) (Z.shiftl b1 16)) (Z.shiftl b2 8)) b3 in
  let lo := u32 (Z.lor (Z.shiftl hi 8) b4) in
  map (fun w => enc_char alphabet (Z.land w 31))
    [Z.shiftr hi 27; Z.shiftr hi 22; Z.shiftr hi 17; Z.shiftr hi 12;
     Z.shiftr hi 7; Z.shiftr hi 2; Z.shiftr lo 5; lo].

(** What a decoder returns: the destination and the number of bytes written,
    [CorruptInputError off], or an index panic. *)
Inductive decoded :=
| Decoded (n : nat) (dst : list Z)
| Corrupt (off : Z)
| DecodePanic.

(** The bytes that a quantum of [dlen] characters packs, in position order. *)
Definition b32_pack (dbuf : list Z) (dlen : nat) : list Z :=
  let v i := nth i dbuf 0 in
  let all :=
    [Z.lor (Z.shiftl (v 0%nat) 3) (Z.shiftr (v 1%nat) 2);
     Z.lor (Z.lor (Z.shiftl (v 1%nat) 6) (Z.shiftl (v 2%nat) 1)) (Z.shiftr (v 3%nat) 4);
     Z.lor (Z.shiftl (v 3%nat) 4) (Z.shiftr (v 4%nat) 1);
     Z.lor (Z.lor (Z.shiftl (v 4%nat) 7) (Z.shiftl (v 5%nat) 2)) (Z.shiftr (v 6%nat) 3);
     Z.lor (Z.shiftl (v 6%nat) 5) (v 7%nat)] in
  let cnt := match dlen with
             | 8 => 5 | 7 => 4 | 5 => 3 | 4 => 2 | 2 => 1 | _ => 0 end%nat in
  map u8 (take cnt all).

(** [dst[dsti + i] = bs[i]], with a panic when the destination is too short. *)
Definition store (dst : list Z) (dsti : nat) (bs : list Z) : option (list Z) :=
  if decide (dsti + length bs <= length dst)%nat
  then Some (take dsti dst ++ bs ++ drop (dsti + length bs) dst)
  else None.

(** The padding branch of [decode]: [j] characters are read, one pad has been
    consumed and [src] is what follows it. *)
Definition b32_padding (olen : Z) (j : nat) (src : list Z) : option Z :=
  if decide (length src + j < 8 - 1)%nat then Some olen
  else
    match list_find (fun c => c ≠ pad_char) (take (8 - 1 - j) src) with
    | Some (k, _) => Some (olen - Z.of_nat (length src) + Z.of_nat k - 1)
    | None =>
        if bool_decide (j ∈ [1; 3; 6]%nat)
        then Some (olen - Z.of_nat (length src) - 1) else None
    end.

(** [Encoding.decode]: one character at a time; [dbuf] holds the quantum being
    read, so [j = length dbuf]. *)
Fixpoint b32_decode_loop (alphabet : list Z) (olen : Z) (dbuf : list Z)
    (dsti n : nat) (dst src : list Z) : decoded :=
  match src with
  | [] => match dbuf with
          | [] => Decoded n dst
          | _ => Corrupt (olen - Z.of_nat (length dbuf))
          end
  | c :: src' =>
      if (c =? pad_char) && (2 <=? length dbuf)%nat && (length src' <? 8)%nat then
        match b32_padding olen (length dbuf) src' with
        | Some off => Corrupt off
        | None =>
            let bs := b32_pack dbuf (length dbuf) in
            match store dst dsti bs with
            | Some dst' => Decoded (n + length bs) dst'
            | None => DecodePanic
            end
        end
      else
        match decode_map alphabet c with
        | None => Corrupt (olen - Z.of_nat (length src') - 1)
        | Some v =>
            let dbuf' := dbuf ++ [v] in
            if (length dbuf' =? 8)%nat then
              match store dst dsti (b32_pack dbuf' 8) with
              | Some dst' =>
                  b32_decode_loop alphabet olen [] (dsti + 5) (n + 5) dst' src'
              | None => DecodePanic
              end
            else b32_decode_loop alphabet olen dbuf' dsti n dst src'
        end
  end.

(** [Encoding.Decode]: line breaks are stripped first. *)
Definition b32_Decode (alphabet dst src : list Z) : decoded :=
  let src' := filter (fun c => is_newline c = false) src in
  b32_decode_loop alphabet (Z.of_nat (length src')) [] 0 0 dst src'.

(** * Base 64 *)

Definition url_alphabet : list Z :=
  bytes_of_string "ABCDEFGHIJKLMNOPQRSTUVWXYZabcdefghijklmnopqrstuvwxyz0123456789-_".

Definition b64_quad (a b c : Z) : list Z :=
  let val := Z.lor (Z.lor (Z.shiftl a 16) (Z.shiftl b 8)) c in
  map (fun w => enc_char url_alphabet (Z.land w 63))
    [Z.shiftr val 18; Z.shiftr val 12; Z.shiftr val 6; val].

(** [URLEncoding.EncodeToString] *)
Fixpoint b64_encode (src : list Z) : list Z :=
  match src with
  | a :: b :: c :: src' => b64_quad a b c ++ b64_encode src'
  | [a; b] => take 3 (b64_quad a b 0) ++ [pad_char]
  | [a] => take 2 (b64_quad a 0 0) ++ [pad_char; pad_char]
  | [] => []
  end.

(** The [dlen - 1] bytes of a quantum of [dlen] characters. *)
Definition b64_pack (dbuf : list Z) (dlen : nat) : list Z :=
  let v i := nth i dbuf 0 in
  let val := Z.lor (Z.lor (Z.lor (Z.shiftl (v 0%nat) 18) (Z.shiftl (v 1%nat) 12))
                      (Z.shiftl (v 2%nat) 6)) (v 3%nat) in
  take (dlen - 1) [u8 (Z.shiftr val 16); u8 (Z.shiftr val 8); u8 val].

Fixpoint skip_newlines (si : Z) (src : list Z) : Z * list Z :=
  match src with
  | c :: src' => if is_newline c then skip_newlines (si + 1) src' else (si, src)
  | [] => (si, [])
  end.

(** After a pad at offset [si - 1], with [j] characters in the quantum: the
    error offset, or [None] when the padding ends the input. *)
Definition b64_padding (si : Z) (j : nat) (src : list Z) : option Z :=
  if decide (j < 2)%nat then Some (si - 1)
  else
    let after si src :=
      match skip_newlines si src with
      | (_, []) => None
      | (si', _) => Some si'
      end in
    if decide (j = 2%nat) then
      match skip_newlines si src with
      | (si', []) => Some si'
      | (si', c :: src') =>
          if c =? pad_char then after (si' + 1) src' else Some (si' - 1)
      end
    else after si src.

(** [URLEncoding.Decode]: the decoded bytes, or the corrupt offset. *)
Fixpoint b64_decode_loop (si : Z) (dbuf out src : list Z) : result Z (list Z) :=
  match src with
  | [] => match dbuf with
          | [] => Ok out
          | _ => Err (si - Z.of_nat (length dbuf))
          end
  | c :: src' =>
      match decode_map url_alphabet c with
      | Some v =>
          let dbuf' := dbuf ++ [v] in
          if (length dbuf' =? 4)%nat
          then b64_decode_loop (si + 1) [] (out ++ b64_pack dbuf' 4) src'
          else b64_decode_loop (si + 1) dbuf' out src'
      | None =>
          if is_newline c then b64_decode_loop (si + 1) dbuf out src'
          else if c =? pad_char then
            match b64_padding (si + 1) (length dbuf) src' with
            | Some off => Err off
            | None => Ok (out ++ b64_pack dbuf (length dbuf))
            end
          else Err si
      end
  end.

Definition b64_decode (src : list Z) : result Z (list Z) := b64_decode_loop 0 [] [] src.

(** * Hexadecimal *)

Definition hex_digits : list Z := bytes_of_string "0123456789abcdef".

(** [hex.EncodeToString] *)
Definition hex_encode (src : list Z) : list Z :=
  flat_map (fun b => [enc_char hex_digits (Z.shiftr b 4); enc_char hex_digits (Z.land b 15)]) src.

(** Go's [<] on strings: byte-wise lexicographic order. *)
Fixpoint bytes_ltb (a b : list Z) : bool :=
  match a, b with
  | [], [] => false
  | [], _ :: _ => true
  | _ :: _, [] => false
  | x :: a', y :: b' => (x <? y) || ((x =? y) && bytes_ltb a' b')
  end.

(** * Bit arithmetic *)

(** Masks and shifts as remainders and quotients. *)
Lemma land_mask x k : 0 <= k -> Z.land x (2 ^ k - 1) = x mod 2 ^ k.
Proof. intros Hk. rewrite <- Z.land_ones by done. by rewrite Z.ones_equiv. Qed.

Lemma land_31 x : Z.land x 31 = x mod 32.
Proof. apply (land_mask x 5). lia. Qed.

Lemma land_63 x : Z.land x 63 = x mod 64.
Proof. apply (land_mask x 6). lia. Qed.

Lemma land_15 x : Z.land x 15 = x mod 16.
Proof. apply (land_mask x 4). lia. Qed.

(** [a | b] is a sum when the low [k] bits of [a] are clear and [b] fits. *)
Lemma lor_add a b k :
  0 <= k -> a mod 2 ^ k = 0 -> 0 <= b < 2 ^ k -> Z.lor a b = a + b.
Proof.
  intros Hk Ha Hb. pose proof (Z.div_mod a (2 ^ k)) as E.
  rewrite Ha, Z.add_0_r, Z.mul_comm in E. rewrite E by lia.
  rewrite <- Z.shiftl_mul_pow2 at 1 by done. by apply lor_shiftl_add.
Qed.

Ltac dm := unfold is_byte, u8, u16, u32 in *;
  change (2 ^ 32) with 4294967296 in *; change (2 ^ 16) with 65536 in *;
  change (2 ^ 3) with 8 in *; change (2 ^ 1) with 2 in *; change (2 ^ 4) with 16 in *;
  change (2 ^ 2) with 4 in *; change (2 ^ 5) with 32 in *; change (2 ^ 6) with 64 in *;
  change (2 ^ 7) with 128 in *; change (2 ^ 8) with 256 in *; change (2 ^ 24) with 16777216 in *;
  change (2 ^ 12) with 4096 in *; change (2 ^ 18) with 262144 in *;
  change (2 ^ 22) with 4194304 in *; change (2 ^ 17) with 131072 in *;
  change (2 ^ 27) with 134217728 in *;
  Z.div_mod_to_equations; lia.

(** Turns a bit-level expression of the codecs into arithmetic. *)
Ltac bits_arith :=
  rewrite ?land_31, ?land_63, ?land_15;
  rewrite ?Z.shiftr_div_pow2, ?Z.shiftl_mul_pow2 by lia.

Lemma be_word24 a b c :
  is_byte a -> is_byte b -> is_byte c ->
  Z.lor (Z.lor (Z.shiftl a 16) (Z.shiftl b 8)) c = a * 65536 + b * 256 + c.
Proof.
  intros. bits_arith. rewrite (lor_add (a * 2 ^ 16) _ 16) by dm.
  rewrite (lor_add _ _ 8) by dm. dm.
Qed.

Lemma be_word32 a b c d :
  is_byte a -> is_byte b -> is_byte c -> is_byte d ->
  Z.lor (Z.lor (Z.lor (Z.shiftl a 24) (Z.shiftl b 16)) (Z.shiftl c 8)) d
  = a * 16777216 + b * 65536 + c * 256 + d.
Proof.
  intros. bits_arith. rewrite (lor_add (a * 2 ^ 24) _ 24) by dm.
  rewrite (lor_add (_ + _) _ 16) by dm. rewrite (lor_add _ _ 8) by dm. dm.
Qed.

(** * Alphabet lemmas *)

Lemma decode_enc_char alphabet v :
  NoDup alphabet -> 0 <= v < Z.of_nat (length alphabet) ->
  decode_map alphabet (enc_char alphabet v) = Some v.
Proof.
  intros Hnd Hv. unfold decode_map, enc_char.
  destruct (lookup_lt_is_Some_2 alphabet (Z.to_nat v)) as [x Hx]; [lia|].
  rewrite (nth_lookup_Some _ _ _ _ Hx).
  assert (list_find (fun a => a = x) alphabet = Some (Z.to_nat v, x)) as ->.
  { apply list_find_Some. split_and!; [done|done|].
    intros j y Hj Hlt ->. pose proof (NoDup_lookup _ _ _ _ Hnd Hj Hx). lia. }
  cbn. f_equal. lia.
Qed.

Lemma decode_map_Some alphabet c v :
  decode_map alphabet c = Some v ->
  0 <= v < Z.of_nat (length alphabet) /\ enc_char alphabet v = c.
Proof.
  unfold decode_map. destruct (list_find _ _) as [[i x]|] eqn:E; [|done].
  intros [= <-]. apply list_find_Some in E as (Hi & -> & _).
  pose proof (lookup_lt_Some _ _ _ Hi). split; [lia|].
  unfold enc_char. rewrite Nat2Z.id. by apply nth_lookup_Some.
Qed.

Lemma decode_map_elem alphabet c v : decode_map alphabet c = Some v -> c ∈ alphabet.
Proof.
  unfold decode_map. destruct (list_find _ _) as [[i x]|] eqn:E; [|done].
  intros _. apply list_find_Some in E as (Hi & -> & _). by eapply list_elem_of_lookup_2.
Qed.

Lemma url_alphabet_NoDup : NoDup url_alphabet.
Proof. apply (bool_decide_unpack _). vm_compute. done. Qed.

(** Equality of explicit lists, element by element. *)
Ltac each_elem tac := repeat (apply (f_equal2 cons); [tac|]); try reflexivity.

(** * Base 32: five bytes to eight characters and back *)

(** The eight 5-bit values of five bytes. *)
Definition b32_values (b0 b1 b2 b3 b4 : Z) : list Z :=
  [b0 / 8; (b0 mod 8) * 4 + b1 / 64; (b1 / 2) mod 32; (b1 mod 2) * 16 + b2 / 16;
   (b2 mod 16) * 2 + b3 / 128; (b3 / 4) mod 32; (b3 mod 4) * 8 + b4 / 32; b4 mod 32].

Lemma b32_encode5_values alphabet b0 b1 b2 b3 b4 :
  is_byte b0 -> is_byte b1 -> is_byte b2 -> is_byte b3 -> is_byte b4 ->
  b32_encode5 alphabet b0 b1 b2 b3 b4 = map (enc_char alphabet) (b32_values b0 b1 b2 b3 b4).
Proof.
  intros. unfold b32_encode5, b32_values. rewrite be_word32 by done.
  rewrite (Z.shiftl_mul_pow2 _ 8), (lor_add (_ * 2 ^ 8) b4 8) by dm.
  cbn [map]. rewrite !land_31, !Z.shiftr_div_pow2 by lia.
  each_elem ltac:(f_equal; dm).
Qed.

Lemma b32_pack_values vs :
  length vs = 8%nat -> Forall (fun v => 0 <= v < 32) vs ->
  exists b0 b1 b2 b3 b4, b32_pack vs 8 = [b0; b1; b2; b3; b4] /\ bytes_ok [b0; b1; b2; b3; b4]
  /\ b32_values b0 b1 b2 b3 b4 = vs.
Proof.
  intros Hlen Hr. do 9 (destruct vs as [|? vs]; try done). clear Hlen.
  repeat match goal with H : Forall _ (_ :: _) |- _ => apply Forall_cons in H as [? ?] end.
  unfold b32_pack. cbn [take map nth]. bits_arith.
  rewrite (lor_add (z * 2 ^ 3) _ 3) by dm.
  rewrite (lor_add (z0 * 2 ^ 6) (z1 * 2 ^ 1) 6) by dm.
  rewrite (lor_add _ (z2 / 2 ^ 4) 1) by dm.
  rewrite (lor_add (z2 * 2 ^ 4) (z3 / 2 ^ 1) 4) by dm.
  rewrite (lor_add (z3 * 2 ^ 7) (z4 * 2 ^ 2) 7) by dm.
  rewrite (lor_add _ (z5 / 2 ^ 3) 2) by dm.
  rewrite (lor_add (z5 * 2 ^ 5) _ 5) by dm.
  do 5 eexists. split; [done|]. split.
  - unfold bytes_ok. repeat (constructor; [apply u8_byte|]). constructor.
  - unfold b32_values. each_elem ltac:(dm).
Qed.

Lemma b32_pack_encode b0 b1 b2 b3 b4 :
  bytes_ok [b0; b1; b2; b3; b4] ->
  b32_pack (b32_values b0 b1 b2 b3 b4) 8 = [b0; b1; b2; b3; b4].
Proof.
  intros Hok. unfold bytes_ok in Hok.
  repeat match goal with H : Forall _ (_ :: _) |- _ => apply Forall_cons in H as [? ?] end.
  unfold b32_pack, b32_values. cbn [take map nth]. bits_arith.
  rewrite (lor_add (b0 / 8 * 2 ^ 3) _ 3) by dm.
  rewrite (lor_add (_ * 2 ^ 6) (_ * 2 ^ 1) 6) by dm.
  rewrite (lor_add _ (_ / 2 ^ 4) 1) by dm.
  rewrite (lor_add (_ * 2 ^ 4) (_ / 2 ^ 1) 4) by dm.
  rewrite (lor_add (_ * 2 ^ 7) (_ * 2 ^ 2) 7) by dm.
  rewrite (lor_add _ (_ / 2 ^ 3) 2) by dm.
  rewrite (lor_add (_ * 2 ^ 5) _ 5) by dm.
  each_elem ltac:(dm).
Qed.

Lemma b32_pack_length dbuf dlen :
  length (b32_pack dbuf dlen)
  = match dlen with 8 => 5 | 7 => 4 | 5 => 3 | 4 => 2 | 2 => 1 | _ => 0 end%nat.
Proof. unfold b32_pack. do 9 (destruct dlen as [|dlen]; [done|]). done. Qed.

Lemma store_length dst dsti bs dst' :
  store dst dsti bs = Some dst' -> length dst' = length dst.
Proof.
  unfold store. case_decide; [|done]. intros [= <-].
  rewrite !length_app, length_take, length_drop. lia.
Qed.

Lemma b32_padding_None olen j src :
  b32_padding olen j src = None -> j ≠ 1%nat /\ j ≠ 3%nat /\ j ≠ 6%nat.
Proof.
  unfold b32_padding. case_decide; [done|]. destruct (list_find _ _) as [[??]|]; [done|].
  case_bool_decide; [done|]. set_solver.
Qed.

(** The count of a decoder stays within its destination. *)
Lemma b32_decode_count alphabet olen dbuf n dst src m d :
  (n <= length dst)%nat ->
  b32_decode_loop alphabet olen dbuf n n dst src = Decoded m d ->
  (m <= length dst)%nat /\ length d = length dst.
Proof.
  revert dbuf n dst. induction src as [|c src IH]; intros dbuf n dst Hn H.
  - cbn in H. destruct dbuf; [|done]. by injection H as <- <-.
  - cbn [b32_decode_loop] in H. destruct (_ && _).
    + destruct (b32_padding _ _ _); [done|].
      destruct (store _ _ _) eqn:Es; [|done]. injection H as <- <-.
      split; [|by eapply store_length]. unfold store in Es. by case_decide.
    + destruct (decode_map _ _) as [v|]; [|done]. case_match; [|by eapply IH].
      destruct (store _ _ _) as [dst'|] eqn:Es; [|done].
      pose proof (store_length _ _ _ _ Es) as Hl. rewrite <- Hl. apply IH in H; [done|].
      unfold store in Es. rewrite b32_pack_length in Es. case_decide; [lia|done].
Qed.

Section base32.
Context (alphabet : list Z).
Context (alphabet_NoDup : NoDup alphabet) (alphabet_length : length alphabet = 32%nat).
Context (pad_not_in : pad_char ∉ alphabet).

Definition five_bit (v : Z) : Prop := 0 <= v < 32.

(** How many characters of a text belong to the alphabet. *)
Definition valid_count (src : list Z) : nat := length (filter (fun c => c ∈ alphabet) src).

Lemma decode_enc_five v : five_bit v -> decode_map alphabet (enc_char alphabet v) = Some v.
Proof. intros Hv. apply decode_enc_char; [done|]. rewrite alphabet_length. exact Hv. Qed.

Lemma enc_five_in v : five_bit v -> enc_char alphabet v ∈ alphabet.
Proof. intros Hv. by eapply decode_map_elem, decode_enc_five. Qed.

Lemma enc_not_pad v : five_bit v -> (enc_char alphabet v =? pad_char) = false.
Proof.
  intros Hv. apply Z.eqb_neq. intros E. apply pad_not_in. rewrite <- E. by apply enc_five_in.
Qed.

(** A full quantum fills a five-byte destination, and a second one does not fit. *)
Lemma store_first bs : length bs = 5%nat -> store (replicate 5 0) 0 bs = Some bs.
Proof.
  intros Hbs. unfold store. rewrite Hbs, decide_True by (cbn; lia). cbn. by rewrite app_nil_r.
Qed.

Lemma store_second dst dbuf j :
  length dst = 5%nat -> (2 <= j <= 8)%nat -> j ≠ 1%nat /\ j ≠ 3%nat /\ j ≠ 6%nat ->
  store dst 5 (b32_pack dbuf j) = None.
Proof.
  intros Hdst Hj Hn. unfold store. rewrite Hdst, b32_pack_length, decide_False; [done|].
  do 9 (destruct j as [|j]; [cbn; lia|]). lia.
Qed.

(** Eight valid characters decode to the five bytes they pack. *)
Lemma b32_decode_valid olen dbuf vs :
  Forall five_bit vs -> length (dbuf ++ vs) = 8%nat -> vs ≠ [] ->
  b32_decode_loop alphabet olen dbuf 0 0 (replicate 5 0) (map (enc_char alphabet) vs)
  = Decoded 5 (b32_pack (dbuf ++ vs) 8).
Proof.
  revert dbuf. induction vs as [|v vs IH]; intros dbuf Hvs Hlen Hne; [done|].
  apply Forall_cons in Hvs as [Hv Hvs]. cbn [map b32_decode_loop].
  rewrite enc_not_pad, decode_enc_five by done. cbn [andb].
  rewrite length_app in Hlen. cbn in Hlen. rewrite length_app. cbn [length].
  destruct vs as [|v' vs].
  - replace (length dbuf + 1)%nat with 8%nat by (cbn in Hlen; lia). rewrite Nat.eqb_refl.
    by rewrite store_first by apply b32_pack_length.
  - destruct (length dbuf + 1 =? 8)%nat eqn:E; [apply Nat.eqb_eq in E; cbn in Hlen; lia|].
    rewrite IH; [by rewrite <- app_assoc|done| |done].
    rewrite !length_app. cbn in *. lia.
Qed.

(** What the padding branch knows about the characters read so far. *)
Lemma padding_branch c (dbuf src : list Z) olen :
  (c =? pad_char) && (2 <=? length dbuf)%nat && (length src <? 8)%nat = true ->
  b32_padding olen (length dbuf) src = None ->
  (2 <= length dbuf)%nat
  /\ (length dbuf ≠ 1%nat /\ length dbuf ≠ 3%nat /\ length dbuf ≠ 6%nat).
Proof.
  intros Eb Ep. apply b32_padding_None in Ep. split; [|done].
  apply andb_true_iff in Eb as [Eb _]. apply andb_true_iff in Eb as [_ Eb].
  by apply Nat.leb_le.
Qed.

(** After a full quantum only the end of the input decodes. *)
Lemma b32_second_quantum olen dbuf dst src m d :
  length dst = 5%nat -> (length dbuf < 8)%nat ->
  b32_decode_loop alphabet olen dbuf 5 5 dst src = Decoded m d ->
  dbuf = [] /\ src = [] /\ m = 5%nat /\ d = dst.
Proof.
  intros Hdst. revert dbuf. induction src as [|c src IH]; intros dbuf Hdb H.
  - cbn in H. destruct dbuf; [|done]. by injection H as <- <-.
  - exfalso. cbn [b32_decode_loop] in H. destruct (_ && _) eqn:Eb.
    + destruct (b32_padding _ _ _) eqn:Ep; [done|].
      destruct (padding_branch _ _ _ _ Eb Ep). by rewrite store_second in H by (done || lia).
    + destruct (decode_map alphabet c) as [v|]; [|done].
      destruct (length (dbuf ++ [v]) =? 8)%nat eqn:E.
      * by rewrite store_second in H by (done || lia).
      * apply Nat.eqb_neq in E. rewrite length_app in E. cbn in E.
        apply IH in H as [H _]; [by destruct dbuf|rewrite length_app; cbn; lia].
Qed.

(** A decode that fills a five-byte key read exactly eight valid characters. *)
Lemma b32_decode_inv olen dbuf src d :
  (length dbuf < 8)%nat ->
  b32_decode_loop alphabet olen dbuf 0 0 (replicate 5 0) src = Decoded 5 d ->
  exists vs, src = map (enc_char alphabet) vs /\ Forall five_bit vs
  /\ length (dbuf ++ vs) = 8%nat /\ d = b32_pack (dbuf ++ vs) 8.
Proof.
  revert dbuf. induction src as [|c src IH]; intros dbuf Hdb H.
  - cbn in H. by destruct dbuf.
  - cbn [b32_decode_loop] in H. destruct (_ && _) eqn:Eb.
    + exfalso. destruct (b32_padding _ _ _) eqn:Ep; [done|].
      destruct (store _ _ _); [|done]. injection H as H _.
      rewrite b32_pack_length in H. revert H Hdb. generalize (length dbuf). intros j H Hj.
      do 8 (destruct j as [|j]; [cbn in H; lia|]). lia.
    + destruct (decode_map alphabet c) as [v|] eqn:Ev; [|done].
      apply decode_map_Some in Ev as [Hv Hc]. rewrite alphabet_length in Hv.
      destruct (length (dbuf ++ [v]) =? 8)%nat eqn:E.
      * apply Nat.eqb_eq in E. rewrite store_first in H by apply b32_pack_length.
        apply b32_second_quantum in H as (_ & -> & _ & ->); [|apply b32_pack_length|cbn; lia].
        exists [v]. cbn. rewrite Hc. split_and!; [done|by constructor|done|done].
      * apply Nat.eqb_neq in E. rewrite length_app in E. cbn in E.
        apply IH in H as (vs & -> & Hvs & Hlen & ->); [|rewrite length_app; cbn; lia].
        exists (v :: vs). cbn. rewrite Hc, <- app_assoc in *.
        split_and!; [done|by constructor|done|done].
Qed.

Lemma valid_count_cons c src v :
  decode_map alphabet c = Some v -> valid_count (c :: src) = S (valid_count src).
Proof.
  intros Hv. unfold valid_count. rewrite filter_cons_True; [done|].
  by eapply decode_map_elem.
Qed.

(** The index panic needs ten valid characters: a second quantum. *)
Lemma b32_panic_count olen dbuf dsti n dst src :
  length dst = 5%nat -> (length dbuf < 8)%nat -> dsti = 0%nat \/ dsti = 5%nat ->
  b32_decode_loop alphabet olen dbuf dsti n dst src = DecodePanic ->
  (match dsti with O => 10 | _ => 2 end <= length dbuf + valid_count src)%nat.
Proof.
  intros Hdst. revert dbuf dsti n dst Hdst.
  induction src as [|c src IH]; intros dbuf dsti n dst Hdst Hdb Hsti H.
  - cbn in H. by destruct dbuf.
  - cbn [b32_decode_loop] in H. destruct (_ && _) eqn:Eb.
    + destruct (b32_padding _ _ _) eqn:Ep; [done|].
      destruct (padding_branch _ _ _ _ Eb Ep) as [Hj _].
      destruct Hsti as [->| ->]; [|cbn; lia].
      unfold store in H. rewrite Hdst, b32_pack_length in H.
      case_decide as Hd; [done|]. exfalso. apply Hd.
      generalize (length dbuf). intros j. do 9 (destruct j as [|j]; [cbn; lia|]). cbn; lia.
    + destruct (decode_map alphabet c) as [v|] eqn:Ev; [|done].
      rewrite (valid_count_cons _ _ _ Ev).
      destruct (length (dbuf ++ [v]) =? 8)%nat eqn:E.
      * apply Nat.eqb_eq in E. rewrite length_app in E. cbn in E.
        destruct Hsti as [->| ->]; [|cbn; lia].
        destruct (store _ _ _) eqn:Es.
        -- apply IH in H; [cbn in *; lia|by erewrite store_length|cbn; lia|by right].
        -- unfold store in Es. rewrite Hdst, b32_pack_length in Es.
           case_decide; [done|lia].
      * apply Nat.eqb_neq in E. rewrite length_app in E. cbn in E.
        apply IH in H; [|done|rewrite length_app; cbn; lia|done].
        rewrite length_app in H. cbn in H. lia.
Qed.

(** Mapping a text never creates valid characters: each rune read consumes at
    least one byte and yields at most one character of an ASCII alphabet. *)
Context (alphabet_ascii : Forall (fun c => c < 128) alphabet).

Lemma valid_count_app a b : valid_count (a ++ b) = (valid_count a + valid_count b)%nat.
Proof. unfold valid_count. by rewrite filter_app, length_app. Qed.

Lemma valid_count_high l : Forall (fun c => 128 <= c) l -> valid_count l = 0%nat.
Proof.
  intros Hl. unfold valid_count. induction Hl as [|c l Hc Hl IH]; [done|].
  rewrite filter_cons_False; [done|]. intros Hin.
  rewrite Forall_forall in alphabet_ascii. apply alphabet_ascii in Hin. lia.
Qed.

Lemma valid_count_length l : (valid_count l <= length l)%nat.
Proof. apply length_filter. Qed.

Lemma lor_high a b : 128 <= a -> 0 <= b -> 128 <= Z.lor a b.
Proof.
  intros Ha Hb. enough (0 <= a <= Z.lor a b) by lia.
  apply Z.ldiff_le; [apply Z.lor_nonneg; lia|].
  apply Z.bits_inj'. intros n Hn. rewrite Z.ldiff_spec, Z.lor_spec, Z.bits_0.
  by destruct (Z.testbit a n), (Z.testbit b n).
Qed.

Lemma rune3_high r : 0 <= r -> Forall (fun c => 128 <= c) (rune3 r).
Proof.
  intros Hr. unfold rune3.
  repeat constructor; apply lor_high; try lia; rewrite ?land_63;
    try (apply Z.mod_pos_bound; lia); apply Z.shiftr_nonneg; lia.
Qed.

Lemma AppendRune_valid r : 0 <= r -> (valid_count (AppendRune r) <= 1)%nat.
Proof.
  intros Hr. unfold AppendRune.
  destruct (r <? 128); [apply valid_count_length|].
  rewrite valid_count_high; [lia|].
  repeat case_match; try (apply rune3_high; unfold RuneError; lia);
    repeat constructor; apply lor_high; try lia; rewrite ?land_63;
    try (apply Z.mod_pos_bound; lia); apply Z.shiftr_nonneg; lia.
Qed.

Lemma bytes_Map_valid mapping k s :
  (valid_count (bytes_Map_from mapping k s) <= length s)%nat.
Proof.
  revert k. induction s as [|c s IH]; intros k; [cbn; lia|].
  cbn [bytes_Map_from]. destruct k as [|k]; [|specialize (IH k); cbn; lia].
  destruct (DecodeRune (c :: s)) as [r wid]. rewrite valid_count_app.
  specialize (IH (wid - 1)%nat). cbn [length].
  destruct (0 <=? mapping r) eqn:E; [|cbn; lia].
  apply Z.leb_le, AppendRune_valid in E. lia.
Qed.

Lemma valid_count_filter P `{forall c, Decision (P c)} src :
  (valid_count (filter P src) <= valid_count src)%nat.
Proof.
  unfold valid_count. induction src as [|c src IH]; [done|].
  change (c :: src) with ([c] ++ src).
  rewrite !filter_app, !length_app. apply Nat.add_le_mono; [|exact IH].
  rewrite (filter_cons P). case_decide; [done|]. cbn. lia.
Qed.
End base32.

(** On ASCII text a map is a plain character-wise map. *)
Lemma bytes_Map_ascii mapping s :
  Forall (fun c => 0 <= c < 128) s ->
  bytes_Map mapping s
  = flat_map (fun c => if 0 <=? mapping c then AppendRune (mapping c) else []) s.
Proof.
  unfold bytes_Map. induction 1 as [|c s Hc Hs IH]; [done|].
  cbn [bytes_Map_from DecodeRune flat_map]. rewrite (proj2 (Z.ltb_lt c RuneSelf)).
  - cbn [Nat.sub]. by rewrite IH.
  - unfold RuneSelf. lia.
Qed.

(** * Base 64: three bytes to four characters and back *)

Definition b64_values (a b c : Z) : list Z :=
  [a / 4; (a mod 4) * 16 + b / 16; (b mod 16) * 4 + c / 64; c mod 64].

Definition six_bit (v : Z) : Prop := 0 <= v < 64.

Lemma b64_quad_values a b c :
  is_byte a -> is_byte b -> is_byte c ->
  b64_quad a b c = map (enc_char url_alphabet) (b64_values a b c).
Proof.
  intros. unfold b64_quad, b64_values. rewrite be_word24 by done. cbn [map].
  rewrite !land_63, !Z.shiftr_div_pow2 by lia. each_elem ltac:(f_equal; dm).
Qed.

Lemma b64_values_range a b c :
  is_byte a -> is_byte b -> is_byte c -> Forall six_bit (b64_values a b c).
Proof. intros. unfold b64_values, six_bit. repeat constructor; dm. Qed.

Lemma decode_enc_six v : six_bit v -> decode_map url_alphabet (enc_char url_alphabet v) = Some v.
Proof. intros Hv. apply decode_enc_char; [apply url_alphabet_NoDup|exact Hv]. Qed.

Lemma b64_pack_word v0 v1 v2 v3 n :
  Forall six_bit [v0; v1; v2; v3] ->
  b64_pack [v0; v1; v2; v3] n
  = let val := v0 * 262144 + v1 * 4096 + v2 * 64 + v3 in
    take (n - 1) [u8 (val / 65536); u8 (val / 256); u8 val].
Proof.
  intros Hv. unfold six_bit in Hv.
  repeat match goal with H : Forall _ (_ :: _) |- _ => apply Forall_cons in H as [? ?] end.
  unfold b64_pack. cbn [nth]. bits_arith.
  rewrite (lor_add (v0 * 2 ^ 18) _ 18) by dm.
  rewrite (lor_add (v0 * 2 ^ 18 + v1 * 2 ^ 12) _ 12) by dm.
  rewrite (lor_add _ v3 6) by dm. done.
Qed.

Lemma b64_pack_quad a b c :
  is_byte a -> is_byte b -> is_byte c -> b64_pack (b64_values a b c) 4 = [a; b; c].
Proof.
  intros Ha Hb Hc. pose proof (b64_values_range a b c Ha Hb Hc) as Hr.
  unfold b64_values in *. rewrite b64_pack_word by done. cbn [take Nat.sub].
  each_elem ltac:(dm).
Qed.

(** A short quantum decodes as if it were completed with zeros. *)
Lemma b64_pack_short2 v0 v1 : b64_pack [v0; v1] 2 = take 1 (b64_pack [v0; v1; 0; 0] 4).
Proof. done. Qed.

Lemma b64_pack_short3 v0 v1 v2 : b64_pack [v0; v1; v2] 3 = take 2 (b64_pack [v0; v1; v2; 0] 4).
Proof. done. Qed.

(** Reading valid characters fills the quantum. *)
Lemma b64_loop_valid si dbuf out vs rest :
  Forall six_bit vs -> (length (dbuf ++ vs) < 4)%nat ->
  b64_decode_loop si dbuf out (map (enc_char url_alphabet) vs ++ rest)
  = b64_decode_loop (si + Z.of_nat (length vs)) (dbuf ++ vs) out rest.
Proof.
  intros Hvs. revert si dbuf. induction Hvs as [|v vs Hv Hvs IH]; intros si dbuf Hlen.
  - cbn. rewrite app_nil_r. f_equal. lia.
  - cbn [map app b64_decode_loop]. rewrite decode_enc_six by done.
    rewrite length_app in Hlen |- *. cbn in Hlen. cbn [length].
    destruct (length dbuf + 1 =? 4)%nat eqn:E; [apply Nat.eqb_eq in E; lia|].
    rewrite IH by (rewrite !length_app; cbn; lia). rewrite <- app_assoc. cbn. f_equal. lia.
Qed.

Lemma b64_loop_quad si out a b c rest :
  is_byte a -> is_byte b -> is_byte c ->
  b64_decode_loop si [] out (b64_quad a b c ++ rest)
  = b64_decode_loop (si + 4) [] (out ++ [a; b; c]) rest.
Proof.
  intros Ha Hb Hc. rewrite b64_quad_values by done.
  rewrite <- (b64_pack_quad a b c) by done.
  pose proof (b64_values_range a b c Ha Hb Hc) as Hr. unfold b64_values in *.
  set (v0 := a / 4) in *. set (v1 := _ + b / 16) in *. set (v2 := _ + c / 64) in *.
  set (v3 := c mod 64) in *.
  change (map (enc_char url_alphabet) [v0; v1; v2; v3] ++ rest)
    with (map (enc_char url_alphabet) [v0; v1; v2] ++ enc_char url_alphabet v3 :: rest).
  repeat match goal with H : Forall _ (_ :: _) |- _ => apply Forall_cons in H as [? ?] end.
  rewrite b64_loop_valid; [|by auto using List.Forall_nil, List.Forall_cons|cbn; lia].
  cbn [b64_decode_loop app length]. rewrite decode_enc_six by done. cbn [app length Nat.eqb].
  f_equal. lia.
Qed.

(** The two forms of a padded end. *)
Lemma b64_loop_tail1 si out a :
  is_byte a ->
  b64_decode_loop si [] out (take 2 (b64_quad a 0 0) ++ [pad_char; pad_char]) = Ok (out ++ [a]).
Proof.
  intros Ha. assert (is_byte 0) as H0 by (unfold is_byte; lia).
  rewrite b64_quad_values by done.
  pose proof (b64_values_range a 0 0 Ha H0 H0) as Hr.
  pose proof (b64_pack_quad a 0 0 Ha H0 H0) as Hp. unfold b64_values in *.
  set (v0 := a / 4) in *. set (v1 := _ + 0 / 16) in *.
  change (take 2 (map (enc_char url_alphabet) [v0; v1; _; _]))
    with (map (enc_char url_alphabet) [v0; v1]).
  repeat match goal with H : Forall _ (_ :: _) |- _ => apply Forall_cons in H as [? ?] end.
  rewrite b64_loop_valid; [|by auto using List.Forall_nil, List.Forall_cons|cbn; lia].
  change ([] ++ [v0; v1]) with [v0; v1]. cbn -[b64_pack].
  change (b64_pack [v0; v1; 0; 0] 4 = [a; 0; 0]) in Hp. by rewrite b64_pack_short2, Hp.
Qed.

Lemma b64_loop_tail2 si out a b :
  is_byte a -> is_byte b ->
  b64_decode_loop si [] out (take 3 (b64_quad a b 0) ++ [pad_char]) = Ok (out ++ [a; b]).
Proof.
  intros Ha Hb. assert (is_byte 0) as H0 by (unfold is_byte; lia).
  rewrite b64_quad_values by done.
  pose proof (b64_values_range a b 0 Ha Hb H0) as Hr.
  pose proof (b64_pack_quad a b 0 Ha Hb H0) as Hp. unfold b64_values in *.
  set (v0 := a / 4) in *. set (v1 := _ + b / 16) in *. set (v2 := _ + 0 / 64) in *.
  change (take 3 (map (enc_char url_alphabet) [v0; v1; v2; _]))
    with (map (enc_char url_alphabet) [v0; v1; v2]).
  repeat match goal with H : Forall _ (_ :: _) |- _ => apply Forall_cons in H as [? ?] end.
  rewrite b64_loop_valid; [|by auto using List.Forall_nil, List.Forall_cons|cbn; lia].
  change ([] ++ [v0; v1; v2]) with [v0; v1; v2]. cbn -[b64_pack].
  change (b64_pack [v0; v1; v2; 0] 4 = [a; b; 0]) in Hp. by rewrite b64_pack_short3, Hp.
Qed.

Lemma b64_loop_encode src : bytes_ok src ->
  forall si out, b64_decode_loop si [] out (b64_encode src) = Ok (out ++ src).
Proof.
  assert (forall n src, (length src <= n)%nat -> bytes_ok src ->
    forall si out, b64_decode_loop si [] out (b64_encode src) = Ok (out ++ src)) as H;
    [|by eauto].
  assert (is_byte 0) as H0 by (unfold is_byte; lia).
  induction n as [|n IH]; intros [|a [|b [|c l]]] Hlen Hok si out; unfold bytes_ok in Hok;
    repeat match goal with H : Forall _ (_ :: _) |- _ => apply Forall_cons in H as [? ?] end;
    cbn in Hlen; try lia; cbn [b64_encode].
  - cbn. by rewrite app_nil_r.
  - cbn. by rewrite app_nil_r.
  - by apply b64_loop_tail1.
  - by apply b64_loop_tail2.
  - rewrite b64_loop_quad by done. rewrite IH by (done || lia). by rewrite <- app_assoc.
Qed.

(** Decoding inverts encoding. *)
Lemma b64_decode_encode src : bytes_ok src -> b64_decode (b64_encode src) = Ok src.
Proof. intros Hok. unfold b64_decode. by rewrite b64_loop_encode. Qed.

(** The decoded bytes fit in a destination of [DecodedLen] bytes: the library
    never writes past the buffer the caller allocates. *)
Definition DecodedLen (n : nat) : nat := (n / 4 * 3)%nat.

Lemma b64_pack_length dbuf n : (n <= 4)%nat -> length (b64_pack dbuf n) = (n - 1)%nat.
Proof. intros Hn. unfold b64_pack. rewrite length_take. cbn [length]. lia. Qed.

Lemma b64_decode_quanta si dbuf out src d :
  (length dbuf < 4)%nat -> b64_decode_loop si dbuf out src = Ok d ->
  exists q, (length d <= length out + 3 * q /\ 4 * q <= length dbuf + length src)%nat.
Proof.
  revert si dbuf out. induction src as [|c src IH]; intros si dbuf out Hdb H.
  - cbn in H. destruct dbuf; [|done]. injection H as <-. exists 0%nat. lia.
  - cbn [b64_decode_loop] in H. destruct (decode_map _ _) as [v|].
    + destruct (length (dbuf ++ [v]) =? 4)%nat eqn:E.
      * apply Nat.eqb_eq in E. rewrite length_app in E. cbn in E.
        apply IH in H as (q & H1 & H2); [|cbn; lia].
        rewrite length_app, b64_pack_length in H1 by lia. exists (S q). cbn in *. lia.
      * apply Nat.eqb_neq in E. rewrite length_app in E. cbn in E.
        apply IH in H as (q & H1 & H2); rewrite ?length_app in *; cbn in *; [|lia].
        exists q. lia.
    + destruct (is_newline c).
      { apply IH in H as (q & H1 & H2); [|done]. exists q. cbn. lia. }
      destruct (c =? pad_char); [|done].
      destruct (b64_padding _ _ _) eqn:Ep; [done|]. injection H as <-.
      rewrite length_app, b64_pack_length by lia.
      unfold b64_padding in Ep. case_decide as Hj; [done|]. exists 1%nat.
      case_decide as Hj2; [|cbn; lia]. rewrite Hj2 in *.
      destruct src as [|c' src']; [done|]. cbn. lia.
Qed.

Lemma b64_decode_length src d :
  b64_decode src = Ok d -> (length d <= DecodedLen (length src))%nat.
Proof.
  intros H. apply b64_decode_quanta in H as (q & H1 & H2); [|cbn; lia].
  unfold DecodedLen. cbn [length] in *. assert (q <= length src / 4)%nat; [|lia].
  apply Nat.div_le_lower_bound; lia.
Qed.

(** What is decoded are bytes. *)
Lemma b64_pack_bytes dbuf n : bytes_ok (b64_pack dbuf n).
Proof. unfold b64_pack, bytes_ok. apply Forall_take. repeat (constructor; [apply u8_byte|]). constructor. Qed.

Lemma b64_decode_bytes src d : b64_decode src = Ok d -> bytes_ok d.
Proof.
  unfold b64_decode. assert (forall si dbuf out, bytes_ok out -> b64_decode_loop si dbuf out src = Ok d -> bytes_ok d) as H;
    [|apply H; constructor].
  induction src as [|c src IH]; intros si dbuf out Ho; cbn [b64_decode_loop].
  - destruct dbuf; [by intros [= <-]|done].
  - destruct (decode_map _ _) as [v|].
    + case_match; [|by apply IH]. apply IH. apply Forall_app. split; [done|apply b64_pack_bytes].
    + destruct (is_newline c); [by apply IH|]. destruct (c =? pad_char); [|done].
      destruct (b64_padding _ _ _); [done|]. intros [= <-]. apply Forall_app. split; [done|apply b64_pack_bytes].
Qed.

(** ** Hexadecimal *)

Lemma hex_digit d : 0 <= d < 16 -> enc_char hex_digits d = if d <? 10 then 48 + d else 87 + d.
Proof.
  intros Hd. assert (d ∈ (Z.of_nat <$> seq 0 16)) as Hi.
  { apply list_elem_of_fmap. exists (Z.to_nat d). rewrite elem_of_seq. lia. }
  assert (Forall (fun d => enc_char hex_digits d = if d <? 10 then 48 + d else 87 + d) (Z.of_nat <$> seq 0 16)) as Hf
    by (by repeat constructor).
  rewrite Forall_forall in Hf. by apply Hf.
Qed.

(** The two digits of a byte. *)
Lemma hex_pair c : is_byte c -> exists h l, 0 <= h < 16 /\ 0 <= l < 16 /\ c = 16 * h + l /\
  forall b, hex_encode (c :: b) = enc_char hex_digits h :: enc_char hex_digits l :: hex_encode b.
Proof.
  unfold is_byte. intros Hc. exists (c / 16), (c mod 16).
  split; [split; [apply Z.div_pos; lia|apply Z.div_lt_upper_bound; lia]|]. split; [apply Z.mod_pos_bound; lia|].
  split; [by apply Z.div_mod|]. intros b. unfold hex_encode. cbn [flat_map app]. by rewrite land_15, Z.shiftr_div_pow2.
Qed.

Lemma hex_encode_inj b : forall b', bytes_ok b -> bytes_ok b' -> hex_encode b = hex_encode b' -> b = b'.
Proof.
  induction b as [|c b IH]; intros [|c' b'] Hb Hb' E; try done. apply Forall_cons in Hb as [Hc Hb]. apply Forall_cons in Hb' as [Hc' Hb'].
  apply hex_pair in Hc as (h & l & Hh & Hl & -> & Ec), Hc' as (h' & l' & Hh' & Hl' & -> & Ec').
  rewrite Ec, Ec', !hex_digit in E by done. injection E as E1 E2 E. apply IH in E as ->; [|done..]. f_equal.
  destruct (Z.ltb_spec h 10), (Z.ltb_spec h' 10), (Z.ltb_spec l 10), (Z.ltb_spec l' 10); lia.
Qed.

Lemma hex_encode_chars b : bytes_ok b -> Forall (fun c => 48 <= c <= 57 \/ 97 <= c <= 102) (hex_encode b).
Proof.
  induction 1 as [|c b Hc Hb IH]; [constructor|]. apply hex_pair in Hc as (h & l & Hh & Hl & _ & ->).
  assert (forall d, 0 <= d < 16 -> 48 <= enc_char hex_digits d <= 57 \/ 97 <= enc_char hex_digits d <= 102) as Hd
    by (intros d Hd; rewrite hex_digit by done; destruct (Z.ltb_spec d 10); lia).
  constructor; [by apply Hd|]. constructor; [by apply Hd|exact IH].
Qed.

Lemma hex_encode_length b : length (hex_encode b) = (2 * length b)%nat.
Proof. induction b as [|c b IH]; [done|]. unfold hex_encode in *. cbn [flat_map app length]. rewrite IH. lia. Qed.
