(* ===== verification/Sha256.v ===== *)
(** SHA-256 and HMAC-SHA-256, as the tokens use them (crypto/sha256 and
    crypto/hmac of the Go standard library, FIPS 180-4 and RFC 2104).

    Everything is executable: the test vectors at the end are evaluated by the
    kernel.  The only facts the tokens rely on are that a tag is 32 bytes long
    and that comparison is equality. *)
From S2P Require Import Prelude Text.
Local Open Scope Z_scope.

(** * The compression function *)

Definition rotr (x n : Z) : Z := Z.lor (Z.shiftr x n) (u32 (Z.shiftl x (32 - n))).
Definition ch (x y z : Z) : Z := Z.lxor (Z.land x y) (Z.land (Z.ldiff (2 ^ 32 - 1) x) z).
Definition maj (x y z : Z) : Z := Z.lxor (Z.lxor (Z.land x y) (Z.land x z)) (Z.land y z).
Definition bsig0 (x : Z) : Z := Z.lxor (Z.lxor (rotr x 2) (rotr x 13)) (rotr x 22).
Definition bsig1 (x : Z) : Z := Z.lxor (Z.lxor (rotr x 6) (rotr x 11)) (rotr x 25).
Definition ssig0 (x : Z) : Z := Z.lxor (Z.lxor (rotr x 7) (rotr x 18)) (Z.shiftr x 3).
Definition ssig1 (x : Z) : Z := Z.lxor (Z.lxor (rotr x 17) (rotr x 19)) (Z.shiftr x 10).

Definition sha_K : list Z :=
  [1116352408; 1899447441; 3049323471; 3921009573; 961987163; 1508970993;
   2453635748; 2870763221; 3624381080; 310598401; 607225278; 1426881987;
   1925078388; 2162078206; 2614888103; 3248222580; 3835390401; 4022224774;
   264347078; 604807628; 770255983; 1249150122; 1555081692; 1996064986;
   2554220882; 2821834349; 2952996808; 3210313671; 3336571891; 3584528711;
   113926993; 338241895; 666307205; 773529912; 1294757372; 1396182291;
   1695183700; 1986661051; 2177026350; 2456956037; 2730485921; 2820302411;
   3259730800; 3345764771; 3516065817; 3600352804; 4094571909; 275423344;
   430227734; 506948616; 659060556; 883997877; 958139571; 1322822218;
   1537002063; 1747873779; 1955562222; 2024104815; 2227730452; 2361852424;
   2428436474; 2756734187; 3204031479; 3329325298].

Definition sha_H0 : list Z := [1779033703; 3144134277; 1013904242; 2773480762; 1359893119; 2600822924; 528734635; 1541459225].

(** Big-endian words. *)
Definition be32 (z : Z) : list Z :=
  [u8 (Z.shiftr z 24); u8 (Z.shiftr z 16); u8 (Z.shiftr z 8); u8 z].

Fixpoint words_of (bs : list Z) : list Z :=
  match bs with
  | a :: b :: c :: d :: bs' =>
      Z.lor (Z.lor (Z.lor (Z.shiftl a 24) (Z.shiftl b 16)) (Z.shiftl c 8)) d :: words_of bs'
  | _ => []
  end.

(** The message schedule: the last sixteen words, most recent first. *)
Fixpoint schedule (n : nat) (ws : list Z) : list Z :=
  match n with
  | O => ws
  | S n' =>
      let w i := nth i ws 0 in
      schedule n' (u32 (ssig1 (w 1%nat) + w 6%nat + ssig0 (w 14%nat) + w 15%nat) :: ws)
  end.

Definition sha_round (st : list Z) (kw : Z * Z) : list Z :=
  match st with
  | [a; b; c; d; e; f; g; h] =>
      let t1 := h + bsig1 e + ch e f g + kw.1 + kw.2 in
      let t2 := bsig0 a + maj a b c in
      [u32 (t1 + t2); a; b; c; u32 (d + t1); e; f; g]
  | _ => st
  end.

Definition sha_block (H : list Z) (block : list Z) : list Z :=
  let ws := rev (schedule 48 (rev (words_of block))) in
  zip_with (fun a b => u32 (a + b)) H (fold_left sha_round (zip sha_K ws) H).

(** * Padding and the hash *)

Definition sha_pad (msg : list Z) : list Z :=
  let len := Z.of_nat (length msg) in
  let zeros := Z.to_nat ((55 - len) mod 64) in
  let bits := u64 (len * 8) in
  msg ++ [128] ++ replicate zeros 0 ++ be32 (Z.shiftr bits 32) ++ be32 (u32 bits).

Fixpoint blocks (n : nat) (msg : list Z) : list (list Z) :=
  match n with
  | O => []
  | S n' => take 64 msg :: blocks n' (drop 64 msg)
  end.

(** [sha256.Sum256] *)
Definition sha256 (msg : list Z) : list Z :=
  let p := sha_pad msg in
  flat_map be32 (fold_left sha_block (blocks (length p / 64) p) sha_H0).

(** [sha256.Size] and [sha256.BlockSize] *)
Definition sha256_Size : nat := 32.
Definition sha256_BlockSize : nat := 64.

(** * HMAC *)

Definition hmac_key (key : list Z) : list Z :=
  let k := if (sha256_BlockSize <? length key)%nat then sha256 key else key in
  k ++ replicate (sha256_BlockSize - length k) 0.

(** [hmac.New(sha256.New, key)], one [Write(msg)] and [Sum(nil)]. *)
Definition hmac_sha256 (key msg : list Z) : list Z :=
  let k := hmac_key key in
  sha256 (map (Z.lxor 92) k ++ sha256 (map (Z.lxor 54) k ++ msg)).

(** [hmac.Equal]: [subtle.ConstantTimeCompare] accumulates the differences. *)
Definition ConstantTimeCompare (x y : list Z) : Z :=
  if decide (length x = length y)
  then if fold_left Z.lor (zip_with Z.lxor x y) 0 =? 0 then 1 else 0
  else 0.

Definition hmac_Equal (mac1 mac2 : list Z) : bool := ConstantTimeCompare mac1 mac2 =? 1.

(** * Lemmas *)

Lemma be32_bytes z : bytes_ok (be32 z).
Proof. unfold bytes_ok, be32. repeat (constructor; [apply u8_byte|]). constructor. Qed.

Lemma sha_round_length st kw : length (sha_round st kw) = length st.
Proof. do 9 (destruct st as [|? st]; [done|]). done. Qed.

Lemma sha_block_length H block : length (sha_block H block) = length H.
Proof.
  unfold sha_block. rewrite length_zip_with.
  generalize (zip sha_K (rev (schedule 48 (rev (words_of block))))). intros l.
  assert (forall st, length (fold_left sha_round l st) = length st) as ->; [|lia].
  induction l as [|x l IH]; intros st; [done|]. cbn. by rewrite IH, sha_round_length.
Qed.

Lemma sha256_length msg : length (sha256 msg) = sha256_Size.
Proof.
  unfold sha256. set (bs := blocks _ _). clearbody bs.
  assert (forall H, length (flat_map be32 (fold_left sha_block bs H)) = (4 * length H)%nat) as E.
  { induction bs as [|b bs IH]; intros H; cbn [fold_left].
    - induction H as [|h H IH]; [done|]. cbn. rewrite IH. lia.
    - by rewrite IH, sha_block_length. }
  rewrite E. done.
Qed.

Lemma sha256_bytes msg : bytes_ok (sha256 msg).
Proof.
  unfold sha256. set (ws := fold_left _ _ _). clearbody ws.
  induction ws as [|w ws IH]; cbn; [constructor|].
  apply Forall_app_2 with (l1 := be32 w); [apply be32_bytes|exact IH].
Qed.

Lemma hmac_length key msg : length (hmac_sha256 key msg) = sha256_Size.
Proof. apply sha256_length. Qed.

Lemma hmac_bytes key msg : bytes_ok (hmac_sha256 key msg).
Proof. apply sha256_bytes. Qed.

(** The accumulator is zero exactly when no position differs. *)
Lemma fold_lor_zero l a : fold_left Z.lor l a = 0 <-> a = 0 /\ Forall (fun z => z = 0) l.
Proof.
  revert a. induction l as [|x l IH]; intros a; cbn.
  - split; [|tauto]. intros ->. split; [done|constructor].
  - rewrite IH, Forall_cons. split.
    + intros [Hz Hl]. apply Z.lor_eq_0_iff in Hz. tauto.
    + intros (-> & -> & Hl). done.
Qed.

Lemma hmac_Equal_spec x y : hmac_Equal x y = true <-> x = y.
Proof.
  unfold hmac_Equal, ConstantTimeCompare. rewrite Z.eqb_eq. split.
  - case_decide as Hlen; [|done]. case_match eqn:E; [intros _|done].
    apply Z.eqb_eq, fold_lor_zero in E as [_ E]. revert y Hlen E.
    induction x as [|a x IH]; intros [|b y] Hlen E; try done.
    cbn in E. apply Forall_cons in E as [E1 E2]. apply Z.lxor_eq in E1 as ->.
    f_equal. apply IH; [by injection Hlen|done].
  - intros <-. rewrite decide_True by done. rewrite (proj2 (Z.eqb_eq _ _)); [done|].
    apply fold_lor_zero. split; [done|]. induction x as [|a x IH]; cbn; constructor; [|done].
    apply Z.lxor_nilpotent.
Qed.

(** * Test vectors *)

Example sha256_abc :
  hex_encode (sha256 (bytes_of_string "abc"))
  = bytes_of_string "ba7816bf8f01cfea414140de5dae2223b00361a396177a9cb410ff61f20015ad".
Proof. vm_compute. reflexivity. Qed.

(** Two blocks: the length no longer fits after the padding byte. *)
Example sha256_two_blocks :
  hex_encode (sha256 (replicate 56 97))
  = bytes_of_string "b35439a4ac6f0948b6d6f9e3c6af0f5f590ce20f1bde7090ef7970686ec6738a".
Proof. vm_compute. reflexivity. Qed.

Example hmac_fox :
  hex_encode (hmac_sha256 (bytes_of_string "key")
            (bytes_of_string "The quick brown fox jumps over the lazy dog"))
  = bytes_of_string "f7bc83f430538424b13298e6aa6fb143ef4d59a14946175997479dbc2d1a3cd8".
Proof. vm_compute. reflexivity. Qed.
