(* ===== verification/Auth.v ===== *)
(** Game keys and tokens: [internal/registar/auth/key.go] and [token.go].

    A [Key] is an array of five bytes, written as eight base32 characters with
    a dash in the middle; parsing folds the spellings people confuse.  A
    [Token] is a key followed by its HMAC-SHA256 under the server's secret. *)
From S2P Require Import Prelude Text Sha256.
Local Open Scope Z_scope.

(** * Keys *)

Definition KeySize : nat := 5.

(** [type Key [KeySize]byte]: a list of [KeySize] bytes. *)
Abbreviation Key := (list Z).
Definition Key_wf (k : Key) : Prop := length k = KeySize /\ bytes_ok k.
Definition zero_key : Key := replicate KeySize 0.

(** The errors of the package, and those of the decoders it calls. *)
Inductive error :=
| invalidLengthError (n : Z)
| ErrInvalidKeyFormat
| CorruptInputError (off : Z)
| InvalidTokenSize (n : Z)
| UnableToScan.

Definition encoding : list Z := bytes_of_string "0123456789ABCDEFGHJKMNPQRSTVWXYZ".

(** [unicode.ToUpper]: [upper] is its table above ASCII; nothing is assumed of it. *)
Definition ToUpper (upper : Z -> Z) (r : Z) : Z :=
  if r <? 128 then (if in_range 97 122 r then r - 32 else r) else upper r.

(** [crocfordMap] *)
Definition crocfordMap (upper : Z -> Z) (r : Z) : Z :=
  if (r =? 45) || (r =? 95) then -1                              (* '-' '_' *)
  else if (r =? 48) || (r =? 111) || (r =? 79) then 48           (* '0' 'o' 'O' *)
  else if (r =? 49) || (r =? 108) || (r =? 76) then 49           (* '1' 'l' 'L' *)
  else ToUpper upper r.

(** [Key.UnmarshalBinary] *)
Definition UnmarshalBinary (data : list Z) : result error Key :=
  if decide (length data ≠ KeySize) then Err (invalidLengthError (Z.of_nat (length data)))
  else Ok (go_copy zero_key data).

(** [Key.UnmarshalText]: the key it stores, or its error. *)
Definition UnmarshalText (upper : Z -> Z) (text : list Z) : outcome (result error Key) :=
  let parse :=
    let text := bytes_Map (crocfordMap upper) text in
    match b32_Decode encoding (replicate KeySize 0) text with
    | DecodePanic => Panic
    | Corrupt off => Ret (Err (CorruptInputError off))
    | Decoded n decoded => Ret (UnmarshalBinary (take n decoded))
    end in
  match length text with
  | 8%nat => parse
  | 9%nat =>
      c ← go_get text 4;
      if decide (c ≠ 45) then Ret (Err ErrInvalidKeyFormat) else parse
  | _ => Ret (Err (invalidLengthError (Z.of_nat (length text))))
  end.

(** [encoding.Encode(encoded, k[:])] *)
Definition encode_key (k : Key) : list Z :=
  match k with
  | [b0; b1; b2; b3; b4] => b32_encode5 encoding b0 b1 b2 b3 b4
  | _ => []
  end.

(** [Key.MarshalText] *)
Definition MarshalText (k : Key) : list Z :=
  let encoded := encode_key k in
  take 4 encoded ++ [45] ++ drop 4 encoded.

(** [Key.String] *)
Definition Key_String (k : Key) : list Z := MarshalText k.

(** [ParseKey] *)
Definition ParseKey (upper : Z -> Z) (text : list Z) : outcome (result error Key) :=
  UnmarshalText upper text.

(** [Key.MarshalBinary]: a nil slice for the zero key. *)
Definition MarshalBinary (k : Key) : list Z := if decide (k = zero_key) then [] else k.

(** The dynamic types [Key.Scan] distinguishes. *)
Inductive sql_value := SqlNil | SqlString (s : list Z) | SqlBytes (b : list Z) | SqlOther.

(** [Key.Scan] *)
Definition Scan (upper : Z -> Z) (k : Key) (value : sql_value) : outcome (result error Key) :=
  match value with
  | SqlNil => Ret (Ok k)
  | SqlString s => UnmarshalText upper s
  | SqlBytes b => Ret (UnmarshalBinary b)
  | SqlOther => Ret (Err UnableToScan)
  end.

(** [Key.Value] *)
Definition Value (k : Key) : sql_value := SqlString (Key_String k).

(** [NewKey], for what [rand.Read(key[:])] returns. *)
Definition NewKey (read : result unit (list Z)) : outcome Key :=
  match read with
  | Ok rnd => Ret (go_copy zero_key rnd)
  | Err _ => Panic
  end.

(** * Tokens *)

Definition TokenSize : nat := (KeySize + sha256_Size)%nat.

(** [type Token [TokenSize]byte] *)
Abbreviation Token := (list Z).
Definition Token_wf (t : Token) : Prop := length t = TokenSize /\ bytes_ok t.

(** [Token.Key] *)
Definition Token_Key (t : Token) : Key := go_copy zero_key (take KeySize t).

(** [Token.String] and [Token.MarshalText] *)
Definition Token_String (t : Token) : list Z := b64_encode t.

(** [Token.UnmarshalText] *)
Definition Token_UnmarshalText (text : list Z) : result error Token :=
  match b64_decode text with
  | Err off => Err (CorruptInputError off)
  | Ok out =>
      let decoded := go_copy (replicate (DecodedLen (length text)) 0) out in
      if decide (length out ≠ TokenSize) then Err (InvalidTokenSize (Z.of_nat (length text)))
      else Ok (go_copy (replicate TokenSize 0) decoded)
  end.

(** [ParseToken] *)
Definition ParseToken (text : list Z) : result error Token := Token_UnmarshalText text.

(** [NewToken]: [h.Sum(token[:KeySize])] appends to a slice of the array, whose
    capacity makes the append write the tag into the array itself. *)
Definition NewToken (key : Key) (secret : list Z) : Token :=
  let token := replicate TokenSize 0 in
  let token := go_copy (take KeySize token) key ++ drop KeySize token in
  let tag := hmac_sha256 secret (take KeySize token) in
  (go_append_array token KeySize tag).1.

(** [VerifyToken] *)
Definition VerifyToken (secret : list Z) (token : Token) : bool :=
  let expected := hmac_sha256 secret (take KeySize token) in
  hmac_Equal (drop KeySize token) expected.

(** * Lemmas on the alphabet *)

Lemma encoding_NoDup : NoDup encoding.
Proof. apply (bool_decide_unpack _). by vm_compute. Qed.

Lemma encoding_length : length encoding = 32%nat.
Proof. done. Qed.

Lemma encoding_pad : pad_char ∉ encoding.
Proof. apply (bool_decide_unpack _). by vm_compute. Qed.

Lemma encoding_ascii : Forall (fun c => c < 128) encoding.
Proof. apply (bool_decide_unpack _). by vm_compute. Qed.

(** The characters of the alphabet are digits and capital letters. *)
Lemma encoding_chars upper :
  Forall (fun c => 0 <= c < 128 /\ is_newline c = false /\ crocfordMap upper c = c
                   /\ (0 <=? c) = true /\ (c <? 128) = true) encoding.
Proof. repeat (constructor; [done|]). constructor. Qed.

Lemma encode_key_values k :
  Key_wf k -> exists vs, encode_key k = map (enc_char encoding) vs
  /\ Forall five_bit vs /\ length vs = 8%nat /\ b32_pack vs 8 = k.
Proof.
  intros [Hlen Hok]. do 6 (destruct k as [|? k]; try done). clear Hlen.
  pose proof (b32_pack_encode _ _ _ _ _ Hok) as Hp. unfold bytes_ok in Hok.
  repeat match goal with H : Forall _ (_ :: _) |- _ => apply Forall_cons in H as [? ?] end.
  eexists. split; [by apply b32_encode5_values|]. split_and!; [|done|done].
  unfold b32_values, five_bit. repeat constructor; dm.
Qed.

Lemma encode_key_in k c : Key_wf k -> c ∈ encode_key k -> c ∈ encoding.
Proof.
  intros Hk. destruct (encode_key_values k Hk) as (vs & -> & Hvs & _).
  intros (v & -> & Hv)%list_elem_of_fmap. rewrite Forall_forall in Hvs.
  apply enc_five_in; [apply encoding_NoDup|apply encoding_length|by apply Hvs].
Qed.

Lemma encode_key_length k : Key_wf k -> length (encode_key k) = 8%nat.
Proof.
  intros Hk. destruct (encode_key_values k Hk) as (vs & -> & _ & Hl & _).
  by rewrite length_map.
Qed.

(** A text normalises to its characters without dashes, folded to capitals. *)
Definition normalize (upper : Z -> Z) (text : list Z) : list Z :=
  filter (fun c => is_newline c = false) (bytes_Map (crocfordMap upper) text).

Lemma normalize_canonical upper l :
  Forall (fun c => c ∈ encoding \/ c = 45) l ->
  normalize upper l = filter (fun c => c ≠ 45) l.
Proof.
  intros Hl. pose proof (encoding_chars upper) as He. rewrite Forall_forall in He.
  unfold normalize. rewrite bytes_Map_ascii.
  - induction Hl as [|c l [Hc| ->] Hl IH]; [done| |].
    + destruct (He c Hc) as (Hr & Hn & Hm & Hp & Ha). cbn [flat_map].
      assert (AppendRune c = [c]) as Happ by (unfold AppendRune; by rewrite Ha).
      rewrite Hm, Hp, Happ. cbn [app].
      rewrite filter_cons_True by done. rewrite filter_cons_True; [by rewrite IH|].
      intros ->. revert Hc. apply (bool_decide_unpack _). by vm_compute.
    + cbn [flat_map]. rewrite filter_cons_False by (intros H; by apply H).
      by rewrite <- IH.
  - eapply Forall_impl; [exact Hl|]. intros c [Hc| ->]; [by destruct (He c Hc)|lia].
Qed.

(** * Keys: parsing and printing *)

(** Which lengths are accepted, and where the dash must be. *)
Definition well_shaped (text : list Z) : Prop :=
  length text = 8%nat \/ (length text = 9%nat /\ text !! 4%nat = Some 45).

#[export] Instance well_shaped_dec text : Decision (well_shaped text).
Proof. unfold well_shaped. apply _. Defined.

(** Parsing once the shape is right, in terms of the normal form. *)
Definition parse_normal (norm : list Z) : outcome (result error Key) :=
  match b32_decode_loop encoding (Z.of_nat (length norm)) [] 0 0 (replicate KeySize 0) norm with
  | DecodePanic => Panic
  | Corrupt off => Ret (Err (CorruptInputError off))
  | Decoded n decoded => Ret (UnmarshalBinary (take n decoded))
  end.

Lemma UnmarshalText_shaped upper text :
  well_shaped text -> UnmarshalText upper text = parse_normal (normalize upper text).
Proof.
  intros [Hl|[Hl H4]]; unfold UnmarshalText; rewrite Hl; [done|].
  rewrite (go_get_Some _ _ _ H4). cbn [mbind outcome_bind].
  by rewrite decide_False by (intros H; by apply H).
Qed.

Lemma UnmarshalText_unshaped upper text :
  ~ well_shaped text ->
  UnmarshalText upper text
  = Ret (Err (if decide (length text = 9%nat) then ErrInvalidKeyFormat
              else invalidLengthError (Z.of_nat (length text)))).
Proof.
  intros Hn. unfold UnmarshalText, well_shaped in *. case_decide as H9.
  - rewrite H9. destruct (lookup_lt_is_Some_2 text 4) as [c Hc]; [lia|].
    rewrite (go_get_Some _ _ _ Hc). cbn. case_decide as Hd; [done|].
    exfalso. apply Hn. right. split; [done|]. rewrite Hc. f_equal.
    by destruct (decide (c = 45)).
  - destruct (length text) as [|[|[|[|[|[|[|[|[|[|m]]]]]]]]]]; try done.
    exfalso. apply Hn. by left.
Qed.

Lemma UnmarshalBinary_ok data k :
  UnmarshalBinary data = Ok k <-> data = k /\ length data = KeySize.
Proof.
  unfold UnmarshalBinary, go_copy. case_decide as Hd; [by split; [|intros [_ ?]]|].
  unfold KeySize in Hd. cbn [length zero_key replicate KeySize].
  rewrite take_ge by (rewrite Hd; cbn; lia). rewrite drop_ge by (rewrite Hd; cbn; lia).
  rewrite app_nil_r. split; [by intros [= ->]|by intros [-> _]].
Qed.

(** The decoder turns exactly the encodings of keys into keys. *)
Lemma parse_normal_ok norm k :
  parse_normal norm = Ret (Ok k) <-> Key_wf k /\ norm = encode_key k.
Proof.
  unfold parse_normal. split.
  - intros H. destruct (b32_decode_loop _ _ _ _ _ _ _) as [n d| |] eqn:E; [|done|done].
    injection H as H. apply UnmarshalBinary_ok in H as [<- Hlen].
    pose proof E as E'. apply b32_decode_count in E' as [Hm Hd]; [|cbn; lia].
    rewrite length_take in Hlen. cbn in Hd, Hm. unfold KeySize in *.
    assert (n = 5%nat) as -> by lia. rewrite take_ge by lia.
    apply b32_decode_inv in E as (vs & -> & Hvs & Hl & ->);
      [|done|cbn; lia]. cbn [app] in *.
    destruct (b32_pack_values vs Hl Hvs) as (b0 & b1 & b2 & b3 & b4 & Hp & Hok & Hv).
    rewrite Hp. split; [by split|]. unfold bytes_ok in Hok.
    repeat match goal with H : Forall _ (_ :: _) |- _ => apply Forall_cons in H as [? ?] end.
    cbn [encode_key]. by rewrite b32_encode5_values, Hv by done.
  - intros [Hk ->]. destruct (encode_key_values k Hk) as (vs & -> & Hvs & Hl & Hp).
    rewrite b32_decode_valid; [|apply encoding_NoDup|done|apply encoding_pad|done|done|by destruct vs].
    cbn [app]. rewrite Hp. destruct Hk as [Hlen Hok]. unfold KeySize in Hlen.
    rewrite take_ge by lia. do 2 f_equal. by apply UnmarshalBinary_ok.
Qed.

Lemma parse_normal_no_panic norm :
  (valid_count encoding norm < 10)%nat -> parse_normal norm ≠ Panic.
Proof.
  intros Hc. unfold parse_normal.
  destruct (b32_decode_loop _ _ _ _ _ _ _) eqn:E; [done|done|].
  apply b32_panic_count in E; [|done|done|cbn; lia|by left].
  change (10 <= 0 + valid_count encoding norm)%nat in E. lia.
Qed.

Lemma elem_of_take_l (l : list Z) n c : c ∈ take n l -> c ∈ l.
Proof. intros H. rewrite <- (take_drop n l). apply elem_of_app. by left. Qed.

Lemma elem_of_drop_l (l : list Z) n c : c ∈ drop n l -> c ∈ l.
Proof. intros H. rewrite <- (take_drop n l). apply elem_of_app. by right. Qed.

(** The characters of a printed key, and what it normalises to. *)
Lemma MarshalText_shape k :
  Key_wf k ->
  length (MarshalText k) = 9%nat /\ MarshalText k !! 4%nat = Some 45
  /\ forall upper, normalize upper (MarshalText k) = encode_key k.
Proof.
  intros Hk. pose proof (encode_key_length k Hk) as Hl. unfold MarshalText. split_and!.
  - rewrite !length_app, length_take, length_drop, Hl. done.
  - rewrite lookup_app_r; rewrite length_take, Hl; [done|cbn; lia].
  - intros upper. assert (45 ∉ encoding) as H45.
    { apply (bool_decide_unpack _). by vm_compute. }
    assert (forall l, l ⊆ encode_key k -> filter (fun c => c ≠ 45) l = l) as Hf.
    { induction l as [|c l IH]; intros Hs; [done|]. rewrite filter_cons_True.
      - rewrite IH; [done|set_solver].
      - intros ->. apply H45, (encode_key_in k _ Hk), Hs. set_solver. }
    rewrite normalize_canonical.
    + rewrite !filter_app, (Hf (take _ _)), (Hf (drop _ _)) 
        by (intros ? ?; first [by eapply elem_of_take_l|by eapply elem_of_drop_l]).
      rewrite filter_cons_False by (intros H; by apply H). cbn. apply take_drop.
    + apply Forall_forall. intros c Hc. rewrite !elem_of_app in Hc.
      destruct Hc as [Hc|[Hc|Hc]]; [left|right; by apply list_elem_of_singleton in Hc|left];
        eauto using encode_key_in, elem_of_take_l, elem_of_drop_l.
Qed.

(** * Tokens *)

Lemma take_key_copy key :
  length key = KeySize ->
  go_copy (take KeySize (replicate TokenSize 0)) key ++ drop KeySize (replicate TokenSize 0)
  = key ++ replicate sha256_Size 0.
Proof.
  intros Hk. unfold KeySize in Hk. unfold go_copy. rewrite take_ge by (rewrite Hk; cbn; lia).
  rewrite (drop_ge _ (length key)) by (rewrite Hk; cbn; lia). by rewrite app_nil_r.
Qed.

(** A token is the key followed by its tag. *)
Lemma NewToken_eq key secret :
  length key = KeySize -> NewToken key secret = key ++ hmac_sha256 secret key.
Proof.
  intros Hk. unfold NewToken. rewrite take_key_copy by done.
  rewrite take_app_length' by done. unfold go_append_array.
  rewrite hmac_length, length_app, length_replicate, Hk, decide_True by (cbn; lia).
  cbn [fst]. rewrite take_app_length' by done.
  rewrite drop_ge; [by rewrite app_nil_r|]. rewrite length_app, length_replicate, Hk. lia.
Qed.

Lemma Token_Key_take t : length t = TokenSize -> Token_Key t = take KeySize t.
Proof.
  intros Ht. unfold Token_Key, go_copy. cbn [length zero_key replicate KeySize].
  rewrite take_ge by (rewrite length_take; unfold KeySize; lia).
  rewrite drop_ge; [by rewrite app_nil_r|]. rewrite length_take, Ht. cbn. lia.
Qed.

Lemma NewToken_wf key secret : Key_wf key -> Token_wf (NewToken key secret).
Proof.
  intros [Hl Hok]. rewrite NewToken_eq by done. split.
  - by rewrite length_app, hmac_length, Hl.
  - apply Forall_app. split; [done|apply hmac_bytes].
Qed.

Lemma Token_Key_wf t : Token_wf t -> Key_wf (Token_Key t).
Proof.
  intros [Hl Hok]. rewrite Token_Key_take by done. split.
  - rewrite length_take, Hl. done.
  - by apply Forall_take.
Qed.

Lemma VerifyToken_spec secret t :
  VerifyToken secret t = true <-> t = take KeySize t ++ hmac_sha256 secret (take KeySize t).
Proof.
  unfold VerifyToken. rewrite hmac_Equal_spec. split.
  - intros H. rewrite <- H. symmetry. apply take_drop.
  - intros H. rewrite <- (take_drop KeySize t) in H at 1. by apply app_inv_head in H.
Qed.

Lemma NewToken_verifies key secret : Key_wf key -> VerifyToken secret (NewToken key secret) = true.
Proof.
  intros [Hl _]. apply VerifyToken_spec. rewrite NewToken_eq by done. by rewrite take_app_length' by done.
Qed.

Lemma NewToken_Key key secret : Key_wf key -> Token_Key (NewToken key secret) = key.
Proof.
  intros Hk. rewrite Token_Key_take by apply (NewToken_wf key secret Hk). destruct Hk as [Hl _].
  rewrite NewToken_eq by done. by apply take_app_length'.
Qed.


Lemma Token_UnmarshalText_ok text t :
  Token_UnmarshalText text = Ok t <-> b64_decode text = Ok t /\ length t = TokenSize.
Proof.
  unfold Token_UnmarshalText. destruct (b64_decode text) as [out|off] eqn:E;
    [|by split; [|intros [? _]]].
  apply b64_decode_length in E as Hlen.
  case_decide as Hd; [by split; [|intros [[= <-] ?]]|].
  assert (go_copy (replicate TokenSize 0) (go_copy (replicate (DecodedLen (length text)) 0) out)
          = out) as ->; [|by split; [intros [= <-]|intros [[= <-] _]]].
  unfold go_copy at 2. rewrite length_replicate, take_ge by done. rewrite drop_replicate.
  unfold go_copy. rewrite length_replicate, <- Hd, take_app_length.
  rewrite drop_ge; [by rewrite app_nil_r|]. rewrite length_app, length_replicate, length_replicate. lia.
Qed.

(** Printing a key and parsing the text gives the key back. *)
Lemma Key_String_parses upper k : Key_wf k -> UnmarshalText upper (Key_String k) = Ret (Ok k).
Proof.
  intros Hk. destruct (MarshalText_shape k Hk) as (Hl & H4 & Hn). unfold Key_String.
  rewrite UnmarshalText_shaped by (by right). rewrite Hn. by apply parse_normal_ok.
Qed.

(** * Properties *)

Lemma normalize_count upper text :
  well_shaped text -> (valid_count encoding (normalize upper text) < 10)%nat.
Proof.
  intros Hs. eapply Nat.le_lt_trans; [by apply valid_count_filter, encoding_length|].
  eapply Nat.le_lt_trans;
    [apply bytes_Map_valid; first [apply encoding_length|apply encoding_ascii]|].
  destruct Hs as [->|[-> _]]; lia.
Qed.

Lemma ParseKey_no_panic upper text : ParseKey upper text ≠ Panic.
Proof.
  unfold ParseKey. destruct (decide (well_shaped text)) as [Hs|Hs].
  - rewrite UnmarshalText_shaped by done. by apply parse_normal_no_panic, normalize_count.
  - by rewrite UnmarshalText_unshaped.
Qed.


Lemma ParseToken_wf text t : ParseToken text = Ok t -> Token_wf t.
Proof. intros [H Hl]%Token_UnmarshalText_ok. split; [done|by eapply b64_decode_bytes]. Qed.

Lemma NewToken_parses key secret :
  Key_wf key -> ParseToken (Token_String (NewToken key secret)) = Ok (NewToken key secret).
Proof.
  intros Hk. unfold ParseToken. rewrite Token_UnmarshalText_ok. destruct (NewToken_wf key secret Hk).
  split; [|done]. by apply b64_decode_encode.
Qed.

(** C1. A token is accepted under a secret exactly when it is the token that
    [NewToken] makes for its own key part: no other tag verifies. *)
Theorem VerifyToken_iff (secret : list Z) (t : Token) (Ht : length t = TokenSize) :
  VerifyToken secret t = true <-> t = NewToken (Token_Key t) secret.
Proof.
  rewrite VerifyToken_spec, Token_Key_take by done. by rewrite NewToken_eq by (rewrite length_take, Ht; done).
Qed.

Lemma VerifyToken_iff_witness :
  length (NewToken [1; 2; 3; 4; 5] [115]) = TokenSize
  /\ (VerifyToken [115] (NewToken [1; 2; 3; 4; 5] [115]) = true
      <-> NewToken [1; 2; 3; 4; 5] [115]
          = NewToken (Token_Key (NewToken [1; 2; 3; 4; 5] [115])) [115]).
Proof.
  assert (length (NewToken [1; 2; 3; 4; 5] [115]) = TokenSize) as Ht by (vm_compute; reflexivity).
  split; [exact Ht|exact (VerifyToken_iff [115] _ Ht)].
Defined.

(** What is accepted, and what comes of the other texts. *)
Lemma UnmarshalText_accepts (upper : Z -> Z) (text : list Z) k : UnmarshalText upper text = Ret (Ok k)
  <-> Key_wf k /\ well_shaped text /\ normalize upper text = encode_key k.
Proof.
  destruct (decide (well_shaped text)) as [Hs|Hs].
  - rewrite UnmarshalText_shaped, parse_normal_ok by done. tauto.
  - rewrite UnmarshalText_unshaped by done. split; [done|tauto].
Qed.

Lemma UnmarshalText_total (upper : Z -> Z) (text : list Z) :
  exists r, UnmarshalText upper text = Ret r /\
  if decide (well_shaped text) then
    match r with
    | Ok k => Key_wf k
    | Err (CorruptInputError _) => True
    | Err (invalidLengthError n) => 0 <= n < 5
    | Err _ => False
    end
  else r = Err (if decide (length text = 9%nat) then ErrInvalidKeyFormat
                else invalidLengthError (Z.of_nat (length text))).
Proof.
  case_decide as Hs; [|eexists; split; [by apply UnmarshalText_unshaped|done]].
  rewrite UnmarshalText_shaped by done.
  pose proof (parse_normal_no_panic _ (normalize_count upper text Hs)) as Hp.
  destruct (parse_normal (normalize upper text)) as [r|] eqn:E; [|done].
  exists r. split; [done|]. destruct r as [k|e]; [by apply parse_normal_ok in E as [? _]|].
  unfold parse_normal in E. destruct (b32_decode_loop _ _ _ _ _ _ _) as [n d|off|] eqn:Eb;
    [|by injection E as <-|done].
  injection E as E. unfold UnmarshalBinary in E. case_decide as Hd; [|done].
  injection E as <-. apply b32_decode_count in Eb as [Hm Hl]; [|cbn; lia].
  rewrite length_take in *. cbn in *. unfold KeySize in *. lia.
Qed.

(** Keys and tokens survive being printed and parsed, stored and scanned. *)
Lemma key_survives (upper : Z -> Z) (k k0 : Key) (secret : list Z) : Key_wf k ->
  (ParseKey upper (Key_String k) = Ret (Ok k) /\ Scan upper k0 (Value k) = Ret (Ok k) /\
   UnmarshalBinary (MarshalBinary k)
   = if decide (k = zero_key) then Err (invalidLengthError 0) else Ok k) /\
  Token_wf (NewToken k secret) /\ VerifyToken secret (NewToken k secret) = true /\
  Token_Key (NewToken k secret) = k /\ ParseToken (Token_String (NewToken k secret)) = Ok (NewToken k secret).
Proof.
  intros Hk.   split; [|split_and!; [by apply NewToken_wf|by apply NewToken_verifies|by apply NewToken_Key|by apply NewToken_parses]].
  cbn [Scan Value]. unfold ParseKey. rewrite Key_String_parses by done.
  split; [done|]. split; [done|].
  unfold MarshalBinary. case_decide as Hz; [done|]. destruct Hk. by apply UnmarshalBinary_ok.
Qed.

(** C28. [UnmarshalText] accepts a text for a key exactly when the text has the
    shape xxxxxxxx or xxxx-xxxx and its normal form (dashes and underscores
    dropped, capitals, o as 0 and l as 1) is the base32 encoding of the key.
    It returns on every input, valid UTF-8 or not, without an index panic in
    the base32 decoder; a wrong shape is [ErrInvalidKeyFormat] or
    [invalidLengthError], a right shape gives a well-formed key, a corrupt input
    error, or a length error for fewer than five bytes.  Printing a key and
    parsing the text gives the key back, and so does storing it in a database
    column and scanning it.  The binary form gives the key back too, except for
    the zero key, whose binary form is empty and is refused.  A token made for a
    key is a well-formed token that verifies under the same secret, carries the
    key, and survives printing and parsing. *)
Theorem UnmarshalText_correct (upper : Z -> Z) (text : list Z) :
  (forall k, UnmarshalText upper text = Ret (Ok k)
     <-> Key_wf k /\ well_shaped text /\ normalize upper text = encode_key k) /\
  (exists r, UnmarshalText upper text = Ret r /\
  if decide (well_shaped text) then
    match r with
    | Ok k => Key_wf k
    | Err (CorruptInputError _) => True
    | Err (invalidLengthError n) => 0 <= n < 5
    | Err _ => False
    end
  else r = Err (if decide (length text = 9%nat) then ErrInvalidKeyFormat
                else invalidLengthError (Z.of_nat (length text)))) /\
  forall (k k0 : Key) (secret : list Z), Key_wf k ->
  (ParseKey upper (Key_String k) = Ret (Ok k) /\ Scan upper k0 (Value k) = Ret (Ok k) /\
   UnmarshalBinary (MarshalBinary k)
   = if decide (k = zero_key) then Err (invalidLengthError 0) else Ok k) /\
  Token_wf (NewToken k secret) /\ VerifyToken secret (NewToken k secret) = true /\
  Token_Key (NewToken k secret) = k /\ ParseToken (Token_String (NewToken k secret)) = Ok (NewToken k secret).
Proof.
  split; [intros k; apply UnmarshalText_accepts|]. split; [apply UnmarshalText_total|]. intros k k0 secret. apply key_survives.
Qed.

Lemma UnmarshalText_correct_witness :
  Key_wf [255; 0; 16; 32; 7] /\ ParseKey id (Key_String [255; 0; 16; 32; 7]) = Ret (Ok [255; 0; 16; 32; 7]) /\
  VerifyToken [] (NewToken [255; 0; 16; 32; 7] []) = true /\
  UnmarshalBinary (MarshalBinary zero_key) = Err (invalidLengthError 0).
Proof.
  assert (Key_wf [255; 0; 16; 32; 7]) as Hk
    by (split; [reflexivity|unfold bytes_ok; repeat constructor; unfold is_byte; lia]).
  assert (Key_wf zero_key) as Hz
    by (split; [reflexivity|unfold bytes_ok; repeat constructor; unfold is_byte; lia]).
  destruct (proj2 (proj2 (UnmarshalText_correct id [])) _ [] [] Hk) as ((H1 & _ & _) & _ & H2 & _).
  split; [exact Hk|]. split; [exact H1|]. split; [exact H2|].
  exact (proj2 (proj2 (proj1 (proj2 (proj2 (UnmarshalText_correct id [])) zero_key [] [] Hz)))).
Defined.

(** * Examples *)

(** The spellings of the package's test file. *)
Example key_spellings :
  map (fun t => UnmarshalText id (bytes_of_string t))
    ["0123-4567"; "01234567"; "o1234567"; "O1234567"; "0l234567"; "0L234567"]%string
  = replicate 6 (UnmarshalText id (bytes_of_string "0123-4567")).
Proof. vm_compute. reflexivity. Qed.

(** Crockford's alphabet reads [i] as 1; this one does not know it. *)
Example key_letter_i :
  UnmarshalText id (bytes_of_string "0i23-4567") = Ret (Err (CorruptInputError 1)).
Proof. vm_compute. reflexivity. Qed.
