(* ===== verification/Netip.v ===== *)
(** Network addresses: the parts of net/netip and net of the Go standard
    library that the program's own code relies on.

    An [Addr] is invalid (the zero value), an IPv4 address or an IPv6 address
    with an optional zone; an [AddrPort] adds a 16-bit port.  Addresses are
    comparable values and are used as map keys; [Compare] is only ever compared
    with zero, which is equality. *)
From S2P Require Import Prelude.
Local Open Scope Z_scope.

(** * Data *)

Inductive Addr :=
| AddrZero
| Addr4 (ip : list Z)
| Addr6 (ip : list Z) (zone : list Z).

Record AddrPort := AddrPortFrom { ap_addr : Addr; ap_port : Z }.

Definition AddrPort_zero : AddrPort := AddrPortFrom AddrZero 0.

(** [net.UDPAddr]: the IP slice may have any length. *)
Record UDPAddr := mkUDPAddr { udp_IP : list Z; udp_Port : Z; udp_Zone : list Z }.

#[export] Instance Addr_eq_dec : EqDecision Addr.
Proof. solve_decision. Defined.
#[export] Instance AddrPort_eq_dec : EqDecision AddrPort.
Proof. solve_decision. Defined.

#[export] Instance Addr_countable : Countable Addr :=
  inj_countable'
    (fun a => match a with
              | AddrZero => inl ()
              | Addr4 ip => inr (inl ip)
              | Addr6 ip zone => inr (inr (ip, zone))
              end)
    (fun s => match s with
              | inl _ => AddrZero
              | inr (inl ip) => Addr4 ip
              | inr (inr (ip, zone)) => Addr6 ip zone
              end)
    (fun a => match a with AddrZero => eq_refl | Addr4 _ => eq_refl | Addr6 _ _ => eq_refl end).

#[export] Instance AddrPort_countable : Countable AddrPort :=
  inj_countable' (fun p => (ap_addr p, ap_port p)) (fun '(a, n) => AddrPortFrom a n)
    (fun p => match p with AddrPortFrom _ _ => eq_refl end).

Definition Addr_wf (a : Addr) : Prop :=
  match a with
  | AddrZero => True
  | Addr4 ip => length ip = 4%nat
  | Addr6 ip _ => length ip = 16%nat
  end.

Definition AddrPort_wf (p : AddrPort) : Prop :=
  Addr_wf (ap_addr p) /\ 0 <= ap_port p < 65536.

(** * Operations *)

(** [netip.AddrFromSlice], with the zero address for a bad length. *)
Definition AddrFromSlice (ip : list Z) : Addr :=
  if (length ip =? 4)%nat then Addr4 ip
  else if (length ip =? 16)%nat then Addr6 ip []
  else AddrZero.

(** [Addr.WithZone]: only IPv6 addresses carry a zone. *)
Definition WithZone (a : Addr) (zone : list Z) : Addr :=
  match a with
  | Addr6 ip _ => Addr6 ip zone
  | _ => a
  end.

(** [UDPAddr.AddrPort] *)
Definition UDPAddr_AddrPort (a : UDPAddr) : AddrPort :=
  AddrPortFrom (WithZone (AddrFromSlice (udp_IP a)) (udp_Zone a)) (u16 (udp_Port a)).

(** [net.UDPAddrFromAddrPort] *)
Definition UDPAddrFromAddrPort (p : AddrPort) : UDPAddr :=
  match ap_addr p with
  | AddrZero => mkUDPAddr [] (ap_port p) []
  | Addr4 ip => mkUDPAddr ip (ap_port p) []
  | Addr6 ip zone => mkUDPAddr ip (ap_port p) zone
  end.

(** [Addr.AppendBinary] and [AddrPort.AppendBinary]: the port is little-endian. *)
Definition Addr_bytes (a : Addr) : list Z :=
  match a with
  | AddrZero => []
  | Addr4 ip => ip
  | Addr6 ip zone => ip ++ zone
  end.

Definition AddrPort_AppendBinary (b : list Z) (p : AddrPort) : list Z :=
  b ++ Addr_bytes (ap_addr p) ++ [u8 (ap_port p); u8 (Z.shiftr (ap_port p) 8)].

(** [Addr.UnmarshalBinary] *)
Definition Addr_UnmarshalBinary (b : list Z) : option Addr :=
  let n := length b in
  if (n =? 0)%nat then Some AddrZero
  else if (n =? 4)%nat then Some (Addr4 b)
  else if (n =? 16)%nat then Some (Addr6 b [])
  else if (16 <? n)%nat then Some (WithZone (Addr6 (take 16 b) []) (drop 16 b))
  else None.

(** [AddrPort.UnmarshalBinary]; [None] is the "unexpected slice size" error. *)
Definition AddrPort_UnmarshalBinary (b : list Z) : option AddrPort :=
  let n := length b in
  if (n <? 2)%nat then None
  else
    addr ← Addr_UnmarshalBinary (take (n - 2) b);
    match drop (n - 2) b with
    | [lo; hi] => Some (AddrPortFrom addr (Z.lor lo (Z.shiftl hi 8)))
    | _ => None
    end.

(** * Lemmas *)

Lemma Addr_binary_roundtrip a : Addr_wf a -> Addr_UnmarshalBinary (Addr_bytes a) = Some a.
Proof.
  destruct a as [|ip|ip zone]; cbn [Addr_wf Addr_bytes]; intros Hl; unfold Addr_UnmarshalBinary.
  - done.
  - by rewrite Hl.
  - rewrite length_app, Hl. destruct zone as [|z zone].
    + by rewrite app_nil_r.
    + cbn [length]. rewrite !(proj2 (Nat.eqb_neq _ _)) by lia.
      rewrite (proj2 (Nat.ltb_lt _ _)) by lia.
      by rewrite take_app_length', drop_app_length'.
Qed.

Lemma port_roundtrip n :
  0 <= n < 65536 -> Z.lor (u8 n) (Z.shiftl (u8 (Z.shiftr n 8)) 8) = n.
Proof.
  intros Hn. rewrite Z.lor_comm, lor_shiftl_add; [|lia|apply u8_byte].
  unfold u8. rewrite Z.shiftr_div_pow2 by lia. change (2 ^ 8) with 256.
  Z.div_mod_to_equations. lia.
Qed.

Lemma AddrPort_binary_roundtrip p :
  AddrPort_wf p -> AddrPort_UnmarshalBinary (AddrPort_AppendBinary [] p) = Some p.
Proof.
  intros [Ha Hp]. unfold AddrPort_UnmarshalBinary, AddrPort_AppendBinary. cbn [app].
  rewrite length_app. cbn [length]. rewrite (proj2 (Nat.ltb_ge _ _)) by lia.
  rewrite Nat.add_sub, take_app_length, drop_app_length, Addr_binary_roundtrip by done.
  cbn. rewrite port_roundtrip by done. by destruct p.
Qed.

Lemma UDPAddr_AddrPort_wf a : AddrPort_wf (UDPAddr_AddrPort a).
Proof.
  split; cbn; [|unfold u16; apply Z.mod_pos_bound; lia].
  unfold AddrFromSlice. destruct (length (udp_IP a) =? 4)%nat eqn:E4.
  - by apply Nat.eqb_eq in E4.
  - destruct (length (udp_IP a) =? 16)%nat eqn:E16; [|done]. by apply Nat.eqb_eq in E16.
Qed.

Lemma UDPAddr_roundtrip p : AddrPort_wf p -> UDPAddr_AddrPort (UDPAddrFromAddrPort p) = p.
Proof.
  destruct p as [[|ip|ip zone] n]; intros [Ha Hn]; cbn in Ha, Hn;
    unfold UDPAddr_AddrPort, UDPAddrFromAddrPort, AddrFromSlice; cbn;
    rewrite ?Ha; cbn; unfold u16; by rewrite Z.mod_small by lia.
Qed.
