(* ===== verification/Discovery.v ===== *)
(** The discovery protocol: [internal/discovery/discovery.go].

    A client asks a server which public address its packets come from.  The
    first part models the wire format of the request and the response with the
    decoders' length, magic, version and type checks; the second part models
    the client's [Bind] and the server's [Serve] as programs run against a
    script of what the operating system answers (the datagrams read, the
    deadlines that fire, the writes that fail). *)
From S2P Require Import Prelude Text Netip.
Local Open Scope Z_scope.

(** * Wire format *)

Definition magic : Z := 1398030674.
Definition version : Z := 1.
Definition tRequest : Z := 1.
Definition tResponse : Z := 2.

Inductive derror := errInvalidResponse | errSliceSize.

Record Request := mkRequest { req_TxID : list Z }.
Record Response := mkResponse { resp_TxID : list Z; resp_Addr : AddrPort }.

(** [binary.BigEndian.PutUint32] and [Uint32] *)
Definition put_be32 (z : Z) : list Z :=
  [u8 (Z.shiftr z 24); u8 (Z.shiftr z 16); u8 (Z.shiftr z 8); u8 z].

Definition be_uint32 (b : list Z) : Z :=
  match b with
  | b0 :: b1 :: b2 :: b3 :: _ =>
      Z.lor (Z.lor (Z.lor (Z.shiftl b0 24) (Z.shiftl b1 16)) (Z.shiftl b2 8)) b3
  | _ => 0
  end.

(** [Request.MarshalBinary]: 22 bytes, the id copied into the last sixteen. *)
Definition Request_MarshalBinary (r : Request) : list Z :=
  put_be32 magic ++ [version; tRequest] ++ go_copy (replicate 16 0) (req_TxID r).

(** [Request.UnmarshalBinary] *)
Definition Request_UnmarshalBinary (p : list Z) : result derror Request :=
  if (length p <? 22)%nat then Err errInvalidResponse
  else if negb (be_uint32 (take 4 p) =? magic) then Err errInvalidResponse
  else if negb (nth 4 p 0 =? version) || negb (nth 5 p 0 =? tRequest)
  then Err errInvalidResponse
  else Ok (mkRequest (go_copy (replicate 16 0) (take 16 (drop 6 p)))).

(** [Response.MarshalBinary] *)
Definition Response_MarshalBinary (r : Response) : list Z :=
  AddrPort_AppendBinary (put_be32 magic ++ [version; tResponse] ++ resp_TxID r) (resp_Addr r).

(** [Response.UnmarshalBinary] *)
Definition Response_UnmarshalBinary (p : list Z) : result derror Response :=
  if (length p <? 22)%nat then Err errInvalidResponse
  else if negb (be_uint32 (take 4 p) =? magic) || negb (nth 4 p 0 =? version)
          || negb (nth 5 p 0 =? tResponse)
  then Err errInvalidResponse
  else
    match AddrPort_UnmarshalBinary (drop 22 p) with
    | None => Err errSliceSize
    | Some addr => Ok (mkResponse (go_copy (replicate 16 0) (take 16 (drop 6 p))) addr)
    end.

(** * The client *)

Section bind.
(** Errors of the operating system and of the context. *)
Context {E : Type}.

(** What [conn.ReadFrom] answers: the read deadline, another error, or a
    datagram with its source ([None]: an address that is not a UDP address). *)
Inductive read_event :=
| ReadDeadline
| ReadError (e : E)
| ReadPacket (data : list Z) (from : option UDPAddr).

Inductive read_outcome :=
| Resend                       (* the deadline fired: send the request again *)
| ReadDone (addr : AddrPort)
| ReadFailed (e : E)
| ReadBlocked.                 (* the script ended: still waiting *)

(** A datagram read into a buffer of [n] bytes: the rest is lost. *)
Definition into_buffer (n : nat) (data : list Z) : list Z := take n data.

(** The body of the inner loop of [Bind]: an address, or [continue]. *)
Definition Bind_packet (server : AddrPort) (req : Request) (data : list Z)
    (from : option UDPAddr) : option AddrPort :=
  rUDPAddr ← from;
  if decide (server ≠ UDPAddr_AddrPort rUDPAddr) then None
  else
    match Response_UnmarshalBinary (into_buffer 1024 data) with
    | Err _ => None
    | Ok resp =>
        if decide (resp_TxID resp ≠ req_TxID req) then None else Some (resp_Addr resp)
    end.

(** The inner loop of [Bind]: read until an answer, the deadline or an error. *)
Fixpoint Bind_reads (server : AddrPort) (req : Request) (evs : list read_event)
    : read_outcome :=
  match evs with
  | [] => ReadBlocked
  | ReadDeadline :: _ => Resend
  | ReadError e :: _ => ReadFailed e
  | ReadPacket data from :: evs' =>
      match Bind_packet server req data from with
      | Some addr => ReadDone addr
      | None => Bind_reads server req evs'
      end
  end.

(** One iteration of the outer loop: what [ctx.Err()] and [conn.WriteTo]
    return, and what is read before the deadline. *)
Record attempt := mkAttempt {
  at_ctx : option E;
  at_write : option E;
  at_reads : list read_event;
}.

Inductive bind_result := BindOk (addr : AddrPort) | BindErr (e : E) | BindPending.

(** [Bind], after the request is created: its result and the packets it sent. *)
Fixpoint Bind (server : AddrPort) (req : Request) (attempts : list attempt)
    : bind_result * list (list Z * UDPAddr) :=
  match attempts with
  | [] => (BindPending, [])
  | a :: attempts' =>
      match at_ctx a with
      | Some e => (BindErr e, [])
      | None =>
          let pkt := (Request_MarshalBinary req, UDPAddrFromAddrPort server) in
          match at_write a with
          | Some e => (BindErr e, [pkt])
          | None =>
              match Bind_reads server req (at_reads a) with
              | Resend => let '(r, sent) := Bind server req attempts' in (r, pkt :: sent)
              | ReadDone addr => (BindOk addr, [pkt])
              | ReadFailed e => (BindErr e, [pkt])
              | ReadBlocked => (BindPending, [pkt])
              end
          end
      end
  end.

(** * The server *)

(** What the server's loop meets: [s.done] closed, or one read, with the
    result of the write that a reply needs. *)
Inductive serve_event :=
| SDone
| SRead (r : read_event) (write_error : option E).

Inductive serve_result := ServeOk | ServeErr (e : E) | ServePending.

(** The body of [Serve] for one datagram: the reply, or [continue]. *)
Definition Serve_packet (data : list Z) (from : option UDPAddr) : option (list Z * UDPAddr) :=
  match Request_UnmarshalBinary (into_buffer 1024 data) with
  | Err _ => None
  | Ok req =>
      rUDPAddr ← from;
      Some (Response_MarshalBinary
              (mkResponse (req_TxID req) (UDPAddr_AddrPort rUDPAddr)), rUDPAddr)
  end.

(** [Server.Serve] *)
Fixpoint Serve (evs : list serve_event) : serve_result * list (list Z * UDPAddr) :=
  match evs with
  | [] => (ServePending, [])
  | SDone :: _ => (ServeOk, [])
  | SRead ReadDeadline _ :: evs' => Serve evs'
  | SRead (ReadError e) _ :: _ => (ServeErr e, [])
  | SRead (ReadPacket data from) werr :: evs' =>
      match Serve_packet data from with
      | None => Serve evs'
      | Some reply =>
          match werr with
          | Some e => (ServeErr e, [reply])
          | None => let '(r, sent) := Serve evs' in (r, reply :: sent)
          end
      end
  end.
End bind.
Arguments read_event : clear implicits.
Arguments attempt : clear implicits.
Arguments bind_result : clear implicits.
Arguments serve_event : clear implicits.
Arguments serve_result : clear implicits.
Arguments read_outcome : clear implicits.

(** * Lemmas on the wire format *)

Lemma put_be32_be_uint32 b0 b1 b2 b3 :
  is_byte b0 -> is_byte b1 -> is_byte b2 -> is_byte b3 ->
  put_be32 (be_uint32 [b0; b1; b2; b3]) = [b0; b1; b2; b3].
Proof.
  intros. cbn [be_uint32]. rewrite be_word32 by done. unfold put_be32.
  rewrite !Z.shiftr_div_pow2 by lia. each_elem ltac:(dm).
Qed.

Lemma copy_16 (l : list Z) : length l = 16%nat -> go_copy (replicate 16 0) l = l.
Proof.
  intros Hl. unfold go_copy. rewrite take_ge by (rewrite Hl; cbn; lia).
  rewrite drop_ge by (rewrite Hl; cbn; lia). apply app_nil_r.
Qed.

(** A packet of kind [t] with the id [tx] and the body [tail]. *)
Definition framed (t : Z) (tx tail : list Z) : list Z :=
  put_be32 magic ++ [version; t] ++ tx ++ tail.

(** What the header checks of both decoders establish. *)
Lemma header_iff p t :
  bytes_ok p ->
  ((22 <= length p)%nat /\ be_uint32 (take 4 p) = magic /\ nth 4 p 0 = version /\ nth 5 p 0 = t)
  <-> exists tx tail, p = framed t tx tail /\ length tx = 16%nat.
Proof.
  intros Hok. split.
  - intros (Hl & Hm & Hv & Ht).
    do 6 (destruct p as [|? p]; [cbn in Hl; lia|]). cbn in Hv, Ht. subst.
    unfold bytes_ok in Hok.
    repeat match goal with H : Forall _ (_ :: _) |- _ => apply Forall_cons in H as [? ?] end.
    exists (take 16 p), (drop 16 p). split; [|rewrite length_take; cbn in Hl; lia].
    unfold framed. rewrite take_drop, <- Hm. cbn [take].
    rewrite put_be32_be_uint32 by done. done.
  - intros (tx & tail & -> & Htx). unfold framed. split_and!; try done.
    rewrite !length_app, Htx. cbn. lia.
Qed.

Lemma framed_id t tx tail :
  length tx = 16%nat -> take 16 (drop 6 (framed t tx tail)) = tx.
Proof. intros Htx. cbn. by apply take_app_length'. Qed.

Lemma framed_body t tx tail : length tx = 16%nat -> drop 22 (framed t tx tail) = tail.
Proof. intros Htx. cbn. by apply drop_app_length'. Qed.

Lemma Request_MarshalBinary_framed r :
  length (req_TxID r) = 16%nat -> Request_MarshalBinary r = framed tRequest (req_TxID r) [].
Proof.
  intros Hl. unfold Request_MarshalBinary, framed. by rewrite copy_16, app_nil_r.
Qed.

Lemma Response_MarshalBinary_framed r :
  Response_MarshalBinary r
  = framed tResponse (resp_TxID r) (AddrPort_AppendBinary [] (resp_Addr r)).
Proof. unfold Response_MarshalBinary, framed, AddrPort_AppendBinary. by rewrite <- !app_assoc. Qed.

Lemma Request_UnmarshalBinary_framed t tx tail :
  length tx = 16%nat ->
  Request_UnmarshalBinary (framed t tx tail)
  = if t =? tRequest then Ok (mkRequest tx) else Err errInvalidResponse.
Proof.
  intros Htx. unfold Request_UnmarshalBinary. rewrite framed_id, copy_16 by done.
  unfold framed. rewrite !length_app, Htx. cbn -[be_uint32 Z.eqb].
  change (be_uint32 _) with magic. cbn. by destruct (t =? tRequest).
Qed.

Lemma Response_UnmarshalBinary_framed t tx tail :
  length tx = 16%nat ->
  Response_UnmarshalBinary (framed t tx tail)
  = if t =? tResponse then
      match AddrPort_UnmarshalBinary tail with
      | Some addr => Ok (mkResponse tx addr)
      | None => Err errSliceSize
      end
    else Err errInvalidResponse.
Proof.
  intros Htx. unfold Response_UnmarshalBinary.
  rewrite framed_id, framed_body, copy_16 by done.
  unfold framed. rewrite !length_app, Htx. cbn -[be_uint32 Z.eqb].
  change (be_uint32 _) with magic. cbn. destruct (t =? tResponse); [|done].
  by destruct (AddrPort_UnmarshalBinary tail).
Qed.

(** A packet that either decoder accepts is framed. *)
Lemma Request_accepts_framed p r :
  bytes_ok p -> Request_UnmarshalBinary p = Ok r ->
  exists tail, p = framed tRequest (req_TxID r) tail /\ length (req_TxID r) = 16%nat.
Proof.
  intros Hok H. pose proof H as H'. unfold Request_UnmarshalBinary in H.
  destruct (length p <? 22)%nat eqn:El; [done|]. apply Nat.ltb_ge in El.
  destruct (be_uint32 (take 4 p) =? magic) eqn:Em; [|done]. apply Z.eqb_eq in Em.
  destruct (nth 4 p 0 =? version) eqn:Ev; [|done]. apply Z.eqb_eq in Ev.
  destruct (nth 5 p 0 =? tRequest) eqn:Et; [|done]. apply Z.eqb_eq in Et.
  destruct (proj1 (header_iff p tRequest Hok)) as (tx & tail & -> & Htx); [done|].
  rewrite Request_UnmarshalBinary_framed in H' by done. injection H' as <-. by exists tail.
Qed.

Lemma Response_accepts_framed p r :
  bytes_ok p -> Response_UnmarshalBinary p = Ok r ->
  exists tail, p = framed tResponse (resp_TxID r) tail /\ length (resp_TxID r) = 16%nat
  /\ AddrPort_UnmarshalBinary tail = Some (resp_Addr r).
Proof.
  intros Hok H. pose proof H as H'. unfold Response_UnmarshalBinary in H.
  destruct (length p <? 22)%nat eqn:El; [done|]. apply Nat.ltb_ge in El.
  destruct (be_uint32 (take 4 p) =? magic) eqn:Em; [|done]. apply Z.eqb_eq in Em.
  destruct (nth 4 p 0 =? version) eqn:Ev; [|done]. apply Z.eqb_eq in Ev.
  destruct (nth 5 p 0 =? tResponse) eqn:Et; [|done]. apply Z.eqb_eq in Et.
  destruct (proj1 (header_iff p tResponse Hok)) as (tx & tail & -> & Htx); [done|].
  rewrite Response_UnmarshalBinary_framed in H' by done. cbn in H'.
  destruct (AddrPort_UnmarshalBinary tail) eqn:Ea; [|done]. injection H' as <-.
  by exists tail.
Qed.

(** * Lemmas on the client and the server *)

(** The datagrams that the inner loop of [Bind] skips. *)
Definition skipped {E} (server : AddrPort) (req : Request) (ev : read_event E) : Prop :=
  match ev with
  | ReadPacket data from => Bind_packet server req data from = None
  | _ => False
  end.

Lemma Bind_reads_skip {E} server req (noise evs : list (read_event E)) :
  Forall (skipped server req) noise ->
  Bind_reads server req (noise ++ evs) = Bind_reads server req evs.
Proof.
  induction 1 as [|ev noise Hev _ IH]; [done|].
  destruct ev; try done. cbn in Hev |- *. by rewrite Hev.
Qed.

Lemma Bind_reads_done {E} server req (evs : list (read_event E)) addr :
  Bind_reads server req evs = ReadDone addr ->
  exists data from, ReadPacket data from ∈ evs /\ Bind_packet server req data from = Some addr.
Proof.
  induction evs as [|[|e|data from] evs IH]; cbn; try done.
  destruct (Bind_packet server req data from) eqn:Ep.
  - intros [= ->]. exists data, from. split; [by left|done].
  - intros H. destruct (IH H) as (d & f & ? & ?). exists d, f. split; [by right|done].
Qed.

Lemma Bind_packet_Some server req data from addr :
  Bind_packet server req data from = Some addr <->
  exists raddr, from = Some raddr /\ UDPAddr_AddrPort raddr = server
  /\ Response_UnmarshalBinary (into_buffer 1024 data) = Ok (mkResponse (req_TxID req) addr).
Proof.
  unfold Bind_packet. destruct from as [raddr|]; cbn; [|naive_solver].
  case_decide as Hs; [naive_solver|].
  destruct (Response_UnmarshalBinary _) as [[tx a]|]; [|naive_solver].
  cbn. case_decide as Ht; naive_solver.
Qed.

Lemma Serve_packet_Some data from reply :
  Serve_packet data from = Some reply <->
  exists raddr req, from = Some raddr
  /\ Request_UnmarshalBinary (into_buffer 1024 data) = Ok req
  /\ reply = (Response_MarshalBinary (mkResponse (req_TxID req) (UDPAddr_AddrPort raddr)), raddr).
Proof.
  unfold Serve_packet. destruct (Request_UnmarshalBinary _) as [req|]; [|naive_solver].
  destruct from as [raddr|]; cbn; naive_solver.
Qed.

Lemma into_buffer_id n data : (length data <= n)%nat -> into_buffer n data = data.
Proof. apply take_ge. Qed.

Lemma wire_roundtrip_lemma tx addr :
  length tx = 16%nat -> AddrPort_wf addr ->
  Request_UnmarshalBinary (Request_MarshalBinary (mkRequest tx)) = Ok (mkRequest tx)
  /\ Response_UnmarshalBinary (Response_MarshalBinary (mkResponse tx addr))
     = Ok (mkResponse tx addr).
Proof.
  intros Htx Ha. rewrite Request_MarshalBinary_framed, Response_MarshalBinary_framed by done.
  rewrite Request_UnmarshalBinary_framed, Response_UnmarshalBinary_framed by done.
  cbn [resp_TxID resp_Addr req_TxID]. by rewrite AddrPort_binary_roundtrip.
Qed.

(** A response fits in the 1024 bytes of the client's buffer. *)
Lemma response_fits tx from :
  length tx = 16%nat -> (length (udp_Zone from) <= 900)%nat ->
  (length (Response_MarshalBinary (mkResponse tx (UDPAddr_AddrPort from))) <= 1024)%nat.
Proof.
  intros Htx Hz. rewrite Response_MarshalBinary_framed. unfold framed, AddrPort_AppendBinary.
  cbn [resp_TxID resp_Addr UDPAddr_AddrPort ap_addr ap_port].
  rewrite !length_app, Htx. cbn [length put_be32].
  assert (length (Addr_bytes (WithZone (AddrFromSlice (udp_IP from)) (udp_Zone from))) <= 916)%nat;
    [|lia].
  unfold AddrFromSlice. destruct (_ =? 4)%nat eqn:E4.
  - apply Nat.eqb_eq in E4. cbn. lia.
  - destruct (_ =? 16)%nat eqn:E16; [|cbn; lia].
    apply Nat.eqb_eq in E16. cbn. rewrite length_app. lia.
Qed.

Lemma Request_accepts_iff p r : bytes_ok p ->
  (Request_UnmarshalBinary p = Ok r <->
   exists tail, p = Request_MarshalBinary r ++ tail /\ length (req_TxID r) = 16%nat).
Proof.
  intros Hp. split.
  - intros H. destruct (Request_accepts_framed p r Hp H) as (tail & -> & Hl).
    exists tail. split; [|done]. rewrite Request_MarshalBinary_framed by done.
    unfold framed. by rewrite app_nil_r, <- !app_assoc.
  - intros (tail & -> & Hl). rewrite Request_MarshalBinary_framed by done.
    replace (framed tRequest (req_TxID r) [] ++ tail) with (framed tRequest (req_TxID r) tail)
      by (unfold framed; by rewrite app_nil_r, <- !app_assoc).
    rewrite Request_UnmarshalBinary_framed by done. by destruct r.
Qed.

Lemma Response_accepts_iff p r : bytes_ok p ->
  (Response_UnmarshalBinary p = Ok r <->
   exists tail, p = framed tResponse (resp_TxID r) tail /\ length (resp_TxID r) = 16%nat
   /\ AddrPort_UnmarshalBinary tail = Some (resp_Addr r)).
Proof.
  intros Hp. split; [by apply Response_accepts_framed|].
  intros (tail & -> & Hl & Ha). rewrite Response_UnmarshalBinary_framed by done.
  cbn. rewrite Ha. by destruct r.
Qed.

(** * Properties *)

(** The formats of the two messages. *)
Lemma wire_format (p tx : list Z) (addr : AddrPort)
    (Hp : bytes_ok p) (Htx : length tx = 16%nat) (Ha : AddrPort_wf addr) :
  Request_UnmarshalBinary (Request_MarshalBinary (mkRequest tx)) = Ok (mkRequest tx)
  /\ Response_UnmarshalBinary (Response_MarshalBinary (mkResponse tx addr))
     = Ok (mkResponse tx addr)
  /\ Request_UnmarshalBinary (Response_MarshalBinary (mkResponse tx addr))
     = Err errInvalidResponse
  /\ Response_UnmarshalBinary (Request_MarshalBinary (mkRequest tx)) = Err errInvalidResponse
  /\ (forall r, Request_UnmarshalBinary p = Ok r <->
     exists tail, p = Request_MarshalBinary r ++ tail /\ length (req_TxID r) = 16%nat)
  /\ (forall r, Response_UnmarshalBinary p = Ok r <->
     exists tail, p = framed tResponse (resp_TxID r) tail /\ length (resp_TxID r) = 16%nat
     /\ AddrPort_UnmarshalBinary tail = Some (resp_Addr r)).
Proof.
  rewrite Request_MarshalBinary_framed, Response_MarshalBinary_framed by done.
  rewrite !Request_UnmarshalBinary_framed, !Response_UnmarshalBinary_framed by done.
  cbn [resp_TxID resp_Addr req_TxID]. rewrite AddrPort_binary_roundtrip by done.
  split_and!; [done..|intros r; by apply Request_accepts_iff|intros r; by apply Response_accepts_iff].
Qed.

Lemma Bind_sound {E} (server : AddrPort) (req : Request) (attempts : list (attempt E)) :
  Forall (fun pkt => pkt = (Request_MarshalBinary req, UDPAddrFromAddrPort server))
    (Bind server req attempts).2
  /\ match (Bind server req attempts).1 with
     | BindOk addr =>
         exists a data raddr, a ∈ attempts /\ ReadPacket data (Some raddr) ∈ at_reads a
         /\ UDPAddr_AddrPort raddr = server
         /\ Response_UnmarshalBinary (into_buffer 1024 data)
            = Ok (mkResponse (req_TxID req) addr)
     | BindErr e =>
         exists a, a ∈ attempts
         /\ (at_ctx a = Some e \/ at_write a = Some e \/ ReadError e ∈ at_reads a)
     | BindPending => True
     end.
Proof.
  induction attempts as [|[ctx wr reads] attempts IH]; cbn; [done|].
  destruct ctx as [e|]; cbn; [split; [done|]; eexists; split; [by left|by left]|].
  destruct wr as [e|]; cbn; [split; [by repeat constructor|]; eexists; split; [by left|by right; left]|].
  destruct (Bind_reads server req reads) as [|addr|e|] eqn:Er.
  - destruct (Bind server req attempts) as [r sent]. cbn in *. destruct IH as [IH1 IH2].
    split; [by constructor|]. destruct r as [addr|e|]; [| |done].
    + destruct IH2 as (a & d & f & ? & ?). exists a, d, f. split; [by right|done].
    + destruct IH2 as (a & ? & ?). exists a. split; [by right|done].
  - split; [by repeat constructor|].
    apply Bind_reads_done in Er as (data & from & Hin & Hp).
    apply Bind_packet_Some in Hp as (raddr & -> & Hs & Hd).
    eexists _, data, raddr. split; [by left|]. by cbn.
  - split; [by repeat constructor|]. eexists. split; [by left|]. right; right. cbn.
    clear -Er. induction reads as [|[|e'|data from] reads IH]; cbn in Er; try done.
    + injection Er as ->. by left.
    + destruct (Bind_packet _ _ _ _); [done|]. right. by apply IH.
  - split; [by repeat constructor|done].
Qed.

(** C30. [Bind] sends only its request and only to the server, and when it
    returns an address, that address was in a well-formed response that carries
    the request's id and was read from the server's own address.  A client
    behind the address [from] learns [from]: the server's loop answers the bytes
    of its request with one datagram, and [Bind] returns the address in it once
    it arrives, whatever datagrams from elsewhere came before, after any number
    of attempts that timed out.  Both messages survive encoding and decoding,
    and the decoders accept nothing but what the encoders write, never the other
    kind: a request is the encoding of its id followed by ignored bytes, and a
    response is the framed id followed by the binary form of an address. *)
Theorem Bind_through_server {E} (tx : list Z) (server : AddrPort) (from : UDPAddr)
    (noise after : list (read_event E)) (timeouts : list (attempt E))
    (Htx : length tx = 16%nat) (Hs : AddrPort_wf server)
    (Hfrom : (length (udp_Zone from) <= 900)%nat)
    (Hnoise : Forall (fun ev => match ev with
                | ReadPacket _ (Some a) => UDPAddr_AddrPort a ≠ server
                | ReadPacket _ None => True
                | _ => False end) noise)
    (Hto : Forall (fun a => at_ctx a = None /\ at_write a = None
                            /\ at_reads a = [ReadDeadline]) timeouts) :
  (forall req (attempts : list (attempt E)),
    Forall (fun pkt => pkt = (Request_MarshalBinary req, UDPAddrFromAddrPort server))
      (Bind server req attempts).2
    /\ match (Bind server req attempts).1 with
       | BindOk addr =>
           exists a data raddr, a ∈ attempts /\ ReadPacket data (Some raddr) ∈ at_reads a
           /\ UDPAddr_AddrPort raddr = server
           /\ Response_UnmarshalBinary (into_buffer 1024 data)
              = Ok (mkResponse (req_TxID req) addr)
       | BindErr e =>
           exists a, a ∈ attempts
           /\ (at_ctx a = Some e \/ at_write a = Some e \/ ReadError e ∈ at_reads a)
       | BindPending => True
       end) /\
  (forall p txid addr, bytes_ok p -> length txid = 16%nat -> AddrPort_wf addr ->
     Request_UnmarshalBinary (Request_MarshalBinary (mkRequest txid)) = Ok (mkRequest txid)
     /\ Response_UnmarshalBinary (Response_MarshalBinary (mkResponse txid addr)) = Ok (mkResponse txid addr)
     /\ Request_UnmarshalBinary (Response_MarshalBinary (mkResponse txid addr)) = Err errInvalidResponse
     /\ Response_UnmarshalBinary (Request_MarshalBinary (mkRequest txid)) = Err errInvalidResponse
     /\ (forall r, Request_UnmarshalBinary p = Ok r <->
        exists tail, p = Request_MarshalBinary r ++ tail /\ length (req_TxID r) = 16%nat)
     /\ (forall r, Response_UnmarshalBinary p = Ok r <->
        exists tail, p = framed tResponse (resp_TxID r) tail /\ length (resp_TxID r) = 16%nat
        /\ AddrPort_UnmarshalBinary tail = Some (resp_Addr r))) /\
  exists reply,
    @Serve E [SRead (ReadPacket (Request_MarshalBinary (mkRequest tx)) (Some from)) None]
    = (ServePending, [(reply, from)])
    /\ (Bind server (mkRequest tx)
         (timeouts ++ [mkAttempt None None
            (noise ++ ReadPacket reply (Some (UDPAddrFromAddrPort server)) :: after)])).1
       = BindOk (UDPAddr_AddrPort from).
Proof.
  split; [apply Bind_sound|]. split; [by apply wire_format|].
  destruct (wire_roundtrip_lemma tx (UDPAddr_AddrPort from) Htx (UDPAddr_AddrPort_wf from))
    as [Hq Hr].
  set (reply := Response_MarshalBinary (mkResponse tx (UDPAddr_AddrPort from))) in *.
  exists reply. split.
  - assert (Serve_packet (Request_MarshalBinary (mkRequest tx)) (Some from)
            = Some (reply, from)) as Hsp; [|cbn [Serve]; by rewrite Hsp].
    apply Serve_packet_Some. exists from, (mkRequest tx). split_and!; [done| |done].
    rewrite into_buffer_id; [exact Hq|]. rewrite Request_MarshalBinary_framed by done.
    unfold framed. cbn [req_TxID]. rewrite !length_app, Htx. cbn. lia.
  - induction Hto as [|a timeouts (Hc & Hw & Hrd) _ IH];
      cbn [Bind app at_ctx at_write at_reads].
    + rewrite Bind_reads_skip.
      * assert (Bind_packet server (mkRequest tx) reply (Some (UDPAddrFromAddrPort server))
                = Some (UDPAddr_AddrPort from)) as Hbp; [|cbn [Bind_reads]; by rewrite Hbp].
        apply Bind_packet_Some. eexists. split; [done|].
        split; [by apply UDPAddr_roundtrip|].
        rewrite into_buffer_id; [exact Hr|]. by apply response_fits.
      * eapply Forall_impl; [exact Hnoise|]. intros [|e|data [a|]]; cbn; try done.
        intros Hne. by rewrite decide_True.
    + rewrite Hc, Hw, Hrd. cbn [Bind_reads].
      destruct (Bind server (mkRequest tx) _) as [r sent] eqn:Eb. exact IH.
Qed.

Lemma Bind_through_server_witness :
  let server := AddrPortFrom (Addr4 [1; 2; 3; 4]) 443 in
  let from := mkUDPAddr [9; 8; 7; 6] 5555 [] in
  exists reply,
    @Serve unit [SRead (ReadPacket (Request_MarshalBinary (mkRequest (replicate 16 3)))
                          (Some from)) None] = (ServePending, [(reply, from)])
    /\ (@Bind unit server (mkRequest (replicate 16 3))
         ([mkAttempt None None [ReadDeadline]] ++ [mkAttempt None None
            ([ReadPacket [1; 2] (Some from); ReadPacket [] None]
             ++ ReadPacket reply (Some (UDPAddrFromAddrPort server)) :: [])])).1
       = BindOk (UDPAddr_AddrPort from).
Proof.
  intros server from.
  refine (proj2 (proj2 (Bind_through_server (replicate 16 3) server from [ReadPacket [1; 2] (Some from); ReadPacket [] None] []
    [mkAttempt None None [ReadDeadline]] eq_refl _ _ _ _))).
  - split; cbn; [reflexivity|lia].
  - cbn. lia.
  - repeat constructor. apply (bool_decide_unpack _). vm_compute. exact I.
  - repeat constructor.
Defined.
