(* ===== verification/TTLMap.v ===== *)
(** The expiring map of [internal/platform/ttlmap.go].

    The Go map keeps a doubly linked list of items, least recently used first,
    and a map from keys to list elements.  Both refer to the same items, so the
    model has a store of items addressed by pointers: [order] is the list,
    [items] the map of pointers and [heap] the items.  Time is an oracle: the
    [i]-th call of [time.Now] or [time.Since] reads [now i]. *)
From S2P Require Import Prelude.
Local Open Scope Z_scope.

Section ttlmap.
Context {K V : Type} `{Countable K}.
Context (now : nat -> Z).

(** [type item struct] *)
Record item := mkItem { it_key : K; it_value : V; it_t : Z }.

(** [type TTLMap struct]; [next] is the next fresh pointer. *)
Record TTLMap := mkTTLMap {
  ttl : Z;
  order : list nat;
  items : gmap K nat;
  heap : gmap nat item;
  next : nat;
}.

(** [NewTTLMap] *)
Definition NewTTLMap (d : Z) : TTLMap := mkTTLMap d [] ∅ ∅ 0.

Definition deref (m : TTLMap) (e : nat) : outcome item := or_panic (heap m !! e).

(** The eviction loop of [GetOrSet]; [l] is the element [front] and its
    successors, and [i] counts the readings of the clock. *)
Fixpoint evict (m : TTLMap) (i : nat) (l : list nat) : outcome (TTLMap * nat) :=
  match l with
  | [] => Ret (m, i)
  | front :: rest =>
      it ← deref m front;
      if now i - it_t it <? ttl m then Ret (m, S i)
      else
        let m' := mkTTLMap (ttl m) (filter (fun e => e ≠ front) (order m))
                    (delete (it_key it) (items m)) (heap m) (next m) in
        evict m' (S i) rest
  end.

(** [TTLMap.get] *)
Definition get (m : TTLMap) (i : nat) (k : K) : outcome (option V * TTLMap * nat) :=
  match items m !! k with
  | None => Ret (None, m, i)
  | Some elem =>
      it ← deref m elem;
      let it' := mkItem (it_key it) (it_value it) (now i) in
      Ret (Some (it_value it),
           mkTTLMap (ttl m) (filter (fun e => e ≠ elem) (order m) ++ [elem]) (items m)
             (<[elem := it']> (heap m)) (next m), S i)
  end.

(** [TTLMap.set] *)
Definition set (m : TTLMap) (i : nat) (k : K) (v : V) : TTLMap * nat :=
  let e := mkItem k v (now i) in
  let el := next m in
  (mkTTLMap (ttl m) (order m ++ [el]) (<[k := el]> (items m)) (<[el := e]> (heap m)) (S el),
   S i).

(** [TTLMap.GetOrSet]; [newv] is what [newV()] returns, and the boolean says
    whether it was called. *)
Definition GetOrSet (m : TTLMap) (i : nat) (k : K) (newv : V)
    : outcome (V * bool * TTLMap * nat) :=
  '(m, i) ← evict m i (order m);
  '(r, m, i) ← get m i k;
  match r with
  | Some v => Ret (v, false, m, i)
  | None => let '(m, i) := set m i k newv in Ret (newv, true, m, i)
  end.

(** The abstract map: a key's value and the time it was last used. *)
Definition lookup_entry (m : TTLMap) (k : K) : option (V * Z) :=
  e ← items m !! k; it ← heap m !! e; Some (it_value it, it_t it).

(** * Invariant *)

(** The last-use time of an element. *)
Definition time_of (m : TTLMap) (e : nat) : Z := from_option it_t 0 (heap m !! e).

(** List and map describe the same items, and the list is sorted by last use;
    [T] bounds every time stored. *)
Record wf (T : Z) (m : TTLMap) : Prop := {
  wf_NoDup : NoDup (order m);
  wf_heap : forall e, e ∈ order m -> is_Some (heap m !! e) /\ (e < next m)%nat;
  wf_items : forall k e, items m !! k = Some e <->
               e ∈ order m /\ exists it, heap m !! e = Some it /\ it_key it = k;
  wf_sorted : StronglySorted Z.le (map (time_of m) (order m));
  wf_bound : forall e, e ∈ order m -> time_of m e <= T;
}.

Definition monotone : Prop := forall i j, (i <= j)%nat -> now i <= now j.

(** What the eviction loop does to a well-formed map. *)
Record evicted (m m' : TTLMap) (i i' : nat) : Prop := {
  ev_ttl : ttl m' = ttl m;
  ev_heap : heap m' = heap m;
  ev_next : next m' = next m;
  ev_split : exists dropped, order m = dropped ++ order m'
    /\ forall e, e ∈ dropped -> exists j, (i <= j < i')%nat /\ ttl m <= now j - time_of m e;
  ev_index : (i <= i')%nat;
  ev_fresh : match order m' with
             | [] => True
             | e :: _ => exists j, (i <= j < i')%nat /\ now j - time_of m e < ttl m
             end;
}.

Lemma NewTTLMap_wf T d : wf T (NewTTLMap d).
Proof.
  clear now.
  constructor; cbn; [constructor|set_solver| |constructor|set_solver].
  intros k e. rewrite lookup_empty. set_solver.
Qed.

Lemma wf_mono T T' m : T <= T' -> wf T m -> wf T' m.
Proof. intros HT [? ? ? ? Hb]. constructor; try done. intros e He. specialize (Hb e He). lia. Qed.

Lemma time_of_heap m m' e : heap m' !! e = heap m !! e -> time_of m' e = time_of m e.
Proof. unfold time_of. by intros ->. Qed.

Lemma map_time_of m m' l :
  (forall e, e ∈ l -> heap m' !! e = heap m !! e) -> map (time_of m') l = map (time_of m) l.
Proof.
  induction l as [|e l IH]; intros Hh; [done|]. cbn.
  rewrite (time_of_heap m m') by (apply Hh; by left). rewrite IH; [done|].
  intros e' He'. apply Hh. by right.
Qed.

Lemma filter_notin (l : list nat) x : x ∉ l -> filter (fun e => e ≠ x) l = l.
Proof.
  induction l as [|y l IH]; intros Hx; [done|]. rewrite filter_cons_True by set_solver.
  by rewrite IH by set_solver.
Qed.

(** Removing the front element of a well-formed map. *)
Lemma remove_front_wf T m front rest it :
  wf T m -> order m = front :: rest -> heap m !! front = Some it ->
  wf T (mkTTLMap (ttl m) (filter (fun e => e ≠ front) (order m))
          (delete (it_key it) (items m)) (heap m) (next m))
  /\ filter (fun e => e ≠ front) (order m) = rest.
Proof.
  intros [Hnd Hh Hi Hs Hb] Ho Hf. rewrite Ho in *.
  apply NoDup_cons in Hnd as [Hnotin Hnd].
  assert (filter (fun e => e ≠ front) (front :: rest) = rest) as Hfl.
  { rewrite filter_cons_False by (intros Hn; by apply Hn). by apply filter_notin. }
  rewrite Hfl. split; [|done]. constructor; cbn.
  - done.
  - intros e He. apply Hh. by right.
  - intros k e. rewrite lookup_delete_Some, Hi. split.
    + intros (Hne & Hin & it' & Hit & Hk). split; [|by exists it'].
      apply elem_of_cons in Hin as [->|]; [|done]. exfalso. congruence.
    + intros (Hin & it' & Hit & Hk). split; [|split; [by right|by exists it']].
      intros Hkk. assert (items m !! k = Some e) as H1 by (apply Hi; split; [by right|by exists it']).
      assert (items m !! it_key it = Some front) as H2
        by (apply Hi; split; [by left|by exists it]).
      rewrite Hkk, H1 in H2. injection H2 as ->. done.
  - cbn in Hs. by apply StronglySorted_inv in Hs as [Hs _].
  - intros e He. apply Hb. by right.
Qed.

Lemma evict_spec T m i :
  wf T m -> exists m' i', evict m i (order m) = Ret (m', i') /\ wf T m' /\ evicted m m' i i'.
Proof.
  remember (order m) as l eqn:Hl. symmetry in Hl. revert m i Hl.
  induction l as [|front rest IH]; intros m i Hl Hwf.
  - exists m, i. split; [done|]. split; [done|]. constructor; try done.
    + exists []. split; [done|]. set_solver.
    + by rewrite Hl.
  - destruct (wf_heap _ _ Hwf front) as [[it Hit] _]; [rewrite Hl; by left|].
    assert (time_of m front = it_t it) as Ht by (unfold time_of; by rewrite Hit).
    cbn [evict]. unfold deref. rewrite Hit. cbn [or_panic mbind outcome_bind].
    destruct (now i - it_t it <? ttl m) eqn:Efresh.
    + exists m, (S i). split; [done|]. split; [done|]. constructor; try done; [|lia|].
      * exists []. split; [done|]. set_solver.
      * rewrite Hl. exists i. rewrite Ht. apply Z.ltb_lt in Efresh. split; [lia|done].
    + apply Z.ltb_ge in Efresh.
      destruct (remove_front_wf T m front rest it Hwf Hl Hit) as [Hwf1 Ho1].
      set (m1 := mkTTLMap _ _ _ _ _) in *.
      destruct (IH m1 (S i) Ho1 Hwf1) as (m' & i' & He & Hwf' & [E1 E2 E3 E4 E5 E6]).
      exists m', i'. split; [done|]. split; [done|].
      destruct E4 as (dropped & Hd & Hold).
      constructor; cbn in *; try done; [|lia|].
      * exists (front :: dropped). split; [cbn; by rewrite Hl, <- Ho1, Hd|].
        intros e [->|He']%elem_of_cons.
        -- exists i. rewrite Ht. split; [lia|done].
        -- destruct (Hold e He') as (j & Hj & Hage). exists j. split; [lia|done].
      * destruct (order m') as [|e ?]; [done|]. destruct E6 as (j & Hj & Hage).
        exists j. split; [lia|done].
Qed.

(** Where an element is in the list decides nothing about its key: each key
    has one element. *)
Lemma items_inj T m k e it :
  wf T m -> e ∈ order m -> heap m !! e = Some it -> it_key it = k -> items m !! k = Some e.
Proof. intros Hwf He Hit Hk. apply (wf_items _ _ Hwf). split; [done|by exists it]. Qed.

Lemma sorted_filter (f : nat -> Z) (P : nat -> Prop) `{forall e, Decision (P e)} (l : list nat) :
  StronglySorted Z.le (map f l) -> StronglySorted Z.le (map f (filter P l)).
Proof.
  induction l as [|e l IH]; intros Hs; [done|].
  cbn in Hs. apply StronglySorted_inv in Hs as [Hs Hle]. rewrite filter_cons.
  case_decide; [|by apply IH]. cbn. constructor; [by apply IH|].
  rewrite Forall_forall in *. intros t (e' & -> & He')%list_elem_of_fmap.
  apply Hle. apply list_elem_of_fmap. apply list_elem_of_filter in He' as [_ He'].
  by exists e'.
Qed.

Lemma sorted_snoc (f : nat -> Z) (l : list nat) (e : nat) :
  StronglySorted Z.le (map f l) -> (forall e', e' ∈ l -> f e' <= f e) ->
  StronglySorted Z.le (map f (l ++ [e])).
Proof.
  induction l as [|x l IH]; intros Hs Hle; cbn.
  - repeat constructor.
  - cbn in Hs. apply StronglySorted_inv in Hs as [Hs Hx]. constructor.
    + apply IH; [done|]. intros e' He'. apply Hle. by right.
    + rewrite map_app. apply Forall_app. split; [done|]. repeat constructor.
      apply Hle. by left.
Qed.

Lemma get_hit T m i k e it :
  wf T m -> T <= now i -> items m !! k = Some e -> heap m !! e = Some it ->
  exists m', get m i k = Ret (Some (it_value it), m', S i) /\ wf (now i) m' /\ ttl m' = ttl m
  /\ lookup_entry m' k = Some (it_value it, now i)
  /\ forall k', k' ≠ k -> lookup_entry m' k' = lookup_entry m k'.
Proof.
  intros Hwf HT Hk Hit. unfold get, deref. rewrite Hk, Hit. cbn.
  eexists. split; [done|].
  pose proof (proj1 (wf_items _ _ Hwf k e) Hk) as (He & it0 & Hit0 & Hkey).
  rewrite Hit in Hit0. injection Hit0 as <-.
  set (it' := mkItem (it_key it) (it_value it) (now i)).
  assert (forall e', e' ≠ e -> <[e:=it']> (heap m) !! e' = heap m !! e') as Hh
    by (intros; by apply lookup_insert_ne).
  split_and!; cbn; [|done| |].
  - destruct Hwf as [Hnd Hheap Hitems Hs Hb]. constructor; cbn.
    + apply NoDup_app. split_and!; [by apply NoDup_filter| |by apply NoDup_singleton].
      intros x Hx Hx'. apply list_elem_of_filter in Hx. set_solver.
    + intros e' He'. assert (e' ∈ order m) as Hin.
      { apply elem_of_app in He' as [He'|He']; [by apply list_elem_of_filter in He' as [_ ?]|].
        apply list_elem_of_singleton in He' as ->. done. }
      destruct (Hheap e' Hin) as [Hsome Hlt]. split; [|done].
      destruct (decide (e' = e)) as [->|Hne]; [rewrite lookup_insert_eq; by eexists|].
      by rewrite Hh.
    + intros k' e'. rewrite Hitems, elem_of_app, list_elem_of_filter, list_elem_of_singleton.
      destruct (decide (e' = e)) as [->|Hne].
      * rewrite lookup_insert_eq. split; intros (_ & it1 & H1 & H2).
        -- split; [by right|]. exists it'. split; [done|]. cbn. congruence.
        -- split; [done|]. exists it. split; [done|]. by injection H1 as <-.
      * rewrite Hh by done. naive_solver.
    + apply sorted_snoc.
      * rewrite (map_time_of m); [by apply sorted_filter|].
        intros e' He'. cbn. apply Hh. by apply list_elem_of_filter in He' as [? _].
      * intros e' He'. apply list_elem_of_filter in He' as [Hne He'].
        unfold time_of at 2; cbn. rewrite lookup_insert_eq. cbn.
        rewrite (time_of_heap m) by (cbn; by apply Hh). specialize (Hb e' He'). lia.
    + intros e' He'. destruct (decide (e' = e)) as [->|Hne].
      * unfold time_of; cbn. rewrite lookup_insert_eq. cbn. lia.
      * rewrite (time_of_heap m) by (cbn; by apply Hh).
        assert (e' ∈ order m) as Hin; [|specialize (Hb e' Hin); lia].
        apply elem_of_app in He' as [He'|He']; [by apply list_elem_of_filter in He' as [_ ?]|].
        by apply list_elem_of_singleton in He'.
  - unfold lookup_entry; cbn. rewrite Hk. cbn. by rewrite lookup_insert_eq.
  - intros k' Hne. unfold lookup_entry; cbn. destruct (items m !! k') as [e'|] eqn:Hk'; [|done].
    cbn. rewrite Hh; [done|]. intros ->.
    apply (wf_items _ _ Hwf) in Hk' as (_ & it1 & H1 & H2). congruence.
Qed.

Lemma set_miss T m i k v :
  wf T m -> T <= now i -> items m !! k = None ->
  let '(m', i') := set m i k v in
  i' = S i /\ wf (now i) m' /\ ttl m' = ttl m
  /\ lookup_entry m' k = Some (v, now i)
  /\ forall k', k' ≠ k -> lookup_entry m' k' = lookup_entry m k'.
Proof.
  intros Hwf HT Hk. cbn. destruct Hwf as [Hnd Hheap Hitems Hs Hb].
  assert (next m ∉ order m) as Hfresh.
  { intros Hin. destruct (Hheap _ Hin). lia. }
  set (it' := mkItem k v (now i)).
  assert (forall e', e' ∈ order m -> <[next m:=it']> (heap m) !! e' = heap m !! e') as Hh
    by (intros e' He'; apply lookup_insert_ne; congruence).
  split_and!; [done| |done| |].
  - constructor; cbn.
    + apply NoDup_app. split_and!; [done| |by apply NoDup_singleton]. set_solver.
    + intros e' [He'|He'%list_elem_of_singleton]%elem_of_app; [|subst e'].

      * destruct (Hheap e' He'). rewrite Hh by done. split; [done|lia].
      * rewrite lookup_insert_eq. split; [by eexists|lia].
    + intros k' e'. rewrite elem_of_app, list_elem_of_singleton.
      destruct (decide (k' = k)) as [->|Hne].
      * rewrite lookup_insert_eq. split.
        -- intros [= <-]. split; [by right|]. exists it'. by rewrite lookup_insert_eq.
        -- intros ([Hin| ->] & it1 & H1 & H2); [|done]. exfalso.
           rewrite Hh in H1 by done.
           assert (items m !! k = Some e') by (apply Hitems; split; [done|by exists it1]).
           congruence.
      * rewrite lookup_insert_ne, Hitems by done. split.
        -- intros (Hin & it1 & H1 & H2). split; [by left|]. exists it1. by rewrite Hh.
        -- intros ([Hin| ->] & it1 & H1 & H2).
           ++ rewrite Hh in H1 by done. split; [done|by exists it1].
           ++ rewrite lookup_insert_eq in H1. injection H1 as <-. done.
    + apply sorted_snoc.
      * by rewrite (map_time_of m) by (cbn; apply Hh).
      * intros e' He'. unfold time_of at 2; cbn. rewrite lookup_insert_eq. cbn.
        rewrite (time_of_heap m) by (cbn; by apply Hh). specialize (Hb e' He'). lia.
    + intros e' [He'|He'%list_elem_of_singleton]%elem_of_app; [|subst e'].

      * rewrite (time_of_heap m) by (cbn; by apply Hh). specialize (Hb e' He'). lia.
      * unfold time_of; cbn. rewrite lookup_insert_eq. cbn. lia.
  - unfold lookup_entry; cbn. rewrite lookup_insert_eq. cbn. by rewrite lookup_insert_eq.
  - intros k' Hne. unfold lookup_entry; cbn. rewrite lookup_insert_ne by done.
    destruct (items m !! k') as [e'|] eqn:Hk'; [|done]. cbn. rewrite Hh; [done|].
    by apply Hitems in Hk' as [? _].
Qed.

(** What eviction does to one entry. *)
Lemma evicted_lookup T m m' i i' k :
  monotone -> wf T m -> wf T m' -> evicted m m' i i' ->
  (forall v t, lookup_entry m' k = Some (v, t) ->
     lookup_entry m k = Some (v, t) /\ now i - t < ttl m)
  /\ (forall v t, lookup_entry m k = Some (v, t) -> lookup_entry m' k = None ->
     ttl m <= now i' - t).
Proof.
  intros Hmono Hwf Hwf' [E1 E2 E3 (dropped & Hd & Hold) E5 E6]. unfold lookup_entry.
  split; intros v t.
  - intros Hl. destruct (items m' !! k) as [e|] eqn:Hk; [|done]. cbn in Hl.
    rewrite E2 in Hl. destruct (heap m !! e) as [it|] eqn:Hit; [|done].
    injection Hl as <- <-. pose proof (proj1 (wf_items _ _ Hwf' k e) Hk) as (He & it1 & H1 & H2).
    rewrite E2, Hit in H1. injection H1 as <-.
    assert (items m !! k = Some e) as ->.
    { eapply (items_inj T); try done. rewrite Hd. apply elem_of_app. by right. }
    cbn. rewrite Hit. split; [done|].
    destruct (order m') as [|e0 l'] eqn:Ho; [by apply not_elem_of_nil in He|].
    destruct E6 as (j & Hj & Hage).
    assert (time_of m e0 <= time_of m e) as Hle.
    { pose proof (wf_sorted _ _ Hwf') as Hs. rewrite Ho in Hs. cbn in Hs.
      rewrite !(map_time_of m m') in Hs by (intros; by rewrite E2).
      rewrite (time_of_heap m m') in Hs by (by rewrite E2).
      apply StronglySorted_inv in Hs as [_ Hs]. rewrite Forall_forall in Hs.
      apply elem_of_cons in He as [->|He]; [lia|]. apply Hs. apply list_elem_of_fmap. by exists e. }
    unfold time_of at 2 in Hle. rewrite Hit in Hle. cbn in Hle.
    pose proof (Hmono i j). lia.
  - intros Hl Hn. destruct (items m !! k) as [e|] eqn:Hk; [|done]. cbn in Hl.
    destruct (heap m !! e) as [it|] eqn:Hit; [|done]. injection Hl as <- <-.
    pose proof (proj1 (wf_items _ _ Hwf k e) Hk) as (He & it1 & H1 & H2).
    rewrite Hit in H1. injection H1 as <-. rewrite Hd in He.
    apply elem_of_app in He as [He|He].
    + destruct (Hold e He) as (j & Hj & Hage). unfold time_of in Hage. rewrite Hit in Hage.
      cbn in Hage. pose proof (Hmono j i'). lia.
    + rewrite (items_inj T m' k e it Hwf' He) in Hn; [|by rewrite E2|done].
      cbn in Hn. by rewrite E2, Hit in Hn.
Qed.

(** What a call of [GetOrSet] that starts at reading [i] leaves: the answer, the
    new map and the reading it ends at. *)
Record got_or_set (m : TTLMap) (i : nat) (k : K) (newv : V)
    (v : V) (called : bool) (m' : TTLMap) (i' : nat) : Prop := {
  gs_index : (i < i')%nat;
  gs_ttl : ttl m' = ttl m;
  gs_wf : wf (now i') m';
  gs_entry : exists j, (i <= j < i')%nat /\ lookup_entry m' k = Some (v, now j);
  gs_value : if called then
      v = newv /\ forall w t, lookup_entry m k = Some (w, t) -> ttl m <= now i' - t
    else exists t, lookup_entry m k = Some (v, t) /\ now i - t < ttl m;
  gs_others : forall k', k' ≠ k ->
    (forall w t, lookup_entry m' k' = Some (w, t) ->
       lookup_entry m k' = Some (w, t) /\ now i - t < ttl m)
    /\ (forall w t, lookup_entry m k' = Some (w, t) -> lookup_entry m' k' = None ->
       ttl m <= now i' - t);
}.

Lemma GetOrSet_spec (T : Z) (m : TTLMap) (i : nat) (k : K) (newv : V) :
  monotone -> wf T m -> T <= now i ->
  exists v called m' i', GetOrSet m i k newv = Ret (v, called, m', i')
  /\ got_or_set m i k newv v called m' i'.
Proof.
  intros Hmono Hwf HT. unfold GetOrSet. destruct (evict_spec T m i Hwf) as (m1 & i1 & -> & Hwf1 & Hev).
  cbn [mbind outcome_bind]. pose proof (ev_index _ _ _ _ Hev) as Hi1.
  assert (now i <= now i1) as Hni by (by apply Hmono).
  assert (now i1 <= now (S i1)) as HnS by (apply Hmono; lia).
  pose proof (fun k => evicted_lookup T m m1 i i1 k Hmono Hwf Hwf1 Hev) as Hlook.
  assert (forall m', (forall k', k' ≠ k -> lookup_entry m' k' = lookup_entry m1 k') ->
    forall k', k' ≠ k ->
       (forall w t, lookup_entry m' k' = Some (w, t) ->
          lookup_entry m k' = Some (w, t) /\ now i - t < ttl m)
       /\ (forall w t, lookup_entry m k' = Some (w, t) -> lookup_entry m' k' = None ->
          ttl m <= now (S i1) - t)) as Hothers.
  { intros m' Hsame k' Hne. rewrite (Hsame k' Hne). destruct (Hlook k') as [HA HB].
    split; [done|]. intros w t H1 H2. specialize (HB w t H1 H2). lia. }
  destruct (items m1 !! k) as [e|] eqn:Hk.
  - destruct (proj1 (wf_items _ _ Hwf1 k e) Hk) as (_ & it & Hit & _).
    destruct (get_hit T m1 i1 k e it Hwf1 ltac:(lia) Hk Hit)
      as (m2 & -> & Hwf2 & Ht2 & Hl2 & Ho2).
    cbn [mbind outcome_bind]. exists (it_value it), false, m2, (S i1).
    split; [done|]. constructor; [lia|by rewrite Ht2, (ev_ttl _ _ _ _ Hev)|by eapply wf_mono| | |by apply Hothers].
    + exists i1. split; [lia|done].
    + assert (lookup_entry m1 k = Some (it_value it, it_t it)) as Hl1
        by (unfold lookup_entry; rewrite Hk; cbn; by rewrite Hit).
      destruct (Hlook k) as [HA _]. exists (it_t it). by apply HA.
  - unfold get. rewrite Hk. cbn [mbind outcome_bind].
    pose proof (set_miss T m1 i1 k newv Hwf1 ltac:(lia) Hk) as Hset.
    destruct (set m1 i1 k newv) as [m2 i2]. destruct Hset as (-> & Hwf2 & Ht2 & Hl2 & Ho2).
    exists newv, true, m2, (S i1). split; [done|].
    constructor; [lia|by rewrite Ht2, (ev_ttl _ _ _ _ Hev)|by eapply wf_mono|exists i1; split; [lia|done]| |by apply Hothers].
    split; [done|]. intros w t Hl. destruct (Hlook k) as [_ HB].
    assert (lookup_entry m1 k = None) as Hn by (unfold lookup_entry; by rewrite Hk).
    specialize (HB w t Hl Hn). lia.
Qed.
(** * Properties *)

(** C20. [GetOrSet] on a well-formed map, with a clock that does not go back,
    returns without a nil dereference and keeps the map well formed.  It reuses
    the stored value exactly when it does not call [newV]; a value is reused
    only if it had not expired when the call began, and [newV] is called for a
    key that is present only if it has expired by the end.  Afterwards the key
    was last used during the call, and every other entry is one of the old
    entries, not expired when the call began; an old entry is missing only if
    it has expired by the end. *)
Theorem GetOrSet_correct (T : Z) (m : TTLMap) (i : nat) (k : K) (newv : V)
    (Hmono : monotone) (Hwf : wf T m) (HT : T <= now i) :
  exists v called m' i', GetOrSet m i k newv = Ret (v, called, m', i')
  /\ (i < i')%nat /\ wf (now i') m'
  /\ (exists j, (i <= j < i')%nat /\ lookup_entry m' k = Some (v, now j))
  /\ (if called then
        v = newv /\ forall w t, lookup_entry m k = Some (w, t) -> ttl m <= now i' - t
      else exists t, lookup_entry m k = Some (v, t) /\ now i - t < ttl m)
  /\ (forall k', k' ≠ k ->
       (forall w t, lookup_entry m' k' = Some (w, t) ->
          lookup_entry m k' = Some (w, t) /\ now i - t < ttl m)
       /\ (forall w t, lookup_entry m k' = Some (w, t) -> lookup_entry m' k' = None ->
          ttl m <= now i' - t)).
Proof.
  destruct (GetOrSet_spec T m i k newv Hmono Hwf HT) as (v & called & m' & i' & E & []).
  exists v, called, m', i'. by split_and!.
Qed.
End ttlmap.

(** The clock of the witness: one second per reading. *)
Definition ticking (i : nat) : Z := Z.of_nat i * 1000000000.

Lemma GetOrSet_correct_witness :
  exists (m : @TTLMap nat Z _ _),
    wf 0 m /\ exists v called m' i',
       GetOrSet ticking m 3 7%nat 42 = Ret (v, called, m', i') /\ (3 < i')%nat.
Proof.
  exists (NewTTLMap 5000000000).
  pose proof (NewTTLMap_wf (K:=nat) (V:=Z) 0 5000000000) as Hwf.
  split; [exact Hwf|].
  destruct (GetOrSet_correct ticking 0 (NewTTLMap 5000000000) 3 7%nat 42)
    as (v & c & m' & i' & H1 & H2 & _).
  - unfold monotone, ticking. intros. lia.
  - exact Hwf.
  - unfold ticking. lia.
  - exists v, c, m', i'. split; [exact H1|exact H2].
Defined.
