(* ===== verification/Relay.v ===== *)
(** The UDP relay of [internal/relay/relay.go] and [option.go].

    One call of [UDPRelay.Serve] is a reader goroutine and [workers] worker
    goroutines that share the inbox channel, the buffer pool, the route table
    and the counters.  Every goroutine is a program counter; [step] executes
    one shared operation of one of them, or one call of the exported methods
    from outside.  Buffers live in a heap and packets hold pointers to them, so
    that reuse of a buffer that is still in flight would be visible.  The
    network, the scheduler, the choices of [select] and of [sync.Pool] and the
    iteration order of Go maps are in the label. *)
From S2P Require Import Prelude Netip.

(** [make([]byte, 1500)] *)
Definition buf_size : nat := 1500.
Arguments buf_size : simpl never.

(** [type packet struct] *)
Record packet := mkPacket { pkt_n : nat; pkt_bufp : nat; pkt_addr : AddrPort }.

(** [type UDPRelay struct]; [bufPool] holds the pointers put back. *)
Record UDPRelay := mkRelay {
  workers : Z;
  routes : gmap AddrPort AddrPort;
  done : bool;
  bytesIn : Z;
  bytesOut : Z;
  droppedPackets : Z;
  bufPool : list nat;
}.

(** [type Stats struct] *)
Record Stats := mkStats { BytesIn : Z; BytesOut : Z; DroppedPackets : Z }.

(** [type Option]; the logger is not modelled. *)
Definition Option := UDPRelay -> UDPRelay.

Definition WithWorkers (n : Z) : Option := fun r =>
  mkRelay n (routes r) (done r) (bytesIn r) (bytesOut r) (droppedPackets r) (bufPool r).

Definition NewUDPRelay (numCPU : Z) (opts : list Option) : UDPRelay :=
  foldl (fun r opt => opt r) (mkRelay numCPU ∅ false 0 0 0 []) opts.

(** * Routes, statistics, shutdown *)

Definition with_routes (f : gmap AddrPort AddrPort -> gmap AddrPort AddrPort) (r : UDPRelay)
    : UDPRelay :=
  mkRelay (workers r) (f (routes r)) (done r) (bytesIn r) (bytesOut r) (droppedPackets r)
    (bufPool r).

Definition AddRoute (a b : AddrPort) : UDPRelay -> UDPRelay :=
  with_routes (fun m => <[b := a]> (<[a := b]> m)).

Definition RemoveRoute (a b : AddrPort) : UDPRelay -> UDPRelay :=
  with_routes (fun m => delete b (delete a m)).

(** The loop of [RemoveAllRoutes] visits the entries in the order [iter]; an
    entry that is gone when its turn comes is not produced. *)
Definition RemoveAllRoutes_loop (a : AddrPort) (iter : list AddrPort)
    (m : gmap AddrPort AddrPort) : gmap AddrPort AddrPort :=
  foldl (fun m k => match m !! k with
                    | Some dst => if decide (dst = a) then delete dst m else m
                    | None => m
                    end) m iter.

Definition RemoveAllRoutes (a : AddrPort) (iter : list AddrPort) : UDPRelay -> UDPRelay :=
  with_routes (fun m => RemoveAllRoutes_loop a iter (delete a m)).

Definition get_Stats (r : UDPRelay) : Stats :=
  mkStats (bytesIn r) (bytesOut r) (droppedPackets r).

(** [Close] closes the channel [done]; closing it again panics. *)
Definition Close (r : UDPRelay) : outcome UDPRelay :=
  if done r then Panic
  else Ret (mkRelay (workers r) (routes r) true (bytesIn r) (bytesOut r) (droppedPackets r)
              (bufPool r)).

(** [bufPool.Put] and [Add] on the counters. *)
Definition Put (b : nat) (r : UDPRelay) : UDPRelay :=
  mkRelay (workers r) (routes r) (done r) (bytesIn r) (bytesOut r) (droppedPackets r)
    (b :: bufPool r).

Definition with_pool (p : list nat) (r : UDPRelay) : UDPRelay :=
  mkRelay (workers r) (routes r) (done r) (bytesIn r) (bytesOut r) (droppedPackets r) p.

Definition bytesIn_Add (n : nat) (r : UDPRelay) : UDPRelay :=
  mkRelay (workers r) (routes r) (done r) (u64 (bytesIn r + Z.of_nat n)) (bytesOut r)
    (droppedPackets r) (bufPool r).

Definition bytesOut_Add (n : nat) (r : UDPRelay) : UDPRelay :=
  mkRelay (workers r) (routes r) (done r) (bytesIn r) (u64 (bytesOut r + Z.of_nat n))
    (droppedPackets r) (bufPool r).

Definition dropped_Add (r : UDPRelay) : UDPRelay :=
  mkRelay (workers r) (routes r) (done r) (bytesIn r) (bytesOut r)
    (u64 (droppedPackets r + 1)) (bufPool r).

(** * The goroutines of Serve *)

(** What made a goroutine return an error. *)
Inductive fault := SetReadDeadlineFailed | ReadFailed | WriteFailed | ShortWrite (n : nat).

(** The reader: [readPackets] and [readPacketWithTimeout]. *)
Inductive reader :=
| RGet                                   (* bufPool.Get *)
| RCheck (b : nat)                       (* select on done; set the deadline *)
| RRead (b : nat)                        (* ReadFromUDPAddrPort *)
| RCount (p : packet)                    (* bytesIn.Add *)
| RSend (p : packet)                     (* select on done and inbox *)
| RClose (e : option fault)              (* deferred close(inbox) *)
| RExit (e : option fault).

(** A worker; the flag says whether it drains the inbox after [done]. *)
Inductive worker :=
| WSelect
| WDrain
| WLookup (drain : bool) (p : packet)
| WSend (drain : bool) (p : packet) (dst : AddrPort)
| WDropped (drain : bool) (p : packet)   (* droppedPackets.Add, Put *)
| WSent (drain : bool) (p : packet)      (* bytesOut.Add, Put *)
| WExit (e : option fault).

(** What happened, for the statements: newest first. *)
Inductive event :=
| EvAddRoute (a b : AddrPort)
| EvReceived (src : AddrPort) (payload : list Z)
| EvSent (src dst : AddrPort) (payload : list Z)
| EvDropped (src : AddrPort) (payload : list Z)
| EvFailed (src dst : AddrPort) (payload : list Z)
| EvDiscarded (src : AddrPort) (payload : list Z).

(** A call of [Serve] in progress. *)
Record serving := mkServing {
  relay : UDPRelay;
  heap : gmap nat (list Z);
  next : nat;
  inbox : list packet;
  inbox_closed : bool;
  rd : reader;
  wks : list worker;
  log : list event;
}.

(** [Serve] starts the goroutines; [make(chan packet, workers)] panics on a
    negative size. *)
Definition Serve (r : UDPRelay) : outcome serving :=
  if decide (workers r < 0)%Z then Panic
  else Ret (mkServing r ∅ 0 [] false RGet
              (replicate (Z.to_nat (workers r)) WSelect) []).

(** What [Serve] returns, once every goroutine has: the first error. *)
Definition worker_returned (w : worker) : bool :=
  match w with WExit _ => true | _ => false end.

Definition Serve_returned (s : serving) : bool :=
  match rd s with RExit _ => forallb worker_returned (wks s) | _ => false end.

Definition worker_ok (w : worker) : bool :=
  match w with WExit None => true | _ => false end.

Definition Serve_returned_nil (s : serving) : bool :=
  match rd s with RExit None => forallb worker_ok (wks s) | _ => false end.

Definition set_reader (s : serving) (r : UDPRelay) (pc : reader) : serving :=
  mkServing r (heap s) (next s) (inbox s) (inbox_closed s) pc (wks s) (log s).

Definition set_worker (s : serving) (r : UDPRelay) (i : nat) (pc : worker) (ev : list event)
    : serving :=
  mkServing r (heap s) (next s) (inbox s) (inbox_closed s) (rd s) (<[i:=pc]> (wks s))
    (ev ++ log s).

(** The first [pkt.n] bytes of the buffer [pkt.bufp] points to. *)
Definition payload (h : gmap nat (list Z)) (p : packet) : list Z :=
  take (pkt_n p) (default [] (h !! pkt_bufp p)).

(** What the environment answers to the reader. *)
Inductive rlabel :=
| GetNew                                 (* the pool calls New *)
| GetPooled (b : nat)                    (* the pool returns [b] *)
| Poll                                   (* select on done, default *)
| DeadlineFails
| Timeout
| ReadFails
| Datagram (src : AddrPort) (data : list Z)
| CountIn
| Enqueue                                (* select takes inbox <- pkt *)
| SeeDone                                (* select takes <-r.done *)
| CloseInbox.

Definition reader_step (s : serving) (l : rlabel) : option serving :=
  let r := relay s in
  match rd s, l with
  | RGet, GetNew =>
      Some (mkServing r (<[next s := replicate buf_size 0%Z]> (heap s)) (S (next s)) (inbox s)
              (inbox_closed s) (RCheck (next s)) (wks s) (log s))
  | RGet, GetPooled b =>
      match list_find (fun b' => b' = b) (bufPool r) with
      | Some (i, _) => Some (set_reader s (with_pool (delete i (bufPool r)) r) (RCheck b))
      | None => None
      end
  | RCheck b, Poll =>
      if done r then Some (set_reader s (Put b r) (RClose None))
      else Some (set_reader s r (RRead b))
  | RCheck b, DeadlineFails =>
      if done r then None
      else Some (set_reader s (Put b r) (RClose (Some SetReadDeadlineFailed)))
  | RRead b, Timeout => Some (set_reader s r (RCheck b))
  | RRead b, ReadFails => Some (set_reader s (Put b r) (RClose (Some ReadFailed)))
  | RRead b, Datagram src data =>
      let buf := default [] (heap s !! b) in
      let n := Nat.min (length data) (length buf) in
      Some (mkServing r (<[b := go_copy buf data]> (heap s)) (next s) (inbox s) (inbox_closed s)
              (RCount (mkPacket n b src)) (wks s) (EvReceived src (take n data) :: log s))
  | RCount p, CountIn => Some (set_reader s (bytesIn_Add (pkt_n p) r) (RSend p))
  | RSend p, Enqueue =>
      if decide (Z.of_nat (length (inbox s)) < workers r)%Z
      then Some (mkServing r (heap s) (next s) (inbox s ++ [p]) (inbox_closed s) RGet (wks s)
                   (log s))
      else None
  | RSend p, SeeDone =>
      if done r
      then Some (mkServing (Put (pkt_bufp p) r) (heap s) (next s) (inbox s) (inbox_closed s)
                   (RClose None) (wks s)
                   (EvDiscarded (pkt_addr p) (payload (heap s) p) :: log s))
      else None
  | RClose e, CloseInbox =>
      Some (mkServing r (heap s) (next s) (inbox s) true (RExit e) (wks s) (log s))
  | _, _ => None
  end.

(** What the environment answers to a worker. *)
Inductive wlabel :=
| SelectDone                             (* select takes <-r.done *)
| Receive                                (* select takes <-inbox; range inbox *)
| Lookup                                 (* routes[pkt.addr] under the read lock *)
| Wrote (n : nat)
| WriteFails
| Finish.                                (* the counter, then the deferred Put *)

Definition resume (drain : bool) : worker := if drain then WDrain else WSelect.

(** [pkt, ok := <-inbox]: the next packet, or the end of a closed channel. *)
Definition worker_receive (s : serving) (i : nat) (drain : bool) : option serving :=
  match inbox s with
  | p :: rest =>
      Some (mkServing (relay s) (heap s) (next s) rest (inbox_closed s) (rd s)
              (<[i := WLookup drain p]> (wks s)) (log s))
  | [] => if inbox_closed s then Some (set_worker s (relay s) i (WExit None) []) else None
  end.

(** [writePacket], one shared operation at a time. *)
Definition worker_step (s : serving) (i : nat) (l : wlabel) : option serving :=
  let r := relay s in
  match wks s !! i, l with
  | Some WSelect, SelectDone => if done r then Some (set_worker s r i WDrain []) else None
  | Some WSelect, Receive => worker_receive s i false
  | Some WDrain, Receive => worker_receive s i true
  | Some (WLookup d p), Lookup =>
      match routes r !! pkt_addr p with
      | None => Some (set_worker s r i (WDropped d p)
                        [EvDropped (pkt_addr p) (payload (heap s) p)])
      | Some dst => Some (set_worker s r i (WSend d p dst) [])
      end
  | Some (WSend d p dst), Wrote n =>
      if decide (n = pkt_n p)
      then Some (set_worker s r i (WSent d p) [EvSent (pkt_addr p) dst (payload (heap s) p)])
      else Some (set_worker s (Put (pkt_bufp p) r) i (WExit (Some (ShortWrite n)))
                   [EvFailed (pkt_addr p) dst (payload (heap s) p)])
  | Some (WSend d p dst), WriteFails =>
      Some (set_worker s (Put (pkt_bufp p) r) i (WExit (Some WriteFailed))
              [EvFailed (pkt_addr p) dst (payload (heap s) p)])
  | Some (WDropped d p), Finish =>
      Some (set_worker s (Put (pkt_bufp p) (dropped_Add r)) i (resume d) [])
  | Some (WSent d p), Finish =>
      Some (set_worker s (Put (pkt_bufp p) (bytesOut_Add (pkt_n p) r)) i (resume d) [])
  | _, _ => None
  end.

(** Calls of the exported methods while [Serve] runs. *)
Inductive call :=
| CallAddRoute (a b : AddrPort)
| CallRemoveRoute (a b : AddrPort)
| CallRemoveAllRoutes (a : AddrPort) (iter : list AddrPort)
| CallClose.

Definition set_relay (s : serving) (r : UDPRelay) (ev : list event) : serving :=
  mkServing r (heap s) (next s) (inbox s) (inbox_closed s) (rd s) (wks s) (ev ++ log s).

Definition call_step (s : serving) (c : call) : outcome serving :=
  match c with
  | CallAddRoute a b => Ret (set_relay s (AddRoute a b (relay s)) [EvAddRoute a b])
  | CallRemoveRoute a b => Ret (set_relay s (RemoveRoute a b (relay s)) [])
  | CallRemoveAllRoutes a iter => Ret (set_relay s (RemoveAllRoutes a iter (relay s)) [])
  | CallClose => r ← Close (relay s); Ret (set_relay s r [])
  end.

Inductive label := LReader (l : rlabel) | LWorker (i : nat) (l : wlabel) | LCall (c : call).

(** One step; [None]: the operation is not enabled. *)
Definition step (s : serving) (l : label) : option (outcome serving) :=
  match l with
  | LReader l => Ret <$> reader_step s l
  | LWorker i l => Ret <$> worker_step s i l
  | LCall c => Some (call_step s c)
  end.

Definition steps_to (s s' : serving) : Prop := exists l, step s l = Some (Ret s').

(** Steps of the goroutines alone. *)
Definition runs_to (s s' : serving) : Prop :=
  exists l, step s l = Some (Ret s') /\ match l with LCall _ => False | _ => True end.

(** States of a [Serve] on a fresh relay with [n] workers; routes are added by
    calls in the schedule. *)
Definition reachable (n : Z) (s : serving) : Prop :=
  exists s0, Serve (NewUDPRelay n []) = Ret s0 /\ star steps_to s0 s.

(** Running a schedule, for the witnesses. *)
Fixpoint run (s : serving) (ls : list label) : option serving :=
  match ls with
  | [] => Some s
  | l :: ls => match step s l with Some (Ret s') => run s' ls | _ => None end
  end.

(** * The bookkeeping of packets and buffers *)

Definition reader_packets (r : reader) : list packet :=
  match r with RCount p | RSend p => [p] | _ => [] end.

Definition reader_bufs (r : reader) : list nat :=
  match r with
  | RCheck b | RRead b => [b]
  | RCount p | RSend p => [pkt_bufp p]
  | _ => []
  end.

(** Packets a worker has taken and not yet handled. *)
Definition worker_packets (w : worker) : list packet :=
  match w with WLookup _ p | WSend _ p _ => [p] | _ => [] end.

Definition worker_bufs (w : worker) : list nat :=
  match w with
  | WLookup _ p | WSend _ p _ | WDropped _ p | WSent _ p => [pkt_bufp p]
  | _ => []
  end.

Definition in_flight (s : serving) : list packet :=
  reader_packets (rd s) ++ inbox s ++ flat_map worker_packets (wks s).

(** The pointers in use or in the pool. *)
Definition owned (s : serving) : list nat :=
  reader_bufs (rd s) ++ map pkt_bufp (inbox s) ++ flat_map worker_bufs (wks s)
    ++ bufPool (relay s).

Definition content (h : gmap nat (list Z)) (p : packet) : AddrPort * list Z :=
  (pkt_addr p, payload h p).

Definition received_of (e : event) : list (AddrPort * list Z) :=
  match e with EvReceived src d => [(src, d)] | _ => [] end.

Definition handled_of (e : event) : list (AddrPort * list Z) :=
  match e with
  | EvSent src _ d | EvDropped src d | EvFailed src _ d | EvDiscarded src d => [(src, d)]
  | _ => []
  end.

Definition received (s : serving) : list (AddrPort * list Z) := flat_map received_of (log s).
Definition handled (s : serving) : list (AddrPort * list Z) := flat_map handled_of (log s).

(** A route that some [AddRoute] added. *)
Definition route_added (s : serving) (src dst : AddrPort) : Prop :=
  EvAddRoute src dst ∈ log s \/ EvAddRoute dst src ∈ log s.

(** * Lemmas *)

(** A worker's place in the list of workers. *)
Lemma worker_split s i w :
  wks s !! i = Some w ->
  exists l1 l2, wks s = l1 ++ w :: l2 /\ forall w', <[i := w']> (wks s) = l1 ++ w' :: l2.
Proof. intros (l1 & l2 & H & Hi & _)%lookup_split. eauto. Qed.

Lemma pool_take r b i x :
  list_find (fun b' => b' = b) (bufPool r) = Some (i, x) ->
  bufPool r ≡ₚ b :: delete i (bufPool r).
Proof.
  intros (Hl & -> & _)%list_find_Some. by apply delete_Permutation.
Qed.

(** Case analysis of a step. *)
Ltac label_cases l H :=
  destruct l as [l|i l|l]; cbn [step] in H;
  [ apply fmap_Some in H as (? & H & ?); simplify_eq;
    unfold reader_step in H; destruct (rd _) eqn:Hrd, l; try discriminate H;
    repeat case_match; simplify_eq
  | apply fmap_Some in H as (? & H & ?); simplify_eq;
    unfold worker_step, worker_receive in H; destruct (wks _ !! i) as [[]|] eqn:Hw, l;
    try discriminate H; repeat case_match; simplify_eq
  | destruct l; cbn [call_step] in H; unfold Close, mbind, outcome_bind in H;
    repeat case_match; simplify_eq ].

Ltac step_cases H :=
  let l := fresh "l" in destruct H as [l H]; label_cases l H.

(** Ownership: no buffer is owned twice, and each is an allocated buffer of
    the right size. *)
Record owns (s : serving) : Prop := {
  own_NoDup : NoDup (owned s);
  own_heap : forall b, b ∈ owned s ->
    (b < next s)%nat /\ exists buf, heap s !! b = Some buf /\ length buf = buf_size;
}.

(** A step that allocates nothing may only lose pointers. *)
Lemma owns_perm s s' :
  owns s -> owned s' ≡ₚ owned s -> next s' = next s ->
  (forall b buf, heap s !! b = Some buf -> length buf = buf_size ->
     exists buf', heap s' !! b = Some buf' /\ length buf' = buf_size) ->
  owns s'.
Proof.
  intros [Hnd Hh] Hp Hn Hheap. constructor.
  - by rewrite Hp.
  - intros b Hb. rewrite Hp in Hb. destruct (Hh b Hb) as (Hlt & buf & H1 & H2).
    rewrite Hn. split; [done|]. by eapply Hheap.
Qed.

(** The worker [i] of [wks s], before and after its step. *)
Ltac split_worker Hw :=
  let l1 := fresh "l1" in let l2 := fresh "l2" in
  let Hws := fresh "Hws" in let Hins := fresh "Hins" in
  destruct (worker_split _ _ _ Hw) as (l1 & l2 & Hws & Hins);
  rewrite Hins, Hws, !flat_map_app; cbn.

Lemma resume_bufs d : worker_bufs (resume d) = [].
Proof. by destruct d. Qed.

Lemma resume_packets d : worker_packets (resume d) = [].
Proof. by destruct d. Qed.

(** The bookkeeping of one step, up to permutation. *)
Ltac balance :=
  repeat match goal with
  | Hp : inbox _ = _ |- _ => rewrite Hp
  | Hp : rd _ = _ |- _ => rewrite Hp
  end;
  rewrite ?resume_bufs, ?resume_packets, ?map_app; cbn; try solve_Permutation.

Lemma owns_new s :
  owns s -> rd s = RGet ->
  owns (mkServing (relay s) (<[next s := replicate buf_size 0%Z]> (heap s)) (S (next s)) (inbox s)
          (inbox_closed s) (RCheck (next s)) (wks s) (log s)).
Proof.
  intros [Hnd Hh] Hrd. unfold owned in *. rewrite Hrd in *. cbn in *. constructor; unfold owned; cbn.
  - constructor; [|done]. intros Hin. destruct (Hh _ Hin). lia.
  - intros b [->|Hb]%elem_of_cons.
    + split; [lia|]. eexists. rewrite lookup_insert_eq. split; [done|]. apply length_replicate.
    + destruct (Hh b Hb) as (Hlt & buf & H1 & H2). split; [lia|]. exists buf.
      rewrite lookup_insert_ne by lia. done.
Qed.

Lemma length_go_copy {A} (dst src : list A) : length (go_copy dst src) = length dst.
Proof. unfold go_copy. rewrite length_app, length_take, length_drop. lia. Qed.

Lemma owns_step s s' : owns s -> steps_to s s' -> owns s'.
Proof.
  intros Ho Hs. step_cases Hs.
  all: try (eapply owns_perm; [exact Ho| |done|by eauto]; unfold owned; cbn;
    try split_worker Hw; by balance).
  - by apply owns_new.
  - eapply owns_perm; [exact Ho| |done|by eauto]. unfold owned; cbn.
    match goal with Hf : list_find _ _ = _ |- _ => rewrite (pool_take _ _ _ _ Hf) at 2 end. balance.
  - eapply owns_perm; [exact Ho| |done|]; unfold owned; cbn; [by balance|].
    intros b' buf Hb Hlen. destruct (decide (b' = b)) as [->|Hne].
    + exists (go_copy buf data). rewrite lookup_insert_eq, length_go_copy. by rewrite Hb.
    + exists buf. by rewrite lookup_insert_ne.
Qed.

(** ** Conservation of datagrams *)

Definition conserved (s : serving) : Prop :=
  received s ≡ₚ map (content (heap s)) (in_flight s) ++ handled s.

Lemma content_insert h b x ps :
  b ∉ map pkt_bufp ps -> map (content (<[b := x]> h)) ps = map (content h) ps.
Proof.
  induction ps as [|p ps IH]; intros Hb; [done|]. cbn in *.
  apply not_elem_of_cons in Hb as [Hne Hb]. rewrite IH by done.
  unfold content at 1 3, payload. by rewrite lookup_insert_ne.
Qed.

(** The buffers of the packets in the inbox and with the workers. *)
Lemma worker_packets_bufs ws b :
  b ∈ map pkt_bufp (flat_map worker_packets ws) -> b ∈ flat_map worker_bufs ws.
Proof.
  induction ws as [|w ws IH]; cbn; [done|]. rewrite map_app, !elem_of_app.
  intros [Hb|Hb]; [left|right; by apply IH]. destruct w; try exact Hb; by apply not_elem_of_nil in Hb.
Qed.

Lemma others_not_owned s b :
  b ∉ map pkt_bufp (inbox s) ++ flat_map worker_bufs (wks s) ++ bufPool (relay s) ->
  b ∉ map pkt_bufp (inbox s ++ flat_map worker_packets (wks s)).
Proof.
  rewrite map_app, !elem_of_app. intros Hn [Hb|Hb%worker_packets_bufs]; tauto.
Qed.

Lemma payload_read (h : gmap nat (list Z)) (b : nat) (buf data : list Z) :
  take (Nat.min (length data) (length buf)) (default [] (<[b := go_copy buf data]> h !! b))
  = take (Nat.min (length data) (length buf)) data.
Proof.
  rewrite lookup_insert_eq. cbn. unfold go_copy. rewrite take_app, length_take, take_take.
  replace (_ - _) with 0 by lia. rewrite take_0, app_nil_r. f_equal. lia.
Qed.

Lemma conserved_step s s' : owns s -> conserved s -> steps_to s s' -> conserved s'.
Proof.
  intros Ho Hc Hs. unfold conserved, received, handled, in_flight in *. step_cases Hs; cbn.
  all: try (rewrite ?Hrd in Hc; cbn in Hc; rewrite Hc; by balance).
  all: try (revert Hc; split_worker Hw; intros ->; rewrite ?map_app; cbn; by balance).
  - (* a new buffer *)
    cbn in Hc. rewrite content_insert; [exact Hc|].
    apply others_not_owned. intros Hin. destruct (own_heap _ Ho (next s)) as [? _]; [|lia].
    unfold owned. by rewrite Hrd.
  - (* a datagram *)
    cbn in Hc. rewrite content_insert.
    + rewrite Hc. unfold content at 2, payload; cbn. by rewrite payload_read.
    + apply others_not_owned. pose proof (own_NoDup _ Ho) as Hnd. unfold owned in Hnd.
      rewrite Hrd in Hnd. cbn in Hnd. by apply NoDup_cons in Hnd as [? _].
Qed.

(** ** Routes come from AddRoute *)

(** Every route in use, in the table or in the log, was added. *)
Record routed (s : serving) : Prop := {
  rt_table : forall src dst, routes (relay s) !! src = Some dst -> route_added s src dst;
  rt_sending : forall d p dst, WSend d p dst ∈ wks s -> route_added s (pkt_addr p) dst;
  rt_sent : forall src dst data, EvSent src dst data ∈ log s -> route_added s src dst;
}.

Lemma RemoveAllRoutes_loop_absent a iter m :
  m !! a = None -> RemoveAllRoutes_loop a iter m = m.
Proof.
  induction iter as [|k iter IH]; intros Ha; [done|]. cbn.
  destruct (m !! k) as [dst|]; [|by apply IH]. case_decide as Hd; [|by apply IH].
  subst dst. rewrite delete_id by done. by apply IH.
Qed.

(** A table whose entries all come from another one. *)
Lemma routed_routes s s' :
  routed s -> wks s' = wks s -> log s' = log s ->
  (forall k x, routes (relay s') !! k = Some x -> routes (relay s) !! k = Some x) -> routed s'.
Proof.
  intros [H1 H2 H3] Hw Hl Hr. unfold route_added in *.
  constructor; unfold route_added; rewrite ?Hw, ?Hl; [intros src dst Hk; by apply H1, Hr|exact H2|exact H3].
Qed.

(** A log that grew. *)
Lemma routed_worker s r q i w ev :
  routed s -> routes r = routes (relay s) ->
  (forall d p dst, w = WSend d p dst -> route_added s (pkt_addr p) dst) ->
  (forall src dst data, EvSent src dst data ∈ ev -> route_added s src dst) ->
  routed (mkServing r (heap s) (next s) q (inbox_closed s) (rd s) (<[i:=w]> (wks s)) (ev ++ log s)).
Proof.
  intros [H1 H2 H3] Hr Hnew Hev.
  match goal with |- routed ?t => set (s' := t) end.
  assert (forall src dst, route_added s src dst -> route_added s' src dst)
    as Hmono by (unfold route_added; cbn; intros; rewrite !elem_of_app; tauto).
  constructor; cbn.
  - intros src dst. rewrite Hr. auto.
  - intros d p dst Hin. apply Hmono.
    apply list_elem_of_lookup in Hin as [j Hj]. destruct (decide (i = j)) as [->|Hne].
    + apply list_lookup_insert_Some in Hj as [(_ & -> & _)|(? & _)]; [|done]. by eapply Hnew.
    + rewrite list_lookup_insert_ne in Hj by done. eapply H2, list_elem_of_lookup_2, Hj.
  - intros src dst data [Hin|Hin]%elem_of_app; apply Hmono; eauto.
Qed.

Lemma routed_AddRoute s a b : routed s -> routed (set_relay s (AddRoute a b (relay s)) [EvAddRoute a b]).
Proof.
  intros [H1 H2 H3]. constructor; unfold route_added in *; cbn.
  - intros src dst. destruct (decide (src = b)) as [->|Hb].
    + rewrite lookup_insert_eq. intros [= ->]. right. by left.
    + rewrite lookup_insert_ne by done. destruct (decide (src = a)) as [->|Ha].
      * rewrite lookup_insert_eq. intros [= ->]. left. by left.
      * rewrite lookup_insert_ne by done. intros Hl. destruct (H1 _ _ Hl); [left|right]; by right.
  - intros d p dst Hin. destruct (H2 _ _ _ Hin); [left|right]; by right.
  - intros src dst data Hin. apply elem_of_cons in Hin as [[=]|Hin].
    destruct (H3 _ _ _ Hin); [left|right]; by right.
Qed.

Lemma routed_reader s r h n q c pc ev :
  routed s -> routes r = routes (relay s) ->
  (forall src dst data, EvSent src dst data ∉ ev) ->
  routed (mkServing r h n q c pc (wks s) (ev ++ log s)).
Proof.
  intros [H1 H2 H3] Hr Hev. constructor; unfold route_added in *; cbn.
  - intros src dst. rewrite Hr. intros Hl. rewrite !elem_of_app. destruct (H1 _ _ Hl); tauto.
  - intros d p dst Hin. rewrite !elem_of_app. destruct (H2 _ _ _ Hin); tauto.
  - intros src dst data [Hin|Hin]%elem_of_app; [by apply Hev in Hin|].
    rewrite !elem_of_app. destruct (H3 _ _ _ Hin); tauto.
Qed.

Lemma routed_step s s' : routed s -> steps_to s s' -> routed s'.
Proof.
  intros Hr Hs. pose proof Hr as [H1 H2 H3]. step_cases Hs.
  all: try (apply (routed_reader s _ _ _ _ _ _ []); [done|done|]; intros ???; apply not_elem_of_nil).
  all: try (apply (routed_reader s _ _ _ _ _ _ [_]); [done|done|];
            intros ???; rewrite list_elem_of_singleton; discriminate).
  all: try (apply (routed_worker s _ _ _ _ []);
            [done|done|intros ??? Heq; first [discriminate Heq|destruct drain; discriminate Heq|injection Heq as -> -> ->; eauto]|];
            intros ??? ?%not_elem_of_nil; done).
  all: try (apply (routed_worker s _ _ _ _ [_]); [done|done|by destruct drain|];
            intros ???; rewrite list_elem_of_singleton; intros [=]; subst;
            eapply H2, list_elem_of_lookup_2, Hw).
  - by apply routed_AddRoute.
  - eapply routed_routes; [exact Hr|done|done|]. cbn. intros k x Hk.
    by apply lookup_delete_Some in Hk as [_ [_ Hk]%lookup_delete_Some].
  - eapply routed_routes; [exact Hr|done|done|]. cbn. intros k x Hk.
    rewrite RemoveAllRoutes_loop_absent in Hk by apply lookup_delete_eq.
    by apply lookup_delete_Some in Hk as [_ Hk].
Qed.

(** ** Counters *)

Definition total (f : event -> nat) (s : serving) : Z := Z.of_nat (sum_list_with f (log s)).

Definition received_bytes (e : event) : nat :=
  match e with EvReceived _ d => length d | _ => 0 end.
Definition sent_bytes (e : event) : nat :=
  match e with EvSent _ _ d => length d | _ => 0 end.
Definition one_dropped (e : event) : nat := match e with EvDropped _ _ => 1 | _ => 0 end.

(** What the goroutines have done but not yet counted. *)
Definition reader_uncounted (r : reader) : nat := match r with RCount p => pkt_n p | _ => 0 end.
Definition sent_uncounted (w : worker) : nat := match w with WSent _ p => pkt_n p | _ => 0 end.
Definition dropped_uncounted (w : worker) : nat := match w with WDropped _ _ => 1 | _ => 0 end.

Record counted (s : serving) : Prop := {
  ct_size : Forall (fun p => pkt_n p <= buf_size) (in_flight s);
  ct_in : bytesIn (relay s) = u64 (total received_bytes s - Z.of_nat (reader_uncounted (rd s)));
  ct_out : bytesOut (relay s)
           = u64 (total sent_bytes s - Z.of_nat (sum_list_with sent_uncounted (wks s)));
  ct_dropped : droppedPackets (relay s)
           = u64 (total one_dropped s - Z.of_nat (sum_list_with dropped_uncounted (wks s)));
}.

Lemma sum_list_with_split {A} (f : A -> nat) l1 x l2 :
  sum_list_with f (l1 ++ x :: l2) = f x + (sum_list_with f l1 + sum_list_with f l2).
Proof. rewrite sum_list_with_app. cbn. lia. Qed.

Lemma in_flight_worker s i w p :
  wks s !! i = Some w -> p ∈ worker_packets w -> p ∈ in_flight s.
Proof.
  intros Hw Hp. unfold in_flight. destruct (worker_split _ _ _ Hw) as (l1 & l2 & -> & _).
  rewrite flat_map_app. cbn. rewrite !elem_of_app. tauto.
Qed.

Lemma worker_packet_owned s i w p :
  wks s !! i = Some w -> p ∈ worker_packets w -> pkt_bufp p ∈ owned s.
Proof.
  intros Hw Hp. unfold owned. destruct (worker_split _ _ _ Hw) as (l1 & l2 & -> & _).
  rewrite flat_map_app. cbn. rewrite !elem_of_app.
  right; right; left; right; left. destruct w; cbn in Hp; try by apply not_elem_of_nil in Hp.
  all: apply list_elem_of_singleton in Hp as ->; by left.
Qed.

(** A packet carries exactly [pkt_n] bytes of its buffer. *)
Lemma payload_length s i w p :
  owns s -> counted s -> wks s !! i = Some w -> p ∈ worker_packets w ->
  length (payload (heap s) p) = pkt_n p.
Proof.
  intros Ho Hc Hw Hp. unfold payload.
  destruct (own_heap _ Ho _ (worker_packet_owned _ _ _ _ Hw Hp)) as (_ & buf & -> & Hlen).
  pose proof (ct_size _ Hc) as Hs. rewrite Forall_forall in Hs.
  specialize (Hs p (in_flight_worker _ _ _ _ Hw Hp)). cbn. rewrite length_take. lia.
Qed.

(** The reader's buffer while it reads. *)
Lemma reader_buf s b :
  owns s -> rd s = RRead b -> exists buf, heap s !! b = Some buf /\ length buf = buf_size.
Proof.
  intros Ho Hr. destruct (own_heap _ Ho b) as (_ & H); [|exact H].
  unfold owned. rewrite Hr. by left.
Qed.

Lemma u64_count a x b : a = u64 x -> u64 (a + b) = u64 (x + b).
Proof. intros ->. apply u64_add_l. Qed.

Ltac Forall_tauto :=
  repeat match goal with Hp : inbox _ = _ |- _ => rewrite Hp end;
  rewrite ?resume_packets; cbn;
  repeat first [rewrite Forall_app|rewrite Forall_cons|rewrite Forall_nil]; tauto.

Lemma counted_size_step s s' :
  owns s -> counted s -> steps_to s s' -> Forall (fun p => pkt_n p <= buf_size) (in_flight s').
Proof.
  intros Ho [Hc _ _ _] Hs. pose proof (reader_buf s) as Hbuf. unfold in_flight in *.
  step_cases Hs; cbn.
  all: try exact Hc; revert Hc.
  all: try split_worker Hw; try Forall_tauto.
  cbn. rewrite !Forall_cons. intros Hc. split; [|exact Hc]. cbn.
  destruct (Hbuf b Ho eq_refl) as (buf & -> & Hlen). cbn. lia.
Qed.

Ltac worker_sums Hw :=
  let l1 := fresh "l1" in let l2 := fresh "l2" in
  let Hws := fresh "Hws" in let Hins := fresh "Hins" in
  destruct (worker_split _ _ _ Hw) as (l1 & l2 & Hws & Hins);
  rewrite ?Hins; rewrite Hws in *; rewrite !sum_list_with_split in *; cbn in *.

Lemma counted_step s s' : owns s -> counted s -> steps_to s s' -> counted s'.
Proof.
  intros Ho Hc Hs. pose proof (counted_size_step _ _ Ho Hc Hs) as Hsize.
  pose proof (payload_length s) as Hpl. pose proof (reader_buf s) as Hbuf.
  pose proof Hc as [_ Hin Hout Hdr].
  step_cases Hs; constructor; try exact Hsize; clear Hsize; cbn; try done; unfold total in *; cbn.
  all: try (destruct (Hbuf b Ho eq_refl) as (buf & Hb & Hlen); rewrite Hb; cbn).
  all: try (specialize (Hpl i _ p Ho Hc Hw ltac:(by left)); try rewrite Hpl);
    clear Hpl Hbuf.
  all: try (destruct drain); try worker_sums Hw.
  all: first [rewrite Hin|rewrite Hout|rewrite Hdr]; rewrite ?u64_add_l; f_equal;
    rewrite ?length_take; cbn; lia.
Qed.

(** ** How the goroutines end *)

Definition one_discarded (e : event) : nat := match e with EvDiscarded _ _ => 1 | _ => 0 end.

(** What has been sent or counted as dropped, and what the reader has thrown
    away without counting it. *)
Definition kept_of (e : event) : list (AddrPort * list Z) :=
  match e with EvSent src _ d | EvDropped src d => [(src, d)] | _ => [] end.
Definition lost_of (e : event) : list (AddrPort * list Z) :=
  match e with EvDiscarded src d => [(src, d)] | _ => [] end.

(** When a worker has returned without an error the inbox is closed and empty;
    a worker that failed has returned; only [Close] ends the reader without an
    error, and at most one datagram is discarded then. *)
Record exits (n : Z) (s : serving) : Prop := {
  ex_workers : workers (relay s) = n;
  ex_length : length (wks s) = Z.to_nat n;
  ex_inbox : (length (inbox s) <= Z.to_nat n)%nat;
  ex_closed : inbox_closed s = true <-> exists e, rd s = RExit e;
  ex_ok : WExit None ∈ wks s -> inbox_closed s = true /\ inbox s = [];
  ex_failed : forall src dst d, EvFailed src dst d ∈ log s -> exists e, WExit (Some e) ∈ wks s;
  ex_done : (rd s = RClose None \/ rd s = RExit None) -> done (relay s) = true;
  ex_discarded : (sum_list_with one_discarded (log s)
                  <= match rd s with RClose _ | RExit _ => 1 | _ => 0 end)%nat;
}.

Lemma wks_insert_inv s i w' x : x ∈ <[i := w']> (wks s) -> x = w' \/ x ∈ wks s.
Proof.
  intros Hin. apply list_elem_of_lookup in Hin as [j Hj].
  apply list_lookup_insert_Some in Hj as [(_ & -> & _)|(_ & Hj)]; [by left|right].
  by eapply list_elem_of_lookup_2.
Qed.

Lemma wks_insert_new s i w w' : wks s !! i = Some w -> w' ∈ <[i := w']> (wks s).
Proof.
  intros Hi. eapply (list_elem_of_lookup_2 _ i). rewrite list_lookup_insert_eq; [done|].
  by eapply lookup_lt_Some.
Qed.

Lemma wks_insert_old s i w w' x :
  wks s !! i = Some w -> w <> x -> x ∈ wks s -> x ∈ <[i := w']> (wks s).
Proof.
  intros Hi Hne [j Hj]%list_elem_of_lookup. apply (list_elem_of_lookup_2 _ j).
  rewrite list_lookup_insert_ne; [done|]. congruence.
Qed.

(** The part about workers, for a step of worker [i]. *)
Lemma exits_worker n s r i w w' ev q :
  exits n s -> wks s !! i = Some w -> (forall e, w <> WExit e) ->
  workers r = workers (relay s) -> (done (relay s) = true -> done r = true) ->
  sum_list_with one_discarded ev = 0 ->
  (inbox s = [] -> q = []) -> (length q <= length (inbox s))%nat ->
  (w' = WExit None -> inbox_closed s = true /\ q = []) ->
  ((exists src dst d, EvFailed src dst d ∈ ev) -> exists e, w' = WExit (Some e)) ->
  exits n (mkServing r (heap s) (next s) q (inbox_closed s) (rd s) (<[i := w']> (wks s))
             (ev ++ log s)).
Proof.
  intros [H1 H2 H3 H4 H5 H6 H7 H8] Hi Hne Hr Hd Hev Hq Hlen Hok Hfail. constructor; cbn.
  - congruence.
  - by rewrite length_insert.
  - lia.
  - done.
  - intros [<-|Hin]%wks_insert_inv; [by apply Hok|]. destruct (H5 Hin) as [? ?]. auto.
  - intros src dst d [Hin|Hin]%elem_of_app.
    + destruct Hfail as [e ->]; [by eauto|]. exists e. by eapply wks_insert_new.
    + destruct (H6 _ _ _ Hin) as [e He]. exists e. by eapply wks_insert_old.
  - auto.
  - rewrite sum_list_with_app. lia.
Qed.

Lemma exits_step n s s' : exits n s -> steps_to s s' -> exits n s'.
Proof.
  intros He Hs. step_cases Hs.
  all: try (eapply (exits_worker n s _ i _ _ []);
    [exact He|exact Hw|..]; cbn; try done; try (destruct drain; done);
    try (intros [? [? [? ?%not_elem_of_nil]]]; done);
    repeat match goal with Hp : inbox _ = _ |- _ => rewrite Hp end; cbn; try done; lia).
  all: try (eapply (exits_worker n s _ i _ _ [_]);
    [exact He|exact Hw|..]; cbn; try done; try (by eauto);
    intros [? [? [? ?%list_elem_of_singleton]]]; done).
  all: pose proof He as [H1 H2 H3 H4 H5 H6 H7 H8]; rewrite ?Hrd in *.
  all: constructor; cbn; rewrite ?Hrd; try done.
  all: try (split; [intros Hc; by apply H4 in Hc as [? [=]]|by intros [? [=]]]).
  all: try (intros ??? [[=]|Hin]%elem_of_cons; by eapply H6).
  all: try (intros [[=]|[=]]; subst; apply H7; by left).
  all: try lia.
  - rewrite length_app. cbn. lia.
  - intros Hin. destruct (H5 Hin) as [Hc _]. by apply H4 in Hc as [? [=]].
  - by split; [eexists|].
  - intros Hin. by destruct (H5 Hin).
Qed.

(** * Reachable states *)

Record relay_inv (n : Z) (s : serving) : Prop := {
  ri_owns : owns s;
  ri_conserved : conserved s;
  ri_routed : routed s;
  ri_counted : counted s;
  ri_exits : exits n s;
}.

Lemma relay_inv_start n s :
  Serve (NewUDPRelay n []) = Ret s -> relay_inv n s.
Proof.
  unfold Serve, NewUDPRelay. cbn. case_decide as Hn; [done|]. intros [= <-].
  assert (forall A (f : worker -> list A) k, f WSelect = [] -> flat_map f (replicate k WSelect) = [])
    as Hf by (intros A f k Hk; induction k; cbn; by rewrite ?Hk).
  assert (forall (f : worker -> nat) k, f WSelect = 0 -> sum_list_with f (replicate k WSelect) = 0)
    as Hg by (intros f k Hk; induction k; cbn; by rewrite ?Hk).
  assert (forall w, w ∈ replicate (Z.to_nat n) WSelect -> w = WSelect) as Hw
    by (intros w Hin; by apply elem_of_replicate in Hin as [-> _]).
  constructor.
  - constructor; unfold owned; cbn; rewrite Hf by done; [constructor|].
    intros b Hb. by apply not_elem_of_nil in Hb.
  - unfold conserved, in_flight. cbn. by rewrite Hf.
  - constructor; cbn.
    + intros src dst. by rewrite lookup_empty.
    + intros d p dst Hin. by apply Hw in Hin.
    + intros ??? Hin. by apply not_elem_of_nil in Hin.
  - constructor; cbn; unfold in_flight; cbn; rewrite ?Hf, ?Hg by done; done.
  - constructor; cbn; try done.
    + apply length_replicate.
    + lia.
    + split; [done|by intros [? [=]]].
    + intros Hin. by apply Hw in Hin.
    + intros ??? Hin. by apply not_elem_of_nil in Hin.
    + by intros [[=]|[=]].
Qed.

Lemma relay_inv_step n s s' : relay_inv n s -> steps_to s s' -> relay_inv n s'.
Proof.
  intros [H1 H2 H3 H4 H5] Hs. constructor.
  - by eapply owns_step.
  - by eapply conserved_step.
  - by eapply routed_step.
  - by eapply counted_step.
  - by eapply exits_step.
Qed.

Lemma relay_reachable_inv n s : reachable n s -> relay_inv n s.
Proof.
  intros (s0 & H0 & Hs). eapply star_invariant; [|exact Hs|by apply relay_inv_start].
  intros a b Ha Hb. by eapply relay_inv_step.
Qed.

Lemma run_reachable n s0 ls s :
  Serve (NewUDPRelay n []) = Ret s0 -> run s0 ls = Some s -> reachable n s.
Proof.
  intros H0 Hr. exists s0. split; [done|]. clear H0.
  revert s0 Hr. induction ls as [|l ls IH]; intros s0 Hr; cbn in Hr.
  - injection Hr as ->. constructor.
  - destruct (step s0 l) as [[s1|]|] eqn:Hl; try done.
    eapply star_step; [by exists l|]. by apply IH.
Qed.

(** * Termination after Close *)

(** Steps the goroutines can still take once [done] is closed. *)
Definition reader_work (r : reader) : nat :=
  match r with
  | RExit _ => 0 | RClose _ => 1 | RCheck _ => 2 | RGet => 3
  | RSend _ => 9 | RCount _ => 10 | RRead _ => 11
  end.

Definition worker_work (w : worker) : nat :=
  match w with
  | WExit _ => 0 | WDrain => 1 | WSelect => 2
  | WSent _ _ | WDropped _ _ => 3 | WSend _ _ _ => 4 | WLookup _ _ => 5
  end.

Definition work (s : serving) : nat :=
  reader_work (rd s) + 5 * length (inbox s) + sum_list_with worker_work (wks s).

Definition goroutine_label (l : label) : Prop := match l with LCall _ => False | _ => True end.

Lemma work_decreases s l s' :
  done (relay s) = true -> goroutine_label l -> step s l = Some (Ret s') ->
  work s' < work s /\ done (relay s') = true.
Proof.
  intros Hd Hl H. unfold work. label_cases l H; cbn; try done; try congruence.
  all: split; [|done]; rewrite ?Hrd.
  all: try worker_sums Hw; rewrite ?length_app;
    repeat match goal with Hp : inbox _ = _ |- _ => rewrite Hp end; cbn; try lia.
  all: destruct drain; cbn; lia.
Qed.

(** Some goroutine can move until [Serve] returns. *)
Lemma progress n s :
  exits n s -> done (relay s) = true -> Serve_returned s = false ->
  exists l s', goroutine_label l /\ step s l = Some (Ret s').
Proof.
  intros He Hd Hret.
  assert (forall l s', reader_step s l = Some s' -> exists l s', goroutine_label l /\ step s l = Some (Ret s'))
    as Hrs by (intros l s' E; exists (LReader l), s'; cbn; by rewrite E).
  unfold reader_step in Hrs. unfold Serve_returned in Hret.
  destruct (rd s) eqn:Hrd.
  - by eapply (Hrs GetNew).
  - eapply (Hrs Poll). by rewrite Hd.
  - by eapply (Hrs Timeout).
  - by eapply (Hrs CountIn).
  - eapply (Hrs SeeDone). by rewrite Hd.
  - by eapply (Hrs CloseInbox).
  - clear Hrs. apply forallb_false_lookup in Hret as (i & w & Hi & Hw).
    assert (inbox_closed s = true) as Hc by (apply (ex_closed _ _ He); by eexists).
    assert (forall l s', worker_step s i l = Some s' -> exists l s', goroutine_label l /\ step s l = Some (Ret s'))
      as Hws by (intros l s' E; exists (LWorker i l), s'; cbn; by rewrite E).
    unfold worker_step, worker_receive in Hws. rewrite Hi in Hws.
    destruct w; try done.
    + eapply (Hws SelectDone). by rewrite Hd.
    + destruct (inbox s) eqn:Hin; eapply (Hws Receive); [by rewrite Hc|done].
    + destruct (routes (relay s) !! pkt_addr p) eqn:Hr; by eapply (Hws Lookup).
    + by eapply (Hws WriteFails).
    + by eapply (Hws Finish).
    + by eapply (Hws Finish).
Qed.

Lemma finishes n s :
  relay_inv n s -> done (relay s) = true ->
  exists ls s', Forall goroutine_label ls /\ run s ls = Some s' /\ Serve_returned s' = true.
Proof.
  remember (work s) as k eqn:Hk. revert s Hk.
  induction (lt_wf k) as [k _ IH]. intros s -> Hinv Hd.
  destruct (Serve_returned s) eqn:Hret.
  - exists [], s. split; [constructor|done].
  - destruct (progress n s (ri_exits _ _ Hinv) Hd Hret) as (l & s1 & Hl & Hs).
    destruct (work_decreases _ _ _ Hd Hl Hs) as [Hlt Hd1].
    destruct (IH _ Hlt s1 eq_refl) as (ls & s2 & Hls & Hr & Hret2); [|done|].
    + eapply relay_inv_step; [exact Hinv|by exists l].
    + exists (l :: ls), s2. split; [by constructor|]. cbn. by rewrite Hs.
Qed.

Lemma run_bounded s ls s' :
  done (relay s) = true -> Forall goroutine_label ls -> run s ls = Some s' ->
  length ls + work s' <= work s /\ done (relay s') = true.
Proof.
  revert s. induction ls as [|l ls IH]; intros s Hd Hls Hr; cbn in *.
  - injection Hr as ->. split; [lia|done].
  - apply Forall_cons in Hls as [Hl Hls]. destruct (step s l) as [[s1|]|] eqn:Hs; try done.
    destruct (work_decreases _ _ _ Hd Hl Hs) as [Hlt Hd1].
    destruct (IH s1 Hd1 Hls Hr) as [Hb Hd']. split; [lia|done].
Qed.

Lemma run_inv n s ls s' : relay_inv n s -> run s ls = Some s' -> relay_inv n s'.
Proof.
  revert s. induction ls as [|l ls IH]; intros s Hinv Hr; cbn in Hr.
  - by injection Hr as ->.
  - destruct (step s l) as [[s1|]|] eqn:Hs; try done.
    eapply IH; [|exact Hr]. eapply relay_inv_step; [exact Hinv|by exists l].
Qed.

(** * Properties *)

(** C10. In every reachable state of a call of [Serve], whatever the schedule,
    the network and the route changes: the received datagrams are, as a
    multiset of source and bytes, exactly those in flight, still intact in
    their buffers, and those handled; each was handled once.  No buffer has two
    owners.  A datagram was only sent from [src] to [dst] if [AddRoute] joined
    the two. *)
Theorem relay_conserves (n : Z) (s : serving) (Hr : reachable n s) :
  received s ≡ₚ map (content (heap s)) (in_flight s) ++ handled s
  /\ NoDup (owned s)
  /\ forall src dst data, EvSent src dst data ∈ log s -> route_added s src dst.
Proof.
  destruct (relay_reachable_inv _ _ Hr) as [Ho Hc Hrt _ _].
  split_and!; [exact Hc|apply own_NoDup; exact Ho|apply rt_sent; exact Hrt].
Qed.

Lemma sum_list_with_0 {A} (f : A -> nat) l : (forall x, x ∈ l -> f x = 0) -> sum_list_with f l = 0.
Proof. induction l as [|x l IH]; intros H; cbn; [done|]. rewrite H by (by left). rewrite IH; [done|]. intros y Hy. apply H. by right. Qed.

(** Without failed writes, what has been handled is kept or lost. *)
Lemma handled_kept (l : list event) : (forall src dst data, EvFailed src dst data ∉ l) ->
  flat_map handled_of l ≡ₚ (flat_map kept_of l ++ flat_map lost_of l) /\
  length (flat_map lost_of l) = sum_list_with one_discarded l.
Proof.
  induction l as [|e l IH]; intros Hf; [done|].
  destruct IH as [H1 H2]; [intros src dst data Hin; apply (Hf src dst data); by right|].
  assert (forall x, (flat_map kept_of l ++ x :: flat_map lost_of l) ≡ₚ (x :: flat_map kept_of l ++ flat_map lost_of l)) as Hm
    by (intros x; by rewrite Permutation_middle).
  destruct e as [| | | |src dst data|]; cbn [flat_map handled_of kept_of lost_of app sum_list_with one_discarded length]; rewrite ?H1, ?H2, ?Hm; try done.
  exfalso. apply (Hf src dst data). by left.
Qed.

Lemma returned_nil n s : reachable n s -> Serve_returned_nil s = true ->
  done (relay s) = true
  /\ received s ≡ₚ handled s
  /\ (forall src dst data, EvFailed src dst data ∉ log s)
  /\ (received s ≡ₚ (flat_map kept_of (log s) ++ flat_map lost_of (log s)) /\ length (flat_map lost_of (log s)) <= 1)
  /\ get_Stats (relay s)
     = mkStats (u64 (total received_bytes s)) (u64 (total sent_bytes s)) (u64 (total one_dropped s)).
Proof.
  intros Hr Hret.
  destruct (relay_reachable_inv _ _ Hr) as [_ Hc _ Hct He]. unfold Serve_returned_nil in Hret.
  destruct (rd s) as [| | | | | |[|]] eqn:Hrd; try done.
  assert (forall w, w ∈ wks s -> w = WExit None) as Hall.
  { intros w Hw. rewrite forallb_forall in Hret. apply list_elem_of_In in Hw.
    specialize (Hret w Hw). by destruct w as [| | | | | |[]]. }
  assert (forall (f : worker -> list packet), f (WExit None) = [] -> flat_map f (wks s) = []) as Hfm.
  { clear -Hall. induction (wks s) as [|w ws IH]; intros f Hf; [done|]. cbn.
    rewrite (Hall w), Hf by (by left). apply IH; [|done]. intros w' Hw'. apply Hall. by right. }
  assert (inbox s = []) as Hin.
  { destruct (wks s) as [|w ws] eqn:Hws.
    - pose proof (ex_inbox _ _ He) as Hl. pose proof (ex_length _ _ He) as Hn.
      rewrite Hws in Hn. cbn in Hn. rewrite <- Hn in Hl. by destruct (inbox s); [|cbn in Hl; lia].
    - apply (ex_ok _ _ He). rewrite Hws, (Hall w) by (by left). by left. }
  assert (received s ≡ₚ handled s) as Hrec by (unfold conserved, in_flight in Hc; by rewrite Hrd, Hin, Hfm in Hc).
  assert (forall src dst data, EvFailed src dst data ∉ log s) as Hnf.
  { intros src dst data Hf. destruct (ex_failed _ _ He _ _ _ Hf) as [e Hw]. by apply Hall in Hw. }
  destruct (handled_kept _ Hnf) as [Hk Hlost].
  split_and!; [apply (ex_done _ _ He); by right|done|done|by rewrite Hrec| |].
  - rewrite Hlost. pose proof (ex_discarded _ _ He) as Hd. by rewrite Hrd in Hd.
  - unfold get_Stats. destruct Hct as [_ -> -> ->]. rewrite Hrd. cbn.
    rewrite !sum_list_with_0 by (by intros w ->%Hall). by rewrite !Z.sub_0_r.
Qed.

(** * Witnesses *)

Definition addr_a : AddrPort := AddrPortFrom (Addr4 [10; 0; 0; 1]%Z) 4000.
Definition addr_b : AddrPort := AddrPortFrom (Addr4 [10; 0; 0; 2]%Z) 5000.

(** One datagram from [addr_a] reaches the inbox, in a buffer chosen by [g]. *)
Definition deliver (g : rlabel) (data : list Z) : list label :=
  map LReader [g; Poll; Datagram addr_a data; CountIn; Enqueue].

Definition forward (i : nat) (n : nat) : list label :=
  map (LWorker i) [Receive; Lookup; Wrote n; Finish].

(** Two workers; a datagram is forwarded in one direction, one is dropped, one
    more is in flight when the relay is closed. *)
Definition busy : list label :=
  [LCall (CallAddRoute addr_a addr_b)] ++ deliver GetNew [1; 2; 3]%Z ++ forward 0 3
  ++ deliver (GetPooled 0) [4; 5]%Z ++ [LWorker 1 Receive].

Definition shut_down : list label :=
  [LCall CallClose; LReader GetNew; LReader Poll; LReader CloseInbox]
  ++ map (LWorker 1) [Lookup; Wrote 2; Finish; Receive]
  ++ map (LWorker 0) [SelectDone; Receive].

Definition run_from_start (ls : list label) : option serving :=
  match Serve (NewUDPRelay 2 []) with Ret s => run s ls | Panic => None end.

Lemma run_from_start_reachable ls s : run_from_start ls = Some s -> reachable 2 s.
Proof.
  unfold run_from_start. destruct (Serve (NewUDPRelay 2 [])) as [s0|] eqn:E; [|done].
  intros H. exact (run_reachable 2 s0 ls s E H).
Qed.

(** A schedule's final state, observed by [f]. *)
Lemma run_observed {A} (f : serving -> A) ls x :
  f <$> run_from_start ls = Some x ->
  exists s, run_from_start ls = Some s /\ reachable 2 s /\ f s = x.
Proof.
  destruct (run_from_start ls) as [s|] eqn:E; [|done]. cbn. intros [= <-].
  exists s. split; [done|]. split; [by eapply run_from_start_reachable|done].
Qed.

Lemma relay_conserves_witness :
  exists s, run_from_start busy = Some s /\ length (in_flight s) = 1
  /\ received s ≡ₚ map (content (heap s)) (in_flight s) ++ handled s.
Proof.
  destruct (run_observed (fun s => length (in_flight s)) busy 1) as (s & E & Hr & Hl);
    [vm_compute; reflexivity|].
  exists s. split; [exact E|]. split; [exact Hl|]. exact (proj1 (relay_conserves 2 s Hr)).
Defined.

(** Every worker fails to write once, then the reader fills the inbox. *)
Definition failures : list label :=
  [LCall (CallAddRoute addr_a addr_b)]
  ++ deliver GetNew [1]%Z ++ map (LWorker 0) [Receive; Lookup; WriteFails]
  ++ deliver GetNew [2]%Z ++ map (LWorker 1) [Receive; Lookup; WriteFails]
  ++ deliver GetNew [3]%Z ++ deliver GetNew [4]%Z
  ++ map LReader [GetNew; Poll; Datagram addr_a [5]%Z; CountIn].

(** Without [Close], write errors do not make [Serve] return.  A worker
    that fails to write ends; once all have, the reader fills the inbox and
    blocks.  In the state below, with two workers, nothing is forwarded any
    more, [Serve] has not returned and no goroutine can move.  And
    [RemoveAllRoutes a] deletes the entry of [a] and nothing else, whatever the
    iteration order: the routes that lead to [a] survive it, and datagrams from
    their sources are still forwarded to [a]. *)
Lemma write_errors_stall (a : AddrPort) (iter : list AddrPort) (r : UDPRelay) :
  (exists s, reachable 2 s /\ forallb worker_returned (wks s) = true
  /\ length (inbox s) = 2 /\ Serve_returned s = false /\ done (relay s) = false
  /\ forall l, goroutine_label l -> step s l = None)
  /\ routes (RemoveAllRoutes a iter r) = delete a (routes r)
  /\ forall b, b <> a -> routes (RemoveAllRoutes a iter (AddRoute a b r)) !! b = Some a.
Proof.
  assert (forall r, routes (RemoveAllRoutes a iter r) = delete a (routes r)) as H.
  { intros r'. cbn. apply RemoveAllRoutes_loop_absent, lookup_delete_eq. }
  split; [clear|split; [apply H|intros b Hb; rewrite H; cbn; by rewrite lookup_delete_ne, lookup_insert_eq]].
  destruct (run_observed (fun s => (wks s, rd s, (length (inbox s), workers (relay s), done (relay s))))
    failures ([WExit (Some WriteFailed); WExit (Some WriteFailed)],
              RSend (mkPacket 1 4 addr_a), (2, 2%Z, false))) as (s & E & Hr & Hs);
    [vm_compute; reflexivity|].
  injection Hs as Hw Hrd Hi Hn Hd. clear E. exists s. split; [exact Hr|].
  unfold Serve_returned. rewrite Hw, Hrd. split_and!; try done.
  intros [l|i l|l] Hl; cbn; [| |done].
  - unfold reader_step. rewrite Hrd, Hi, Hn, Hd. by destruct l.
  - unfold worker_step. rewrite Hw. by destruct i as [|[|i]], l.
Qed.

(** The reader holds a datagram that has a route when the relay is closed. *)
Definition discards : list label :=
  [LCall (CallAddRoute addr_a addr_b)] ++ map LReader [GetNew; Poll; Datagram addr_a [1; 2; 3]%Z; CountIn]
  ++ [LCall CallClose] ++ map LReader [SeeDone; CloseInbox] ++ map (LWorker 0) [SelectDone; Receive]
  ++ map (LWorker 1) [SelectDone; Receive].

Lemma close_discards : exists s, reachable 2 s /\ Serve_returned_nil s = true /\ received s = [(addr_a, [1; 2; 3]%Z)]
  /\ route_added s addr_a addr_b /\ flat_map kept_of (log s) = [] /\ get_Stats (relay s) = mkStats 3 0 0.
Proof.
  destruct (run_observed (fun s => (Serve_returned_nil s, log s, get_Stats (relay s))) discards
      (true, [EvDiscarded addr_a [1; 2; 3]%Z; EvReceived addr_a [1; 2; 3]%Z; EvAddRoute addr_a addr_b], mkStats 3 0 0))
    as (s & _ & Hr & Hs); [vm_compute; reflexivity|].
  apply pair_equal_spec in Hs as [[H1 H2]%pair_equal_spec H3]. exists s. unfold received, route_added. rewrite H2.
  split; [exact Hr|]. split; [exact H1|]. split; [reflexivity|]. split; [left; set_solver|]. by split.
Qed.

(** * Termination *)

(** C33. [Serve] returns nil only after [Close].  Then no write has failed, the
    inbox is empty, and every received datagram has been sent or counted as
    dropped for want of a route, except for at most one: the reader throws away
    the datagram it holds when it sees the close, and no counter shows it.  This
    happens even with an empty inbox and idle workers, although [Close] is said
    to process all packets already read.  The statistics are the exact totals,
    modulo 2^64.  After [Close], however the goroutines are scheduled, they take
    at most [work s] more steps, and every such schedule can be continued until
    [Serve] has returned: the relay always stops.  Without [Close], write errors
    do not make [Serve] return: a worker that fails to write ends, and once all
    have, the reader fills the inbox and blocks; with two workers there is a
    state in which no goroutine can move.  [RemoveAllRoutes a] deletes the entry
    of [a] and nothing else, whatever the iteration order: datagrams from the
    sources routed to [a] are still forwarded to it. *)
Theorem Serve_returns (n : Z) (s : serving) (Hr : reachable n s) :
  (Serve_returned_nil s = true ->
     done (relay s) = true
     /\ received s ≡ₚ handled s
     /\ (forall src dst data, EvFailed src dst data ∉ log s)
     /\ (received s ≡ₚ (flat_map kept_of (log s) ++ flat_map lost_of (log s)) /\ length (flat_map lost_of (log s)) <= 1)
     /\ get_Stats (relay s)
        = mkStats (u64 (total received_bytes s)) (u64 (total sent_bytes s)) (u64 (total one_dropped s))) /\
  (exists s, reachable 2 s /\ Serve_returned_nil s = true /\ received s = [(addr_a, [1; 2; 3]%Z)]
     /\ route_added s addr_a addr_b /\ flat_map kept_of (log s) = [] /\ get_Stats (relay s) = mkStats 3 0 0) /\
  (done (relay s) = true -> forall ls s', Forall goroutine_label ls -> run s ls = Some s' ->
     length ls <= work s
     /\ exists ls' s'', Forall goroutine_label ls' /\ run s' ls' = Some s'' /\ Serve_returned s'' = true) /\
  (exists s, reachable 2 s /\ forallb worker_returned (wks s) = true
     /\ length (inbox s) = 2 /\ Serve_returned s = false /\ done (relay s) = false
     /\ forall l, goroutine_label l -> step s l = None) /\
  (forall a iter r, routes (RemoveAllRoutes a iter r) = delete a (routes r)
     /\ forall b, b <> a -> routes (RemoveAllRoutes a iter (AddRoute a b r)) !! b = Some a).
Proof.
  split; [|split; [exact close_discards|split; [|split; [apply (write_errors_stall addr_a [] (relay s))|intros; apply write_errors_stall]]]].
  2: intros Hd ls s' Hls Hrun; destruct (run_bounded _ _ _ Hd Hls Hrun) as [Hb Hd'];
    split; [lia|apply (finishes n); [|done]; eapply run_inv; [|exact Hrun]; by apply relay_reachable_inv].
  intros Hret. by apply (returned_nil n).
Qed.

Lemma Serve_returns_witness :
  exists s, run_from_start (busy ++ shut_down) = Some s /\ Serve_returned_nil s = true
  /\ get_Stats (relay s) = mkStats 5 5 0 /\ received s ≡ₚ handled s
  /\ exists ls' s'', Forall goroutine_label ls' /\ run s ls' = Some s'' /\ Serve_returned s'' = true.
Proof.
  destruct (run_observed (fun s => (Serve_returned_nil s, get_Stats (relay s), done (relay s)))
              (busy ++ shut_down) (true, mkStats 5 5 0, true)) as (s & E & Hr & Hs);
    [vm_compute; reflexivity|].
  apply pair_equal_spec in Hs as [[Hret Hst]%pair_equal_spec Hd]. exists s. split; [exact E|]. split; [exact Hret|].
  split; [exact Hst|]. split; [exact (proj1 (proj2 (proj1 (Serve_returns 2 s Hr) Hret)))|].
  exact (proj2 (proj1 (proj2 (proj2 (Serve_returns 2 s Hr))) Hd [] s (List.Forall_nil _) eq_refl)).
Defined.
