(* ===== verification/Errors.v ===== *)
(** Go error values, and the predicates on them in [internal/errcode] and
    [internal/platform/httpplatform/error.go].

    An error is a tree: leaves are sentinels, compared by identity, and the
    concrete types the program looks for; inner nodes are [fmt.Errorf] with
    [%w] and [errors.Join].  The nil error is [None] of [option goerror]. *)
From S2P Require Import Prelude.

(** * The errors package *)

#[local] Set Warnings "-register-all".

Inductive goerror :=
| Sentinel (name : string)                    (* a package-level errors.New *)
| StreamError (Remote : bool) (code : Z)      (* *quic.StreamError *)
| ApplicationError (Remote : bool) (code : Z) (* *quic.ApplicationError *)
| IdleTimeoutError                            (* *quic.IdleTimeoutError *)
| HTTP3Error (Remote : bool) (code : Z)       (* *http3.Error *)
| BadStatusCodeError (StatusCode : Z) (Body : list Z)
| BadRequestError (msg : string)              (* p2p: *badRequestError *)
| Wrapped (msg : string) (e : goerror)        (* fmt.Errorf("msg: %w", e) *)
| Joined (es : list goerror)                  (* errors.Join *)
| OtherError (msg : string).

(** [errors.Is] for a sentinel target: depth first through the tree. *)
Fixpoint Is (e : goerror) (target : string) : bool :=
  match e with
  | Sentinel n => String.eqb n target
  | Wrapped _ e => Is e target
  | Joined es => existsb (fun e => Is e target) es
  | _ => false
  end.

(** [errors.As]: the first error in depth-first pre-order of the wanted type,
    which [sel] recognises. *)
Fixpoint As {A} (sel : goerror -> option A) (e : goerror) : option A :=
  match sel e with
  | Some a => Some a
  | None =>
      match e with
      | Wrapped _ e => As sel e
      | Joined es =>
          (fix first es := match es with
                           | [] => None
                           | e :: es => match As sel e with Some a => Some a | None => first es end
                           end) es
      | _ => None
      end
  end.

(** On possibly nil errors. *)
Definition errors_Is (e : option goerror) (target : string) : bool :=
  match e with Some e => Is e target | None => false end.

Definition errors_As {A} (sel : goerror -> option A) (e : option goerror) : option A :=
  match e with Some e => As sel e | None => None end.

(** [errors.Join]: nil errors are dropped, and nil is returned when none is left. *)
Definition errors_Join (es : list (option goerror)) : option goerror :=
  match omap id es with [] => None | es => Some (Joined es) end.

(** [fmt.Errorf("msg: %w", e)] for a non-nil error. *)
Definition wrap (msg : string) (e : option goerror) : option goerror := Wrapped msg <$> e.

Definition as_StreamError (e : goerror) : option (bool * Z) :=
  match e with StreamError r c => Some (r, c) | _ => None end.
Definition as_ApplicationError (e : goerror) : option (bool * Z) :=
  match e with ApplicationError r c => Some (r, c) | _ => None end.
Definition as_HTTP3Error (e : goerror) : option (bool * Z) :=
  match e with HTTP3Error r c => Some (r, c) | _ => None end.
Definition as_IdleTimeoutError (e : goerror) : option unit :=
  match e with IdleTimeoutError => Some () | _ => None end.
Definition as_BadStatusCodeError (e : goerror) : option Z :=
  match e with BadStatusCodeError c _ => Some c | _ => None end.
Definition as_BadRequestError (e : goerror) : option string :=
  match e with BadRequestError m => Some m | _ => None end.

Definition context_Canceled : string := "context.Canceled".
Definition os_ErrDeadlineExceeded : string := "os.ErrDeadlineExceeded".
Definition quic_ErrServerClosed : string := "quic.ErrServerClosed".
Definition quic_ErrTransportClosed : string := "quic.ErrTransportClosed".

(** * internal/errcode *)

Module errcode.
Definition Exit : Z := 0.
Definition Unknown : Z := 1.
Definition HostClosed : Z := 2.
Definition PeerClosed : Z := 3.
Definition HostInternalError : Z := 4.
Definition PeerInternalError : Z := 5.
Definition Cancelled : Z := 6.

Definition IsLocalQUICConnClosed (err : option goerror) : bool :=
  match errors_As as_HTTP3Error err with
  | Some (remote, code) => negb remote && (code =? Exit)%Z
  | None => false
  end.

Definition IsRemoteQUICConnClosed (err : option goerror) : bool :=
  match errors_As as_HTTP3Error err with
  | Some (remote, code) => remote && (code =? Exit)%Z
  | None => false
  end.

Definition IsLocalStreamError (err : option goerror) (c : Z) : bool :=
  match errors_As as_StreamError err with
  | Some (remote, code) => negb remote && (code =? c)%Z
  | None => false
  end.

Definition IsLocalHTTPError (err : option goerror) (c : Z) : bool :=
  match errors_As as_HTTP3Error err with
  | Some (remote, code) => negb remote && (code =? c)%Z
  | None => false
  end.

Definition IsRemoteStreamError (err : option goerror) (c : Z) : bool :=
  match errors_As as_StreamError err with
  | Some (remote, code) => remote && (code =? c)%Z
  | None => false
  end.
End errcode.

(** * httpplatform/error.go *)

(** [tryReadBody]: at most 256 bytes; a read error is ignored. *)
Definition tryReadBody (r : list Z) : list Z := take 256 r.

Definition NewBadStatusCodeError (statusCode : Z) (body : list Z) : goerror :=
  BadStatusCodeError statusCode (tryReadBody body).

Definition IsUnauthorized (err : option goerror) : bool :=
  match errors_As as_BadStatusCodeError err with Some c => (c =? 401)%Z | None => false end.

Definition IsNotFound (err : option goerror) : bool :=
  match errors_As as_BadStatusCodeError err with Some c => (c =? 404)%Z | None => false end.

(** * Lemmas *)

(** The leaves of an error tree, in depth-first order. *)
Fixpoint leaves (e : goerror) : list goerror :=
  match e with
  | Wrapped _ e => leaves e
  | Joined es => flat_map leaves es
  | e => [e]
  end.

Definition is_leaf (e : goerror) : bool :=
  match e with Wrapped _ _ | Joined _ => false | _ => true end.

(** Induction through the lists of [Joined]. *)
Section goerror_nested.
Variable P : goerror -> Prop.
Hypothesis Hleaf : forall e, is_leaf e = true -> P e.
Hypothesis Hwrap : forall m e, P e -> P (Wrapped m e).
Hypothesis Hjoin : forall es, Forall P es -> P (Joined es).

Fixpoint goerror_nested (e : goerror) : P e :=
  match e with
  | Wrapped m e => Hwrap m e (goerror_nested e)
  | Joined es =>
      Hjoin es ((fix all es : Forall P es :=
                   match es with
                   | [] => List.Forall_nil P
                   | e :: es => @List.Forall_cons _ P e es (goerror_nested e) (all es)
                   end) es)
  | e => Hleaf e eq_refl
  end.
End goerror_nested.

(** [errors.Is] searches the leaves. *)
Lemma Is_leaves e target : Is e target = existsb (fun l => Is l target) (leaves e).
Proof.
  induction e as [e He|m e IH|es IH] using goerror_nested.
  - destruct e; try discriminate He; cbn; by rewrite ?orb_false_r.
  - exact IH.
  - cbn. induction IH as [|e es He _ IHes]; [done|]. cbn.
    by rewrite existsb_app, He, IHes.
Qed.

(** A selector recognises leaves only. *)
Definition leaf_selector {A} (sel : goerror -> option A) : Prop :=
  (forall m e, sel (Wrapped m e) = None) /\ (forall es, sel (Joined es) = None).

Lemma head_app {A} (l1 l2 : list A) :
  head (l1 ++ l2) = match head l1 with Some a => Some a | None => head l2 end.
Proof. by destruct l1. Qed.

(** [errors.As] finds the first leaf of the wanted type. *)
Lemma As_leaves {A} (sel : goerror -> option A) e :
  leaf_selector sel -> As sel e = head (omap sel (leaves e)).
Proof.
  intros [Hw Hj]. induction e as [e He|m e IH|es IH] using goerror_nested.
  - destruct e; try discriminate He; cbn; by destruct (sel _).
  - cbn. by rewrite Hw.
  - cbn. rewrite Hj. induction IH as [|e es He _ IHes]; [done|]. cbn.
    by rewrite omap_app, head_app, He, IHes.
Qed.

Lemma selectors_are_leaf :
  leaf_selector as_StreamError /\ leaf_selector as_ApplicationError /\ leaf_selector as_HTTP3Error
  /\ leaf_selector as_IdleTimeoutError /\ leaf_selector as_BadStatusCodeError
  /\ leaf_selector as_BadRequestError.
Proof. by repeat split. Qed.

Lemma errors_Join_nil es : errors_Join es = None <-> Forall (fun e => e = None) es.
Proof.
  unfold errors_Join. split.
  - intros H. induction es as [|[e|] es IH]; [constructor|done|]. constructor; [done|]. by apply IH.
  - induction 1 as [|? es -> _ IH]; [done|]. exact IH.
Qed.

Lemma errors_Join_Is es target :
  errors_Is (errors_Join es) target = existsb (fun e => errors_Is e target) es.
Proof.
  unfold errors_Join. assert (existsb (fun e => errors_Is e target) es
    = existsb (fun e => Is e target) (omap id es)) as ->.
  { induction es as [|[e|] es IH]; [done| |done]. cbn. by rewrite IH. }
  by destruct (omap id es).
Qed.

Lemma wrap_Is m e target : errors_Is (wrap m e) target = errors_Is e target.
Proof. by destruct e. Qed.

(** * Properties *)

(** The predicates of [errcode] depend only on the first error of their
    type in the tree, however it was wrapped and joined: for a tree whose first
    stream error is [(remote, code)], the stream predicates hold exactly for
    that side and that code, and likewise for HTTP/3 errors; a tree without one
    satisfies none of them. *)
Lemma errcode_first_error (e : goerror) (c : Z) :
  (errcode.IsLocalStreamError (Some e) c, errcode.IsRemoteStreamError (Some e) c)
    = match head (omap as_StreamError (leaves e)) with
      | Some (remote, code) => (negb remote && bool_decide (code = c), remote && bool_decide (code = c))
      | None => (false, false)
      end
  /\ (errcode.IsLocalHTTPError (Some e) c,
      errcode.IsLocalQUICConnClosed (Some e), errcode.IsRemoteQUICConnClosed (Some e))
    = match head (omap as_HTTP3Error (leaves e)) with
      | Some (remote, code) =>
          (negb remote && bool_decide (code = c), negb remote && bool_decide (code = errcode.Exit),
           remote && bool_decide (code = errcode.Exit))
      | None => (false, false, false)
      end.
Proof.
  pose proof selectors_are_leaf as (Hs & _ & Hh & _).
  assert (forall a b, (a =? b)%Z = bool_decide (a = b)) as Hb
    by (intros a b; by destruct (Z.eqb_spec a b); case_bool_decide).
  unfold errcode.IsLocalStreamError, errcode.IsRemoteStreamError, errcode.IsLocalHTTPError,
    errcode.IsLocalQUICConnClosed, errcode.IsRemoteQUICConnClosed, errors_As.
  rewrite (As_leaves _ e Hs), (As_leaves _ e Hh).
  destruct (head (omap as_StreamError _)) as [[??]|], (head (omap as_HTTP3Error _)) as [[??]|];
    by rewrite ?Hb.
Qed.
