(* ===== verification/Http.v ===== *)
(** The HTTP middleware: [internal/platform/httpplatform] (middleware.go,
    redirect.go) and [internal/platform/http3platform/advertise.go].

    A handler takes a response writer and a request and gives the writer it
    leaves, in a state [S] of the program that handlers may read and change;
    the functions of [net] on host and port are modelled, the rendering of a
    URL and the compression are parameters. *)
From S2P Require Import Prelude Auth Netip.
Local Open Scope Z_scope.

(** * Requests, responses, handlers *)

(** Strings are the lists of their bytes. *)
Abbreviation str := (list Z).

(** The fields of [http.Request] the program reads; [CtxKey] is the key its
    context carries ([auth.ContextWithKey], [auth.KeyFromContext]), and [ID]
    stands for what else comes with it: body, connection, stream. *)
Record Request := mkRequest {
  Host : str;
  Path : str;
  RawQuery : str;
  ProtoMajor : nat;
  Header : string -> str;
  PathValue : string -> str;
  CtxKey : option Key;
  RemoteAddr : str;
  Method : str;
  EscapedPath : str;
  ID : nat;
}.

Definition ContextWithKey (r : Request) (k : Key) : Request :=
  mkRequest (Host r) (Path r) (RawQuery r) (ProtoMajor r) (Header r) (PathValue r) (Some k)
    (RemoteAddr r) (Method r) (EscapedPath r) (ID r).

(** [Request.SetPathValue] *)
Definition SetPathValue (r : Request) (name : string) (v : str) : Request :=
  mkRequest (Host r) (Path r) (RawQuery r) (ProtoMajor r) (Header r)
    (fun n => if String.eqb n name then v else PathValue r n) (CtxKey r)
    (RemoteAddr r) (Method r) (EscapedPath r) (ID r).
Definition KeyFromContext (r : Request) : option Key := CtxKey r.

(** [http.ResponseWriter]: the first status written counts, and a write without
    one is a 200.  [w_logged] is the field [status] of a
    [responseWriterWithStatus] around it, which records the last status written
    through it. *)
Record ResponseWriter := mkWriter {
  w_header : gmap string (list str);
  w_status : option Z;
  w_body : str;
  w_logged : Z;
}.

Definition header_Set (w : ResponseWriter) (k : string) (v : str) : ResponseWriter :=
  mkWriter (<[k := [v]]> (w_header w)) (w_status w) (w_body w) (w_logged w).
Definition header_Add (w : ResponseWriter) (k : string) (v : str) : ResponseWriter :=
  mkWriter (<[k := default [] (w_header w !! k) ++ [v]]> (w_header w)) (w_status w) (w_body w) (w_logged w).
Definition header_Del (w : ResponseWriter) (k : string) : ResponseWriter :=
  mkWriter (delete k (w_header w)) (w_status w) (w_body w) (w_logged w).
Definition set_status (w : ResponseWriter) (code : Z) : ResponseWriter :=
  mkWriter (w_header w) (match w_status w with Some c => Some c | None => Some code end) (w_body w) (w_logged w).
Definition Write (w : ResponseWriter) (b : str) : ResponseWriter :=
  let w := set_status w 200 in mkWriter (w_header w) (w_status w) (w_body w ++ b) (w_logged w).

(** [responseWriterWithStatus.WriteHeader] around the [WriteHeader] of the
    server. *)
Definition WriteHeader (w : ResponseWriter) (code : Z) : ResponseWriter :=
  let w := set_status w code in mkWriter (w_header w) (w_status w) (w_body w) code.

(** [newResponseWriterWithStatus] and [Status] *)
Definition newResponseWriterWithStatus (w : ResponseWriter) : ResponseWriter :=
  mkWriter (w_header w) (w_status w) (w_body w) 0.
Definition Status (w : ResponseWriter) : Z := if decide (w_logged w = 0) then 200 else w_logged w.

(** [http.Error] *)
Definition http_Error (w : ResponseWriter) (msg : str) (code : Z) : ResponseWriter :=
  let w := header_Del w "Content-Length" in
  let w := header_Set w "Content-Type" (bytes_of_string "text/plain; charset=utf-8") in
  let w := header_Set w "X-Content-Type-Options" (bytes_of_string "nosniff") in
  Write (WriteHeader w code) (msg ++ [10]).

(** A handler, in a program whose state is [S]; [answer] is a handler that only
    writes. *)
Definition Handler (S : Type) : Type := ResponseWriter -> Request -> S -> outcome (ResponseWriter * S).
Definition answer {S} (w : ResponseWriter) : S -> outcome (ResponseWriter * S) := fun s => Ret (w, s).

(** [type Middleware] *)
Definition Middleware (S : Type) : Type := Handler S -> Handler S.

(** [Wrap]: the loop over [slices.Backward(mws)]; a nil middleware is skipped. *)
Definition Wrap {S} (h : Handler S) (mws : list (option (Middleware S))) : Handler S :=
  foldl (fun h mw => match mw with Some mw => mw h | None => h end) h (rev mws).

(** * Host and port: package net *)

Definition colon : Z := 58.
Definition lbrack : Z := 91.
Definition rbrack : Z := 93.

(** [IndexByteString] and [LastIndexByteString] *)
Fixpoint index_byte (c : Z) (s : str) : option nat :=
  match s with [] => None | x :: s => if x =? c then Some 0%nat else S <$> index_byte c s end.

Definition last_index_byte (c : Z) (s : str) : option nat :=
  (fun i => length s - 1 - i)%nat <$> index_byte c (rev s).

Definition contains (c : Z) (s : str) : bool := match index_byte c s with Some _ => true | None => false end.

(** [net.SplitHostPort]: [None] is an error, with empty results. *)
Definition SplitHostPort (hostport : str) : option (str * str) :=
  i ← last_index_byte colon hostport;
  match hostport with
  | [] => None
  | c :: _ =>
      '(host, j, k) ←
        (if c =? lbrack then
           e ← index_byte rbrack hostport;
           if decide (S e = length hostport) then None
           else if decide (S e = i) then Some (take (e - 1) (drop 1 hostport), 1%nat, S e) else None
         else
           let host := take i hostport in
           if contains colon host then None else Some (host, 0%nat, 0%nat));
      if contains lbrack (drop j hostport) then None
      else if contains rbrack (drop k hostport) then None
      else Some (host, drop (S i) hostport)
  end.

(** [net.JoinHostPort] *)
Definition JoinHostPort (host port : str) : str :=
  if contains colon host then [lbrack] ++ host ++ [rbrack; colon] ++ port else host ++ [colon] ++ port.

(** [strconv.Itoa] for a number that is not negative; the fuel is its size. *)
Fixpoint itoa_loop (fuel : nat) (n : Z) (acc : str) : str :=
  match fuel with
  | O => acc
  | S fuel => let acc := (48 + n mod 10) :: acc in if n <? 10 then acc else itoa_loop fuel (n / 10) acc
  end.
Definition Itoa (n : Z) : str := itoa_loop (S (Z.to_nat (Z.log2 n))) n [].

(** [RequestIP]; [parse_addr] is [netip.ParseAddr], the zero address when the
    text is not one. *)
Definition RequestIP (parse_addr : str -> option Addr) (r : Request) : Addr :=
  let ip := match SplitHostPort (RemoteAddr r) with Some (h, _) => h | None => [] end in
  default AddrZero (parse_addr ip).

(** The first result of [SplitHostPort], or the whole text when that is empty. *)
Definition host_part (host : str) : str :=
  let h := match SplitHostPort host with Some (h, _) => h | None => [] end in
  if decide (h = []) then host else h.

(** * Middleware *)

(** [AllowHosts] *)
Definition AllowHosts {S} (hosts : list str) : Middleware S := fun next w r =>
  if decide (host_part (Host r) ∈ hosts) then next w r
  else answer (http_Error w (bytes_of_string "forbidden") 403).

Definition TokenFromPathValue (name : string) (r : Request) : str := PathValue r name.
Definition TokenFromHeader (name : string) (r : Request) : str := Header r name.

Section middleware.
Variable error_text : error -> str.                              (* err.Error() *)
Variable url_String : str -> str -> str -> str -> str.           (* scheme, host, path, query *)
Variable gzip : str -> str.

(** [Authenticate]: the text of a 401, or the request with the key in its
    context. *)
Definition check_token (secret : str) (tokener : Request -> str) (r : Request) : result str Request :=
  match ParseToken (tokener r) with
  | Err e => Err (error_text e)
  | Ok token =>
      if VerifyToken secret token then Ok (ContextWithKey r (Token_Key token))
      else Err (bytes_of_string "invalid token")
  end.

Definition Authenticate {S} (secret : str) (tokener : Request -> str) : Middleware S := fun next w r =>
  match check_token secret tokener r with
  | Err msg => answer (http_Error w msg 401)
  | Ok r => next w r
  end.

(** [targetHost] *)
Definition targetHost (redirectPort : Z) (host : str) : str :=
  let reqHost := host_part host in
  if redirectPort =? 443 then reqHost else JoinHostPort reqHost (Itoa redirectPort).

(** [RedirectHTTPS]: the status and the location of the redirect. *)
Definition RedirectHTTPS {S} (port : Z) : Handler S := fun w r =>
  answer (WriteHeader (header_Set w "Location"
            (url_String (bytes_of_string "https") (targetHost port (Host r)) (Path r) (RawQuery r))) 301).

(** [AdvertiseHTTP3] *)
Definition AdvertiseHTTP3 {S} (port : Z) : Middleware S := fun next w r =>
  if (ProtoMajor r <? 3)%nat
  then next (header_Set w "Alt-Svc" (bytes_of_string "h3=" ++ [34; colon] ++ Itoa port ++ [34] ++ bytes_of_string "; ma=2592000")) r
  else answer w.

(** What a line of the request log says: the key of the request it was given,
    the request, and the status recorded. *)
Record log_entry := mkEntry {
  le_key : option Key; le_request : Request; le_status : Z;
}.

(** [LogRequests]; [emit] is [logger.LogAttrs].  The headers and the duration
    are left out. *)
Definition LogRequests {S} (emit : log_entry -> S -> S) : Middleware S := fun next w r s =>
  '(rw, s) ← next (newResponseWriterWithStatus w) r s;
  Ret (rw, emit (mkEntry (KeyFromContext r) r (Status rw)) s).

(** [filepath.Ext]: from the last dot, if no slash follows it. *)
Definition Ext (path : str) : str :=
  match last_index_byte 46 path with
  | Some i => let e := drop i path in if contains 47 e then [] else e
  | None => []
  end.

Definition exts (l : list string) : list str := bytes_of_string <$> l.

(** [CacheStaticFiles] *)
Definition CacheStaticFiles {S} : Middleware S := fun next w r =>
  if decide (Ext (Path r) ∈ exts [".css"; ".js"; ".svg"; ".png"])
  then next (header_Set w "Cache-Control" (bytes_of_string "public, max-age=3600")) r
  else next w r.

(** [strings.Contains] *)
Fixpoint has_prefix (s p : str) : bool :=
  match p, s with [], _ => true | x :: p, y :: s => (x =? y) && has_prefix s p | _, [] => false end.
Fixpoint contains_sub (s p : str) : bool :=
  has_prefix s p || match s with [] => false | _ :: s => contains_sub s p end.

(** [Gzip]: the handler writes to a writer with the same header and status,
    and [Close] writes the compressed body to the underlying one.  A handler
    that writes before it sets a status has set 200, because a [gzip.Writer]
    writes its own header at the first [Write]. *)
Definition Gzip {S} : Middleware S := fun next w r =>
  if negb (contains_sub (Header r "Accept-Encoding") (bytes_of_string "gzip")) then next w r
  else if decide (Ext (Path r) ∈ exts [""; ".html"; ".css"; ".js"; ".json"; ".xml"; ".svg"]) then fun s =>
    let w := header_Set w "Content-Encoding" (bytes_of_string "gzip") in
    let w := header_Add w "Vary" (bytes_of_string "Accept-Encoding") in
    let w := header_Del w "Content-Length" in
    '(grw, s) ← next (mkWriter (w_header w) (w_status w) [] (w_logged w)) r s;
    Ret (Write (mkWriter (w_header grw) (w_status grw) (w_body w) (w_logged grw)) (gzip (w_body grw)), s)
  else next w r.
End middleware.

(** * Lemmas *)

Lemma index_byte_None c s : index_byte c s = None <-> c ∉ s.
Proof.
  induction s as [|x s IH]; cbn; [split; [set_solver|done]|].
  destruct (x =? c) eqn:E.
  - apply Z.eqb_eq in E as ->. split; [done|set_solver].
  - apply Z.eqb_neq in E. rewrite fmap_None, IH. set_solver.
Qed.

Lemma contains_false c s : contains c s = false <-> c ∉ s.
Proof. unfold contains. rewrite <- index_byte_None. destruct (index_byte c s); naive_solver. Qed.

Lemma index_byte_app c s t : c ∉ s -> index_byte c (s ++ c :: t) = Some (length s).
Proof.
  induction s as [|x s IH]; intros H; cbn; [by rewrite Z.eqb_refl|].
  rewrite (proj2 (Z.eqb_neq x c)) by set_solver. by rewrite IH by set_solver.
Qed.

Lemma last_index_app c s t : c ∉ t -> last_index_byte c (s ++ c :: t) = Some (length s).
Proof.
  intros H. unfold last_index_byte. rewrite rev_app_distr. cbn. rewrite <- (assoc_L (++)). cbn.
  rewrite index_byte_app by (by rewrite <- in_rev || (rewrite list_elem_of_In, <- in_rev, <- list_elem_of_In; done)).
  cbn. rewrite length_app, length_rev. cbn. f_equal. lia.
Qed.

Lemma last_index_None c s : c ∉ s -> last_index_byte c s = None.
Proof.
  intros H. unfold last_index_byte. rewrite (proj2 (index_byte_None c (rev s))); [done|].
  by rewrite list_elem_of_In, <- in_rev, <- list_elem_of_In.
Qed.

(** A host name or a port: no colon and no bracket. *)
Definition plain (s : str) : Prop := (colon ∉ s) /\ (lbrack ∉ s) /\ (rbrack ∉ s).

Lemma host_part_plain name : plain name -> host_part name = name.
Proof.
  intros (Hc & _ & _). unfold host_part, SplitHostPort. rewrite last_index_None by done. cbn.
  by case_decide.
Qed.

Lemma split_plain name port : plain name -> plain port -> name <> [] ->
  SplitHostPort (name ++ colon :: port) = Some (name, port).
Proof.
  intros (Hc & Hl & Hr) (Hpc & Hpl & Hpr) Hne. unfold SplitHostPort. rewrite last_index_app by done.
  destruct name as [|x name]; [done|]. cbn [app mbind option_bind].
  rewrite (proj2 (Z.eqb_neq x lbrack)) by set_solver.
  change (x :: name ++ colon :: port) with ((x :: name) ++ colon :: port).
  rewrite take_app_length, (proj2 (contains_false colon (x :: name)) Hc). cbn [mbind option_bind drop].
  rewrite (proj2 (contains_false lbrack _)), (proj2 (contains_false rbrack _)) by (unfold lbrack, rbrack, colon in *; set_solver).
  do 2 f_equal. change (drop (S (length (x :: name))) ((x :: name) ++ colon :: port) = port).
  rewrite drop_app_ge by lia. by replace (S (length (x :: name)) - length (x :: name))%nat with 1%nat by lia.
Qed.

Lemma host_part_port name port : plain name -> plain port -> name <> [] -> host_part (name ++ colon :: port) = name.
Proof. intros H1 H2 H3. unfold host_part. rewrite split_plain by done. cbn. by rewrite decide_False. Qed.

(** The decimal text denotes the number. *)
Definition digits_to (acc : Z) (s : str) : Z := foldl (fun a c => 10 * a + (c - 48)) acc s.

Lemma itoa_loop_spec fuel n acc :
  0 <= n < 2 ^ Z.of_nat fuel -> (0 < fuel)%nat ->
  exists ds, itoa_loop fuel n acc = ds ++ acc /\ Forall (fun c => 48 <= c <= 57) ds /\
    forall a, digits_to a ds = a * 10 ^ Z.of_nat (length ds) + n.
Proof.
  revert n acc. induction fuel as [|fuel IH]; intros n acc Hn Hf; [lia|]. cbn [itoa_loop].
  pose proof (Z.mod_pos_bound n 10 ltac:(lia)). pose proof (Z.div_mod n 10 ltac:(lia)).
  destruct (n <? 10) eqn:E.
  - exists [48 + n mod 10]. split; [done|]. split; [repeat constructor; lia|]. intros a.
    unfold digits_to. cbn [foldl length]. change (10 ^ Z.of_nat 1) with 10. rewrite Z.mod_small by lia. lia.
  - destruct (IH (n / 10) ((48 + n mod 10) :: acc)) as (ds & Hds & Hd & Hv).
    + rewrite Nat2Z.inj_succ, Z.pow_succ_r in Hn by lia. split; [apply Z.div_pos; lia|]. apply Z.div_lt_upper_bound; lia.
    + destruct fuel; [cbn in Hn; lia|lia].
    + exists (ds ++ [48 + n mod 10]). rewrite Hds, <- (assoc_L (++)). split; [done|]. split.
      * apply Forall_app. split; [done|]. repeat constructor; lia.
      * intros a. unfold digits_to. rewrite foldl_app. fold (digits_to a ds). rewrite Hv, length_app, Nat2Z.inj_add.
        cbn. rewrite Z.pow_add_r, Z.pow_1_r by lia. nia.
Qed.

Lemma Itoa_spec n : 0 <= n -> Forall (fun c => 48 <= c <= 57) (Itoa n) /\ digits_to 0 (Itoa n) = n.
Proof.
  intros Hn. unfold Itoa. destruct (itoa_loop_spec (S (Z.to_nat (Z.log2 n))) n []) as (ds & -> & Hd & Hv); [|lia|].
  - rewrite Nat2Z.inj_succ, Z2Nat.id by apply Z.log2_nonneg. destruct (decide (n = 0)) as [->|]; [done|].
    pose proof (Z.log2_spec n ltac:(lia)). lia.
  - rewrite app_nil_r. split; [done|]. by rewrite Hv.
Qed.

Lemma wrap_cons {S} (h : Handler S) mw mws : Wrap h (Some mw :: mws) = mw (Wrap h mws).
Proof. unfold Wrap. cbn. by rewrite foldl_app. Qed.

Lemma wrap_nil {S} (h : Handler S) mws : Wrap h (None :: mws) = Wrap h mws.
Proof. unfold Wrap. cbn. by rewrite foldl_app. Qed.

(** What [check_token] lets through: the token of the key, under the secret. *)
Lemma check_token_Ok error_text secret tokener r r' :
  check_token error_text secret tokener r = Ok r' ->
  exists k, Key_wf k /\ ParseToken (tokener r) = Ok (NewToken k secret) /\ r' = ContextWithKey r k.
Proof.
  unfold check_token. destruct (ParseToken (tokener r)) as [t|e] eqn:Ht; [|done].
  destruct (VerifyToken secret t) eqn:Hv; [|done]. intros [= <-].
  apply ParseToken_wf in Ht as Hl. pose proof (Token_Key_wf t Hl) as Hk. rewrite Token_Key_take in * by apply Hl.
  exists (take KeySize t). rewrite NewToken_eq by apply Hk. split_and!; [done| |done].
  apply VerifyToken_spec in Hv. by rewrite <- Hv.
Qed.

Lemma check_token_made error_text secret tokener r k :
  Key_wf k -> ParseToken (tokener r) = Ok (NewToken k secret) ->
  check_token error_text secret tokener r = Ok (ContextWithKey r k).
Proof. intros Hk H. unfold check_token. by rewrite H, NewToken_verifies, NewToken_Key by done. Qed.

Lemma Authenticate_pass {S} error_text secret tokener (next : Handler S) w r r' :
  check_token error_text secret tokener r = Ok r' ->
  Authenticate error_text secret tokener next w r = next w r'.
Proof. unfold Authenticate. by intros ->. Qed.

(** ** Hosts and redirects *)

(** The host of a request by name, with or without a port. *)
Definition names_host (r : Request) (name : str) : Prop :=
  plain name /\ name <> [] /\ (Host r = name \/ exists port, plain port /\ Host r = name ++ colon :: port).

Lemma names_host_part r name : names_host r name -> host_part (Host r) = name.
Proof.
  intros (Hn & Hne & [-> | (port & Hp & ->)]); [by apply host_part_plain|by apply host_part_port].
Qed.

Lemma AllowHosts_name {S} hosts (next : Handler S) w r name : names_host r name ->
  AllowHosts hosts next w r
  = if decide (name ∈ hosts) then next w r else answer (http_Error w (bytes_of_string "forbidden") 403).
Proof. intros Hn. unfold AllowHosts. by rewrite (names_host_part _ _ Hn). Qed.

Lemma targetHost_name rp r name : names_host r name -> 0 <= rp ->
  if rp =? 443 then targetHost rp (Host r) = name
  else exists digits, targetHost rp (Host r) = name ++ colon :: digits /\ Forall (fun c => 48 <= c <= 57) digits /\ digits_to 0 digits = rp.
Proof.
  intros Hn Hrp. unfold targetHost. rewrite (names_host_part _ _ Hn). destruct (rp =? 443); [done|]. exists (Itoa rp).
  unfold JoinHostPort. rewrite (proj2 (contains_false colon name)) by apply Hn. split; [done|by apply Itoa_spec].
Qed.

(** For an IPv6 literal the brackets are doubled, or lost. *)
Lemma targetHost_ipv6 :
  targetHost 8443 (bytes_of_string "[::1]") = bytes_of_string "[[::1]]:8443" /\
  targetHost 443 (bytes_of_string "[::1]:80") = bytes_of_string "::1".
Proof. by vm_compute. Qed.

(** ** The log *)

(** The log around [Authenticate] never names a key. *)
Lemma log_names_no_key {S} error_text secret tokener (next : Handler S) emit w r s w' s' :
  LogRequests emit (Authenticate error_text secret tokener next) w r s = Ret (w', s') ->
  CtxKey r = None -> exists s1 status, s' = emit (mkEntry None r status) s1.
Proof.
  intros Hl Hk. unfold LogRequests, KeyFromContext in Hl. rewrite Hk in Hl.
  destruct (Authenticate _ _ _ _ _ _ s) as [[rw s1]|]; [|done]. injection Hl as <- <-. by exists s1, (Status rw).
Qed.

(** It reports the last status written, where the client got the first. *)
Lemma log_last_status w r s b msg : w_status w = None -> exists w',
  LogRequests (fun e s => s ++ [e]) (fun w _ s => Ret (http_Error (Write w b) msg 500, s)) w r s
  = Ret (w', s ++ [mkEntry (CtxKey r) r 500]) /\ w_status w' = Some 200.
Proof. intros Hw. eexists. split; [done|]. cbn. by rewrite Hw. Qed.

(** ** The token check *)

(** A handler behind [Authenticate] runs with the key of the token, if the
    request gives one that verifies, and otherwise the answer is a 401. *)
Lemma Authenticate_key {S} (error_text : error -> str) (secret : str) (tokener : Request -> str) (next : Handler S) (w : ResponseWriter)
    (r : Request) (k : Key) : Key_wf k ->
  (ParseToken (tokener r) = Ok (NewToken k secret) ->
     Authenticate error_text secret tokener next w r = next w (ContextWithKey r k)) /\
  ((forall k', Key_wf k' -> ParseToken (tokener r) <> Ok (NewToken k' secret)) ->
     exists msg, forall next' : Handler S, Authenticate error_text secret tokener next' w r = answer (http_Error w msg 401)) /\
  (tokener r = Token_String (NewToken k secret) ->
     Authenticate error_text secret tokener next w r = next w (ContextWithKey r k)).
Proof.
  intros Hk.   assert (ParseToken (tokener r) = Ok (NewToken k secret) ->
     Authenticate error_text secret tokener next w r = next w (ContextWithKey r k)) as H1.
  { intros H. by apply Authenticate_pass, check_token_made. }
  split; [done|]. split; [|intros H; apply H1; rewrite H; by apply NewToken_parses].
  intros Hn. unfold Authenticate. destruct (check_token error_text secret tokener r) as [r'|msg] eqn:E; [|by exists msg].
  apply check_token_Ok in E as (k' & Hk' & Hp & _). by destruct (Hn k').
Qed.

(** ** Demonstrations *)

Definition demo_request (host token : str) : Request :=
  mkRequest host [47] [] 2 (fun k => if String.eqb k "X-Star-Token" then token else []) (fun _ => []) None [] [] [] 0%nat.
Definition demo_writer : ResponseWriter := mkWriter ∅ None [] 0.
Definition demo_handler : Handler unit := fun w r =>
  answer (Write w (match KeyFromContext r with Some k => k | None => [] end)).
