(* ===== verification/Mux.v ===== *)
(** The request multiplexer of [net/http], as the routers of the program use it:
    [ServeMux] with patterns of a method and a path, [StripPrefix], [Redirect].

    The routing tree of the library is kept as the list of the patterns that
    are left at a node; a pattern has no host, and its only multi wildcard is
    the nameless one of a trailing slash, as in this program.  The two
    redirects of a multiplexer come from the parameter [redirect], because
    their status differs between releases of Go. *)
From S2P Require Import Prelude Text Http.
Local Open Scope Z_scope.

Definition slash : Z := 47.

(** * Paths *)

(** [url.PathUnescape]; a path it refuses is taken as it is. *)
Definition hex_val (c : Z) : option Z :=
  if in_range 48 57 c then Some (c - 48)
  else if in_range 65 70 c then Some (c - 55)
  else if in_range 97 102 c then Some (c - 87) else None.

Fixpoint PathUnescape (s : str) : option str :=
  match s with
  | [] => Some []
  | c :: s =>
      if c =? 37 then
        match s with
        | a :: b :: t => x ← hex_val a; y ← hex_val b; t' ← PathUnescape t; Some (16 * x + y :: t')
        | _ => None
        end
      else cons c <$> PathUnescape s
  end.

Definition pathUnescape (s : str) : str := default s (PathUnescape s).

(** The parts of a text between its slashes, and the text of parts. *)
Fixpoint split_slash (s : str) : str * list str :=
  match s with
  | [] => ([], [])
  | c :: s => let '(seg, segs) := split_slash s in
              if c =? slash then ([], seg :: segs) else (c :: seg, segs)
  end.

Definition split (s : str) : list str := let '(x, xs) := split_slash s in x :: xs.

Fixpoint join_with (sep : str) (l : list str) : str :=
  match l with [] => [] | [x] => x | x :: l => x ++ sep ++ join_with sep l end.
Abbreviation join := (join_with [slash]).

Definition dot : str := bytes_of_string ".".
Definition dotdot : str := bytes_of_string "..".

(** [path.Clean]: the parts so far, the last one first. *)
Definition clean_step (rooted : bool) (st : list str) (seg : str) : list str :=
  if decide (seg = [] \/ seg = dot) then st
  else if decide (seg = dotdot) then
    match st with
    | x :: st' => if decide (x = dotdot) then seg :: st else st'
    | [] => if rooted then [] else [seg]
    end
  else seg :: st.

Definition path_Clean (p : str) : str :=
  let rooted := match p with c :: _ => c =? slash | [] => false end in
  let out := join (rev (foldl (clean_step rooted) [] (split p))) in
  if rooted then slash :: out else if decide (out = []) then dot else out.

Definition ends_in_slash (p : str) : bool := match rev p with c :: _ => c =? slash | [] => false end.

(** [cleanPath] of [net/http] *)
Definition cleanPath (p : str) : str :=
  let p := match p with [] => [slash] | c :: _ => if c =? slash then p else slash :: p end in
  let np := path_Clean p in
  if ends_in_slash p && negb (bool_decide (np = [slash])) then np ++ [slash] else np.

(** The segments the routing tree sees: [firstSegment] until the path is
    empty; a trailing slash is a segment of its own. *)
Fixpoint mux_segs (raw : list str) : list str :=
  match raw with
  | [] => []
  | [x] => [if decide (x = []) then [slash] else pathUnescape x]
  | x :: raw => pathUnescape x :: mux_segs raw
  end.

Definition path_segs (path : str) : list str :=
  match path with [] => [] | _ :: p => mux_segs (split p) end.

(** * Patterns and the routing tree *)

(** [{$}] is the literal segment of a trailing slash, a path that ends in a
    slash has the nameless multi wildcard after it. *)
Inductive segment := Lit (s : str) | Wild | Multi.

#[export] Instance segment_eq_dec : EqDecision segment.
Proof. solve_decision. Defined.

(** A pattern, with the names of its wildcards; an empty method is any. *)
Record pattern := mkPattern { p_method : str; p_segments : list segment; p_names : list string }.

Section tree.
Context {A : Type}.

Definition node : Type := list (list segment * A).

Definition child_lit (s : str) (n : node) : node :=
  omap (fun x => match x.1 with Lit s' :: ss => if decide (s' = s) then Some (ss, x.2) else None | _ => None end) n.
Definition child_wild (n : node) : node :=
  omap (fun x => match x.1 with Wild :: ss => Some (ss, x.2) | _ => None end) n.

(** [findChild]: the empty key is that of the wildcards. *)
Definition findChild (seg : str) (n : node) : node :=
  if decide (seg = []) then child_wild n else child_lit seg n.

Definition leaf (n : node) : option A := head (omap (fun x => match x.1 with [] => Some x.2 | _ => None end) n).
Definition multiChild (n : node) : option A :=
  head (omap (fun x => match x.1 with Multi :: _ => Some x.2 | _ => None end) n).

(** [matchPath]: a literal segment before a wildcard, that before the multi
    wildcard. *)
Fixpoint matchPath (segs : list str) (n : node) (ms : list str) : option (A * list str) :=
  match segs with
  | [] => a ← leaf n; Some (a, ms)
  | seg :: rest =>
      match matchPath rest (findChild seg n) ms with
      | Some x => Some x
      | None =>
          match (if decide (seg = [slash]) then None else matchPath rest (child_wild n) (ms ++ [seg])) with
          | Some x => Some x
          | None => a ← multiChild n; Some (a, ms)
          end
      end
  end.

(** What one pattern makes of the segments. *)
Fixpoint seg_match (pat : list segment) (segs : list str) : option (list str) :=
  match pat, segs with
  | [], [] => Some []
  | Multi :: _, _ :: _ => Some []
  | Lit s :: pat, seg :: segs => if decide (s = seg /\ seg <> []) then seg_match pat segs else None
  | Wild :: pat, seg :: segs =>
      if decide (seg = [slash]) then None
      else vs ← seg_match pat segs; Some (if decide (seg = []) then vs else seg :: vs)
  | _, _ => None
  end.

Lemma elem_of_child_lit s n ss a : (ss, a) ∈ child_lit s n <-> (Lit s :: ss, a) ∈ n.
Proof.
  unfold child_lit. rewrite list_elem_of_omap. split.
  - intros ([[|[s'| |] ss'] a'] & Hin & Hx); cbn in Hx; try done. case_decide; [|done]. by simplify_eq.
  - intros Hin. exists (Lit s :: ss, a). split; [done|]. cbn. by rewrite decide_True.
Qed.

Lemma elem_of_child_wild n ss a : (ss, a) ∈ child_wild n <-> (Wild :: ss, a) ∈ n.
Proof.
  unfold child_wild. rewrite list_elem_of_omap. split.
  - intros ([[|[s'| |] ss'] a'] & Hin & Hx); cbn in Hx; try done. by simplify_eq.
  - intros Hin. by exists (Wild :: ss, a).
Qed.

Lemma head_omap_Some {X Y} (f : X -> option Y) l y : head (omap f l) = Some y -> exists x, x ∈ l /\ f x = Some y.
Proof. intros Hh. apply list_elem_of_omap. destruct (omap f l); [done|]. injection Hh as ->. by left. Qed.

Lemma head_omap_is_Some {X Y} (f : X -> option Y) l x y : x ∈ l -> f x = Some y -> is_Some (head (omap f l)).
Proof.
  intros Hx Hf. assert (y ∈ omap f l) as Hy by (apply list_elem_of_omap; eauto).
  destruct (omap f l); [by apply not_elem_of_nil in Hy|by eexists].
Qed.

(** Whether there is a match does not depend on the values so far. *)
Lemma matchPath_None segs : forall n ms ms', matchPath segs n ms = None -> matchPath segs n ms' = None.
Proof.
  induction segs as [|seg rest IH]; intros n ms ms'; cbn [matchPath]; [by destruct (leaf n)|].
  destruct (matchPath rest (findChild seg n) ms) as [?|] eqn:E1; [done|]. rewrite (IH _ _ ms' E1).
  case_decide; [by destruct (multiChild n)|].
  destruct (matchPath rest (child_wild n) (ms ++ [seg])) as [?|] eqn:E2; [done|]. rewrite (IH _ _ (ms' ++ [seg]) E2).
  by destruct (multiChild n).
Qed.

(** The tree finds a pattern that matches, with its values. *)
Lemma matchPath_sound segs : forall n ms a ms', matchPath segs n ms = Some (a, ms') ->
  exists pat vs, (pat, a) ∈ n /\ seg_match pat segs = Some vs /\ ms' = ms ++ vs.
Proof.
  induction segs as [|seg rest IH]; intros n ms a ms'; cbn [matchPath].
  - unfold leaf. destruct (head _) as [a'|] eqn:E; [|done]. cbn. intros [= <- <-].
    apply head_omap_Some in E as ([[|? ?] a0] & Hin & Hx); [|done]. injection Hx as <-.
    exists [], []. split; [done|]. split; [done|by rewrite app_nil_r].
  - destruct (matchPath rest (findChild seg n) ms) as [[a1 ms1]|] eqn:E1.
    { intros [= <- <-]. apply IH in E1 as (pat & vs & Hin & Hm & ->). unfold findChild in Hin. case_decide as He.
      - apply elem_of_child_wild in Hin. exists (Wild :: pat), vs. split; [done|]. split; [|done]. cbn.
        subst seg. rewrite Hm. by rewrite decide_False by done.
      - apply elem_of_child_lit in Hin. exists (Lit seg :: pat), vs. split; [done|]. split; [|done]. cbn.
        by rewrite decide_True. }
    destruct (if decide (seg = [slash]) then None else _) as [[a2 ms2]|] eqn:E2.
    { intros [= <- <-]. case_decide as Hs; [done|]. destruct (decide (seg = [])) as [->|He].
      - by rewrite (matchPath_None _ _ _ _ E1) in E2.
      - apply IH in E2 as (pat & vs & Hin & Hm & ->). apply elem_of_child_wild in Hin.
        exists (Wild :: pat), (seg :: vs). split; [done|]. split; [|by rewrite <- (assoc_L (++))]. cbn.
        rewrite decide_False, Hm by done. cbn. by rewrite decide_False. }
    unfold multiChild. destruct (head _) as [a'|] eqn:E; [|done]. cbn. intros [= <- <-].
    apply head_omap_Some in E as ([[|[?| |] ss] a0] & Hin & Hx); cbn in Hx; try done. injection Hx as <-.
    exists (Multi :: ss), []. split; [done|]. split; [done|by rewrite app_nil_r].
Qed.

(** And it finds one whenever some pattern matches. *)
Lemma matchPath_complete segs : forall n ms pat a vs, (pat, a) ∈ n -> seg_match pat segs = Some vs ->
  is_Some (matchPath segs n ms).
Proof.
  induction segs as [|seg rest IH]; intros n ms pat a vs Hin Hm; cbn [matchPath].
  - destruct pat as [|[?| |] ?]; try done. destruct (head_omap_is_Some
      (fun x : list segment * A => match x.1 with [] => Some x.2 | _ => None end) n _ a Hin eq_refl) as [a' Ha].
    unfold leaf. rewrite Ha. by eexists.
  - destruct (matchPath rest (findChild seg n) ms) as [x|] eqn:E1; [by eexists|].
    destruct (if decide (seg = [slash]) then None else _) as [x|] eqn:E2; [by eexists|].
    destruct pat as [|[s| |] pat]; cbn in Hm; try done.
    + exfalso. clear E2. case_decide as Hs; [|done]. destruct Hs as [-> Hne]. apply elem_of_child_lit in Hin.
      destruct (IH (findChild seg n) ms pat a vs) as [x Hx]; [|done|by rewrite E1 in Hx].
      unfold findChild. rewrite decide_False by done. exact Hin.
    + exfalso. destruct (decide (seg = [slash])) as [Hs|Hs]; [done|]. apply elem_of_child_wild in Hin.
      destruct (seg_match pat rest) as [vs'|] eqn:Ev; [|done].
      destruct (IH (child_wild n) (ms ++ [seg]) pat a vs' Hin Ev) as [x Hx]. by rewrite E2 in Hx.
    + destruct (head_omap_is_Some (fun x : list segment * A => match x.1 with Multi :: _ => Some x.2 | _ => None end)
        n _ a Hin eq_refl) as [a' Ha]. unfold multiChild. rewrite Ha. by eexists.
Qed.

(** * The multiplexer *)

(** A multiplexer is the list of its patterns with their handlers. *)
Definition routes : Type := list (pattern * A).

Definition tree (method : str) (rs : routes) : list (list segment * (pattern * A)) :=
  omap (fun x => if decide (p_method x.1 = method) then Some (p_segments x.1, x) else None) rs.
End tree.

Section find.
Context {A : Type}.
Implicit Types rs : routes (A := A).

(** [matchMethodAndPath]: the method, then GET for HEAD, then any method. *)
Definition GET : str := bytes_of_string "GET".
Definition HEAD : str := bytes_of_string "HEAD".
Definition POST : str := bytes_of_string "POST".

Arguments GET : simpl never.
Arguments HEAD : simpl never.
Arguments POST : simpl never.

Definition orelse {X} (a b : option X) : option X := match a with Some x => Some x | None => b end.

Definition match_at rs (method : str) (path : str) : option (pattern * A * list str) :=
  matchPath (path_segs path) (tree method rs) [].

Definition matchMethodAndPath rs (method path : str) : option (pattern * A * list str) :=
  orelse (match_at rs method path)
    (orelse (if decide (method = HEAD) then match_at rs GET path else None) (match_at rs [] path)).

(** [exactMatch]: no multi wildcard has matched more than a trailing slash. *)
Definition exactMatch (m : option (pattern * A * list str)) (path : str) : bool :=
  match m with
  | None => false
  | Some ((p, _), _) =>
      match last (p_segments p) with
      | Some Multi => ends_in_slash path &&
          (length (p_segments p) =? length (filter (fun c => c = slash) path))%nat
      | _ => true
      end
  end.

(** [matchingMethods], sorted. *)
Fixpoint insert_method (m : str) (l : list str) : list str :=
  match l with
  | [] => [m]
  | x :: l' => if decide (m = x) then l else if bytes_ltb m x then m :: l else x :: insert_method m l'
  end.

Definition matchingMethods rs (path : str) : list str :=
  let ms := filter (fun m => m <> [] /\ (is_Some (match_at rs m path) \/
    ends_in_slash path = false /\ is_Some (match_at rs m (path ++ [slash])))) (p_method ∘ fst <$> rs) in
  foldr insert_method (if decide (GET ∈ ms) then [HEAD] else []) ms.

(** What [findHandler] finds: a handler with the values of the wildcards, a
    redirect, the methods of a 405, or a 404. *)
Inductive found :=
| Serve (p : pattern) (h : A) (vals : list (string * str))
| MoveTo (path : str)
| NotAllowed (methods : list str)
| NoRoute.

Definition CONNECT : str := bytes_of_string "CONNECT".

Definition findHandler rs (r : Request) : found :=
  let path := if decide (Method r = CONNECT) then EscapedPath r else cleanPath (EscapedPath r) in
  let m := matchMethodAndPath rs (Method r) path in
  if negb (exactMatch m path) && negb (ends_in_slash path)
     && exactMatch (matchMethodAndPath rs (Method r) (path ++ [slash])) (path ++ [slash])
  then MoveTo (cleanPath (Path r) ++ [slash])
  else if decide (path <> EscapedPath r) then MoveTo path
  else match m with
       | Some ((p, h), vs) => Serve p h (zip (p_names p) vs)
       | None => match matchingMethods rs path with [] => NoRoute | ms => NotAllowed ms end
       end.
End find.
Arguments found A : clear implicits.

(** ** Clean paths *)

(** A part of a clean path. *)
Definition proper (seg : str) : Prop := seg <> [] /\ seg <> dot /\ seg <> dotdot.
Definition no_slash (seg : str) : Prop := slash ∉ seg.

(** The parts of a clean path after its first slash: proper ones, and an empty
    one at the end for a trailing slash. *)
Definition proper_path (segs : list str) : Prop :=
  exists l x, segs = l ++ [x] /\ Forall proper l /\ (x = [] \/ proper x).

Lemma split_cons c s : split (c :: s) = if c =? slash then [] :: split s
  else match split s with x :: xs => (c :: x) :: xs | [] => [] end.
Proof. unfold split. cbn [split_slash]. destruct (split_slash s) as [x xs]. by destruct (c =? slash). Qed.

Lemma split_nonempty s : split s <> [].
Proof. unfold split. by destruct (split_slash s). Qed.

Lemma split_no_slash s : Forall no_slash (split s).
Proof.
  induction s as [|c s IH]; [repeat constructor; apply not_elem_of_nil|]. rewrite split_cons.
  destruct (c =? slash) eqn:E; [constructor; [apply not_elem_of_nil|done]|]. apply Z.eqb_neq in E.
  destruct (split s) as [|x xs]; [done|]. apply Forall_cons in IH as [Hx Hxs]. constructor; [|done].
  unfold no_slash in *. set_solver.
Qed.

Lemma join_cons x y (l : list str) : join (x :: y :: l) = x ++ [slash] ++ join (y :: l).
Proof. done. Qed.

Lemma join_split s : join (split s) = s.
Proof.
  induction s as [|c s IH]; [done|]. rewrite split_cons. pose proof (split_nonempty s).
  destruct (c =? slash) eqn:E.
  - apply Z.eqb_eq in E as ->. destruct (split s) as [|x xs]; [done|]. by rewrite join_cons, IH.
  - destruct (split s) as [|x [|y xs]]; [done|by cbn in *; subst|]. rewrite join_cons in *. cbn. by rewrite <- IH.
Qed.

Lemma split_app_slash x s : no_slash x -> split (x ++ slash :: s) = x :: split s.
Proof.
  induction x as [|c x IH]; intros Hx; cbn [app]; rewrite split_cons; [done|].
  rewrite (proj2 (Z.eqb_neq c slash)) by (unfold no_slash in Hx; set_solver).
  by rewrite IH by (unfold no_slash in *; set_solver).
Qed.

Lemma split_plain_seg x : no_slash x -> split x = [x].
Proof.
  induction x as [|c x IH]; intros Hx; [done|]. rewrite split_cons.
  rewrite (proj2 (Z.eqb_neq c slash)) by (unfold no_slash in Hx; set_solver).
  by rewrite IH by (unfold no_slash in *; set_solver).
Qed.

Lemma split_join l : l <> [] -> Forall no_slash l -> split (join l) = l.
Proof.
  intros Hne Hl. induction Hl as [|x l Hx Hl IH]; [done|].
  destruct l as [|y l]; [by apply split_plain_seg|]. rewrite join_cons. cbn [app].
  rewrite split_app_slash by done. by rewrite IH.
Qed.

Lemma join_snoc l (x : str) : l <> [] -> join (l ++ [x]) = join l ++ [slash] ++ x.
Proof.
  induction l as [|y l IH]; [done|]. intros _. destruct l as [|z l]; [done|].
  change ((y :: z :: l) ++ [x]) with (y :: z :: l ++ [x]). rewrite !join_cons.
  change (z :: l ++ [x]) with ((z :: l) ++ [x]). rewrite IH by done. by rewrite <- !(assoc_L (++)).
Qed.

Lemma split_app_slash' l : l <> [] -> Forall no_slash l -> split (join l ++ [slash]) = l ++ [[]].
Proof.
  intros Hne Hl. pose proof (join_snoc l [] Hne) as E. rewrite app_nil_r in E. rewrite <- E.
  apply split_join; [by destruct l|]. apply Forall_app. split; [done|]. repeat constructor. apply not_elem_of_nil.
Qed.

(** Cleaning leaves proper parts only, and proper parts alone. *)
Lemma clean_fold_proper segs : forall st, Forall proper st -> Forall no_slash st -> Forall no_slash segs ->
  Forall proper (foldl (clean_step true) st segs) /\ Forall no_slash (foldl (clean_step true) st segs).
Proof.
  induction segs as [|seg segs IH]; intros st Hp Hs Hn; [done|]. apply Forall_cons in Hn as [Hseg Hn]. cbn [foldl].
  apply IH; [..|done]; unfold clean_step; (case_decide as H1; [done|]; case_decide as H2).
  - destruct st as [|x st]; [done|]. apply Forall_cons in Hp as [Hx Hp]. rewrite decide_False by apply Hx. done.
  - constructor; [|done]. unfold proper. tauto.
  - destruct st as [|x st]; [done|]. apply Forall_cons in Hp as [Hx Hp]. apply Forall_cons in Hs as [_ Hs].
    rewrite decide_False by apply Hx. done.
  - by constructor.
Qed.

Lemma clean_fold_id segs : forall st, Forall proper segs -> foldl (clean_step true) st segs = rev segs ++ st.
Proof.
  induction segs as [|seg segs IH]; intros st Hp; [done|]. apply Forall_cons in Hp as [(H1 & H2 & H3) Hp]. cbn [foldl rev].
  unfold clean_step at 2. rewrite decide_False by tauto. rewrite decide_False by done. rewrite IH by done.
  by rewrite <- (assoc_L (++)).
Qed.

Lemma path_Clean_rooted q : path_Clean (slash :: q) = slash :: join (rev (foldl (clean_step true) [] (split q))).
Proof. unfold path_Clean. rewrite Z.eqb_refl, split_cons, Z.eqb_refl. done. Qed.

Lemma join_nil l : Forall proper l -> join l = [] -> l = [].
Proof.
  intros Hl Hj. destruct l as [|x [|y l]]; [done| |]; apply Forall_cons in Hl as [[Hx _] _]; [by cbn in Hj|].
  rewrite join_cons in Hj. by apply app_eq_nil in Hj as [? _].
Qed.

Lemma ends_in_slash_snoc s c : ends_in_slash (s ++ [c]) = (c =? slash).
Proof. unfold ends_in_slash. by rewrite rev_app_distr. Qed.

(** A path the multiplexer leaves as it is. *)
Lemma cleanPath_id q : cleanPath (slash :: q) = slash :: q <-> proper_path (split q).
Proof.
  unfold cleanPath. rewrite Z.eqb_refl, path_Clean_rooted.
  destruct (clean_fold_proper (split q) [] (List.Forall_nil _) (List.Forall_nil _) (split_no_slash q)) as [Hp Hn].
  set (out := rev _). assert (Forall proper out) as Hop by by apply Forall_rev.
  assert (Forall no_slash out) as Hon by by apply Forall_rev. split.
  - destruct (decide (out = [])) as [E0|Hne].
    + rewrite E0. cbn [join_with]. rewrite (bool_decide_eq_true_2 ([slash] = [slash])) by done. cbn [negb]. rewrite andb_false_r. intros [= Hq]. rewrite <- Hq.
      exists [], []. split_and!; [done|constructor|by left].
    + destruct (ends_in_slash _ && _).
      * intros [= Hq]. rewrite <- Hq, (split_app_slash' out) by done. exists out, []. auto.
      * intros [= Hq]. rewrite <- Hq, split_join by done. destruct (@exists_last _ out Hne) as (l & x & E). exists l, x.
        rewrite E in Hop. apply Forall_app in Hop as [Hl [Hx _]%Forall_cons]. auto.
  - intros (l & x & E & Hl & Hx). clear Hop Hon. subst out. rewrite E, foldl_app, (clean_fold_id l), app_nil_r by exact Hl. cbn [foldl].
    pose proof (join_split q) as Hq. rewrite E in Hq. destruct Hx as [->|Hx].
    + unfold clean_step. rewrite decide_True by by left. rewrite rev_involutive.
      destruct l as [|y l]; [by rewrite <- Hq|]. rewrite join_snoc, app_nil_r in Hq by done.
      rewrite <- Hq. rewrite app_comm_cons, ends_in_slash_snoc, Z.eqb_refl. cbn [andb negb].
      rewrite (bool_decide_eq_false_2 (_ = _)); [done|]. intros [= Hj]. by pose proof (join_nil (y :: l) Hl Hj).
    + unfold clean_step. destruct Hx as (H1 & H2 & H3). rewrite decide_False by tauto. rewrite decide_False by done.
      cbn [rev]. rewrite rev_involutive, Hq.
      destruct (@exists_last _ x H1) as (x' & c & Ex). assert (no_slash x) as Hns.
      { pose proof (split_no_slash q) as Hs. rewrite E in Hs. by apply Forall_app in Hs as [_ [? _]%Forall_cons]. }
      assert (ends_in_slash (slash :: q) = false) as ->; [|done].
      assert (exists q', slash :: q = q' ++ [c]) as [q' ->].
      { rewrite <- Hq, Ex. destruct l as [|y l]; [by exists (slash :: x')|]. rewrite join_snoc by done.
        exists (slash :: join (y :: l) ++ [slash] ++ x'). change (slash :: (join (y :: l) ++ [slash] ++ x' ++ [c]) = slash :: ((join (y :: l) ++ ([slash] ++ x')) ++ [c])).
        by rewrite <- app_assoc. }
      rewrite ends_in_slash_snoc. apply Z.eqb_neq. intros ->. apply Hns. rewrite Ex. set_solver.
Qed.

(** No segment of a clean path is empty. *)
Lemma pathUnescape_nonempty x : x <> [] -> pathUnescape x <> [].
Proof.
  intros Hx. unfold pathUnescape. destruct x as [|c x]; [done|]. cbn [PathUnescape]. destruct (c =? 37).
  - destruct x as [|a [|b t]]; [done..|]. destruct (hex_val a); [|done]. cbn. destruct (hex_val b); [|done]. cbn.
    by destruct (PathUnescape t).
  - by destruct (PathUnescape x).
Qed.

Lemma path_segs_nonempty path : cleanPath path = path -> Forall (fun seg => seg <> []) (path_segs path).
Proof.
  destruct path as [|c q]; [done|]. destruct (decide (c = slash)) as [->|Hc].
  - intros (l & x & E & Hl & Hx)%cleanPath_id. unfold path_segs. rewrite E. clear E.
    induction Hl as [|y l Hy Hl IH]; cbn [app mux_segs].
    + constructor; [|constructor]. case_decide; [done|]. destruct Hx as [|Hx]; [done|]. by apply pathUnescape_nonempty.
    + destruct (l ++ [x]) eqn:El; [by destruct l|]. constructor; [by apply pathUnescape_nonempty, Hy|done].
  - unfold cleanPath. rewrite (proj2 (Z.eqb_neq c slash)), path_Clean_rooted by done.
    destruct (_ && _); intros [= E]; congruence.
Qed.

(** The number of segments, and of slashes. *)
Definition slashes (p : str) : nat := length (filter (fun c => c = slash) p).

Lemma slashes_cons c p : slashes (c :: p) = ((if decide (c = slash) then 1 else 0) + slashes p)%nat.
Proof. unfold slashes. rewrite filter_cons. by destruct (decide (c = slash)). Qed.

Lemma slashes_app p q : slashes (p ++ q) = (slashes p + slashes q)%nat.
Proof. unfold slashes. by rewrite filter_app, length_app. Qed.

Lemma length_split s : length (split s) = S (slashes s).
Proof.
  induction s as [|c s IH]; [done|]. rewrite split_cons, slashes_cons. destruct (c =? slash) eqn:E.
  - apply Z.eqb_eq in E. rewrite decide_True by done. cbn. by rewrite IH.
  - apply Z.eqb_neq in E. rewrite decide_False by done. pose proof (split_nonempty s). by destruct (split s).
Qed.

Lemma length_mux_segs raw : length (mux_segs raw) = length raw.
Proof. induction raw as [|x [|y raw] IH]; [done..|]. cbn [mux_segs length] in *. by rewrite IH. Qed.

Lemma length_path_segs q : length (path_segs (slash :: q)) = S (slashes q).
Proof. unfold path_segs. by rewrite length_mux_segs, length_split. Qed.

(** The first segment of a path that goes on, for a part without escapes. *)
Lemma path_segs_part x q : no_slash x -> PathUnescape x = Some x -> path_segs (slash :: x ++ slash :: q) = x :: path_segs (slash :: q).
Proof.
  intros Hx Hu. unfold path_segs. rewrite split_app_slash by done. pose proof (split_nonempty q).
  destruct (split q) as [|y ys]; [done|]. change (mux_segs (x :: y :: ys)) with (pathUnescape x :: mux_segs (y :: ys)).
  unfold pathUnescape at 1. by rewrite Hu.
Qed.

Lemma clean_part x q : proper x -> no_slash x ->
  cleanPath (slash :: x ++ slash :: q) = slash :: x ++ slash :: q <-> cleanPath (slash :: q) = slash :: q.
Proof.
  intros Hx Hn. rewrite !cleanPath_id, split_app_slash by done. split.
  - intros (l & y & E & Hl & Hy). destruct l as [|z l]; cbn in E.
    + injection E as _ E. by destruct (split_nonempty q).
    + injection E as <- E. apply Forall_cons in Hl as [_ Hl]. by exists l, y.
  - intros (l & y & E & Hl & Hy). exists (x :: l), y. rewrite E. split; [done|]. split; [by constructor|done].
Qed.

(** * As a handler *)

Section serve.
Context {S : Type}.

(** [http.Redirect] to a rooted path that is already clean: the page it adds
    for old clients is left out. *)
Definition Redirect (w : ResponseWriter) (url : str) (code : Z) : ResponseWriter :=
  WriteHeader (header_Set w "Location" url) code.

Definition NotFound (w : ResponseWriter) : ResponseWriter :=
  http_Error w (bytes_of_string "404 page not found") 404.

Definition MethodNotAllowed (w : ResponseWriter) (allowed : list str) : ResponseWriter :=
  http_Error (header_Set w "Allow" (join_with (bytes_of_string ", ") allowed)) (bytes_of_string "Method Not Allowed") 405.

(** [RedirectHandler] as the multiplexer calls it, for a path and a query. *)
Variable redirect : str -> str -> ResponseWriter -> ResponseWriter.

(** [ServeMux.ServeHTTP] *)
Definition ServeMux (rs : routes (A := Handler S)) : Handler S := fun w r =>
  if decide (EscapedPath r = bytes_of_string "*")
  then answer (WriteHeader (if (ProtoMajor r <? 1)%nat then w else header_Set w "Connection" (bytes_of_string "close")) 400)
  else match findHandler rs r with
       | Serve _ h vals => h w (foldl (fun r nv => SetPathValue r nv.1 nv.2) r vals)
       | MoveTo path => answer (redirect path (RawQuery r) w)
       | NotAllowed ms => answer (MethodNotAllowed w ms)
       | NoRoute => answer (NotFound w)
       end.

(** [strings.TrimPrefix] and [StripPrefix]; the escaped path stands for
    [RawPath], which the prefix must begin as well. *)
Definition set_path (r : Request) (p ep : str) : Request :=
  mkRequest (Host r) p (RawQuery r) (ProtoMajor r) (Header r) (PathValue r) (CtxKey r) (RemoteAddr r) (Method r) ep (ID r).

Definition StripPrefix (prefix : str) (h : Handler S) : Handler S := fun w r =>
  if has_prefix (Path r) prefix && has_prefix (EscapedPath r) prefix
  then h w (set_path r (drop (length prefix) (Path r)) (drop (length prefix) (EscapedPath r)))
  else answer (NotFound w).
End serve.

(** * Lemmas *)

Section lemmas.
Context {A : Type}.
Implicit Types rs : routes (A := A).

Lemma elem_of_tree m rs ss p h : (ss, (p, h)) ∈ tree m rs <-> (p, h) ∈ rs /\ p_method p = m /\ ss = p_segments p.
Proof.
  unfold tree. rewrite list_elem_of_omap. split.
  - intros ([p' h'] & Hin & Hx). cbn in Hx. case_decide; [|done]. by simplify_eq.
  - intros (Hin & Hm & ->). exists (p, h). split; [done|]. cbn. by rewrite decide_True.
Qed.

Lemma matchPath_nil segs : forall ms, matchPath (A := A) segs [] ms = None.
Proof.
  induction segs as [|seg segs IH]; intros ms; [done|]. cbn [matchPath].
  replace (findChild seg []) with (@nil (list segment * A)) by (unfold findChild; by destruct (decide (seg = []))).
  rewrite IH. change (child_wild []) with (@nil (list segment * A)). rewrite IH. by case_decide.
Qed.

Lemma match_at_sound rs m path p h vs : match_at rs m path = Some ((p, h), vs) ->
  (p, h) ∈ rs /\ p_method p = m /\ seg_match (p_segments p) (path_segs path) = Some vs.
Proof.
  intros (pat & vs' & Hin & Hs & ->)%matchPath_sound. by apply elem_of_tree in Hin as (? & ? & ->).
Qed.

Lemma match_at_complete rs m path p h vs : (p, h) ∈ rs -> p_method p = m ->
  seg_match (p_segments p) (path_segs path) = Some vs -> is_Some (match_at rs m path).
Proof. intros Hin Hm Hs. eapply matchPath_complete; [|exact Hs]. by apply elem_of_tree. Qed.

(** Whether a pattern is for the method of a request. *)
Definition for_method (p : pattern) (m : str) : Prop := p_method p = m \/ m = HEAD /\ p_method p = GET \/ p_method p = [].

Lemma matchMethodAndPath_sound rs m path p h vs : matchMethodAndPath rs m path = Some ((p, h), vs) ->
  (p, h) ∈ rs /\ for_method p m /\ seg_match (p_segments p) (path_segs path) = Some vs.
Proof.
  unfold matchMethodAndPath, orelse, for_method. destruct (match_at rs m path) as [[[p' h'] vs']|] eqn:E1.
  { intros [= -> -> ->]. apply match_at_sound in E1. naive_solver. }
  destruct (if decide (m = HEAD) then _ else _) as [[[p' h'] vs']|] eqn:E2.
  { intros [= -> -> ->]. case_decide; [|done]. apply match_at_sound in E2. naive_solver. }
  intros Hm%match_at_sound. naive_solver.
Qed.

(** A path the multiplexer serves as it is. *)
Definition clean (r : Request) : Prop := Method r = CONNECT \/ cleanPath (EscapedPath r) = EscapedPath r.

(** What the multiplexer serves is one of its routes, for the method and the
    path of the request, which is clean. *)
Lemma findHandler_sound rs r p h vals : findHandler rs r = Serve p h vals ->
  (p, h) ∈ rs /\ for_method p (Method r) /\ clean r /\
  exists vs, seg_match (p_segments p) (path_segs (EscapedPath r)) = Some vs /\ vals = zip (p_names p) vs.
Proof.
  unfold findHandler. set (path := if decide (Method r = CONNECT) then _ else _).
  destruct (negb _ && _ && _); [done|]. destruct (decide (path <> EscapedPath r)) as [|Hp]; [done|]. apply dec_stable in Hp.
  assert (clean r) as Hc by (unfold clean; subst path; case_decide; auto). rewrite Hp. clear Hp.
  destruct (matchMethodAndPath rs (Method r) (EscapedPath r)) as [[[p' h'] vs]|] eqn:E.
  - intros [= -> -> <-]. apply matchMethodAndPath_sound in E. naive_solver.
  - by destruct (matchingMethods _ _).
Qed.

(** A route of the very method that matches is served, or one as specific:
    nothing else comes in between when it has no multi wildcard. *)
Lemma findHandler_method rs r p h vs : clean r -> (p, h) ∈ rs -> p_method p = Method r ->
  seg_match (p_segments p) (path_segs (EscapedPath r)) = Some vs ->
  (forall p' h', (p', h') ∈ rs -> p_method p' = Method r -> last (p_segments p') <> Some Multi) ->
  exists p' h' vs', findHandler rs r = Serve p' h' (zip (p_names p') vs') /\ (p', h') ∈ rs /\ p_method p' = Method r /\
    seg_match (p_segments p') (path_segs (EscapedPath r)) = Some vs'.
Proof.
  intros Hc Hin Hm Hs Hmulti. unfold findHandler.
  assert ((if decide (Method r = CONNECT) then EscapedPath r else cleanPath (EscapedPath r)) = EscapedPath r) as ->.
  { case_decide; [done|]. by destruct Hc. }
  destruct (match_at_complete rs (Method r) (EscapedPath r) p h vs Hin Hm Hs) as [[[p' h'] vs'] E].
  apply match_at_sound in E as E'. destruct E' as (Hin' & Hm' & Hs').
  unfold matchMethodAndPath. rewrite E. cbn [orelse exactMatch].
  assert ((match last (p_segments p') with Some Multi => ends_in_slash (EscapedPath r) &&
    (length (p_segments p') =? length (filter (fun c => c = slash) (EscapedPath r)))%nat | _ => true end) = true) as ->.
  { pose proof (Hmulti p' h' Hin' Hm'). by destruct (last (p_segments p')) as [[]|]. }
  cbn [negb andb]. rewrite decide_False by (intros H; by apply H). by exists p', h', vs'.
Qed.
End lemmas.

(** * What handlers do to the state *)

(** What a handler may do to the state of the program: a relation that is
    reflexive and looks at no more of a request than its header and its [ID]. *)
Section runs.
Context {S : Type}.

Definition runs (R : Request -> S -> S -> Prop) (h : Handler S) : Prop :=
  forall w r s w' s', h w r s = Ret (w', s') -> R r s s'.

Class Blind (R : Request -> S -> S -> Prop) : Prop := {
  blind_refl r s : R r s s;
  blind_request r r' s s' : Header r' = Header r -> ID r' = ID r -> R r' s s' -> R r s s';
}.
Context (R : Request -> S -> S -> Prop) `{!Blind R}.

Lemma runs_answer (f : ResponseWriter -> Request -> ResponseWriter) : runs R (fun w r => answer (f w r)).
Proof. intros w r s w' s' [= <- <-]. apply blind_refl. Qed.

Lemma SetPathValues (vals : list (string * str)) : forall r,
  Header (foldl (fun r nv => SetPathValue r nv.1 nv.2) r vals) = Header r /\
  ID (foldl (fun r nv => SetPathValue r nv.1 nv.2) r vals) = ID r.
Proof. induction vals as [|nv vals IH]; intros r; cbn [foldl]; [done|]. by destruct (IH (SetPathValue r nv.1 nv.2)) as [-> ->]. Qed.

Lemma runs_ServeMux redirect (rs : routes (A := Handler S)) : Forall (fun x => runs R x.2) rs ->
  runs R (ServeMux redirect rs).
Proof.
  intros Hrs w r s w' s'. unfold ServeMux. case_decide; [by intros [= <- <-]; apply blind_refl|].
  destruct (findHandler rs r) as [p h vals| | |] eqn:E; try (intros [= <- <-]; apply blind_refl).
  intros Hh. apply findHandler_sound in E as [E _]. rewrite Forall_forall in Hrs. apply (Hrs _ E) in Hh.
  destruct (SetPathValues vals r) as [H1 H2]. by eapply blind_request.
Qed.

Lemma runs_StripPrefix prefix h : runs R h -> runs R (StripPrefix prefix h).
Proof.
  intros Hr w r s w' s'. unfold StripPrefix. destruct (_ && _); [|intros [= <- <-]; apply blind_refl].
  intros Hh%Hr. by eapply blind_request; [| |exact Hh].
Qed.

Lemma runs_Gzip gzip h : runs R h -> runs R (Gzip gzip h).
Proof.
  intros Hr w r s w' s'. unfold Gzip. destruct (negb _); [apply Hr|]. case_decide; [|apply Hr].
  destruct (h _ r s) as [[grw s1]|] eqn:E; [|done]. cbn. intros [= <- <-]. by apply Hr in E.
Qed.

Lemma runs_CacheStaticFiles h : runs R h -> runs R (CacheStaticFiles h).
Proof. intros Hr w r s w' s'. unfold CacheStaticFiles. case_decide; apply Hr. Qed.
End runs.
