(* ===== verification/Url.v ===== *)
(** Paths of URLs: the parts of [net/url] and [net/http] that a path goes through
    between the text of a URL and the request that a server reads.

    A URL is taken after its scheme and host, which are constants where the
    program writes its text. *)
From S2P Require Import Prelude Text Http Mux.
Local Open Scope Z_scope.

(** * Escaping *)

(** [URL.EscapedPath] of a path without a raw form. *)
Definition path_safe (c : Z) : bool :=
  in_range 48 57 c || in_range 65 90 c || in_range 97 122 c || bool_decide (c ∈ bytes_of_string "-_.~$&+,/:;=@").
Definition upper_hex (d : Z) : Z := if d <? 10 then 48 + d else 55 + d.
Definition escape_byte (c : Z) : str := if path_safe c then [c] else [37; upper_hex (c / 16); upper_hex (c mod 16)].
Definition escape (s : str) : str := flat_map escape_byte s.
Definition EscapePath (s : str) : str := if decide (s = bytes_of_string "*") then s else escape s.

(** A segment that a path can have. *)
Definition seg_ok (x : str) : Prop := proper x /\ no_slash x /\ bytes_ok x.

(** ** Escaping *)

Lemma escape_byte_unescape c t : is_byte c -> PathUnescape (escape_byte c ++ t) = cons c <$> PathUnescape t.
Proof.
  intros Hc. unfold escape_byte. destruct (path_safe c) eqn:E.
  - cbn [app PathUnescape]. destruct (c =? 37) eqn:E2; [|done]. apply Z.eqb_eq in E2 as ->. vm_compute in E. discriminate E.
  - cbn [app PathUnescape]. change (37 =? 37) with true. cbn [mbind option_bind].
    assert (forall d, 0 <= d < 16 -> hex_val (upper_hex d) = Some d) as Hd.
    { intros d Hd. unfold upper_hex, hex_val, in_range. destruct (Z.ltb_spec d 10).
      - replace ((48 <=? 48 + d) && (48 + d <=? 57)) with true by lia. f_equal. lia.
      - replace ((48 <=? 55 + d) && (55 + d <=? 57)) with false by lia.
        replace ((65 <=? 55 + d) && (55 + d <=? 70)) with true by lia. f_equal. lia. }
    unfold is_byte in Hc. rewrite !Hd; [|split; [apply Z.div_pos; lia|apply Z.div_lt_upper_bound; lia]|apply Z.mod_pos_bound; lia].
    cbn [mbind option_bind]. rewrite <- Z.div_mod by lia. by destruct (PathUnescape t).
Qed.

Lemma escape_unescape s : bytes_ok s -> PathUnescape (escape s) = Some s.
Proof.
  induction 1 as [|c s Hc Hs IH]; [done|]. unfold escape in *. cbn [flat_map]. rewrite escape_byte_unescape by done. by rewrite IH.
Qed.

Lemma escape_inj s s' : bytes_ok s -> bytes_ok s' -> escape s = escape s' -> s = s'.
Proof. intros H1 H2 E. apply escape_unescape in H1, H2. rewrite E in H1. congruence. Qed.

Lemma escape_app s s' : escape (s ++ s') = escape s ++ escape s'.
Proof. apply flat_map_app. Qed.

Lemma escape_join l : escape (join l) = join (escape <$> l).
Proof.
  induction l as [|x [|y l] IH]; [done..|]. rewrite join_cons, !escape_app, IH. change (escape [slash]) with [slash].
  by destruct l.
Qed.

(** Segments stay segments. *)
Lemma escape_seg x : seg_ok x -> seg_ok (escape x) /\ pathUnescape (escape x) = x.
Proof.
  intros ((H1 & H2 & H3) & Hn & Hb). pose proof (escape_unescape x Hb) as Hu.
  assert (forall y, bytes_ok y -> escape y = y -> x <> y -> escape x <> y) as Hne.
  { intros y Hy E Hxy Ex. apply Hxy, escape_inj; congruence. }
  split; [|unfold pathUnescape; by rewrite Hu]. split; [split; [|split]|split].
  - by apply (Hne []); [constructor| |].
  - apply (Hne dot); [|by vm_compute|done]. by apply (bool_decide_unpack _).
  - apply (Hne dotdot); [|by vm_compute|done]. by apply (bool_decide_unpack _).
  - unfold no_slash in *. clear -Hn Hb. induction Hb as [|c s Hc Hs IH]; [done|]. unfold escape. cbn [flat_map].
    apply not_elem_of_cons in Hn as [Hc' Hn]. rewrite elem_of_app. intros [Hx|Hx]; [|by apply IH].
    unfold escape_byte in Hx. destruct (path_safe c); [set_solver|].
    assert (forall d, 0 <= d < 16 -> upper_hex d <> slash) as Hd by (intros d Hd; unfold upper_hex, slash; destruct (_ <? _) eqn:E; lia).
    unfold is_byte in Hc. rewrite !elem_of_cons in Hx. destruct_or! Hx; [done| | |by apply not_elem_of_nil in Hx].
    + by apply (Hd (c / 16)); [split; [apply Z.div_pos; lia|apply Z.div_lt_upper_bound; lia]|].
    + by apply (Hd (c mod 16)); [apply Z.mod_pos_bound; lia|].
  - clear -Hb. induction Hb as [|c s Hc Hs IH]; [constructor|]. unfold escape. cbn [flat_map]. apply Forall_app. split; [|done].
    unfold escape_byte. destruct (path_safe c); [by apply Forall_singleton|]. unfold is_byte in *.
    assert (forall d, 0 <= d < 16 -> 0 <= upper_hex d < 256) as Hd by (intros d Hd; unfold upper_hex; destruct (_ <? _) eqn:E; lia).
    apply List.Forall_cons; [lia|]. apply List.Forall_cons; [apply Hd; split; [apply Z.div_pos; lia|apply Z.div_lt_upper_bound; lia]|].
    apply List.Forall_cons; [apply Hd, Z.mod_pos_bound; lia|constructor].
Qed.

Lemma escape_segs l : Forall seg_ok l -> Forall seg_ok (escape <$> l) /\ pathUnescape <$> (escape <$> l) = l.
Proof.
  induction 1 as [|x l Hx Hl [IH1 IH2]]; [done|]. destruct (escape_seg x Hx) as [H1 H2]. cbn. split; [by constructor|]. by rewrite H2, IH2.
Qed.

Lemma segs_split l : Forall seg_ok l -> Forall proper l /\ Forall no_slash l /\ Forall bytes_ok l.
Proof. intros Hl. rewrite <- !Forall_and. eapply Forall_impl; [exact Hl|]. intros x (? & ? & ?). done. Qed.

(** ** Reading a path *)

Lemma mux_segs_ok l : l <> [] -> Forall seg_ok l -> mux_segs (escape <$> l) = l.
Proof.
  induction l as [|x [|y l] IH]; [done| |]; intros _ Hl; apply Forall_cons in Hl as [Hx Hl]; destruct (escape_seg x Hx) as [((He & _) & _) Hu].
  - cbn. by rewrite decide_False, Hu.
  - change (mux_segs (escape <$> x :: y :: l)) with (pathUnescape (escape x) :: mux_segs (escape <$> y :: l)). by rewrite Hu, IH.
Qed.

(** The server finds the segments again. *)
Lemma server_reads l : l <> [] -> Forall seg_ok l ->
  cleanPath (slash :: join (escape <$> l)) = slash :: join (escape <$> l) /\ path_segs (slash :: join (escape <$> l)) = l.
Proof.
  intros Hne Hl. assert (escape <$> l <> []) as Hne' by by destruct l.
  destruct (segs_split _ (proj1 (escape_segs l Hl))) as (Hp & Hn & _). split.
  - apply cleanPath_id. rewrite split_join by done. destruct (@exists_last _ _ Hne') as (l0 & x & E). exists l0, x.
    rewrite E in Hp. apply Forall_app in Hp as [Hp [Hx _]%Forall_cons]. auto.
  - unfold path_segs. rewrite split_join by done. by apply mux_segs_ok.
Qed.

(** * The text of a URL *)

(** [validEncoded]: the bytes a raw path may have. *)
Definition validEncoded (s : str) : bool :=
  forallb (fun c => path_safe c || bool_decide (c ∈ bytes_of_string "!'()*[]%")) s.

(** The path, its raw form if it is not the escaped path, and the query with
    whether it is empty but there. *)
Record url := mkURL { u_path : str; u_raw : str; u_query : str; u_force : bool }.

(** [stringContainsCTLByte] *)
Definition has_ctl (s : str) : bool := existsb (fun c => (c <? 32) || (c =? 127)) s.

(** [strings.Cut] at a byte. *)
Definition cut (c : Z) (s : str) : str * str :=
  match index_byte c s with Some i => (take i s, drop (S i) s) | None => (s, []) end.

Definition question : Z := 63.
Definition hash : Z := 35.
Definition percent_sign : Z := 37.

(** [URL.setPath] *)
Definition setPath (p q : str) (force : bool) : option url :=
  path ← PathUnescape p; Some (mkURL path (if decide (escape path = p) then [] else p) q force).

(** [parse], from the path on. *)
Definition parse_rest (s : str) : option url :=
  if has_ctl s then None
  else if bool_decide (last s = Some question) && (length (filter (fun c => c = question) s) =? 1)%nat
  then setPath (take (length s - 1) s) [] true
  else let '(p, q) := cut question s in setPath p q false.

(** [url.Parse], whose fragment is dropped if its escapes are right, and
    [url.ParseRequestURI] of a target that has no scheme and host *)
Definition url_Parse (s : str) : option url :=
  let '(s, frag) := cut hash s in
  u ← parse_rest s; _ ← PathUnescape frag; Some u.
Definition ParseRequestURI (s : str) : option url :=
  if decide (s = bytes_of_string "*") then Some (mkURL s [] [] false)
  else if bool_decide (head s = Some slash) then parse_rest s else None.

(** [URL.EscapedPath] and [URL.RequestURI] *)
Definition url_EscapedPath (u : url) : str :=
  if decide (u_raw u <> [] /\ validEncoded (u_raw u) = true /\ PathUnescape (u_raw u) = Some (u_path u)) then u_raw u
  else EscapePath (u_path u).

Definition RequestURI (u : url) : str :=
  let p := match url_EscapedPath u with [] => [slash] | p => p end in
  if u_force u || negb (bool_decide (u_query u = [])) then p ++ question :: u_query u else p.

(** The request line of a POST, as [http.ReadRequest] takes it apart at its first
    two spaces: the target, unless the protocol after it is not one. *)
Definition read_target (target : str) : option url :=
  if bool_decide (32 ∈ target) then None else ParseRequestURI target.

(** ** A plain path travels unchanged *)

(** The bytes that have no meaning of their own in the text of a URL. *)
Definition plain_byte (c : Z) : Prop := 32 <= c < 256 /\ c <> 127 /\ c <> question /\ c <> hash /\ c <> percent_sign.
Definition plain_text (s : str) : Prop := Forall plain_byte s.

Lemma plain_bytes s : plain_text s -> bytes_ok s.
Proof. intros Hs. eapply Forall_impl; [exact Hs|]. unfold plain_byte, is_byte. cbn. lia. Qed.

Lemma plain_no s c : plain_text s -> ~ plain_byte c -> c ∉ s.
Proof. intros Hs Hc Hin. unfold plain_text in Hs. rewrite Forall_forall in Hs. by apply Hc, Hs. Qed.

Lemma cut_none c s : c ∉ s -> cut c s = (s, []).
Proof. intros Hn. unfold cut. by rewrite (proj2 (index_byte_None c s) Hn). Qed.

Lemma PathUnescape_plain s : percent_sign ∉ s -> PathUnescape s = Some s.
Proof.
  induction s as [|c s IH]; [done|]. intros Hn. cbn [PathUnescape]. destruct (Z.eqb_spec c 37) as [->|Hc]; [exfalso; apply Hn; by left|].
  rewrite IH; [done|]. set_solver.
Qed.

Lemma no_ctl s : Forall (fun c => 32 <= c /\ c <> 127) s -> has_ctl s = false.
Proof.
  intros Hs. unfold has_ctl. apply not_true_iff_false. rewrite existsb_exists. intros (c & Hin%list_elem_of_In & Hc).
  rewrite Forall_forall in Hs. specialize (Hs c Hin). lia.
Qed.

(** Where there is no query mark the whole text is the path. *)
Lemma parse_rest_path s : Forall (fun c => 32 <= c /\ c <> 127) s -> question ∉ s -> parse_rest s = setPath s [] false.
Proof.
  intros Hs Hq. unfold parse_rest. rewrite no_ctl by done. rewrite bool_decide_false; [cbn [andb]; by rewrite cut_none|].
  intros (s' & ->)%last_Some. apply Hq. set_solver.
Qed.

(** What escaping writes. *)
Definition target_byte (c : Z) : Prop := 33 <= c < 256 /\ c <> 127 /\ c <> question.

Lemma safe_target c : path_safe c = true -> target_byte c.
Proof.
  intros H. unfold path_safe in H. rewrite !orb_true_iff, bool_decide_eq_true in H. unfold in_range, target_byte, question in *.
  destruct H as [[[H|H]|H]|H]; [lia..|]. vm_compute in H. set_solver by lia.
Qed.

Lemma escape_target s : bytes_ok s -> Forall target_byte (escape s).
Proof.
  induction 1 as [|c s Hc Hs IH]; [constructor|]. unfold escape. cbn [flat_map]. apply Forall_app. split; [|exact IH]. unfold escape_byte.
  destruct (path_safe c) eqn:E; [by apply Forall_singleton, safe_target|].
  assert (forall d, 0 <= d < 16 -> target_byte (upper_hex d)) as Hd
    by (intros d Hd; unfold upper_hex, target_byte, question; destruct (_ <? _) eqn:El; lia).
  unfold is_byte in Hc. repeat apply List.Forall_cons; [unfold target_byte, question; lia| | |constructor]; apply Hd.
  - split; [apply Z.div_pos; lia|apply Z.div_lt_upper_bound; lia].
  - apply Z.mod_pos_bound. lia.
Qed.

Lemma valid_target s : validEncoded s = true -> Forall target_byte s.
Proof.
  unfold validEncoded. rewrite forallb_forall, Forall_forall. intros Hv c Hin%list_elem_of_In%Hv.
  apply orb_true_iff in Hin as [Hc|Hc%bool_decide_eq_true]; [by apply safe_target|].
  vm_compute in Hc. unfold target_byte, question. set_solver by lia.
Qed.

(** The target of a path in a request. *)
Definition target (p : str) : str := if decide (escape p = p \/ validEncoded p = true) then p else escape p.

Lemma target_cases p : bytes_ok p -> Forall target_byte (target p) /\ PathUnescape (escape p) = Some p.
Proof.
  intros Hb. split; [|by apply escape_unescape]. unfold target. case_decide as Hd; [|by apply escape_target].
  destruct Hd as [E|Hv]; [rewrite <- E; by apply escape_target|by apply valid_target].
Qed.

Lemma EscapePath_root p : head p = Some slash -> EscapePath p = escape p.
Proof. intros Hh. unfold EscapePath. rewrite decide_False; [done|]. intros ->. discriminate Hh. Qed.

(** A plain path is the path of the request that the server reads, and the form
    the client writes is the one that the server matches. *)
Lemma plain_travels p : plain_text p -> head p = Some slash ->
  exists u u', url_Parse p = Some u /\ RequestURI u = target p /\ read_target (target p) = Some u' /\
    u_path u' = p /\ url_EscapedPath u' = target p /\ u_query u' = [].
Proof.
  intros Hp Hh. pose proof (plain_bytes _ Hp) as Hb. destruct (target_cases p Hb) as [Ht Hesc].
  assert (forall c, ~ plain_byte c -> c ∉ p) as Hno by (intros c; by apply plain_no).
  assert (Forall (fun c => 32 <= c /\ c <> 127) p) as Hc.
  { eapply Forall_impl; [exact Hp|]. unfold plain_byte. cbn. lia. }
  assert (head (target p) = Some slash) as Hht.
  { unfold target. case_decide; [done|]. destruct p as [|c p']; [done|]. injection Hh as ->. reflexivity. }
  assert (PathUnescape p = Some p) as Hun by (apply PathUnescape_plain, Hno; unfold plain_byte; lia).
  assert (PathUnescape (target p) = Some p) as Htu by (unfold target; by destruct (decide (escape p = p \/ validEncoded p = true))).
  assert (forall raw, raw = (if decide (escape p = p) then [] else p) -> url_EscapedPath (mkURL p raw [] false) = target p) as He.
  { intros raw ->. unfold url_EscapedPath, target. cbn [u_raw u_path]. destruct (decide (escape p = p)) as [E|E].
    - rewrite decide_False by tauto. rewrite decide_True by by left. by rewrite EscapePath_root.
    - destruct (decide (validEncoded p = true)) as [Ev|Ev].
      + rewrite decide_True by (split; [by destruct p|done]). by rewrite decide_True by by right.
      + rewrite decide_False by tauto. rewrite decide_False by tauto. by apply EscapePath_root. }
  exists (mkURL p (if decide (escape p = p) then [] else p) [] false). eexists. split; [|split; [|split; [|split; [|split]]]].
  - unfold url_Parse. rewrite cut_none by (apply Hno; unfold plain_byte; lia). rewrite parse_rest_path by (try done; apply Hno; unfold plain_byte; lia).
    unfold setPath. by rewrite Hun.
  - unfold RequestURI. rewrite He by done. cbn. assert (target p <> []) as Hne.
    { unfold target. destruct (decide (escape p = p \/ validEncoded p = true)) as [_|_]; intros Hx; [by rewrite Hx in Hh|]. rewrite Hx in Hesc. injection Hesc as Hesc. by rewrite <- Hesc in Hh. }
    by destruct (target p).
  - unfold read_target, ParseRequestURI. rewrite bool_decide_false.
    + rewrite decide_False by (intros E; rewrite E in Hht; discriminate Hht). rewrite bool_decide_true by done. rewrite parse_rest_path; [|eapply Forall_impl; [exact Ht|]; unfold target_byte; cbn; lia|].
      * unfold setPath. rewrite Htu. reflexivity.
      * intros Hin. rewrite Forall_forall in Ht. apply Ht in Hin. unfold target_byte in Hin. lia.
    + intros Hin. rewrite Forall_forall in Ht. apply Ht in Hin. unfold target_byte in Hin. lia.
  - done.
  - destruct (decide (escape p = p \/ validEncoded p = true)) as [Hd|Hd].
    + assert (target p = p) as E by (unfold target; by rewrite decide_True). specialize (He _ eq_refl). by rewrite E in He |- *.
    + assert (target p = escape p) as E by (unfold target; by rewrite decide_False). rewrite E. unfold url_EscapedPath. cbn [u_raw u_path].
      rewrite (decide_True (P := escape p = escape p)) by done. rewrite decide_False by tauto. by apply EscapePath_root.
  - done.
Qed.

(** Its segments. *)
Lemma target_seg x : seg_ok x -> plain_text x -> seg_ok (target x) /\ pathUnescape (target x) = x.
Proof.
  intros Hx Hp. unfold target. case_decide; [|by apply escape_seg]. split; [done|]. unfold pathUnescape.
  rewrite PathUnescape_plain; [done|]. apply (plain_no _ _ Hp). unfold plain_byte. lia.
Qed.

Lemma target_app a x : escape a = a -> validEncoded a = true -> target (a ++ x) = a ++ target x.
Proof.
  intros Ha Hv. unfold target. rewrite escape_app, Ha. unfold validEncoded. rewrite forallb_app. fold (validEncoded a) (validEncoded x).
  rewrite Hv. cbn [andb]. destruct (decide (escape x = x \/ validEncoded x = true)) as [Hd|Hd].
  - rewrite decide_True; [done|]. destruct Hd as [->|?]; [by left|by right].
  - rewrite decide_False; [done|]. intros [E|?]; [|tauto]. apply Hd. left. by apply app_inv_head in E.
Qed.

(** The identifiers of sessions and the like. *)
Definition plain_seg (x : str) : Prop := proper x /\ no_slash x /\ plain_text x.

Lemma plain_seg_ok x : plain_seg x -> seg_ok x.
Proof. intros (H1 & H2 & H3). split; [done|]. split; [done|by apply plain_bytes]. Qed.

Lemma hex_plain b : bytes_ok b -> b <> [] -> plain_seg (hex_encode b).
Proof.
  intros Hb Hne. pose proof (hex_encode_chars b Hb) as Hc. pose proof (hex_encode_length b) as Hl. split; [|split].
  - unfold proper. assert (2 <= length (hex_encode b))%nat as Hlen by (destruct b; [done|cbn [length] in Hl; lia]).
    change dot with [46]. change dotdot with [46; 46].
    split_and!; intros E; rewrite E in Hc, Hlen; cbn in Hlen; [lia..|]. apply Forall_cons in Hc as [Hc _]. lia.
  - unfold no_slash, slash. rewrite Forall_forall in Hc. intros Hx%Hc. lia.
  - eapply Forall_impl; [exact Hc|]. unfold plain_byte, question, hash, percent_sign. cbn. lia.
Qed.
