(* ===== verification/Control.v ===== *)
(** The control protocol between registar and agents:
    [internal/registar/control/controller.go] and [agent.go].

    The registar sends an HTTP request over a stream and reads a response; the
    agent reads requests in a loop, dispatches them to its callbacks and writes
    the response.  Of the [net/http] wire format the request target is kept as
    it is written and read again, by [Url], and of a response the header that
    says how long its body is; the agent's multiplexer is that of [Mux].  The
    status of a redirect, which differs between releases of Go, is a
    parameter. *)
From S2P Require Import Prelude Text Netip Errors.
From S2P Require Http Mux Url.

(** * Messages *)

(** [type ConnectCommand struct] *)
Record ConnectCommand := mkConnectCommand { PublicAddress : AddrPort; PrivateAddress : AddrPort }.

(** A request body: empty, a JSON object with address-valued members, or bytes
    that are no such object. *)
Inductive body := NoBody | JSON (members : list (string * AddrPort)) | Raw (data : list Z).

(** A request with the target of its first line, and a response with the length
    its header states, if any. *)
Record request := mkRequest { Method : string; Target : list Z; Body : body }.
Record response := mkResponse { StatusCode : Z; ContentLength : option nat; RespBody : list Z }.

(** [json.Encoder.Encode] and [json.Decoder.Decode] of a [ConnectCommand]:
    unknown members are ignored, the last of several wins, a missing one leaves
    the zero value. *)
Definition encode_command (c : ConnectCommand) : body :=
  JSON [("public_address"%string, PublicAddress c); ("private_address"%string, PrivateAddress c)].

Definition json_member (name : string) (members : list (string * AddrPort)) : AddrPort :=
  from_option snd AddrPort_zero (last (filter (fun m => m.1 = name) members)).

Definition decode_command (b : body) : result goerror ConnectCommand :=
  match b with
  | JSON ms => Ok (mkConnectCommand (json_member "public_address" ms)
                     (json_member "private_address" ms))
  | NoBody => Err (Sentinel "io.EOF")
  | Raw _ => Err (OtherError "invalid JSON")
  end.

Definition StatusOK : Z := 200.
Definition StatusBadRequest : Z := 400.
Definition StatusNotFound : Z := 404.
Definition StatusMethodNotAllowed : Z := 405.
Definition StatusInternalServerError : Z := 500.

(** [StatusCodeConnectFailed], which is [http.StatusPreconditionFailed] *)
Definition StatusCodeConnectFailed : Z := 412.

(** [ErrConnectFailed] *)
Definition ErrConnectFailed : goerror := Sentinel "control.ErrConnectFailed".

Definition connect_to_path : list Z := bytes_of_string "/connect-to".
Definition relay_prefix : list Z := bytes_of_string "/relay/".

Section control.
(** The text of an error, [err.Error()], as third-party types define it too, and
    the status of the redirects of a multiplexer. *)
Context (Error : goerror -> list Z) (moved : Z).

(** * The agent *)

(** [type responseWriter struct]; the headers are not modelled. *)
Record responseWriter := mkRW { rw_status : Z; rw_body : list Z }.

Definition rw_zero : responseWriter := mkRW 0 [].

(** [responseWriter.Write] *)
Definition rw_Write (rw : responseWriter) (b : list Z) : responseWriter :=
  mkRW (rw_status rw) (rw_body rw ++ b).

(** [responseWriter.WriteHeader] *)
Definition rw_WriteHeader (rw : responseWriter) (code : Z) : responseWriter :=
  mkRW code (rw_body rw).

(** [responseWriter.write]: [http.Response.Write] states the length of an empty
    body only.  The response has neither a length of its own nor a protocol
    version, so that a body that is not empty is written without a length, not
    in chunks, and without closing the connection. *)
Definition rw_write (rw : responseWriter) : response :=
  mkResponse (if decide (rw_status rw = 0)%Z then StatusOK else rw_status rw)
    (if decide (rw_body rw = []) then Some 0 else None) (rw_body rw).

(** [http.Error] *)
Definition http_Error (rw : responseWriter) (msg : list Z) (code : Z) : responseWriter :=
  rw_Write (rw_WriteHeader rw code) (msg ++ [10]%Z).

(** [type Agent struct]: the handlers registered in its mux. *)
Record Agent := mkAgent {
  onConnectTo : option (ConnectCommand -> bool * option goerror);
  onConnectViaRelay : option (list Z -> option goerror);
}.

Definition NewAgent : Agent := mkAgent None None.

(** Registering a pattern twice panics in [http.ServeMux]. *)
Definition OnConnectTo (a : Agent) (f : ConnectCommand -> bool * option goerror) : outcome Agent :=
  match onConnectTo a with
  | Some _ => Panic
  | None => Ret (mkAgent (Some f) (onConnectViaRelay a))
  end.

Definition OnConnectViaRelay (a : Agent) (f : list Z -> option goerror) : outcome Agent :=
  match onConnectViaRelay a with
  | Some _ => Panic
  | None => Ret (mkAgent (onConnectTo a) (Some f))
  end.

(** The handler of [POST /connect-to]. *)
Definition handle_connect_to (f : ConnectCommand -> bool * option goerror) (rw : responseWriter)
    (b : body) : responseWriter :=
  match decode_command b with
  | Err err => http_Error rw (Error err) StatusBadRequest
  | Ok cmd =>
      let '(ok, err) := f cmd in
      match err with
      | Some err => http_Error rw (Error err) StatusInternalServerError
      | None => if negb ok then rw_WriteHeader rw StatusCodeConnectFailed
                else rw_WriteHeader rw StatusOK
      end
  end.

(** The handler of [POST /relay/{sessionID}]. *)
Definition handle_relay (f : list Z -> option goerror) (rw : responseWriter) (sessionID : list Z)
    : responseWriter :=
  match f sessionID with
  | Some err => http_Error rw (Error err) StatusInternalServerError
  | None => rw_WriteHeader rw StatusOK
  end.

(** The patterns of the agent's multiplexer. *)
Inductive callback :=
| HConnectTo (f : ConnectCommand -> bool * option goerror)
| HRelay (f : list Z -> option goerror).

Definition mux (a : Agent) : Mux.routes (A := callback) :=
  match onConnectTo a with
  | Some f => [(Mux.mkPattern Mux.POST [Mux.Lit (bytes_of_string "connect-to")] [], HConnectTo f)]
  | None => []
  end ++
  match onConnectViaRelay a with
  | Some f => [(Mux.mkPattern Mux.POST [Mux.Lit (bytes_of_string "relay"); Mux.Wild] ["sessionID"%string], HRelay f)]
  | None => []
  end.

(** [http.ReadRequest] *)
Definition ReadRequest (r : request) : result goerror (Http.Request * body) :=
  match Url.read_target (Target r) with
  | None => Err (OtherError "malformed HTTP request")
  | Some u =>
      Ok (Http.mkRequest (bytes_of_string "star") (Url.u_path u) (Url.u_query u) 1 (fun _ => []) (fun _ => []) None []
            (bytes_of_string (Method r)) (Url.url_EscapedPath u) 0, Body r)
  end.

(** [Request.PathValue], from the values the multiplexer has found. *)
Definition PathValue (vals : list (string * list Z)) (name : string) : list Z :=
  from_option snd [] (List.find (fun nv => String.eqb nv.1 name) vals).

(** [mux.ServeHTTP]; a redirect of a POST has no body. *)
Definition mux_ServeHTTP (a : Agent) (rw : responseWriter) (r : Http.Request) (b : body) : responseWriter :=
  if decide (Http.EscapedPath r = bytes_of_string "*") then rw_WriteHeader rw StatusBadRequest
  else match Mux.findHandler (mux a) r with
  | Mux.Serve _ (HConnectTo f) _ => handle_connect_to f rw b
  | Mux.Serve _ (HRelay f) vals => handle_relay f rw (PathValue vals "sessionID")
  | Mux.MoveTo _ => rw_WriteHeader rw moved
  | Mux.NotAllowed _ => http_Error rw (bytes_of_string "Method Not Allowed") StatusMethodNotAllowed
  | Mux.NoRoute => http_Error rw (bytes_of_string "404 page not found") StatusNotFound
  end.

(** The response of the agent to one request. *)
Definition respond (a : Agent) (r : Http.Request) (b : body) : response := rw_write (mux_ServeHTTP a rw_zero r b).

(** [Agent.Serve]: the script is what arrives on the stream, a request or the
    error of reading it, and for a request whether the response could be
    written; the result is the responses written and the error returned, or no
    error while the script lasts. *)
Fixpoint Serve (a : Agent) (script : list (result goerror (request * option goerror)))
    : list response * option goerror :=
  match script with
  | [] => ([], None)
  | Err err :: _ => ([], Some (Wrapped "read request" err))
  | Ok (req, w) :: script =>
      match ReadRequest req, w with
      | Err err, _ => ([], Some (Wrapped "read request" err))
      | Ok _, Some err => ([], Some (Wrapped "write response" err))
      | Ok (r, b), None =>
          let '(resps, err) := Serve a script in (respond a r b :: resps, err)
      end
  end.

(** * The controller *)

(** One exchange over a stream: writing the request fails, reading the response
    fails, no response comes, or one does, after which the stream ends or stays
    open.  What the reader leaves of a body on the stream is not followed to the
    next exchange. *)
Inductive exchange :=
| WriteFails (e : goerror)
| ReadFails (e : goerror)
| NoResponse
| Responds (r : response) (ends : bool).

Definition Stream := request -> exchange.

(** A call that waits for bytes that do not come does not return. *)
Inductive call := Returns (err : option goerror) | Waits.

(** [NewBadStatusCodeError] on the body of a response, of which it reads at most
    256 bytes: a body without a length is read until then or to the end of the
    stream. *)
Definition bad_status (resp : response) (ends : bool) : call :=
  match ContentLength resp with
  | Some n => Returns (Some (NewBadStatusCodeError (StatusCode resp) (take n (RespBody resp))))
  | None =>
      if ends || (256 <=? length (RespBody resp))%nat
      then Returns (Some (NewBadStatusCodeError (StatusCode resp) (RespBody resp)))
      else Waits
  end.

(** [ConnectTo] *)
Definition ConnectTo (str : Stream) (public private : AddrPort) : call :=
  let cmd := mkConnectCommand public private in
  match str (mkRequest "POST" connect_to_path (encode_command cmd)) with
  | WriteFails err => Returns (Some (Wrapped "write request" err))
  | ReadFails err => Returns (Some (Wrapped "read response" err))
  | NoResponse => Waits
  | Responds resp ends =>
      if decide (StatusCode resp ≠ StatusOK) then
        if decide (StatusCode resp = StatusCodeConnectFailed) then Returns (Some ErrConnectFailed)
        else bad_status resp ends
      else Returns None
  end.

(** [ConnectViaRelay]: the text of the URL is parsed by [http.NewRequest]. *)
Definition ConnectViaRelay (str : Stream) (sessionID : list Z) : call :=
  match Url.url_Parse (relay_prefix ++ sessionID) with
  | None => Returns (Some (Wrapped "create request" (OtherError "parse URL")))
  | Some u =>
      match str (mkRequest "POST" (Url.RequestURI u) NoBody) with
      | WriteFails err => Returns (Some (Wrapped "write request" err))
      | ReadFails err => Returns (Some (Wrapped "read response" err))
      | NoResponse => Waits
      | Responds resp ends =>
          if decide (StatusCode resp ≠ StatusOK) then bad_status resp ends else Returns None
      end
  end.

(** A stream served by an agent, which ends after the response or stays open; an
    agent that cannot read the request leaves it without one. *)
Definition served_by (a : Agent) (ends : bool) : Stream := fun r =>
  match ReadRequest r with
  | Ok (q, b) => Responds (respond a q b) ends
  | Err _ => if ends then ReadFails (Sentinel "io.ErrUnexpectedEOF") else NoResponse
  end.

(** * Lemmas *)

Lemma decode_encode_command c : decode_command (encode_command c) = Ok c.
Proof. by destruct c. Qed.

(** What the controller gets when a callback fails. *)
Definition failed (ends : bool) (e : goerror) : call :=
  let text := Error e ++ [10]%Z in
  if ends || (256 <=? length text)%nat then Returns (Some (BadStatusCodeError 500 (take 256 text))) else Waits.

Lemma failed_cases ends e :
  failed ends e = Waits /\ ends = false /\ length (Error e) < 255
  \/ exists text, failed ends e = Returns (Some (BadStatusCodeError 500 text)) /\ (ends = true \/ 255 <= length (Error e)).
Proof.
  unfold failed. rewrite length_app, Nat.add_1_r. destruct ends; [right; by eexists; split; [|left]|]. cbn [orb].
  destruct (Nat.leb_spec 256 (S (length (Error e)))); [right; eexists; split; [done|right; lia]|left; split; [done|]].
  split; [done|lia].
Qed.

Lemma bad_status_failed ends e :
  bad_status (rw_write (http_Error rw_zero (Error e) StatusInternalServerError)) ends = failed ends e.
Proof.
  unfold bad_status, rw_write, http_Error, failed, rw_Write, rw_WriteHeader, rw_zero. cbn [rw_status rw_body ContentLength RespBody StatusCode app].
  rewrite decide_False by (by destruct (Error e)). rewrite decide_False by done. by destruct (_ || _).
Qed.

Lemma ConnectTo_served f g ends public private :
  ConnectTo (served_by (mkAgent (Some f) g) ends) public private
  = match f (mkConnectCommand public private) with
    | (_, Some e) => failed ends e
    | (false, None) => Returns (Some ErrConnectFailed)
    | (true, None) => Returns None
    end.
Proof.
  unfold ConnectTo, served_by. set (r := mkRequest _ _ _).
  assert (exists q, ReadRequest r = Ok (q, encode_command (mkConnectCommand public private)) /\
    forall rw, mux_ServeHTTP (mkAgent (Some f) g) rw q (encode_command (mkConnectCommand public private))
      = handle_connect_to f rw (encode_command (mkConnectCommand public private))) as (q & -> & Hm).
  { eexists. split; [vm_compute; reflexivity|]. intros rw. unfold mux_ServeHTTP. destruct g; reflexivity. }
  unfold respond. rewrite Hm. unfold handle_connect_to. rewrite decode_encode_command.
  destruct (f (mkConnectCommand public private)) as [[|] [e|]]; cbn [negb]; try reflexivity.
  all: rewrite bad_status_failed; reflexivity.
Qed.

(** The multiplexer finds the relay for each single segment that is not a slash
    when its escapes are undone. *)
Lemma findHandler_relay f g r x : Http.Method r = Mux.POST -> Http.EscapedPath r = relay_prefix ++ x -> Url.seg_ok x ->
  Mux.pathUnescape x <> [Mux.slash] ->
  exists p, Mux.findHandler (mux (mkAgent f (Some g))) r = Mux.Serve p (HRelay g) [("sessionID"%string, Mux.pathUnescape x)].
Proof.
  intros Hm He Hx Hsl.
  assert (relay_prefix ++ x = Mux.slash :: Mux.join [bytes_of_string "relay"; x]) as Hj by reflexivity.
  assert (Forall Url.seg_ok [bytes_of_string "relay"; x]) as Hs.
  { apply List.Forall_cons; [|by apply Forall_singleton]. by apply (bool_decide_unpack _). }
  destruct (Url.segs_split _ Hs) as (Hp & Hn & _).
  assert (Mux.split (Mux.join [bytes_of_string "relay"; x]) = [bytes_of_string "relay"; x]) as Hsp by (apply Mux.split_join; done).
  assert (Mux.pathUnescape x <> []) as Hu by (destruct Hx as ((Hne & _) & _); by apply Mux.pathUnescape_nonempty).
  assert (Mux.path_segs (Http.EscapedPath r) = [bytes_of_string "relay"; Mux.pathUnescape x]) as Hseg.
  { rewrite He, Hj. unfold Mux.path_segs. rewrite Hsp. cbn [Mux.mux_segs]. destruct Hx as ((Hne & _) & _). rewrite decide_False by done. reflexivity. }
  assert (Mux.clean r) as Hc.
  { right. rewrite He, Hj. apply Mux.cleanPath_id. rewrite Hsp. exists [bytes_of_string "relay"], x.
    apply Forall_cons in Hp as [Hp1 Hp2]. apply Forall_cons in Hp2 as [Hp2 _]. split; [done|]. split; [by apply Forall_singleton|by right]. }
  set (rp := Mux.mkPattern Mux.POST [Mux.Lit (bytes_of_string "relay"); Mux.Wild] ["sessionID"%string]).
  assert (forall p h, (p, h) ∈ mux (mkAgent f (Some g)) ->
    (p, h) = (rp, HRelay g) \/ Mux.p_segments p = [Mux.Lit (bytes_of_string "connect-to")]) as Hin.
  { intros p h. unfold mux. cbn [onConnectTo onConnectViaRelay]. rewrite elem_of_app, list_elem_of_singleton. destruct f; [|by intros [Hx'%elem_of_nil|]; [|left]].
    rewrite list_elem_of_singleton. intros [[= -> ->]|Hx']; [by right|by left]. }
  assert (Mux.seg_match (Mux.p_segments rp) (Mux.path_segs (Http.EscapedPath r)) = Some [Mux.pathUnescape x]) as Hmatch.
  { rewrite Hseg. cbn. destruct (decide (Mux.pathUnescape x = [Mux.slash])); [done|]. by destruct (decide (Mux.pathUnescape x = [])). }
  assert ((rp, HRelay g) ∈ mux (mkAgent f (Some g))) as Hrp by (unfold mux; cbn; set_solver).
  destruct (Mux.findHandler_method _ r rp (HRelay g) _ Hc Hrp (eq_sym Hm) Hmatch) as (p & h & vs & E & Hp' & _ & Hv).
  { intros p' h' [[= -> ->]|Hp']%Hin _; [done|]. by rewrite Hp'. }
  apply Hin in Hp' as [Hp'|Hp'].
  - exists p. injection Hp' as -> ->. rewrite Hmatch in Hv. injection Hv as <-. exact E.
  - rewrite Hp', Hseg in Hv. cbn in Hv. by case_decide.
Qed.

(** The request that the agent reads from a target. *)
Definition relay_request (u : Url.url) : Http.Request :=
  Http.mkRequest (bytes_of_string "star") (Url.u_path u) (Url.u_query u) 1 (fun _ => []) (fun _ => []) None []
    (bytes_of_string "POST") (Url.url_EscapedPath u) 0.

Lemma ConnectViaRelay_as a g ends sid u u' id : Url.url_Parse (relay_prefix ++ sid) = Some u ->
  Url.read_target (Url.RequestURI u) = Some u' ->
  mux_ServeHTTP a rw_zero (relay_request u') NoBody = handle_relay g rw_zero id ->
  ConnectViaRelay (served_by a ends) sid = match g id with Some e => failed ends e | None => Returns None end.
Proof.
  intros Hu Hread Hm. unfold ConnectViaRelay. rewrite Hu. unfold served_by, ReadRequest. cbn [Target Method Body]. rewrite Hread.
  unfold respond. fold (relay_request u'). rewrite Hm. unfold handle_relay. destruct (g id) as [e|]; [|reflexivity]. by rewrite <- bad_status_failed.
Qed.

Lemma ConnectViaRelay_served f g ends sid : Url.plain_seg sid ->
  ConnectViaRelay (served_by (mkAgent f (Some g)) ends) sid
  = match g sid with Some e => failed ends e | None => Returns None end.
Proof.
  intros Hs. pose proof (Url.plain_seg_ok _ Hs) as Hok. destruct Hs as (Hp & Hn & Ht).
  assert (Url.plain_text (relay_prefix ++ sid)) as Htp by (apply Forall_app; split; [by apply (bool_decide_unpack _)|done]).
  destruct (Url.plain_travels _ Htp eq_refl) as (u & u' & Hu & Huri & Hread & Hpath & Hesc & Hq).
  destruct (Url.target_seg _ Hok Ht) as [Hts Htu].
  rewrite (Url.target_app relay_prefix sid) in * by (by vm_compute).
  eapply ConnectViaRelay_as; [exact Hu|by rewrite Huri|].
  assert (Http.EscapedPath (relay_request u') = relay_prefix ++ Url.target sid) as Hq' by exact Hesc.
  destruct (findHandler_relay f g (relay_request u') (Url.target sid)) as [p E]; [done..|by rewrite Htu; intros ->; apply Hn; left|].
  unfold mux_ServeHTTP. rewrite E, Htu, Hq'. reflexivity.
Qed.

(** An identifier that does not arrive, or not as it is. *)
Definition relayed (g : list Z -> option goerror) (ends : bool) (sid : string) : call :=
  ConnectViaRelay (served_by (mkAgent None (Some g)) ends) (bytes_of_string sid).

(** A response whose text the controller gets if the stream ends. *)
Definition bad_text (ends : bool) (code : Z) (text : string) : call :=
  if ends then Returns (Some (BadStatusCodeError code (bytes_of_string text ++ [10]%Z))) else Waits.

Lemma rewritten_ids g ends :
  relayed g ends "%41" = match g (bytes_of_string "A") with Some e => failed ends e | None => Returns None end
  /\ relayed g ends "a?b" = match g (bytes_of_string "a") with Some e => failed ends e | None => Returns None end
  /\ relayed g ends "%zz" = Returns (Some (Wrapped "create request" (OtherError "parse URL")))
  /\ relayed g ends "a/b" = bad_text ends StatusNotFound "404 page not found"
  /\ relayed g ends "%2F" = bad_text ends StatusNotFound "404 page not found"
  /\ relayed g ends "" = bad_text ends StatusNotFound "404 page not found"
  /\ (moved = 301 \/ moved = 307 -> relayed g ends ".." = Returns (Some (BadStatusCodeError moved [])))%Z.
Proof.
  split_and!.
  - apply (ConnectViaRelay_as _ g ends _ (Url.mkURL (relay_prefix ++ [65]) (relay_prefix ++ bytes_of_string "%41") [] false)%Z
      (Url.mkURL (relay_prefix ++ [65]) (relay_prefix ++ bytes_of_string "%41") [] false)%Z); vm_compute; reflexivity.
  - apply (ConnectViaRelay_as _ g ends _ (Url.mkURL (relay_prefix ++ [97]) [] [98] false)%Z
      (Url.mkURL (relay_prefix ++ [97]) [] [98] false)%Z); vm_compute; reflexivity.
  - destruct ends; vm_compute; reflexivity.
  - destruct ends; vm_compute; reflexivity.
  - destruct ends; vm_compute; reflexivity.
  - destruct ends; vm_compute; reflexivity.
  - assert (relayed g ends ".." = (let resp := rw_write (rw_WriteHeader rw_zero moved) in
      if decide (StatusCode resp <> StatusOK) then bad_status resp ends else Returns None)) as -> by (vm_compute; reflexivity).
    unfold rw_write, rw_WriteHeader. intros [-> | ->]; reflexivity.
Qed.
(** C31. An exchange of the registar with an agent over a stream returns what
    the agent's callback has decided.  [ConnectTo] gives the callback the very
    addresses, and returns nothing for a success, [ErrConnectFailed] for a
    failed attempt without an error, and that sentinel in no other case; an
    error of a callback becomes a [BadStatusCodeError] with status 500 and up to
    256 bytes of its text.  This last answer has no length, so that the
    controller does not return before the stream ends or 256 bytes have come:
    on a stream that stays open it waits exactly for the shorter texts.
    [ConnectViaRelay] gives the callback the very session identifier when it is
    one segment of a path without control bytes, ['?'], ['#'] and ['%'], as the
    hexadecimal ones of the registar are; other identifiers go through the URL,
    the multiplexer and [PathValue] like the following: a percent escape is
    undone, a query is cut off, a wrong escape is an error before anything is
    written, a slash, written or escaped, and the empty identifier find no
    handler, and [..] is redirected. *)
Theorem control_exchange f g ends public private sid : Url.plain_seg sid ->
  let str := served_by (mkAgent (Some f) (Some g)) ends in
  let cmd := mkConnectCommand public private in
  ConnectTo str public private
    = match f cmd with
      | (_, Some e) => failed ends e
      | (false, None) => Returns (Some ErrConnectFailed)
      | (true, None) => Returns None
      end
  /\ ((exists err, ConnectTo str public private = Returns (Some err) /\ errors_Is (Some err) "control.ErrConnectFailed" = true)
      <-> f cmd = (false, None))
  /\ (ConnectTo str public private = Waits
      <-> exists ok e, f cmd = (ok, Some e) /\ ends = false /\ length (Error e) < 255)
  /\ ConnectViaRelay str sid = match g sid with Some e => failed ends e | None => Returns None end
  /\ relayed g ends "%41" = match g (bytes_of_string "A") with Some e => failed ends e | None => Returns None end
  /\ relayed g ends "a?b" = match g (bytes_of_string "a") with Some e => failed ends e | None => Returns None end
  /\ relayed g ends "%zz" = Returns (Some (Wrapped "create request" (OtherError "parse URL")))
  /\ relayed g ends "a/b" = bad_text ends StatusNotFound "404 page not found"
  /\ relayed g ends "%2F" = bad_text ends StatusNotFound "404 page not found"
  /\ relayed g ends "" = bad_text ends StatusNotFound "404 page not found"
  /\ (moved = 301 \/ moved = 307 -> relayed g ends ".." = Returns (Some (BadStatusCodeError moved [])))%Z.
Proof.
  intros Hs str cmd. subst str. rewrite ConnectTo_served. fold cmd. split; [done|]. split; [|split].
  - destruct (f cmd) as [ok [e|]].
    + destruct (failed_cases ends e) as [(-> & _)|(text & -> & _)]; destruct ok; (split; [intros (? & [= ?] & ?); by simplify_eq|done]).
    + destruct ok; (split; [by intros (? & [= ?] & ?)|]); [done|]. intros _. by eexists.
  - destruct (f cmd) as [ok [e|]]; [|destruct ok; (split; [done|by intros (? & ? & ? & _)])].
    destruct (failed_cases ends e) as [(-> & -> & Hl)|(text & -> & Ha)].
    + destruct ok; (split; [intros _; by eexists _, e|done]).
    + destruct ok; (split; [done|]); intros (? & ? & [= <- <-] & -> & Hl); (destruct Ha; [done|lia]).
  - split; [by apply ConnectViaRelay_served|]. apply rewritten_ids.
Qed.
End control.

(** * Witness *)

(** An agent that reaches only peers on port 4000, and refuses relays. *)
Definition demo_connect (cmd : ConnectCommand) : bool * option goerror :=
  (bool_decide (ap_port (PublicAddress cmd) = 4000%Z), None).
Definition demo_relay (sid : list Z) : option goerror := Some (OtherError "refused").
Definition demo_text (e : goerror) : list Z := bytes_of_string "refused".
Definition demo_peer (port : Z) : AddrPort := AddrPortFrom (Addr4 [10; 0; 0; 1]%Z) port.
Definition demo_session : list Z := bytes_of_string "00ff".

Lemma control_exchange_witness :
  Url.plain_seg demo_session
  /\ (exists err, ConnectTo (served_by demo_text 307 (mkAgent (Some demo_connect) (Some demo_relay)) false)
       (demo_peer 5000) (demo_peer 1) = Returns (Some err) /\ errors_Is (Some err) "control.ErrConnectFailed" = true)
  /\ relayed demo_text 307 demo_relay true ".." = Returns (Some (BadStatusCodeError 307 [])).
Proof.
  assert (Url.plain_seg demo_session) as Hs by (by apply (Url.hex_plain [0; 255]%Z); [by apply (bool_decide_unpack _)|]).
  pose proof (control_exchange demo_text 307 demo_connect demo_relay false (demo_peer 5000) (demo_peer 1) demo_session Hs) as (_ & Hf & _).
  pose proof (control_exchange demo_text 307 demo_connect demo_relay true (demo_peer 5000) (demo_peer 1) demo_session Hs) as Hr.
  split; [exact Hs|]. split.
  - apply Hf. reflexivity.
  - apply Hr. by right.
Defined.
