(* ===== verification/CA.v ===== *)
(** The certificate authority of [internal/registar/ca.go], and the peer
    verification of [tlsConfig] in [internal/registar/client.go].

    Cryptography is symbolic, as [crypto/x509] documents it: a certificate
    records the public key it certifies and the key that signed it.  A fresh key
    is a new name.  Times are seconds, the precision of a certificate.  What
    [crypto/rand] and the clock answer comes in a [draw]. *)
From S2P Require Import Prelude Auth Errors.
Local Open Scope Z_scope.

(** * Certificates *)

(** Key pairs, named by who generated them. *)
Inductive keyid := RegistarKey (n : nat) | PeerKey (n : nat).

#[export] Instance keyid_eq_dec : EqDecision keyid.
Proof. solve_decision. Defined.

Record Certificate := mkCertificate {
  SerialNumber : Z;
  NotBefore : Z;
  NotAfter : Z;
  KeyUsageCertSign : bool;
  ExtKeyUsageClientAuth : bool;
  ExtKeyUsageServerAuth : bool;
  IsCA : bool;
  Subject : string;
  DNSNames : list string;
  PublicKey : keyid;
  SignedBy : keyid;
}.

(** The requests the registar gets: [CheckSignature] is its result. *)
Record CertificateRequest := mkCSR {
  csr_Subject : string;
  csr_DNSNames : list string;
  csr_PublicKey : keyid;
  CheckSignature : bool;
}.

(** What the operating system answers while a certificate is made: a serial
    number, a key pair, and two readings of the clock. *)
Record draw := mkDraw {
  d_serial : result goerror Z;
  d_key : result goerror ();
  d_now1 : Z;
  d_now2 : Z;
}.

#[export] Instance keyid_countable : Countable keyid.
Proof.
  apply (inj_countable' (fun k => match k with RegistarKey n => (inl n : nat + nat) | PeerKey n => inr n end)
    (fun s => match s with inl n => RegistarKey n | inr n => PeerKey n end)). by intros [].
Defined.

#[export] Instance Certificate_eq_dec : EqDecision Certificate.
Proof. solve_decision. Defined.

#[export] Instance Certificate_countable : Countable Certificate.
Proof.
  apply (inj_countable'
    (fun c => (SerialNumber c, NotBefore c, NotAfter c,
       (KeyUsageCertSign c, ExtKeyUsageClientAuth c, ExtKeyUsageServerAuth c, IsCA c),
       Subject c, DNSNames c, PublicKey c, SignedBy c))
    (fun '(a, b, c, (d, e, f, g), h, i, j, k) => mkCertificate a b c d e f g h i j k)). by intros [].
Defined.

#[export] Instance CertificateRequest_eq_dec : EqDecision CertificateRequest.
Proof. solve_decision. Defined.

#[export] Instance CertificateRequest_countable : Countable CertificateRequest.
Proof.
  apply (inj_countable' (fun c => (csr_Subject c, csr_DNSNames c, csr_PublicKey c, CheckSignature c))
    (fun '(a, b, c, d) => mkCSR a b c d)). by intros [].
Defined.

Definition hour : Z := 3600.
Definition day : Z := 86400.

(** [x509.CreateCertificate] checks that the signing key is the parent's. *)
Definition CreateCertificate (template : Certificate) (parent : Certificate) (priv : keyid)
    : result goerror Certificate :=
  if decide (PublicKey parent = priv) then
    Ok (mkCertificate (SerialNumber template) (NotBefore template) (NotAfter template)
          (KeyUsageCertSign template) (ExtKeyUsageClientAuth template)
          (ExtKeyUsageServerAuth template) (IsCA template) (Subject template)
          (DNSNames template) (PublicKey template) priv)
  else Err (OtherError "x509: provided PrivateKey doesn't match parent's PublicKey").

(** [fmt.Errorf("msg: %w", err)] on a result. *)
Definition wrap_err {A} (msg : string) (r : result goerror A) : result goerror A :=
  match r with Ok a => Ok a | Err e => Err (Wrapped msg e) end.

(** [newSerialNumber]: [rand.Int] below [2 ^ 128]. *)
Definition newSerialNumber (d : draw) : result goerror Z :=
  match d_serial d with Ok z => Ok (z mod 2 ^ 128) | Err e => Err e end.

(** * Authorities *)

(** [type RootCA struct] *)
Record RootCA := mkRootCA { root_cert : Certificate; root_privKey : keyid }.

(** [type SessionCA struct] *)
Record SessionCA := mkSessionCA { sca_cert : Certificate; sca_privateKey : keyid }.

Definition newSessionCA (cert : Certificate) (privateKey : keyid) : SessionCA :=
  mkSessionCA cert privateKey.

(** The template of a CA certificate, for the key [k]. *)
Definition ca_template (serial : Z) (d : draw) (subject : string) (k : keyid) : Certificate :=
  mkCertificate serial (d_now1 d) (d_now2 d + hour) true false false true subject [] k k.

(** [NewRootCA]; [k] is the key pair it generates. *)
Definition NewRootCA (k : keyid) (d : draw) : result goerror RootCA :=
  serialNumber ← wrap_err "generate serial number" (newSerialNumber d);
  _ ← wrap_err "generate private key" (d_key d);
  let rootTemplate := ca_template serialNumber d "Registar" k in
  cert ← wrap_err "create certificate" (CreateCertificate rootTemplate rootTemplate k);
  Ok (mkRootCA cert k).

(** [RootCA.NewSessionCA] *)
Definition NewSessionCA (r : RootCA) (k : keyid) (d : draw) : result goerror SessionCA :=
  serialNumber ← wrap_err "generate serial number" (newSerialNumber d);
  _ ← wrap_err "generate private key" (d_key d);
  let template := ca_template serialNumber d "Registar Intermediate CA" k in
  cert ← wrap_err "create certificate" (CreateCertificate template (root_cert r) (root_privKey r));
  Ok (newSessionCA cert k).

(** [SessionCA.NewCert] *)
Definition NewCert (s : SessionCA) (csr : CertificateRequest) (d : draw)
    : result goerror Certificate :=
  if negb (CheckSignature csr) then Err (Wrapped "check signature" (OtherError "x509"))
  else
    serialNumber ← wrap_err "generate serial number" (newSerialNumber d);
    let template :=
      mkCertificate serialNumber (d_now1 d) (d_now2 d + 7 * day) false true true false
        (csr_Subject csr) (csr_DNSNames csr) (csr_PublicKey csr) (csr_PublicKey csr) in
    wrap_err "create certificate" (CreateCertificate template (sca_cert s) (sca_privateKey s)).

(** [type Authority struct]; [next_key] names the next key pair generated. *)
Record Authority := mkAuthority {
  root : RootCA;
  sessionsCA : gmap Key SessionCA;
  next_key : nat;
}.

(** [NewAuthority] *)
Definition NewAuthority (r : RootCA) : Authority := mkAuthority r ∅ 1.

(** [ca.NewCert] in [NewSessionCert]: a nil request is dereferenced. *)
Definition issue_cert (ca : SessionCA) (csr : option CertificateRequest) (d : draw)
    : outcome (result goerror (Certificate * Certificate)) :=
  csr ← or_panic csr;
  Ret (cert ← wrap_err "create certificate" (NewCert ca csr d); Ok (sca_cert ca, cert)).

(** [Authority.NewSessionCert]: the new state, and the session's CA certificate
    with the peer's certificate; [d1] serves the session CA, [d2] the leaf. *)
Definition NewSessionCert (a : Authority) (key : Key) (csr : option CertificateRequest) (d1 d2 : draw)
    : Authority * outcome (result goerror (Certificate * Certificate)) :=
  let issue (a : Authority) (ca : SessionCA) := (a, issue_cert ca csr d2) in
  match sessionsCA a !! key with
  | Some ca => issue a ca
  | None =>
      match wrap_err "create session CA" (NewSessionCA (root a) (RegistarKey (next_key a)) d1) with
      | Err err => (a, Ret (Err err))
      | Ok sca => issue (mkAuthority (root a) (<[key := sca]> (sessionsCA a)) (S (next_key a))) sca
      end
  end.

(** [Authority.RemoveSessionCA] *)
Definition RemoveSessionCA (a : Authority) (key : Key) : Authority :=
  mkAuthority (root a) (delete key (sessionsCA a)) (next_key a).

(** * Verification between peers *)

Definition time_valid (c : Certificate) (now : Z) : bool :=
  (NotBefore c <=? now) && (now <=? NotAfter c).

Definition issued_by (c ca : Certificate) : bool :=
  bool_decide (SignedBy c = PublicKey ca) && IsCA ca && KeyUsageCertSign ca.

(** [Certificate.Verify]: a chain from [c] to the trusted [ca] through at most
    [fuel] of the intermediates [inter]; every certificate of it is in time. *)
Fixpoint chain_ok (fuel : nat) (ca : Certificate) (inter : list Certificate) (c : Certificate)
    (now : Z) : bool :=
  time_valid c now
  && ((issued_by c ca && time_valid ca now)
      || match fuel with
         | O => false
         | S fuel => existsb (fun i => issued_by c i && chain_ok fuel ca inter i now) inter
         end).

(** [VerifyPeerCertificate] of [tlsConfig] on the dialling side: the server's
    certificates against the session CA [ca], for server authentication. *)
Definition VerifyPeerCertificate (ca : Certificate) (rawCerts : list Certificate) (now : Z) : bool :=
  match rawCerts with
  | [] => false
  | leaf :: inter => ExtKeyUsageServerAuth leaf && chain_ok (length inter) ca inter leaf now
  end.

(** [tls.RequireAndVerifyClientCert] with [ClientCAs] on the accepting side. *)
Definition VerifyClientCert (ca : Certificate) (rawCerts : list Certificate) (now : Z) : bool :=
  match rawCerts with
  | [] => false
  | leaf :: inter => ExtKeyUsageClientAuth leaf && chain_ok (length inter) ca inter leaf now
  end.

(** Two members of a session, each with its CA certificate and leaf, complete a
    mutual TLS handshake. *)
Definition handshake_ok (client server : Certificate * Certificate) (now : Z) : bool :=
  VerifyPeerCertificate client.1 [server.2] now && VerifyClientCert server.1 [client.2] now.

(** * Invariant *)

(** A CA that can sign for an hour, with its own key. *)
Definition ca_wf (ca : SessionCA) : Prop :=
  PublicKey (sca_cert ca) = sca_privateKey ca
  /\ IsCA (sca_cert ca) = true /\ KeyUsageCertSign (sca_cert ca) = true.

Record authority_wf (a : Authority) : Prop := {
  aw_root : PublicKey (root_cert (root a)) = root_privKey (root a);
  aw_ca : forall k ca, sessionsCA a !! k = Some ca -> ca_wf ca;
  aw_fresh : forall k ca, sessionsCA a !! k = Some ca ->
    exists n, sca_privateKey ca = RegistarKey n /\ (n < next_key a)%nat;
  aw_inj : forall k1 k2 ca1 ca2, sessionsCA a !! k1 = Some ca1 -> sessionsCA a !! k2 = Some ca2 ->
    sca_privateKey ca1 = sca_privateKey ca2 -> k1 = k2;
}.

Lemma NewAuthority_wf k d r : NewRootCA k d = Ok r -> authority_wf (NewAuthority r).
Proof.
  unfold NewRootCA. intros H. destruct (newSerialNumber d), (d_key d); try done.
  cbn in H. unfold CreateCertificate in H. cbn in H. rewrite decide_True in H by done.
  injection H as <-. constructor; cbn; [done|..]; intros *; rewrite ?lookup_empty; done.
Qed.

(** A session CA is made by the root with the given key. *)
Lemma NewSessionCA_ok r k d ca :
  NewSessionCA r k d = Ok ca ->
  ca_wf ca /\ sca_privateKey ca = k /\ NotAfter (sca_cert ca) = d_now2 d + hour
  /\ NotBefore (sca_cert ca) = d_now1 d.
Proof.
  unfold NewSessionCA. intros H. destruct (newSerialNumber d), (d_key d); try done.
  cbn in H. unfold CreateCertificate in H. case_decide; [|done]. cbn in H.
  by injection H as <-.
Qed.

(** What a successful [NewCert] returns. *)
Definition leaf_of (ca : SessionCA) (csr : CertificateRequest) (d : draw) (c : Certificate) : Prop :=
  SignedBy c = sca_privateKey ca /\ PublicKey c = csr_PublicKey csr
  /\ Subject c = csr_Subject csr /\ DNSNames c = csr_DNSNames csr
  /\ ExtKeyUsageClientAuth c = true /\ ExtKeyUsageServerAuth c = true
  /\ IsCA c = false /\ NotBefore c = d_now1 d /\ NotAfter c = d_now2 d + 7 * day
  /\ 0 <= SerialNumber c < 2 ^ 128.

Lemma NewCert_ok ca csr d c :
  NewCert ca csr d = Ok c -> CheckSignature csr = true /\ leaf_of ca csr d c.
Proof.
  unfold NewCert. destruct (CheckSignature csr); [|done]. cbn. intros H.
  unfold newSerialNumber in H. destruct (d_serial d) as [z|]; [|done]. cbn in H.
  unfold CreateCertificate in H. case_decide; [|done]. cbn in H. injection H as <-.
  split; [done|]. unfold leaf_of; cbn. split_and!; try done; apply Z.mod_pos_bound; lia.
Qed.

(** [NewCert] fails only for a bad signature or for want of randomness. *)
Lemma NewCert_succeeds ca csr d z :
  ca_wf ca -> CheckSignature csr = true -> d_serial d = Ok z -> exists c, NewCert ca csr d = Ok c.
Proof.
  intros (Hk & _) Hs Hd. unfold NewCert, newSerialNumber, CreateCertificate.
  rewrite Hs, Hd. cbn. rewrite decide_True by done. by eexists.
Qed.

(** The session CA used, new or stored. *)
Lemma NewSessionCert_cases a key csr d1 d2 a' res :
  NewSessionCert a key csr d1 d2 = (a', res) ->
  (exists ca, sessionsCA a !! key = Some ca /\ a' = a
     /\ res = issue_cert ca csr d2)
  \/ (sessionsCA a !! key = None /\ a' = a /\ exists e, res = Ret (Err e))
  \/ (exists ca, sessionsCA a !! key = None
     /\ NewSessionCA (root a) (RegistarKey (next_key a)) d1 = Ok ca
     /\ a' = mkAuthority (root a) (<[key := ca]> (sessionsCA a)) (S (next_key a))
     /\ res = issue_cert ca csr d2).
Proof.
  unfold NewSessionCert. destruct (sessionsCA a !! key) as [ca|] eqn:Hk.
  - intros [= <- <-]. left. by exists ca.
  - destruct (NewSessionCA _ _ d1) as [ca|e] eqn:HN; cbn; intros [= <- <-]; right.
    + right. by exists ca.
    + left. split; [done|]. split; [done|]. by eexists.
Qed.

Lemma NewSessionCert_wf a key csr d1 d2 a' res :
  authority_wf a -> NewSessionCert a key csr d1 d2 = (a', res) -> authority_wf a'.
Proof.
  intros Hwf [(ca & _ & -> & _)|[(_ & -> & _)|(ca & Hk & HN & -> & _)]]%NewSessionCert_cases;
    [done|done|].
  destruct Hwf as [H1 H2 H3 H4]. apply NewSessionCA_ok in HN as (Hca & Hkey & _).
  assert (forall k ca', sessionsCA a !! k = Some ca' -> sca_privateKey ca' <> sca_privateKey ca) as Hd.
  { intros k ca' Hl. destruct (H3 _ _ Hl) as (n & -> & Hn). rewrite Hkey. intros [= ->]. lia. }
  constructor; cbn; [done|..].
  - intros k ca' [[-> ->]|[_ Hl]]%lookup_insert_Some; [done|by eapply H2].
  - intros k ca' [[-> ->]|[_ Hl]]%lookup_insert_Some.
    + exists (next_key a). split; [done|lia].
    + destruct (H3 _ _ Hl) as (n & Hn & Hlt). exists n. split; [done|lia].
  - intros k1 k2 ca1 ca2 [[<- <-]|[_ Hl1]]%lookup_insert_Some [[<- <-]|[_ Hl2]]%lookup_insert_Some He.
    + done.
    + by apply Hd in Hl2.
    + by apply Hd in Hl1.
    + by eapply H4.
Qed.

Lemma RemoveSessionCA_wf a key : authority_wf a -> authority_wf (RemoveSessionCA a key).
Proof.
  intros [H1 H2 H3 H4]. constructor; cbn; [done|..].
  - intros k ca [_ Hl]%lookup_delete_Some. by eapply H2.
  - intros k ca [_ Hl]%lookup_delete_Some. by eapply H3.
  - intros k1 k2 ca1 ca2 [_ Hl1]%lookup_delete_Some [_ Hl2]%lookup_delete_Some. by eapply H4.
Qed.

(** A leaf is accepted exactly while both certificates are in time, and only by
    holders of the CA that signed it. *)
Lemma leaf_verify ca0 ca csr d c now :
  ca_wf ca0 -> leaf_of ca csr d c ->
  VerifyPeerCertificate (sca_cert ca0) [c] now = VerifyClientCert (sca_cert ca0) [c] now
  /\ VerifyPeerCertificate (sca_cert ca0) [c] now
     = (time_valid c now && bool_decide (sca_privateKey ca = sca_privateKey ca0)
        && time_valid (sca_cert ca0) now).
Proof.
  intros (Hk & Hca & Hu) (Hs & _ & _ & _ & Hc & Hv & _).
  unfold VerifyPeerCertificate, VerifyClientCert. cbn. rewrite Hc, Hv. split; [done|].
  unfold issued_by. rewrite Hs, Hk, Hca, Hu, !andb_true_r, orb_false_r. cbn.
  by rewrite andb_assoc.
Qed.

(** * The promise to the server *)

(** What the registar server needs of an authority: one CA per session, created
    on first use, stable until revoked, and handed out with each certificate. *)
Class SessionAuthority (A D : Type) := {
  session_ca : A -> Key -> option Certificate;
  issue : A -> Key -> option CertificateRequest -> D -> A * outcome (result goerror (Certificate * Certificate));
  revoke : A -> Key -> A;
}.

Class SessionAuthorityLaws (A D : Type) `{SessionAuthority A D} := {
  issue_ok : forall a k csr d a' ca cert,
    issue a k csr d = (a', Ret (Ok (ca, cert))) -> session_ca a' k = Some ca;
  issue_stable : forall a k csr d a' r ca,
    issue a k csr d = (a', r) -> session_ca a k = Some ca -> session_ca a' k = Some ca;
  issue_other : forall a k csr d a' r k',
    issue a k csr d = (a', r) -> k' <> k -> session_ca a' k' = session_ca a k';
  issue_panics : forall a k csr d a', issue a k csr d = (a', Panic) -> csr = None;
  revoke_same : forall a k, session_ca (revoke a k) k = None;
  revoke_other : forall a k k', k' <> k -> session_ca (revoke a k) k' = session_ca a k';
}.

#[export] Instance Authority_session : SessionAuthority Authority (draw * draw) := {
  session_ca a k := sca_cert <$> sessionsCA a !! k;
  issue a k csr d := NewSessionCert a k csr d.1 d.2;
  revoke := RemoveSessionCA;
}.

#[export] Instance Authority_session_laws : SessionAuthorityLaws Authority (draw * draw).
Proof.
  constructor; cbn.
  - intros a k csr d a' ca cert [(sca & Hk & -> & Hr)|[(_ & _ & e & [=])|(sca & _ & _ & -> & Hr)]]%NewSessionCert_cases.
    + destruct csr as [csr|]; [|done]. cbn in Hr. destruct (NewCert sca csr d.2); [|done]. injection Hr as -> _. by rewrite Hk.
    + destruct csr as [csr|]; [|done]. cbn in Hr. destruct (NewCert sca csr d.2); [|done]. injection Hr as -> _. cbn.
      by rewrite lookup_insert_eq.
  - intros a k csr d a' r ca [(sca & Hk & -> & _)|[(Hk & -> & _)|(sca & Hk & _)]]%NewSessionCert_cases;
      [done|done|by rewrite Hk].
  - intros a k csr d a' r k' [(sca & _ & -> & _)|[(_ & -> & _)|(sca & _ & _ & -> & _)]]%NewSessionCert_cases Hne;
      [done|done|]. cbn. by rewrite lookup_insert_ne.
  - intros a k [csr|] d a' [(sca & _ & _ & [=])|[(_ & _ & e & [=])|(sca & _ & _ & _ & [=])]]%NewSessionCert_cases; done.
  - intros a k. by rewrite lookup_delete_eq.
  - intros a k k' Hne. by rewrite lookup_delete_ne.
Qed.

(** * Properties *)

(** What a certificate issued for [k] proves about the authority afterwards. *)
Lemma NewSessionCert_member a k csr d1 d2 a' m :
  NewSessionCert a k csr d1 d2 = (a', Ret (Ok m)) ->
  exists ca csr', csr = Some csr' /\ sessionsCA a' !! k = Some ca /\ m.1 = sca_cert ca /\ leaf_of ca csr' d2 m.2.
Proof.
  intros [(ca & Hk & -> & Hr)|[(_ & _ & e & [=])|(ca & _ & _ & -> & Hr)]]%NewSessionCert_cases;
    (destruct csr as [csr|]; [|done]); exists ca, csr; cbn in Hr; (split; [done|]);
    (destruct (NewCert ca csr d2) as [c|] eqn:HN; [|done]);
    injection Hr as ->; apply NewCert_ok in HN as [_ HN]; cbn; (split; [|done]).
  - done.
  - by rewrite lookup_insert_eq.
Qed.

(** Issuing never replaces a session's CA. *)
Lemma NewSessionCert_keeps a k csr d1 d2 a' r k' ca :
  NewSessionCert a k csr d1 d2 = (a', r) -> sessionsCA a !! k' = Some ca ->
  sessionsCA a' !! k' = Some ca.
Proof.
  intros [(ca' & _ & -> & _)|[(_ & -> & _)|(ca' & Hk & _ & -> & _)]]%NewSessionCert_cases Hk';
    [done|done|]. cbn. rewrite lookup_insert_ne; [done|]. intros ->. congruence.
Qed.

(** A session whose CA certificate has expired accepts no new peer. *)
Lemma session_CA_expires (a a1 : Authority) (k : Key) (ca : SessionCA) (d0 d1 d2 : draw)
    (csr : CertificateRequest) (z : Z) (Hwf : authority_wf a)
    (Hmade : NewSessionCA (root a) (RegistarKey (next_key a)) d0 = Ok ca)
    (Ha1 : a1 = mkAuthority (root a) (<[k := ca]> (sessionsCA a)) (S (next_key a)))
    (Hcsr : CheckSignature csr = true) (Hz : d_serial d2 = Ok z) (Hd : d_now1 d2 <= d_now2 d2)
    (Hlate : d_now2 d0 + hour < d_now2 d2) :
  exists cert, NewSessionCert a1 k (Some csr) d1 d2 = (a1, Ret (Ok (sca_cert ca, cert)))
  /\ time_valid cert (d_now2 d2) = true
  /\ forall now member, d_now2 d2 <= now -> member.1 = sca_cert ca ->
       handshake_ok member (sca_cert ca, cert) now = false
       /\ handshake_ok (sca_cert ca, cert) member now = false.
Proof.
  apply NewSessionCA_ok in Hmade as (Hca & Hkey & Hna & Hnb).
  destruct (NewCert_succeeds ca csr d2 z Hca Hcsr Hz) as [cert Hc].
  exists cert. pose proof (NewCert_ok _ _ _ _ Hc) as [_ Hleaf]. split_and!.
  - subst a1. unfold NewSessionCert. cbn. rewrite lookup_insert_eq. by rewrite Hc.
  - destruct Hleaf as (_ & _ & _ & _ & _ & _ & _ & Hb & Ha & _). unfold time_valid.
    rewrite Hb, Ha. unfold day. apply andb_true_iff. split; apply Z.leb_le; lia.
  - intros now member Hnow Hm.
    destruct (leaf_verify ca ca _ _ _ now Hca Hleaf) as [E V].
    assert (time_valid (sca_cert ca) now = false) as Hexp.
    { unfold time_valid. rewrite Hna. apply andb_false_iff. right. apply Z.leb_gt. lia. }
    rewrite Hexp, andb_false_r in V. unfold handshake_ok. cbn [fst snd]. rewrite !Hm.
    split; [by rewrite V|]. rewrite <- E, V. by rewrite andb_false_r.
Qed.

(** C4. Two certificates issued one after the other, for sessions [k1] and
    [k2]: their holders complete a mutual TLS handshake exactly when the two
    sessions are the same, both leaf certificates are in time, and so is the
    session's CA certificate.  Members of one session trust each other, and
    never a member of another.  A session's CA certificate expires one hour
    after it was made, its leaf certificates after seven days, and the authority
    keeps the CA: past the hour [NewSessionCert] still returns a certificate, in
    time by itself, with which no handshake of the session succeeds. *)
Theorem session_trust (a a1 a2 : Authority) (k1 k2 : Key) (csr1 csr2 : option CertificateRequest)
    (d1 d2 d3 d4 : draw) (m1 m2 : Certificate * Certificate) (now : Z) (Hwf : authority_wf a)
    (H1 : NewSessionCert a k1 csr1 d1 d2 = (a1, Ret (Ok m1)))
    (H2 : NewSessionCert a1 k2 csr2 d3 d4 = (a2, Ret (Ok m2))) :
  handshake_ok m1 m2 now
  = bool_decide (k1 = k2) && time_valid m1.2 now && time_valid m2.2 now && time_valid m1.1 now
  /\ (forall ca d0 csr z, NewSessionCA (root a) (RegistarKey (next_key a)) d0 = Ok ca ->
       CheckSignature csr = true -> d_serial d4 = Ok z -> d_now1 d4 <= d_now2 d4 -> d_now2 d0 + hour < d_now2 d4 ->
       let a' := mkAuthority (root a) (<[k1 := ca]> (sessionsCA a)) (S (next_key a)) in
       exists cert, NewSessionCert a' k1 (Some csr) d3 d4 = (a', Ret (Ok (sca_cert ca, cert)))
       /\ time_valid cert (d_now2 d4) = true
       /\ forall now member, d_now2 d4 <= now -> member.1 = sca_cert ca ->
            handshake_ok member (sca_cert ca, cert) now = false
            /\ handshake_ok (sca_cert ca, cert) member now = false).
Proof.
  split; [|intros; by eapply session_CA_expires].
  pose proof (NewSessionCert_wf _ _ _ _ _ _ _ Hwf H1) as Hwf1.
  pose proof (NewSessionCert_wf _ _ _ _ _ _ _ Hwf1 H2) as Hwf2.
  destruct (NewSessionCert_member _ _ _ _ _ _ _ H1) as (ca1 & csr1' & -> & Hk1 & Hm1 & Hl1).
  destruct (NewSessionCert_member _ _ _ _ _ _ _ H2) as (ca2 & csr2' & -> & Hk2 & Hm2 & Hl2).
  pose proof (NewSessionCert_keeps _ _ _ _ _ _ _ _ _ H2 Hk1) as Hk1'.
  pose proof (aw_ca _ Hwf2 _ _ Hk1') as Hw1. pose proof (aw_ca _ Hwf2 _ _ Hk2) as Hw2.
  unfold handshake_ok. rewrite Hm1, Hm2.
  rewrite (proj2 (leaf_verify ca1 ca2 _ _ _ now Hw1 Hl2)).
  destruct (leaf_verify ca2 ca1 _ _ _ now Hw2 Hl1) as [<- ->].
  assert (bool_decide (sca_privateKey ca2 = sca_privateKey ca1) = bool_decide (k1 = k2)) as ->.
  { apply bool_decide_ext. split.
    - intros He. eapply (aw_inj _ Hwf2); [exact Hk1'|exact Hk2|done].
    - intros ->. congruence. }
  case_bool_decide as He.
  - rewrite bool_decide_true; [|subst k2; congruence].
    assert (ca1 = ca2) as -> by (subst k2; congruence).
    by destruct (time_valid m1.2 now), (time_valid m2.2 now), (time_valid (sca_cert ca2) now).
  - by rewrite andb_false_r.
Qed.

(** * Witnesses *)

Definition demo_draw (t : Z) : draw := mkDraw (Ok 7) (Ok ()) t t.

Definition demo_root : RootCA :=
  mkRootCA (mkCertificate 7 0 hour true false false true "Registar" [] (RegistarKey 0) (RegistarKey 0))
    (RegistarKey 0).

Definition demo_authority : Authority := NewAuthority demo_root.
Definition demo_csr (n : nat) : CertificateRequest := mkCSR "star-p2p-peer" [] (PeerKey n) true.
Definition demo_key : Key := [1; 2; 3; 4; 5].

Lemma demo_authority_wf : authority_wf demo_authority.
Proof. apply (NewAuthority_wf (RegistarKey 0) (demo_draw 0)). reflexivity. Qed.

Lemma session_trust_witness :
  exists a1 a2 m1 m2,
    NewSessionCert demo_authority demo_key (Some (demo_csr 1)) (demo_draw 10) (demo_draw 10) = (a1, Ret (Ok m1))
    /\ NewSessionCert a1 demo_key (Some (demo_csr 2)) (demo_draw 20) (demo_draw 20) = (a2, Ret (Ok m2))
    /\ handshake_ok m1 m2 30 = true.
Proof.
  destruct (NewSessionCert demo_authority demo_key (Some (demo_csr 1)) (demo_draw 10) (demo_draw 10))
    as [a1 [[m1|e]|]] eqn:E1; [|vm_compute in E1; discriminate E1..].
  destruct (NewSessionCert a1 demo_key (Some (demo_csr 2)) (demo_draw 20) (demo_draw 20))
    as [a2 [[m2|e]|]] eqn:E2; [|vm_compute in E1; injection E1 as <- <-; vm_compute in E2; discriminate E2..].
  exists a1, a2, m1, m2. split; [reflexivity|]. split; [exact E2|].
  rewrite (proj1 (session_trust demo_authority a1 a2 demo_key demo_key (Some (demo_csr 1)) (Some (demo_csr 2))
    (demo_draw 10) (demo_draw 10) (demo_draw 20) (demo_draw 20) m1 m2 30 demo_authority_wf E1 E2)).
  vm_compute in E1. injection E1 as <- <-. vm_compute in E2. injection E2 as <- <-. reflexivity.
Defined.
