(* ===== verification/Models.v ===== *)
(** The messages of a registration: [internal/registar/models.go], and the JSON
    that [Register] and [register] exchange ([server.go], [client.go]).

    JSON values are trees whose strings are byte lists: the syntax is that of
    [encoding/json].  The DER of certificates and requests, PEM and the text of
    addresses are parameters. *)
From S2P Require Import Prelude Text Auth Netip Errors CA.
Local Open Scope Z_scope.
Local Abbreviation str := (list Z).

(** * JSON *)

(** The values a member of these messages can have. *)
Inductive value := Null | Str (s : str) | OtherValue.

(** A body: not JSON, [null], an object, or another value. *)
Inductive json := BadJSON | NullJSON | Object (members : list (str * value)) | OtherJSON.

(** [foldName] on the runes an ASCII name can be written with. *)
Definition foldRune (r : Z) : Z :=
  if in_range 97 122 r then r - 32
  else if r =? 383 then 83             (* U+017F, the long s *)
  else if r =? 8490 then 75            (* U+212A, the Kelvin sign *)
  else r.

Definition foldName (name : str) : str := bytes_Map foldRune name.

(** A field is matched by its exact name or up to case. *)
Definition names_field (name key : str) : bool := bool_decide (key = name \/ foldName key = foldName name).

(** The members of an object set the fields of a struct in their order; unknown
    ones are ignored, and the first field that does not decode is the error. *)
Section object.
Context {A : Type}.
Variable set_field : str -> value -> option (A -> result goerror A).

Fixpoint decode_members (members : list (str * value)) (a : A) : result goerror A :=
  match members with
  | [] => Ok a
  | (key, v) :: members =>
      match set_field key v with
      | None => decode_members members a
      | Some set => a' ← set a; decode_members members a'
      end
  end.

(** [json.Decoder.Decode] into a struct whose zero value is [a]. *)
Definition Decode (b : json) (a : A) : result goerror A :=
  match b with
  | BadJSON => Err (OtherError "invalid JSON")
  | NullJSON => Ok a
  | Object members => decode_members members a
  | OtherJSON => Err (OtherError "json: cannot unmarshal")
  end.
End object.

(** A pointer field whose type has [UnmarshalText]: [null] makes it nil. *)
Definition set_pointer {A T} (UnmarshalText : str -> result goerror T) (put : option T -> A -> A) (v : value)
    (a : A) : result goerror A :=
  match v with
  | Null => Ok (put None a)
  | Str s => t ← UnmarshalText s; Ok (put (Some t) a)
  | OtherValue => Err (OtherError "json: cannot unmarshal")
  end.

(** A value field whose type has [UnmarshalText]: [null] leaves it. *)
Definition set_text {A T} (UnmarshalText : str -> result goerror T) (put : T -> A -> A) (v : value)
    (a : A) : result goerror A :=
  match v with
  | Null => Ok a
  | Str s => t ← UnmarshalText s; Ok (put t a)
  | OtherValue => Err (OtherError "json: cannot unmarshal")
  end.

(** A pointer field whose type has [MarshalText]: nil is [null]. *)
Definition marshal_pointer {T} (MarshalText : T -> str) (p : option T) : value :=
  match p with None => Null | Some t => Str (MarshalText t) end.

(** * models.go *)

(** [type RegisterRequest struct]; a nil [CSR] is [None]. *)
Record RegisterRequest := mkRequest { CSR : option CertificateRequest; PrivateAddr : AddrPort }.

(** [type RegisterResponse struct] *)
Record RegisterResponse := mkResponse { CACert : option Certificate; Cert : option Certificate }.

Definition csr_name : str := bytes_of_string "csr".
Definition private_addr_name : str := bytes_of_string "private_addr".
Definition ca_cert_name : str := bytes_of_string "ca_cert".
Definition cert_name : str := bytes_of_string "cert".

Definition csr_type : str := bytes_of_string "CERTIFICATE REQUEST".
Definition certificate_type : str := bytes_of_string "CERTIFICATE".

Section models.
Variable pem_Encode : str -> str -> str.                (* type, bytes *)
Variable pem_Decode : str -> option (str * str).
Variable Raw : Certificate -> str.
Variable RawRequest : CertificateRequest -> str.
Variable ParseCertificate : str -> option Certificate.
Variable ParseCertificateRequest : str -> option CertificateRequest.
Variable addr_MarshalText : AddrPort -> str.
Variable addr_UnmarshalText : str -> option AddrPort.

(** [CSR.MarshalText] and [CSR.UnmarshalText] *)
Definition CSR_MarshalText (c : CertificateRequest) : str := pem_Encode csr_type (RawRequest c).

Definition CSR_UnmarshalText (data : str) : result goerror CertificateRequest :=
  match pem_Decode data with
  | None => Err (OtherError "invalid certificate request")
  | Some (typ, der) =>
      if decide (typ <> csr_type) then Err (OtherError "invalid certificate request")
      else match ParseCertificateRequest der with
           | None => Err (Wrapped "parse certificate request" (OtherError "x509"))
           | Some c => Ok c
           end
  end.

(** [Certificate.MarshalText] and [Certificate.UnmarshalText] *)
Definition Certificate_MarshalText (c : Certificate) : str := pem_Encode certificate_type (Raw c).

Definition Certificate_UnmarshalText (data : str) : result goerror Certificate :=
  match pem_Decode data with
  | None => Err (OtherError "invalid certificate")
  | Some (typ, der) =>
      if decide (typ <> certificate_type) then Err (OtherError "invalid certificate")
      else match ParseCertificate der with
           | None => Err (Wrapped "parse certificate" (OtherError "x509"))
           | Some c => Ok c
           end
  end.

Definition AddrPort_UnmarshalText (data : str) : result goerror AddrPort :=
  match addr_UnmarshalText data with Some p => Ok p | None => Err (OtherError "netip") end.

(** The bodies of the request and of the response. *)
Definition encode_request (q : RegisterRequest) : json :=
  Object [(csr_name, marshal_pointer CSR_MarshalText (CSR q));
          (private_addr_name, Str (addr_MarshalText (PrivateAddr q)))].

Definition encode_response (r : RegisterResponse) : json :=
  Object [(ca_cert_name, marshal_pointer Certificate_MarshalText (CACert r));
          (cert_name, marshal_pointer Certificate_MarshalText (Cert r))].

Definition request_field (key : str) (v : value) : option (RegisterRequest -> result goerror RegisterRequest) :=
  if names_field csr_name key then
    Some (set_pointer CSR_UnmarshalText (fun c q => mkRequest c (PrivateAddr q)) v)
  else if names_field private_addr_name key then
    Some (set_text AddrPort_UnmarshalText (fun p q => mkRequest (CSR q) p) v)
  else None.

Definition response_field (key : str) (v : value) : option (RegisterResponse -> result goerror RegisterResponse) :=
  if names_field ca_cert_name key then
    Some (set_pointer Certificate_UnmarshalText (fun c r => mkResponse c (Cert r)) v)
  else if names_field cert_name key then
    Some (set_pointer Certificate_UnmarshalText (fun c r => mkResponse (CACert r) c) v)
  else None.

(** The zero values of the two structs. *)
Definition request_zero : RegisterRequest := mkRequest None AddrPort_zero.
Definition response_zero : RegisterResponse := mkResponse None None.

Definition decode_request (b : json) : result goerror RegisterRequest := Decode request_field b request_zero.
Definition decode_response (b : json) : result goerror RegisterResponse := Decode response_field b response_zero.

(** [tlsConfig]: [AddCert] panics on a nil certificate, and [cert.Raw]
    dereferences one. *)
Definition tlsConfig (caCert cert : option Certificate) : outcome (Certificate * Certificate) :=
  ca ← or_panic caCert; c ← or_panic cert; Ret (ca, c).

(** The end of [register]: the certificates it makes its configuration of. *)
Definition register_response (b : json) : outcome (result goerror (Certificate * Certificate)) :=
  match decode_response b with
  | Err err => Ret (Err (Wrapped "decode response" err))
  | Ok resp => c ← tlsConfig (CACert resp) (Cert resp); Ret (Ok c)
  end.

(** The part of [Register] up to the response: the new authority, and the status
    of the response with its body. *)
Definition register_request (a : Authority) (key : Key) (b : json) (d1 d2 : draw)
    : Authority * outcome (Z * option json) :=
  match decode_request b with
  | Err _ => (a, Ret (400, None))
  | Ok req =>
      let '(a', r) := NewSessionCert a key (CSR req) d1 d2 in
      (a', r ← r;
           match r with
           | Err _ => Ret (500, None)
           | Ok (caCert, cert) => Ret (200, Some (encode_response (mkResponse (Some caCert) (Some cert))))
           end)
  end.

(** * The encodings *)

(** Addresses whose text is plain: the zero value, or a valid address with a
    zone of visible ASCII. *)
Definition plain_addr (p : AddrPort) : Prop :=
  AddrPort_wf p /\
  match ap_addr p with
  | AddrZero => ap_port p = 0
  | Addr4 _ => True
  | Addr6 _ zone => Forall (fun c => 33 <= c <= 126) zone
  end.

(** What the libraries document: decoding undoes encoding. *)
Class Encodings := {
  pem_decode_encode : forall t b, pem_Decode (pem_Encode t b) = Some (t, b);
  parse_raw : forall c, ParseCertificate (Raw c) = Some c;
  parse_raw_request : forall c, ParseCertificateRequest (RawRequest c) = Some c;
  addr_text : forall p, plain_addr p -> addr_UnmarshalText (addr_MarshalText p) = Some p;
}.

Lemma CSR_text `{Encodings} c : CSR_UnmarshalText (CSR_MarshalText c) = Ok c.
Proof.
  unfold CSR_UnmarshalText, CSR_MarshalText. rewrite pem_decode_encode.
  rewrite decide_False by (intros Hn; by apply Hn). by rewrite parse_raw_request.
Qed.

Lemma Certificate_text `{Encodings} c : Certificate_UnmarshalText (Certificate_MarshalText c) = Ok c.
Proof.
  unfold Certificate_UnmarshalText, Certificate_MarshalText. rewrite pem_decode_encode.
  rewrite decide_False by (intros Hn; by apply Hn). by rewrite parse_raw.
Qed.

Lemma set_pointer_marshal {A T} (un : str -> result goerror T) (ma : T -> str) (put : option T -> A -> A) p a :
  (forall t, un (ma t) = Ok t) -> set_pointer un put (marshal_pointer ma p) a = Ok (put p a).
Proof. intros Hu. destruct p as [t|]; [|done]. cbn. by rewrite Hu. Qed.

(** A field for a name is found. *)
Lemma request_field_csr v :
  request_field csr_name v = Some (set_pointer CSR_UnmarshalText (fun c q => mkRequest c (PrivateAddr q)) v).
Proof. reflexivity. Qed.
Lemma request_field_addr v :
  request_field private_addr_name v = Some (set_text AddrPort_UnmarshalText (fun p q => mkRequest (CSR q) p) v).
Proof. reflexivity. Qed.
Lemma response_field_ca v :
  response_field ca_cert_name v = Some (set_pointer Certificate_UnmarshalText (fun c r => mkResponse c (Cert r)) v).
Proof. reflexivity. Qed.
Lemma response_field_cert v :
  response_field cert_name v = Some (set_pointer Certificate_UnmarshalText (fun c r => mkResponse (CACert r) c) v).
Proof. reflexivity. Qed.

Lemma decode_encode_request `{Encodings} q : plain_addr (PrivateAddr q) -> decode_request (encode_request q) = Ok q.
Proof.
  intros Hp. unfold decode_request, encode_request, Decode. cbn [decode_members].
  rewrite request_field_csr, set_pointer_marshal by apply CSR_text. cbn [mbind result_bind].
  rewrite request_field_addr. cbn. unfold AddrPort_UnmarshalText. rewrite addr_text by done. by destruct q.
Qed.

Lemma decode_encode_response `{Encodings} r : decode_response (encode_response r) = Ok r.
Proof.
  unfold decode_response, encode_response, Decode. cbn [decode_members].
  rewrite response_field_ca, set_pointer_marshal by apply Certificate_text. cbn [mbind result_bind].
  rewrite response_field_cert, set_pointer_marshal by apply Certificate_text. by destruct r.
Qed.

(** Without a member for the request, it stays nil. *)
Lemma decode_without_csr members : forall q q',
  Forall (fun m => names_field csr_name m.1 = false) members -> CSR q = None ->
  decode_members request_field members q = Ok q' -> CSR q' = None.
Proof.
  induction members as [|[key v] members IH]; intros q q' Hf Hq; cbn [decode_members]; [by intros [= <-]|].
  apply Forall_cons in Hf as [Hk Hf]. unfold request_field at 1. cbn [fst] in Hk. rewrite Hk.
  destruct (names_field private_addr_name key); [|by apply IH].
  destruct v as [|s|]; cbn; [by apply IH| |done].
  destruct (AddrPort_UnmarshalText s) as [p|]; cbn; [|done]. by apply IH.
Qed.

(** A session's CA exists, or the authority can make it. *)
Definition ca_available (a : Authority) (k : Key) (d : draw) : Prop :=
  is_Some (sessionsCA a !! k) \/ is_ok (NewSessionCA (root a) (RegistarKey (next_key a)) d) = true.

Lemma NewSessionCert_panics a k csr d1 d2 :
  (NewSessionCert a k csr d1 d2).2 = Panic <-> csr = None /\ ca_available a k d1.
Proof.
  unfold NewSessionCert, ca_available, issue_cert.
  destruct (sessionsCA a !! k) as [ca|] eqn:Hk.
  - destruct csr; cbn; split; naive_solver.
  - destruct (NewSessionCA _ _ d1) as [ca|e]; cbn.
    + destruct csr; cbn; split; naive_solver.
    + split; [done|]. intros [_ [[x [=]]|[=]]].
Qed.

(** Once a certificate was tried to be made, the session has a CA. *)
Lemma NewSessionCert_leaves_ca a k csr d1 d2 :
  (NewSessionCert a k csr d1 d2).2 = Panic -> is_Some (sessionsCA (NewSessionCert a k csr d1 d2).1 !! k).
Proof.
  unfold NewSessionCert. destruct (sessionsCA a !! k) as [ca|] eqn:Hk; [by cbn; rewrite Hk|].
  destruct (NewSessionCA _ _ d1) as [ca|e]; cbn; [|done]. intros _. by rewrite lookup_insert_eq.
Qed.

Lemma register_request_panics a k b d1 d2 :
  (register_request a k b d1 d2).2 = Panic <->
  exists q, decode_request b = Ok q /\ (NewSessionCert a k (CSR q) d1 d2).2 = Panic.
Proof.
  unfold register_request. destruct (decode_request b) as [q|e]; [|split; [done|by intros (q & [=] & _)]].
  destruct (NewSessionCert a k (CSR q) d1 d2) as [a' r] eqn:E. cbn [snd]. split.
  - intros Hr. exists q. rewrite E. split; [done|]. cbn. destruct r as [[[ca c]|e]|]; done.
  - intros (q' & [= <-] & Hr). rewrite E in Hr. cbn in Hr. by subst r.
Qed.

(** C29. The messages of a registration.  A request and a response decode to
    what was encoded, so with the certificates that the authority issued for
    the request of a peer, the peer makes its TLS configuration of exactly
    these; a certificate is not read as a request, nor the other way round.
    [Register] panics exactly when the body decodes without a certificate
    request, by a missing or a [null] member, and the session's CA exists or
    can be made; the CA is then in the authority, with no host to remove it.
    The client panics exactly on a response that lacks a certificate. *)
Theorem register_messages `{Encodings} (a : Authority) (k : Key) (q : RegisterRequest) (d1 d2 : draw)
    (Hp : plain_addr (PrivateAddr q)) :
  decode_request (encode_request q) = Ok q /\
  (forall a' status body, register_request a k (encode_request q) d1 d2 = (a', Ret (status, Some body)) ->
     exists ca cert, NewSessionCert a k (CSR q) d1 d2 = (a', Ret (Ok (ca, cert))) /\
       status = 200 /\ register_response body = Ret (Ok (ca, cert))) /\
  (forall cert, is_ok (CSR_UnmarshalText (Certificate_MarshalText cert)) = false) /\
  (forall csr, is_ok (Certificate_UnmarshalText (CSR_MarshalText csr)) = false) /\
  (forall b, (register_request a k b d1 d2).2 = Panic <->
     exists q', decode_request b = Ok q' /\ CSR q' = None /\ ca_available a k d1) /\
  (forall b, (register_request a k b d1 d2).2 = Panic ->
     is_Some (sessionsCA (register_request a k b d1 d2).1 !! k)) /\
  (forall members q', Forall (fun m => names_field csr_name m.1 = false) members ->
     decode_request (Object members) = Ok q' -> CSR q' = None) /\
  (forall b, register_response b = Panic <->
     exists r, decode_response b = Ok r /\ (CACert r = None \/ Cert r = None)).
Proof.
  split_and!.
  - by apply decode_encode_request.
  - intros a' status body. unfold register_request. rewrite decode_encode_request by done.
    destruct (NewSessionCert a k (CSR q) d1 d2) as [a1 [[[ca cert]|e]|]]; cbn; try done.
    intros [= <- <- <-]. exists ca, cert. split; [done|]. split; [done|].
    unfold register_response. by rewrite decode_encode_response.
  - intros cert. unfold CSR_UnmarshalText, Certificate_MarshalText. rewrite pem_decode_encode. by rewrite decide_True by discriminate.
  - intros csr. unfold Certificate_UnmarshalText, CSR_MarshalText. rewrite pem_decode_encode. by rewrite decide_True by discriminate.
  - intros b. rewrite register_request_panics. by setoid_rewrite NewSessionCert_panics.
  - intros b Hb. apply register_request_panics in Hb as (q' & Hd & Hn). unfold register_request. rewrite Hd.
    apply NewSessionCert_leaves_ca in Hn. revert Hn. by destruct (NewSessionCert a k (CSR q') d1 d2).
  - intros members q' Hf Hd. by apply (decode_without_csr members request_zero q').
  - intros b. unfold register_response. destruct (decode_response b) as [[[ca|] [c|]]|e]; cbn; naive_solver.
Qed.
End models.

(** * Witness *)

(** Encodings as numbers: a record is one number, an address its binary form. *)
Definition pem1 (t b : str) : str := Z.of_nat (length t) :: t ++ b.
Definition unpem1 (s : str) : option (str * str) :=
  match s with [] => None | n :: s => Some (take (Z.to_nat n) s, drop (Z.to_nat n) s) end.

Lemma unpem1_pem1 t b : unpem1 (pem1 t b) = Some (t, b).
Proof. unfold unpem1, pem1. by rewrite Nat2Z.id, take_app_length, drop_app_length. Qed.

Section code.
Context {A : Type} `{Countable A}.
Definition number (a : A) : str := [Zpos (encode a)].
Definition unnumber (s : str) : option A := match s with [Zpos p] => decode p | _ => None end.
Lemma unnumber_number a : unnumber (number a) = Some a.
Proof. unfold unnumber, number. by rewrite decode_encode. Qed.
End code.

#[export] Instance encodings1 : Encodings pem1 unpem1 number number unnumber unnumber number unnumber.
Proof. split; intros; [apply unpem1_pem1|apply unnumber_number..]. Qed.

Lemma register_messages_witness :
  let q := mkRequest (Some (demo_csr 1)) (AddrPortFrom (Addr4 [10; 0; 0; 1]) 4000) in
  plain_addr (PrivateAddr q) /\
  decode_request unpem1 unnumber unnumber (encode_request pem1 number number q) = Ok q.
Proof.
  cbv zeta. assert (plain_addr (AddrPortFrom (Addr4 [10; 0; 0; 1]) 4000)) as Hp
    by (split; [split; [reflexivity|cbn; lia]|exact I]).
  split; [exact Hp|].
  exact (proj1 (register_messages pem1 unpem1 number number unnumber unnumber number unnumber demo_authority demo_key
    (mkRequest (Some (demo_csr 1)) (AddrPortFrom (Addr4 [10; 0; 0; 1]) 4000)) (demo_draw 10) (demo_draw 10) Hp)).
Defined.
