(* ===== verification/Registar.v ===== *)
(** The registar server: [internal/registar/server.go] and [peer.go].

    The handlers [Register] and [Relay] run concurrently, one goroutine per
    request; each is a task whose constructor is its program counter.  A step
    runs one critical section or one call of a task, a function registered with
    [context.AfterFunc] whose context has ended, [Server.Close], or the end of
    a connection or stream.  Streams and connections are numbers. *)
From S2P Require Import Prelude Auth Netip Errors Control CA.

(** [type AddrPair struct] *)
Record AddrPair := mkAddrPair { Public : AddrPort; Private : AddrPort }.

(** * peer.go *)

(** [joinErrors] *)
Definition joinErrors (hostErr peerErr : option goerror) : option goerror :=
  let err := wrap "host failed to connect" hostErr in
  match peerErr with
  | None => err
  | Some e => errors_Join [err; Some (Wrapped "peer failed to connect" e)]
  end.

Definition is_nil (e : option goerror) : bool := match e with None => true | Some _ => false end.

(** [initP2P] after both calls of [ConnectTo] have returned. *)
Definition initP2P_result (hostErr peerErr : option goerror) : option goerror :=
  if is_nil hostErr && is_nil peerErr then None
  else if errors_Is hostErr "control.ErrConnectFailed" && errors_Is peerErr "control.ErrConnectFailed"
  then Some ErrConnectFailed
  else joinErrors hostErr peerErr.

(** Two goroutines and [wg.Wait]: without both results there is none. *)
Definition both (after : option goerror -> option goerror -> option goerror) (hostCall peerCall : call) : call :=
  match hostCall, peerCall with
  | Returns hostErr, Returns peerErr => Returns (after hostErr peerErr)
  | _, _ => Waits
  end.

(** [initP2P]: the two calls are independent, each on its own stream. *)
Definition initP2P (host_str peer_str : Stream) (host peer : AddrPair) : call :=
  both initP2P_result (ConnectTo host_str (Public peer) (Private peer))
    (ConnectTo peer_str (Public host) (Private host)).

(** [initRelay] *)
Definition initRelay (host peer : Stream) (sessionID : list Z) : call :=
  both joinErrors (ConnectViaRelay host sessionID) (ConnectViaRelay peer sessionID).

(** * server.go *)

Definition errCodeNoError : Z := 4096.              (* 0x1000 *)
Definition errCodeHostAlreadyRegistered : Z := 4097.
Definition errCodeHostNotFound : Z := 4098.
Definition errCodeP2PFailed : Z := 4099.

(** [type agent struct] *)
Record agent := newAgent { a_str : nat; a_addrs : AddrPair }.

(** [type waitingSession struct]; [ready] names the channel. *)
Record waitingSession := mkWaiting { ws_stream : nat; ws_ready : nat }.

(** [type Stats struct], without the relayed bytes. *)
Record Stats := mkStats {
  RegisteredConns : nat; WaitingRelays : nat; P2PConns : Z; RelayConns : Z;
}.

(** A request to [Register]: [q_csr] is [None] when the body does not decode and
    [Some None] when it decodes with a nil [CSR];
    [q_conn] when the context has no QUIC connection, [q_str] when the response
    writer gives no stream. *)
Record register_request := mkRegister {
  q_key : Key;
  q_csr : option (option CertificateRequest);
  q_private : AddrPort;
  q_conn : option nat;
  q_remote : AddrPort;
  q_str : option nat;
  q_isHost : bool;
}.

(** A request to [Relay]. *)
Record relay_request := mkRelayRequest {
  l_session : list Z;
  l_conn : option nat;
  l_str : option nat;
}.

Inductive task :=
| TRegister (q : register_request)                       (* decode, certificate, response *)
| TRegisterConn (q : register_request) (c : nat)         (* registerConn: insert *)
| TConnAfter (q : register_request) (c : nat)            (* registerConn: AfterFunc *)
| TStream (q : register_request)                         (* HTTPStream *)
| THost (str : nat) (k : Key) (a : AddrPair)             (* registerHost: check, insert *)
| THostAfter (str : nat) (k : Key) (a : AddrPair)        (* registerHost: AfterFunc *)
| THostCallback (k : Key) (a : AddrPair)                 (* registerHost: HostConnected *)
| TPeer (str : nat) (k : Key) (a : AddrPair)             (* connectPeer: look up the host *)
| TPeerLock (str : nat) (k : Key) (a : AddrPair) (h : agent)
| TPeerP2P (str : nat) (k : Key) (a : AddrPair) (h : agent)    (* holds h.mu *)
| TPeerRelay (str : nat) (k : Key) (a : AddrPair) (h : agent)  (* holds h.mu *)
| TRelay (l : relay_request)                             (* Relay: registeredConns *)
| TRelayStream (l : relay_request)                       (* Relay: HTTPStream *)
| TRelayPair (str : nat) (sid : list Z)                  (* Relay: relayMu section *)
| TRelayReady (ch : nat)                                 (* Relay: deferred close *)
| TRelayWait (sid : list Z) (str ch : nat)               (* Relay: final select *)
| TRelayGone (sid : list Z) (str : nat).                 (* Relay: delete after Done *)

(** Functions waiting for a context to end. *)
Inductive after :=
| AfterConn (c : nat)
| AfterHost (str : nat) (k : Key) (a : AddrPair).

Inductive event :=
| EvHTTPError (code : Z)
| EvRegistered (q : register_request) (ca cert : Certificate)
| EvCancel (str : nat) (code : Z)
| EvHostConnected (k : Key) (a : AddrPair)
| EvHostDisconnected (k : Key) (a : AddrPair)
| EvPeerConnected (k : Key) (a : AddrPair)
| EvRelayAdmitted (l : relay_request) (c : nat)  (* WriteHeader(200) *)
| EvProxy (sid : list Z) (a b : nat).

Section server.
Context {A D : Type} `{SessionAuthorityLaws A D}.

(** [type Server struct] and what surrounds it: the tasks, the functions
    waiting on contexts, the contexts that have ended, the channels [ready]
    that are closed, the locked agents, the streams used so far. *)
Record Server := mkServer {
  caAuthority : A;
  registeredConns : gset nat;
  hosts : gmap Key agent;
  relayWaiting : gmap (list Z) waitingSession;
  p2pConns : Z;
  relayConns : Z;
  locked : gset nat;
  ready_closed : gset nat;
  next_ch : nat;
  ended : gset nat;
  conn_ended : gset nat;
  used : gset nat;
  tasks : list task;
  afters : list after;
  log : list event;
}.

(** [NewServer] *)
Definition NewServer (a : A) : Server :=
  mkServer a ∅ ∅ ∅ 0 0 ∅ ∅ 0 ∅ ∅ ∅ [] [] [].

Definition emit (w : Server) (ev : list event) : Server :=
  mkServer (caAuthority w) (registeredConns w) (hosts w) (relayWaiting w) (p2pConns w)
    (relayConns w) (locked w) (ready_closed w) (next_ch w) (ended w) (conn_ended w) (used w)
    (tasks w) (afters w) (ev ++ log w).

Definition set_auth (w : Server) (a : A) : Server :=
  mkServer a (registeredConns w) (hosts w) (relayWaiting w) (p2pConns w)
    (relayConns w) (locked w) (ready_closed w) (next_ch w) (ended w) (conn_ended w) (used w)
    (tasks w) (afters w) (log w).

Definition set_conns (w : Server) (c : gset nat) : Server :=
  mkServer (caAuthority w) c (hosts w) (relayWaiting w) (p2pConns w)
    (relayConns w) (locked w) (ready_closed w) (next_ch w) (ended w) (conn_ended w) (used w)
    (tasks w) (afters w) (log w).

Definition set_hosts (w : Server) (h : gmap Key agent) : Server :=
  mkServer (caAuthority w) (registeredConns w) h (relayWaiting w) (p2pConns w)
    (relayConns w) (locked w) (ready_closed w) (next_ch w) (ended w) (conn_ended w) (used w)
    (tasks w) (afters w) (log w).

Definition set_waiting (w : Server) (r : gmap (list Z) waitingSession) (n : nat) : Server :=
  mkServer (caAuthority w) (registeredConns w) (hosts w) r (p2pConns w)
    (relayConns w) (locked w) (ready_closed w) n (ended w) (conn_ended w) (used w)
    (tasks w) (afters w) (log w).

Definition set_counts (w : Server) (p r : Z) : Server :=
  mkServer (caAuthority w) (registeredConns w) (hosts w) (relayWaiting w) p
    r (locked w) (ready_closed w) (next_ch w) (ended w) (conn_ended w) (used w)
    (tasks w) (afters w) (log w).

Definition set_locked (w : Server) (l : gset nat) : Server :=
  mkServer (caAuthority w) (registeredConns w) (hosts w) (relayWaiting w) (p2pConns w)
    (relayConns w) l (ready_closed w) (next_ch w) (ended w) (conn_ended w) (used w)
    (tasks w) (afters w) (log w).

Definition set_ready (w : Server) (r : gset nat) : Server :=
  mkServer (caAuthority w) (registeredConns w) (hosts w) (relayWaiting w) (p2pConns w)
    (relayConns w) (locked w) r (next_ch w) (ended w) (conn_ended w) (used w)
    (tasks w) (afters w) (log w).

Definition set_tasks (w : Server) (t : list task) : Server :=
  mkServer (caAuthority w) (registeredConns w) (hosts w) (relayWaiting w) (p2pConns w)
    (relayConns w) (locked w) (ready_closed w) (next_ch w) (ended w) (conn_ended w) (used w)
    t (afters w) (log w).

Definition set_afters (w : Server) (a : list after) : Server :=
  mkServer (caAuthority w) (registeredConns w) (hosts w) (relayWaiting w) (p2pConns w)
    (relayConns w) (locked w) (ready_closed w) (next_ch w) (ended w) (conn_ended w) (used w)
    (tasks w) a (log w).

Definition set_world (w : Server) (e c u : gset nat) : Server :=
  mkServer (caAuthority w) (registeredConns w) (hosts w) (relayWaiting w) (p2pConns w)
    (relayConns w) (locked w) (ready_closed w) (next_ch w) e c u
    (tasks w) (afters w) (log w).

(** ** Handlers *)

(** What a task's step is told: the draws of the authority, the results of the
    calls to host and peer, and which case of the final select is taken. *)
Inductive choice :=
| Go
| Draws (d : D)
| Results (hostErr peerErr : option goerror)
| TakeDone
| TakeReady.

(** A step of a task: the new state and the task's continuation, if any. *)
Definition task_result : Type := option (outcome (Server * option task)).

Definition continue (w : Server) (t : task) : task_result := Some (Ret (w, Some t)).
Definition finish (w : Server) : task_result := Some (Ret (w, None)).

(** [Register] up to the response. *)
Definition Register_cert (w : Server) (q : register_request) (d : D) : task_result :=
  match q_csr q with
  | None => finish (emit w [EvHTTPError 400])
  | Some csr =>
      let '(a, r) := issue (caAuthority w) (q_key q) csr d in
      let w := set_auth w a in
      match r with
      | Panic => Some Panic
      | Ret (Err _) => finish (emit w [EvHTTPError 500])
      | Ret (Ok (ca, cert)) =>
          match q_conn q with
          | None => finish (emit w [EvHTTPError 500])
          | Some c => continue (emit w [EvRegistered q ca cert]) (TRegisterConn q c)
          end
      end
  end.

(** [Register]: overtake the stream; without one, [str] is nil and its
    [CancelRead] panics. *)
Definition Register_stream (w : Server) (q : register_request) : task_result :=
  let addrs := mkAddrPair (q_remote q) (q_private q) in
  match q_str q with
  | None => Some Panic
  | Some str => if q_isHost q then continue w (THost str (q_key q) addrs)
                else continue w (TPeer str (q_key q) addrs)
  end.

(** [registerHost], the section under [hostsMu]. *)
Definition registerHost (w : Server) (str : nat) (k : Key) (a : AddrPair) : task_result :=
  match hosts w !! k with
  | Some _ => finish (emit w [EvCancel str errCodeHostAlreadyRegistered])
  | None => continue (set_hosts w (<[k := newAgent str a]> (hosts w))) (THostAfter str k a)
  end.

(** [connectPeer]: the deferred [CancelRead], [CancelWrite] and [Unlock]. *)
Definition peer_return (w : Server) (str : nat) (h : agent) (code : Z) : task_result :=
  finish (emit (set_locked w (locked w ∖ {[a_str h]})) [EvCancel str code]).

(** [connectPeer] with the lock of the host, after [initP2P]. *)
Definition connectPeer_p2p (w : Server) (str : nat) (k : Key) (a : AddrPair) (h : agent)
    (err : option goerror) : task_result :=
  match err with
  | None =>
      peer_return (emit (set_counts w (u64 (p2pConns w + 1)) (relayConns w)) [EvPeerConnected k a])
        str h errCodeNoError
  | Some err =>
      if negb (Is err "control.ErrConnectFailed") then peer_return w str h errCodeP2PFailed
      else continue w (TPeerRelay str k a h)
  end.

(** [connectPeer] after [initRelay]. *)
Definition connectPeer_relay (w : Server) (str : nat) (k : Key) (a : AddrPair) (h : agent)
    (err : option goerror) : task_result :=
  match err with
  | Some _ => peer_return w str h errCodeP2PFailed
  | None =>
      peer_return (emit (set_counts w (p2pConns w) (u64 (relayConns w + 1))) [EvPeerConnected k a])
        str h errCodeNoError
  end.

(** [Relay], the section under [relayMu]. *)
Definition Relay_pair (w : Server) (str : nat) (sid : list Z) : task_result :=
  match relayWaiting w !! sid with
  | Some waiting =>
      let w := set_waiting w (delete sid (relayWaiting w)) (next_ch w) in
      continue (emit w [EvProxy sid (ws_stream waiting) str]) (TRelayReady (ws_ready waiting))
  | None =>
      let ch := next_ch w in
      continue (set_waiting w (<[sid := mkWaiting str ch]> (relayWaiting w)) (S ch))
        (TRelayWait sid str ch)
  end.

Definition task_step (w : Server) (t : task) (c : choice) : task_result :=
  match t, c with
  | TRegister q, Draws d => Register_cert w q d
  | TRegisterConn q c, Go =>
      continue (set_conns w ({[c]} ∪ registeredConns w)) (TConnAfter q c)
  | TConnAfter q c, Go => continue (set_afters w (AfterConn c :: afters w)) (TStream q)
  | TStream q, Go => Register_stream w q
  | THost str k a, Go => registerHost w str k a
  | THostAfter str k a, Go =>
      continue (set_afters w (AfterHost str k a :: afters w)) (THostCallback k a)
  | THostCallback k a, Go => finish (emit w [EvHostConnected k a])
  | TPeer str k a, Go =>
      match hosts w !! k with
      | None => finish (emit w [EvCancel str errCodeHostNotFound])
      | Some h => continue w (TPeerLock str k a h)
      end
  | TPeerLock str k a h, Go =>
      if decide (a_str h ∈ locked w) then None
      else continue (set_locked w ({[a_str h]} ∪ locked w)) (TPeerP2P str k a h)
  | TPeerP2P str k a h, Results hostErr peerErr =>
      connectPeer_p2p w str k a h (initP2P_result hostErr peerErr)
  | TPeerRelay str k a h, Results hostErr peerErr =>
      connectPeer_relay w str k a h (joinErrors hostErr peerErr)
  | TRelay l, Go =>
      match l_conn l with
      | None => finish (emit w [EvHTTPError 500])
      | Some c => if decide (c ∈ registeredConns w)
                  then continue (emit w [EvRelayAdmitted l c]) (TRelayStream l)
                  else finish (emit w [EvHTTPError 401])
      end
  | TRelayStream l, Go =>
      match l_str l with
      | None => Some Panic
      | Some str => continue w (TRelayPair str (l_session l))
      end
  | TRelayPair str sid, Go => Relay_pair w str sid
  | TRelayReady ch, Go =>
      if decide (ch ∈ ready_closed w) then Some Panic
      else finish (set_ready w ({[ch]} ∪ ready_closed w))
  | TRelayWait sid str ch, TakeDone =>
      if decide (str ∈ ended w) then continue w (TRelayGone sid str) else None
  | TRelayWait sid str ch, TakeReady =>
      if decide (ch ∈ ready_closed w) then finish w else None
  | TRelayGone sid _, Go => finish (set_waiting w (delete sid (relayWaiting w)) (next_ch w))
  | _, _ => None
  end.

(** ** Functions run after a context has ended *)

Definition after_ready (w : Server) (a : after) : bool :=
  match a with
  | AfterConn c => bool_decide (c ∈ conn_ended w)
  | AfterHost str _ _ => bool_decide (str ∈ ended w)
  end.

Definition after_run (w : Server) (a : after) : Server :=
  match a with
  | AfterConn c => set_conns w (registeredConns w ∖ {[c]})
  | AfterHost _ k addrs =>
      emit (set_auth (set_hosts w (delete k (hosts w))) (revoke (caAuthority w) k))
        [EvHostDisconnected k addrs]
  end.

(** [Server.Close], the loop under [hostsMu] over the keys of [hosts]. *)
Definition Close_key (w : Server) (k : Key) : Server :=
  set_auth (set_hosts w (delete k (hosts w))) (revoke (caAuthority w) k).

Definition Close (w : Server) : Server := foldl Close_key w (map_to_list (hosts w)).*1.

(** [Server.Stats] *)
Definition get_Stats (w : Server) : Stats :=
  mkStats (size (registeredConns w)) (size (relayWaiting w)) (p2pConns w) (relayConns w).

(** ** Steps *)

Inductive label :=
| LRegister (q : register_request)
| LRelay (l : relay_request)
| LTask (i : nat) (c : choice)
| LAfter (i : nat)
| LStreamEnds (str : nat)
| LConnEnds (c : nat)
| LClose.

(** A new request comes on a new stream. *)
Definition arrive (w : Server) (s : option nat) (t : task) : option (outcome Server) :=
  match s with
  | None => Some (Ret (set_tasks w (t :: tasks w)))
  | Some s => if decide (s ∈ used w) then None
              else Some (Ret (set_tasks (set_world w (ended w) (conn_ended w) ({[s]} ∪ used w))
                                (t :: tasks w)))
  end.

(** The list of tasks after a step of task [i]. *)
Definition tasks_after (ts : list task) (i : nat) (t' : option task) : list task :=
  match t' with Some t' => <[i := t']> ts | None => delete i ts end.

Definition step (w : Server) (l : label) : option (outcome Server) :=
  match l with
  | LRegister q => arrive w (q_str q) (TRegister q)
  | LRelay l => arrive w (l_str l) (TRelay l)
  | LTask i c =>
      t ← tasks w !! i;
      r ← task_step w t c;
      Some ('(w', t') ← r;
            Ret (set_tasks w' (tasks_after (tasks w) i t')))
  | LAfter i =>
      a ← afters w !! i;
      if after_ready w a then Some (Ret (after_run (set_afters w (delete i (afters w))) a)) else None
  | LStreamEnds s => Some (Ret (set_world w ({[s]} ∪ ended w) (conn_ended w) (used w)))
  | LConnEnds c => Some (Ret (set_world w (ended w) ({[c]} ∪ conn_ended w) (used w)))
  | LClose => Some (Ret (Close w))
  end.

Definition steps_to (w w' : Server) : Prop := exists l, step w l = Some (Ret w').

Definition reachable (a : A) (w : Server) : Prop := star steps_to (NewServer a) w.

(** Running a schedule, for the witnesses. *)
Fixpoint run (w : Server) (ls : list label) : option Server :=
  match ls with
  | [] => Some w
  | l :: ls => match step w l with Some (Ret w') => run w' ls | _ => None end
  end.

End server.

(** Case analysis of a step: one goal per handler branch. *)
Ltac task_cases H :=
  lazymatch type of H with
  | task_step _ ?t ?c = _ => destruct t, c; cbn [task_step] in H; try discriminate H
  end;
  unfold Register_cert, Register_stream, registerHost, connectPeer_p2p, connectPeer_relay,
    peer_return, Relay_pair, continue, finish in H;
  repeat (case_match; try discriminate H); injection H as <- <-.

Ltac label_cases l Hs :=
  destruct l as [q|q|i c|i|s|c|]; cbn [step] in Hs; unfold arrive in Hs;
  [ repeat (case_match; try discriminate Hs); simplify_eq
  | repeat (case_match; try discriminate Hs); simplify_eq
  | let Ht := fresh "Ht" in let Hr := fresh "Hr" in
    destruct (tasks _ !! i) as [t|] eqn:Ht; [|discriminate Hs]; cbn [mbind option_bind] in Hs;
    destruct (task_step _ t c) as [[[w1 t']|]|] eqn:Hr; [|discriminate Hs|discriminate Hs];
    cbn [mbind option_bind outcome_bind] in Hs; injection Hs as <-; task_cases Hr
  | let Ha := fresh "Ha" in
    destruct (afters _ !! i) as [a|] eqn:Ha; [|discriminate Hs]; cbn [mbind option_bind] in Hs;
    destruct (after_ready _ a) eqn:?; [|discriminate Hs]; injection Hs as <-; destruct a
  | injection Hs as <-
  | injection Hs as <-
  | injection Hs as <- ].

Ltac step_cases Hs := let l := fresh "l" in destruct Hs as [l Hs]; label_cases l Hs.

Section invariants.
Context {A D : Type} `{SessionAuthorityLaws A D}.
Local Abbreviation Server := (@Registar.Server A).

(** * Bookkeeping *)

(** A task's place in the list of tasks. *)
Lemma task_split (w : Server) i t :
  tasks w !! i = Some t ->
  exists l1 l2, tasks w = l1 ++ t :: l2
  /\ (forall t', <[i := t']> (tasks w) = l1 ++ t' :: l2) /\ delete i (tasks w) = l1 ++ l2.
Proof. apply lookup_split. Qed.

(** The channels a task will close, and the streams it will hand to a proxy. *)
Definition task_ready (t : task) : list nat := match t with TRelayReady ch => [ch] | _ => [] end.

Definition task_strs (t : task) : list nat :=
  match t with
  | TRelay l | TRelayStream l => option_list (l_str l)
  | TRelayPair str _ => [str]
  | _ => []
  end.

(** The host a task has locked. *)
Definition task_locks (t : task) : list nat :=
  match t with TPeerP2P _ _ _ h | TPeerRelay _ _ _ h => [a_str h] | _ => [] end.

Definition proxied (e : event) : list nat := match e with EvProxy _ a b => [a; b] | _ => [] end.

Definition waiting_list (w : Server) : list waitingSession := (map_to_list (relayWaiting w)).*2.

(** Every channel [ready] has one of three owners, and every stream of a relay
    request one of three places. *)
Definition channels (w : Server) : list nat :=
  map ws_ready (waiting_list w) ++ flat_map task_ready (tasks w) ++ elements (ready_closed w).

Definition relay_strs (w : Server) : list nat :=
  map ws_stream (waiting_list w) ++ flat_map task_strs (tasks w) ++ flat_map proxied (log w).

Definition count_connected (e : event) : nat := match e with EvPeerConnected _ _ => 1 | _ => 0 end.

(** ** Nothing is registered that no context will remove *)

Definition host_pending (w : Server) (k : Key) (h : agent) : Prop :=
  THostAfter (a_str h) k (a_addrs h) ∈ tasks w \/ AfterHost (a_str h) k (a_addrs h) ∈ afters w.

Definition conn_pending (w : Server) (c : nat) : Prop :=
  (exists q, TConnAfter q c ∈ tasks w) \/ AfterConn c ∈ afters w.

Definition wait_pending (w : Server) (sid : list Z) (x : waitingSession) : Prop :=
  TRelayWait sid (ws_stream x) (ws_ready x) ∈ tasks w \/ TRelayGone sid (ws_stream x) ∈ tasks w.

Record tracked (w : Server) : Prop := {
  tk_hosts : forall k h, hosts w !! k = Some h -> host_pending w k h;
  tk_conns : forall c, c ∈ registeredConns w -> conn_pending w c;
  tk_waiting : forall sid x, relayWaiting w !! sid = Some x -> wait_pending w sid x;
}.

Lemma tasks_after_old (w : Server) (i : nat) (t : task) (t' : option task) (x : task) :
  tasks w !! i = Some t -> x ∈ tasks w -> t = x \/ x ∈ tasks_after (tasks w) i t'.
Proof.
  intros Hi Hx. destruct (task_split w i t Hi) as (l1 & l2 & Hw & Hins & Hdel).
  rewrite Hw, elem_of_app, elem_of_cons in Hx. unfold tasks_after.
  destruct t'; rewrite ?Hins, ?Hdel, ?elem_of_app, ?elem_of_cons; naive_solver.
Qed.

Lemma tasks_after_new (w : Server) i t t' :
  tasks w !! i = Some t -> t' ∈ tasks_after (tasks w) i (Some t').
Proof.
  intros Hi. destruct (task_split w i t Hi) as (l1 & l2 & _ & Hins & _). cbn.
  rewrite Hins, elem_of_app, elem_of_cons. tauto.
Qed.

(** What a task step must show: what it adds is pending in its continuation,
    and what its task was pending for is in [afters] now. *)
Lemma tracked_task (w w1 : Server) i t t' :
  tracked w -> tasks w !! i = Some t ->
  (forall x, x ∈ afters w -> x ∈ afters w1) ->
  (forall k h, hosts w1 !! k = Some h ->
     hosts w !! k = Some h \/ t' = Some (THostAfter (a_str h) k (a_addrs h))) ->
  (forall str k a, t = THostAfter str k a -> AfterHost str k a ∈ afters w1) ->
  (forall c, c ∈ registeredConns w1 ->
     c ∈ registeredConns w \/ exists q, t' = Some (TConnAfter q c)) ->
  (forall q c, t = TConnAfter q c -> AfterConn c ∈ afters w1) ->
  (forall sid x, relayWaiting w1 !! sid = Some x ->
     (relayWaiting w !! sid = Some x /\ t <> TRelayGone sid (ws_stream x)
        /\ (t = TRelayWait sid (ws_stream x) (ws_ready x) ->
            t' = Some (TRelayGone sid (ws_stream x))))
     \/ t' = Some (TRelayWait sid (ws_stream x) (ws_ready x))) ->
  tracked (set_tasks w1 (tasks_after (tasks w) i t')).
Proof.
  intros [H1 H2 H3] Hi Haf Hh Hht Hc Hct Hw.
  pose proof (fun x => tasks_after_old w i t t' x Hi) as Hold.
  assert (forall x, t' = Some x -> x ∈ tasks_after (tasks w) i t') as Hnew
    by (intros x ->; by eapply tasks_after_new).
  constructor; unfold host_pending, conn_pending, wait_pending in *; cbn.
  - intros k h [Hk|Hk]%Hh; [|left; by apply Hnew].
    destruct (H1 _ _ Hk) as [Hin|Hin]; [|right; by apply Haf].
    destruct (Hold _ Hin) as [Heq|Hin']; [right; by eapply Hht|by left].
  - intros c [Hk|[q Hk]]%Hc; [|left; exists q; by apply Hnew].
    destruct (H2 _ Hk) as [[q Hin]|Hin]; [|right; by apply Haf].
    destruct (Hold _ Hin) as [Heq|Hin']; [right; by eapply Hct|left; by exists q].
  - intros sid x [(Hk & Hng & Hnw)|Hk]%Hw; [|left; by apply Hnew].
    destruct (H3 _ _ Hk) as [Hin|Hin]; destruct (Hold _ Hin) as [Heq|Hin'].
    + right. apply Hnew. by apply Hnw.
    + by left.
    + done.
    + by right.
Qed.

(** Steps that leave the tasks alone and register nothing. *)
Lemma tracked_shrink (w w1 : Server) :
  tracked w -> (forall t, t ∈ tasks w -> t ∈ tasks w1) ->
  (forall k h, hosts w1 !! k = Some h -> hosts w !! k = Some h
     /\ (AfterHost (a_str h) k (a_addrs h) ∈ afters w -> AfterHost (a_str h) k (a_addrs h) ∈ afters w1)) ->
  (forall c, c ∈ registeredConns w1 -> c ∈ registeredConns w
     /\ (AfterConn c ∈ afters w -> AfterConn c ∈ afters w1)) ->
  relayWaiting w1 = relayWaiting w ->
  tracked w1.
Proof.
  intros [H1 H2 H3] Ht Hh Hc Hw. constructor; unfold host_pending, conn_pending, wait_pending in *.
  - intros k h [Hk Ha]%Hh. destruct (H1 _ _ Hk); [left; by apply Ht|right; by apply Ha].
  - intros c [Hk Ha]%Hc. destruct (H2 _ Hk) as [[q ?]|]; [left; exists q; by apply Ht|right; by apply Ha].
  - intros sid x. rewrite Hw. intros Hk. destruct (H3 _ _ Hk); [left|right]; by apply Ht.
Qed.

Lemma after_deleted (w : Server) i a x :
  afters w !! i = Some a -> x ∈ afters w -> x = a \/ x ∈ delete i (afters w).
Proof. intros Hi Hx. rewrite (delete_Permutation _ _ _ Hi) in Hx. by apply elem_of_cons in Hx. Qed.

(** [Close] removes every host and revokes its CA. *)
Lemma Close_spec (w : Server) :
  hosts (Close w) = ∅ /\ tasks (Close w) = tasks w /\ afters (Close w) = afters w
  /\ registeredConns (Close w) = registeredConns w /\ relayWaiting (Close w) = relayWaiting w
  /\ log (Close w) = log w /\ ready_closed (Close w) = ready_closed w
  /\ next_ch (Close w) = next_ch w /\ used (Close w) = used w /\ locked (Close w) = locked w
  /\ p2pConns (Close w) = p2pConns w /\ relayConns (Close w) = relayConns w.
Proof.
  assert (forall ks w, (forall k, is_Some (hosts w !! k) -> k ∈ ks) ->
    let w' := foldl Close_key w ks in
    (forall k, hosts w' !! k = None) /\ tasks w' = tasks w /\ afters w' = afters w
  /\ registeredConns w' = registeredConns w /\ relayWaiting w' = relayWaiting w
  /\ log w' = log w /\ ready_closed w' = ready_closed w
  /\ next_ch w' = next_ch w /\ used w' = used w /\ locked w' = locked w
  /\ p2pConns w' = p2pConns w /\ relayConns w' = relayConns w) as Hf.
  { induction ks as [|k ks IH]; intros v Hv; cbn.
    - split_and!; try done. intros k. destruct (hosts v !! k) eqn:E; [|done].
      destruct (not_elem_of_nil k). apply Hv. by eexists.
    - apply (IH (Close_key v k)). intros k'. cbn. intros [h [Hne Hk']%lookup_delete_Some].
      destruct (proj1 (elem_of_cons ks k' k) (Hv k' ltac:(by eexists))); [congruence|done]. }
  unfold Close. destruct (Hf (map_to_list (hosts w)).*1 w) as (H1 & Hrest).
  { intros k [h Hk]. apply list_elem_of_fmap. exists (k, h). split; [done|]. by apply elem_of_map_to_list. }
  split; [|exact Hrest]. apply map_empty. exact H1.
Qed.

(** ** Rendezvous of relay requests *)

Record rendezvous (w : Server) : Prop := {
  rv_channels : NoDup (channels w);
  rv_next : forall ch, ch ∈ channels w -> (ch < next_ch w)%nat;
  rv_streams : NoDup (relay_strs w);
  rv_used : forall s, s ∈ relay_strs w -> s ∈ used w;
}.

Lemma rendezvous_perm (w w1 : Server) :
  rendezvous w -> channels w1 ⊆+ channels w -> relay_strs w1 ⊆+ relay_strs w ->
  next_ch w1 = next_ch w -> used w ⊆ used w1 -> rendezvous w1.
Proof.
  intros [H1 H2 H3 H4] Hc Hs Hn Hu. constructor; rewrite ?Hn.
  - by eapply NoDup_submseteq_sub.
  - intros ch Hch. apply H2. by eapply elem_of_submseteq.
  - by eapply NoDup_submseteq_sub.
  - intros s Hin. apply Hu, H4. by eapply elem_of_submseteq.
Qed.

Lemma waiting_insert (m : gmap (list Z) waitingSession) sid x :
  m !! sid = None -> (map_to_list (<[sid := x]> m)).*2 ≡ₚ x :: (map_to_list m).*2.
Proof. intros Hm. by rewrite map_to_list_insert. Qed.

Lemma waiting_delete (m : gmap (list Z) waitingSession) sid x :
  m !! sid = Some x -> (map_to_list m).*2 ≡ₚ x :: (map_to_list (delete sid m)).*2.
Proof. intros Hm. by rewrite <- (map_to_list_delete m sid x). Qed.

(** The places of task [i] in the two lists. *)
Ltac split_task Ht :=
  let l1 := fresh "l1" in let l2 := fresh "l2" in
  let Hw := fresh "Hw" in let Hins := fresh "Hins" in let Hdel := fresh "Hdel" in
  destruct (task_split _ _ _ Ht) as (l1 & l2 & Hw & Hins & Hdel);
  cbn [tasks_after]; rewrite ?Hins, ?Hdel, ?Hw, !flat_map_app; cbn.

(** A relay request arrives on a fresh stream. *)
Lemma rendezvous_arrive w l s :
  rendezvous w -> l_str l = Some s -> s ∉ used w ->
  rendezvous (set_tasks (set_world w (ended w) (conn_ended w) ({[s]} ∪ used w)) (TRelay l :: tasks w)).
Proof.
  intros [H1 H2 H3 H4] Hl Hs.
  match goal with |- rendezvous ?v => set (w1 := v) end.
  assert (relay_strs w1 ≡ₚ s :: relay_strs w) as Hp
    by (unfold relay_strs, w1, waiting_list; cbn; rewrite Hl; cbn; solve_Permutation).
  constructor; [exact H1|exact H2| |].
  - rewrite Hp. constructor; [|done]. by intros Hin%H4.
  - intros s' Hin. rewrite Hp in Hin. apply elem_of_cons in Hin as [->|Hin%H4]; cbn; set_solver.
Qed.

(** A relay request waits on a new channel. *)
Lemma rendezvous_wait w i str sid :
  rendezvous w -> tasks w !! i = Some (TRelayPair str sid) -> relayWaiting w !! sid = None ->
  rendezvous (set_tasks (set_waiting w (<[sid := mkWaiting str (next_ch w)]> (relayWaiting w)) (S (next_ch w)))
    (tasks_after (tasks w) i (Some (TRelayWait sid str (next_ch w))))).
Proof.
  intros [H1 H2 H3 H4] Ht Hm.
  match goal with |- rendezvous ?v => set (w1 := v) end.
  assert (channels w1 ≡ₚ next_ch w :: channels w /\ relay_strs w1 ≡ₚ relay_strs w) as [Hc Hp].
  { unfold channels, relay_strs, w1, waiting_list; cbn [relayWaiting set_tasks set_waiting tasks ready_closed log].
    rewrite waiting_insert by done. split_task Ht. split; solve_Permutation. }
  constructor; [| |by rewrite Hp|intros s; rewrite Hp; apply H4].
  - rewrite Hc. constructor; [|done]. intros Hin%H2. lia.
  - intros ch Hin. rewrite Hc in Hin. unfold w1; cbn. apply elem_of_cons in Hin as [->|Hin%H2]; lia.
Qed.

Lemma rendezvous_step w w' : rendezvous w -> steps_to w w' -> rendezvous w'.
Proof.
  intros Hrv Hs. step_cases Hs.
  all: try (eapply (rendezvous_perm w); [exact Hrv| | |reflexivity|cbn; set_solver];
    unfold channels, relay_strs, waiting_list; cbn; try split_task Ht;
    repeat match goal with E : l_str _ = _ |- _ => rewrite E; cbn end; solve_submseteq).
  - by apply rendezvous_arrive.
  - (* the second of a session *)
    match goal with E : relayWaiting w !! sid = Some ?x |- _ =>
      pose proof (waiting_delete _ _ _ E) as Hp end.
    eapply (rendezvous_perm w); [exact Hrv| | |reflexivity|done];
      unfold channels, relay_strs, waiting_list; rewrite Hp; cbn; split_task Ht; solve_submseteq.
  - by apply rendezvous_wait.
  - eapply (rendezvous_perm w); [exact Hrv| | |reflexivity|done];
      unfold channels, relay_strs, waiting_list; cbn; split_task Ht; [|solve_submseteq].
    rewrite elements_union_singleton by done. solve_submseteq.
  - eapply (rendezvous_perm w); [exact Hrv| | |reflexivity|done];
      unfold channels, relay_strs, waiting_list; cbn; split_task Ht;
      (destruct (relayWaiting w !! sid) as [x|] eqn:Hm; [rewrite (waiting_delete _ _ _ Hm)|rewrite delete_id by done]);
      cbn; solve_submseteq.
  - destruct (Close_spec w) as (_ & E1 & E2 & E3 & E4 & E5 & E6 & E7 & E8 & _).
    eapply (rendezvous_perm w); [exact Hrv| | |done|by rewrite E8];
      unfold channels, relay_strs, waiting_list; by rewrite ?E1, ?E4, ?E5, ?E6.
Qed.

(** A closed channel has no entry in the table. *)
Lemma closed_not_waiting w sid x :
  rendezvous w -> ws_ready x ∈ ready_closed w -> relayWaiting w !! sid <> Some x.
Proof.
  intros [H1 _ _ _] Hc Hm. unfold channels, waiting_list in H1.
  rewrite (waiting_delete _ _ _ Hm) in H1. cbn in H1. apply NoDup_cons in H1 as [Hn _].
  apply Hn. rewrite !elem_of_app, elem_of_elements. tauto.
Qed.

Lemma tracked_step w w' : rendezvous w -> tracked w -> steps_to w w' -> tracked w'.
Proof.
  intros Hrv Htr Hs. step_cases Hs.
  all: try (apply (tracked_shrink w); [exact Htr|cbn; set_solver|cbn; naive_solver|cbn; naive_solver|done]).
  all: try (eapply (tracked_task w _ i _ _ Htr Ht); cbn; naive_solver).
  all: try (eapply (tracked_task w _ i _ _ Htr Ht); cbn;
    try setoid_rewrite lookup_insert_Some; try setoid_rewrite lookup_delete_Some;
    try setoid_rewrite elem_of_union; try setoid_rewrite elem_of_singleton;
    try setoid_rewrite elem_of_cons; naive_solver).
  - eapply (tracked_task w _ i _ _ Htr Ht); try (cbn; naive_solver). cbn. intros sid' x Hx. left.
    split; [done|]. split; [done|]. intros [= -> -> ->].
    by apply (closed_not_waiting w sid' x) in Hx.
  - apply (tracked_shrink w); [exact Htr|done| | |done]; cbn.
    + intros k h Hk. split; [done|]. intros Hin.
      by destruct (after_deleted _ _ _ _ Ha Hin) as [[=]|?].
    + intros c' [Hc Hne]%elem_of_difference. split; [done|]. intros Hin.
      destruct (after_deleted _ _ _ _ Ha Hin) as [[= ->]|?]; [set_solver|done].
  - apply (tracked_shrink w); [exact Htr|done| | |done]; cbn.
    + intros k' h [Hne Hk]%lookup_delete_Some. split; [done|]. intros Hin.
      by destruct (after_deleted _ _ _ _ Ha Hin) as [[= _ ? _]|?].
    + intros c Hc. split; [done|]. intros Hin.
      by destruct (after_deleted _ _ _ _ Ha Hin) as [[=]|?].
  - destruct (Close_spec w) as (E0 & E1 & E2 & E3 & E4 & _).
    apply (tracked_shrink w); [exact Htr|by rewrite E1| | |done].
    + intros k h. by rewrite E0, lookup_empty.
    + rewrite E2, E3. done.
Qed.

(** ** One connection attempt per host *)

(** The hosts being set up, and the matching of counters and callbacks. *)
Record exclusive (w : Server) : Prop := {
  xc_locks : NoDup (flat_map task_locks (tasks w));
  xc_locked : forall s, s ∈ locked w <-> s ∈ flat_map task_locks (tasks w);
  xc_counts : u64 (p2pConns w + relayConns w)
              = u64 (Z.of_nat (sum_list_with count_connected (log w)));
}.

Lemma exclusive_same (w w1 : Server) :
  exclusive w -> flat_map task_locks (tasks w1) ≡ₚ flat_map task_locks (tasks w) ->
  locked w1 = locked w -> p2pConns w1 = p2pConns w -> relayConns w1 = relayConns w ->
  sum_list_with count_connected (log w1) = sum_list_with count_connected (log w) -> exclusive w1.
Proof.
  intros [H1 H2 H3] Ht Hl Hp Hr Hs. constructor; rewrite ?Ht, ?Hl, ?Hp, ?Hr, ?Hs; try done.
  intros s. by rewrite Ht.
Qed.

Lemma exclusive_unlock (w w1 : Server) h :
  exclusive w -> flat_map task_locks (tasks w) ≡ₚ h :: flat_map task_locks (tasks w1) ->
  locked w1 = locked w ∖ {[h]} ->
  u64 (p2pConns w1 + relayConns w1) = u64 (Z.of_nat (sum_list_with count_connected (log w1))) ->
  exclusive w1.
Proof.
  intros [H1 H2 H3] Ht Hl Hc. rewrite Ht in H1. apply NoDup_cons in H1 as [Hn H1].
  constructor; [done| |done]. intros s. rewrite Hl, elem_of_difference, elem_of_singleton, H2, Ht, elem_of_cons.
  naive_solver.
Qed.

Lemma u64_succ_count a b n : u64 (a + b) = u64 (Z.of_nat n) ->
  u64 (u64 (a + 1) + b) = u64 (Z.of_nat (S n)) /\ u64 (a + u64 (b + 1)) = u64 (Z.of_nat (S n)).
Proof.
  intros Hab. rewrite u64_add_l, u64_add_r.
  replace (a + 1 + b)%Z with (a + b + 1)%Z by lia. replace (a + (b + 1))%Z with (a + b + 1)%Z by lia.
  rewrite <- (u64_add_l (a + b)), Hab, u64_add_l. split; f_equal; lia.
Qed.

Lemma exclusive_step w w' : exclusive w -> steps_to w w' -> exclusive w'.
Proof.
  intros Hx Hs. step_cases Hs.
  all: try (apply (exclusive_same w); [exact Hx| |reflexivity|reflexivity|reflexivity|reflexivity];
            cbn; try split_task Ht; solve_Permutation).
  - (* the lock is taken *)
    destruct Hx as [X1 X2 X3]. constructor; cbn [set_tasks tasks locked log set_locked p2pConns relayConns];
      [| |exact X3].
    + assert (a_str h ∉ flat_map task_locks (tasks w)) as Hn by (by rewrite <- X2).
      revert X1 Hn. split_task Ht. intros Hnd Hn. rewrite <- Permutation_middle. by constructor.
    + intros s. rewrite elem_of_union, elem_of_singleton, X2. split_task Ht.
      rewrite !elem_of_app, elem_of_cons. naive_solver.
  - eapply (exclusive_unlock w _ (a_str h) Hx); [cbn; split_task Ht; solve_Permutation|done|].
    apply (xc_counts _ Hx).
  - eapply (exclusive_unlock w _ (a_str h) Hx); [cbn; split_task Ht; solve_Permutation|done|].
    cbn. apply u64_succ_count, (xc_counts _ Hx).
  - eapply (exclusive_unlock w _ (a_str h) Hx); [cbn; split_task Ht; solve_Permutation|done|].
    apply (xc_counts _ Hx).
  - eapply (exclusive_unlock w _ (a_str h) Hx); [cbn; split_task Ht; solve_Permutation|done|].
    cbn. apply u64_succ_count, (xc_counts _ Hx).
  - destruct (Close_spec w) as (_ & E1 & _ & _ & _ & E5 & _ & _ & _ & E9 & E10 & E11).
    apply (exclusive_same w); try done; by rewrite ?E1, ?E5.
Qed.

(** ** Who may relay *)

Definition registered_conn (w : Server) (c : nat) : Prop :=
  exists q ca cert, EvRegistered q ca cert ∈ log w /\ q_conn q = Some c.

Definition admitted (w : Server) (str : nat) (sid : list Z) : Prop :=
  exists l c, EvRelayAdmitted l c ∈ log w /\ l_str l = Some str /\ l_session l = sid
  /\ l_conn l = Some c /\ registered_conn w c.

(** A task's claim on the log. *)
Definition task_admitted (w : Server) (t : task) : Prop :=
  match t with
  | TRegisterConn q c => exists ca cert, EvRegistered q ca cert ∈ log w /\ q_conn q = Some c
  | TRelayStream l => exists c, EvRelayAdmitted l c ∈ log w /\ l_conn l = Some c /\ registered_conn w c
  | TRelayPair str sid => admitted w str sid
  | _ => True
  end.

Record authorized (w : Server) : Prop := {
  az_tasks : forall t, t ∈ tasks w -> task_admitted w t;
  az_conns : forall c, c ∈ registeredConns w -> registered_conn w c;
  az_waiting : forall sid x, relayWaiting w !! sid = Some x -> admitted w (ws_stream x) sid;
  az_proxy : forall sid a b, EvProxy sid a b ∈ log w -> admitted w a sid /\ admitted w b sid;
}.

Lemma task_admitted_mono (w w1 : Server) :
  (forall e, e ∈ log w -> e ∈ log w1) ->
  (forall c, registered_conn w c -> registered_conn w1 c)
  /\ (forall s sid, admitted w s sid -> admitted w1 s sid)
  /\ (forall t, task_admitted w t -> task_admitted w1 t).
Proof.
  intros Hl. assert (forall c, registered_conn w c -> registered_conn w1 c) as Hc
    by (unfold registered_conn; naive_solver).
  assert (forall s sid, admitted w s sid -> admitted w1 s sid) as Ha
    by (unfold admitted; naive_solver).
  split_and!; [done|done|]. intros []; cbn; naive_solver.
Qed.

(** What a step must show: the new task, connection, entry or proxy is covered
    by the log. *)
Lemma authorized_grow (w w1 : Server) :
  authorized w -> (forall e, e ∈ log w -> e ∈ log w1) ->
  (forall t, t ∈ tasks w1 -> t ∈ tasks w \/ task_admitted w1 t) ->
  (forall c, c ∈ registeredConns w1 -> c ∈ registeredConns w \/ registered_conn w1 c) ->
  (forall sid x, relayWaiting w1 !! sid = Some x ->
     relayWaiting w !! sid = Some x \/ admitted w1 (ws_stream x) sid) ->
  (forall sid a b, EvProxy sid a b ∈ log w1 ->
     EvProxy sid a b ∈ log w \/ (admitted w1 a sid /\ admitted w1 b sid)) ->
  authorized w1.
Proof.
  intros [H1 H2 H3 H4] Hl Ht Hc Hw Hp.
  destruct (task_admitted_mono w w1 Hl) as (Mc & Ma & Mt). constructor.
  - intros t [Hin|Hin]%Ht; auto.
  - intros c [Hin|Hin]%Hc; auto.
  - intros sid x [Hin|Hin]%Hw; auto.
  - intros sid a b [Hin|Hin]%Hp; [|done]. destruct (H4 _ _ _ Hin). auto.
Qed.

(** Membership in the tasks after a step. *)
Lemma tasks_after_inv (w : Server) (i : nat) (t' : option task) (x : task) :
  x ∈ tasks_after (tasks w) i t' -> x ∈ tasks w \/ t' = Some x.
Proof.
  destruct t' as [t'|]; cbn; intros Hx.
  - apply list_elem_of_lookup in Hx as [j Hj].
    apply list_lookup_insert_Some in Hj as [(_ & -> & _)|(_ & Hj)]; [by right|left].
    by eapply list_elem_of_lookup_2.
  - left. by eapply list_elem_of_delete_inv.
Qed.

Lemma authorized_task (w w1 : Server) (i : nat) (t : task) (t' : option task) :
  authorized w -> tasks w !! i = Some t -> (forall e, e ∈ log w -> e ∈ log w1) ->
  (forall x, t' = Some x -> task_admitted w t -> task_admitted (set_tasks w1 (tasks_after (tasks w) i t')) x) ->
  (forall c, c ∈ registeredConns w1 -> c ∈ registeredConns w
     \/ (task_admitted w t -> registered_conn w1 c)) ->
  (forall sid x, relayWaiting w1 !! sid = Some x -> relayWaiting w !! sid = Some x
     \/ (task_admitted w t -> admitted w (ws_stream x) sid)) ->
  (forall sid a b, EvProxy sid a b ∈ log w1 -> EvProxy sid a b ∈ log w
     \/ (task_admitted w t -> admitted w a sid /\ admitted w b sid)) ->
  authorized (set_tasks w1 (tasks_after (tasks w) i t')).
Proof.
  intros Hz Hi Hl Ht Hc Hw Hp. pose proof (az_tasks _ Hz t) as Hti.
  specialize (Hti (list_elem_of_lookup_2 _ _ _ Hi)).
  assert (forall e, e ∈ log w -> e ∈ log (set_tasks w1 (tasks_after (tasks w) i t'))) as Hl' by done.
  destruct (task_admitted_mono _ _ Hl') as (_ & Ma & _).
  apply (authorized_grow w); [done|done| | | |].
  - intros x [Hx|Hx]%tasks_after_inv; [by left|right; by apply Ht].
  - intros c [Hx|Hx]%Hc; [by left|right; by apply Hx].
  - intros sid x [Hx|Hx]%Hw; [by left|right; by apply Ma, Hx].
  - intros sid x y [Hx|Hx]%Hp; [by left|right]. destruct (Hx Hti). split; by apply Ma.
Qed.

Lemma authorized_step w w' : authorized w -> steps_to w w' -> authorized w'.
Proof.
  intros Hz Hs. step_cases Hs.
  all: try (eapply (authorized_task w _ i _ _ Hz Ht); [cbn; set_solver|..]; cbn; try set_solver; fail).
  all: try (apply (authorized_grow w); [exact Hz|cbn; set_solver|..]; cbn; set_solver).
  - eapply (authorized_task w _ i _ _ Hz Ht); cbn; try set_solver.
    intros c [->%elem_of_singleton|Hc]%elem_of_union; [right|by left].
    intros (ca & cert & H1 & H2). by exists q, ca, cert.
  - eapply (authorized_task w _ i _ _ Hz Ht); cbn; try set_solver.
    intros x [= <-] _. exists n. split; [by left|]. split; [done|].
    destruct (az_conns _ Hz n) as (q & ca & cert & Hin & Hq); [done|].
    exists q, ca, cert. split; [by right|done].
  - eapply (authorized_task w _ i _ _ Hz Ht); cbn; try set_solver.
    intros x [= <-] (c & Hin & Hc & Hr). by exists l, c.
  - (* two streams meet *)
    eapply (authorized_task w _ i _ _ Hz Ht); cbn; try set_solver.
    + intros sid' x [_ Hx]%lookup_delete_Some. by left.
    + intros sid' a b [[= -> -> ->]|Hin]%elem_of_cons; [right|by left].
      intros Hp. split; [|done]. by eapply az_waiting.
  - eapply (authorized_task w _ i _ _ Hz Ht); cbn; try set_solver.
    intros sid' x [[<- <-]|[_ Hx]]%lookup_insert_Some; [by right|by left].
  - eapply (authorized_task w _ i _ _ Hz Ht); cbn; try set_solver.
    intros sid' x [_ Hx]%lookup_delete_Some. by left.
  - destruct (Close_spec w) as (_ & E1 & _ & E3 & E4 & E5 & _).
    apply (authorized_grow w); [exact Hz|..]; rewrite ?E1, ?E3, ?E4, ?E5; auto.
Qed.

(** * Reachable states *)

Record server_inv (w : Server) : Prop := {
  si_rendezvous : rendezvous w;
  si_tracked : tracked w;
  si_exclusive : exclusive w;
  si_authorized : authorized w;
}.

Lemma server_reachable_inv a w : reachable a w -> server_inv w.
Proof.
  intros Hr. eapply star_invariant; [|exact Hr|].
  - intros v v' [I1 I2 I3 I4] Hs. constructor.
    + by eapply rendezvous_step.
    + by eapply tracked_step.
    + by eapply exclusive_step.
    + by eapply authorized_step.
  - constructor.
    + constructor; unfold channels, relay_strs, waiting_list; cbn; rewrite ?map_to_list_empty, ?elements_empty; cbn;
        try constructor; intros ? ?%not_elem_of_nil; done.
    + constructor; cbn; set_solver.
    + constructor; cbn; [constructor|set_solver|done].
    + constructor; cbn; set_solver.
Qed.

Lemma run_star w ls w' : run w ls = Some w' -> star steps_to w w'.
Proof.
  revert w. induction ls as [|l ls IH]; intros w Hr; cbn in Hr.
  - injection Hr as ->. constructor.
  - destruct (step w l) as [[w1|]|] eqn:Hl; try done.
    eapply star_step; [by exists l|]. by apply IH.
Qed.

(** * Properties *)

(** C8. Every host, connection and waiting relay the server remembers is owned
    by something that will remove it: a handler still running, or a function
    waiting for the end of that very stream or connection.  So once all
    handlers have returned and the contexts' functions have run, the tables are
    empty, whatever was interleaved. *)
Theorem server_forgets (a : A) (w : Server) (Hr : reachable a w) :
  (forall k h, hosts w !! k = Some h -> host_pending w k h)
  /\ (forall c, c ∈ registeredConns w -> conn_pending w c)
  /\ (forall sid x, relayWaiting w !! sid = Some x -> wait_pending w sid x)
  /\ (tasks w = [] -> afters w = [] ->
       hosts w = ∅ /\ registeredConns w = ∅ /\ relayWaiting w = ∅).
Proof.
  destruct (server_reachable_inv a w Hr) as [_ [T1 T2 T3] _ _]. split_and!; [done|done|done|].
  intros Ht Ha. split_and!.
  - apply map_empty. intros k. destruct (hosts w !! k) as [h|] eqn:E; [|done].
    destruct (T1 _ _ E) as [Hin|Hin]; rewrite ?Ht, ?Ha in Hin; by apply not_elem_of_nil in Hin.
  - apply leibniz_equiv, elem_of_equiv_empty. intros c Hc.
    destruct (T2 _ Hc) as [[q Hin]|Hin]; rewrite ?Ht, ?Ha in Hin; by apply not_elem_of_nil in Hin.
  - apply map_empty. intros k. destruct (relayWaiting w !! k) as [h|] eqn:E; [|done].
    destruct (T3 _ _ E) as [Hin|Hin]; rewrite ?Ht in Hin; by apply not_elem_of_nil in Hin.
Qed.

(** C5. Relay sessions: a proxy joins two different streams, both of which were
    admitted with the same session id on connections that had registered, and a
    stream is in at most one proxy.  The channel [ready] is never closed twice:
    the only panics of the server are a nil certificate request, and the two
    uses of a nil stream when the response writer does not give one. *)
Theorem relay_rendezvous (a : A) (w : Server) (Hr : reachable a w) :
  (forall sid x y, EvProxy sid x y ∈ log w -> x <> y /\ admitted w x sid /\ admitted w y sid)
  /\ NoDup (flat_map proxied (log w))
  /\ (forall l, step w l = Some Panic -> exists i t, tasks w !! i = Some t
       /\ match t with TRegister q => q_csr q = Some None | TStream q => q_str q = None | TRelayStream l => l_str l = None | _ => False end).
Proof.
  destruct (server_reachable_inv a w Hr) as [Hrv _ _ Hz].
  assert (NoDup (flat_map proxied (log w))) as Hnd.
  { eapply NoDup_submseteq_sub; [|apply (rv_streams _ Hrv)]. unfold relay_strs. solve_submseteq. }
  split_and!; [|done|].
  - intros sid x y Hin. split; [|by eapply az_proxy].
    apply list_elem_of_split in Hin as (l1 & l2 & E). rewrite E, flat_map_app in Hnd. cbn in Hnd.
    apply NoDup_app in Hnd as (_ & _ & Hnd). apply NoDup_cons in Hnd as [Hne _]. set_solver.
  - intros l Hp. destruct l as [q|q|i c|i|s|c|]; cbn [step] in Hp; unfold arrive in Hp;
      try (repeat (case_match; try discriminate Hp); done).
    + destruct (tasks w !! i) as [t|] eqn:Ht; [|done]. cbn [mbind option_bind] in Hp.
      exists i, t. split; [done|].
      destruct (task_step w t c) as [[[w1 t']|]|] eqn:E; try done. clear Hp.
      destruct t, c; cbn [task_step] in E; try discriminate E;
        unfold Register_cert, Register_stream, registerHost, connectPeer_p2p, connectPeer_relay,
          peer_return, Relay_pair, continue, finish in E; repeat (case_match; try discriminate E); try done.
      { simplify_eq. f_equal. by eapply issue_panics. }
      exfalso. pose proof (rv_channels _ Hrv) as Hc. unfold channels in Hc. revert Hc.
      split_task Ht. intros (_ & _ & Hc)%NoDup_app. apply NoDup_app in Hc as (_ & Hc & _).
      apply (Hc ch); [rewrite elem_of_app, elem_of_cons; tauto|by apply elem_of_elements].
    + destruct (afters w !! i); [|done]. cbn in Hp. by case_match.
Qed.

(** ** Falling back to the relay *)

(** When [initP2P] reports [ErrConnectFailed], whatever the two errors are. *)
Lemma initP2P_result_Is hostErr peerErr :
  errors_Is (initP2P_result hostErr peerErr) "control.ErrConnectFailed"
  = errors_Is hostErr "control.ErrConnectFailed" || errors_Is peerErr "control.ErrConnectFailed".
Proof.
  unfold initP2P_result, joinErrors.
  destruct hostErr as [he|], peerErr as [pe|]; cbn [is_nil andb errors_Is].
  - destruct (Is he "control.ErrConnectFailed") eqn:Eh, (Is pe "control.ErrConnectFailed") eqn:Ep;
      cbn; rewrite ?Eh, ?Ep; done.
  - rewrite andb_false_r. cbn. by rewrite orb_false_r.
  - cbn. by rewrite orb_false_r.
  - done.
Qed.

Lemma initP2P_result_nil hostErr peerErr :
  initP2P_result hostErr peerErr = None <-> hostErr = None /\ peerErr = None.
Proof.
  unfold initP2P_result, joinErrors. destruct hostErr as [he|], peerErr as [pe|]; cbn.
  all: repeat case_match; cbn; split; intros Hx; try done; try (by destruct Hx).
Qed.

(** With two agents on the streams. *)
Section two_agents.
Context (Error : goerror -> list Z) (moved : Z).

(** Whether [ConnectTo] returns what a callback has decided: the text of an
    error is read to the end of the stream, or for 256 bytes with the line feed
    after it. *)
Definition answered (r : bool * option goerror) (ends : bool) : Prop :=
  match r.2 with None => True | Some e => ends = true \/ 255 <= length (Error e) end.

(** What one agent gives the controller. *)
Lemma ConnectTo_cases f g ends pub priv :
  let r := f (mkConnectCommand pub priv) in
  let c := ConnectTo (served_by Error moved (mkAgent (Some f) g) ends) pub priv in
  c = Waits /\ ~ answered r ends
  \/ exists err, c = Returns err /\ answered r ends /\ (err = None <-> r = (true, None)) /\
      (errors_Is err "control.ErrConnectFailed" = true <-> r = (false, None)).
Proof.
  cbv zeta. rewrite ConnectTo_served. destruct (f (mkConnectCommand pub priv)) as [ok [e|]]; cbn.
  - destruct (failed_cases Error ends e) as [(-> & -> & Hl)|(text & -> & Ha)]; [left; split; [by destruct ok|]; intros [|]; [done|lia]|right].
    exists (Some (BadStatusCodeError 500 text)). destruct ok; (split; [done|]; split; [done|]; by split).
  - right. destruct ok; [exists None|exists (Some ErrConnectFailed)]; (split; [done|]; split; [done|]; by split).
Qed.

Lemma initP2P_agents fh fp gh gp eh ep (host peer : AddrPair) :
  let rh := fh (mkConnectCommand (Public peer) (Private peer)) in
  let rp := fp (mkConnectCommand (Public host) (Private host)) in
  let result := initP2P (served_by Error moved (mkAgent (Some fh) gh) eh) (served_by Error moved (mkAgent (Some fp) gp) ep)
                  host peer in
  (result = Returns None <-> rh = (true, None) /\ rp = (true, None))
  /\ ((exists err, result = Returns err /\ errors_Is err "control.ErrConnectFailed" = true)
      <-> (rh = (false, None) \/ rp = (false, None)) /\ answered rh eh /\ answered rp ep)
  /\ (result = Waits <-> ~ (answered rh eh /\ answered rp ep)).
Proof.
  intros rh rp result. unfold result, initP2P. clear result.
  destruct (ConnectTo_cases fh gh eh (Public peer) (Private peer)) as [(-> & Hh)|(errh & -> & Hh & Nh & Ih)].
  { fold rh in Hh. cbn [both]. split; [split; [done|]|split; [|naive_solver]].
    - intros [E _]. exfalso. apply Hh. by rewrite E.
    - split; [by intros (? & ? & _)|]. intros (_ & ? & _). done. }
  destruct (ConnectTo_cases fp gp ep (Public host) (Private host)) as [(-> & Hp)|(errp & -> & Hp & Np & Ip)].
  { fold rp in Hp. cbn [both]. split; [split; [done|]|split; [|naive_solver]].
    - intros [_ E]. exfalso. apply Hp. by rewrite E.
    - split; [by intros (? & ? & _)|]. intros (_ & _ & ?). done. }
  fold rh in Hh, Nh, Ih. fold rp in Hp, Np, Ip. cbn [both]. split; [|split].
  - rewrite <- Nh, <- Np, <- initP2P_result_nil. split; [by intros [= ->]|by intros ->].
  - rewrite <- Ih, <- Ip, <- orb_true_iff, <- initP2P_result_Is. split; [by intros (err & [= <-] & E)|]. intros (E & _). by eexists.
  - split; [done|]. intros Hn. by destruct Hn.
Qed.
End two_agents.

(** C32. The server never sets up two peers with one host at the same time, a
    lock is held exactly while a handler is between taking and releasing it,
    and each [PeerConnected] callback goes with one increment of one of the two
    connection counters.  Host and peer are each
    told the other's addresses.  With two agents on the streams, [initP2P]
    returns nil exactly when both callbacks succeed, and an error that is
    [ErrConnectFailed], on which [connectPeer] tries the relay, exactly when
    both have answered and at least one callback reports a failed attempt: the
    other side may have succeeded, or failed with an error of its own.  It
    returns at all exactly when no callback has answered with an error of fewer
    than 255 bytes on a stream that stays open. *)
Theorem peers_one_at_a_time (a : A) (w : Server) (Hr : reachable a w) :
  NoDup (flat_map task_locks (tasks w))
  /\ (forall s, s ∈ locked w <-> s ∈ flat_map task_locks (tasks w))
  /\ u64 (P2PConns (get_Stats w) + RelayConns (get_Stats w))
     = u64 (Z.of_nat (sum_list_with count_connected (log w)))
  /\ forall (Error : goerror -> list Z) (moved : Z) (fh fp : ConnectCommand -> bool * option goerror)
       (gh gp : option (list Z -> option goerror)) (eh ep : bool) (host peer : AddrPair),
     let rh := fh (mkConnectCommand (Public peer) (Private peer)) in
     let rp := fp (mkConnectCommand (Public host) (Private host)) in
     let result := initP2P (served_by Error moved (mkAgent (Some fh) gh) eh)
                     (served_by Error moved (mkAgent (Some fp) gp) ep) host peer in
     (result = Returns None <-> rh = (true, None) /\ rp = (true, None))
     /\ ((exists err, result = Returns err /\ errors_Is err "control.ErrConnectFailed" = true)
         <-> (rh = (false, None) \/ rp = (false, None)) /\ answered Error rh eh /\ answered Error rp ep)
     /\ (result = Waits <-> ~ (answered Error rh eh /\ answered Error rp ep)).
Proof.
  destruct (server_reachable_inv a w Hr) as [_ _ [X1 X2 X3] _]. split_and!; [done..|].
  intros Error moved fh fp gh gp eh ep host peer. apply initP2P_agents.
Qed.
End invariants.

(** * What the interleavings leave behind *)

Definition demo_addr (n : Z) : AddrPort := AddrPortFrom (Addr4 [10; 0; 0; n]%Z) 4000.

Definition demo_request (n : nat) (is_host : bool) : register_request :=
  mkRegister demo_key (Some (Some (demo_csr n))) (demo_addr 1) (Some n) (demo_addr 1) (Some n) is_host.

Definition demo_draws : draw * draw := (demo_draw 10, demo_draw 10).

Definition demo_server : @Server Authority := NewServer demo_authority.

Definition go (n : nat) : list (@label (draw * draw)) := replicate n (LTask 0 Go).

(** A [Register] request on stream [n], run to its end without a disturbance. *)
Definition register_all (n : nat) (is_host : bool) (steps : nat) : list label :=
  [LRegister (demo_request n is_host); LTask 0 (Draws demo_draws)] ++ go steps.

(** Host 1 leaves while host 2, already certified, registers; then a peer comes. *)
Definition replaced_host : list label :=
  register_all 1 true 6
  ++ [LRegister (demo_request 2 true); LTask 0 (Draws demo_draws); LStreamEnds 1; LAfter 0]
  ++ go 6 ++ [LRegister (demo_request 3 false); LTask 0 (Draws demo_draws)].

(** A host disconnects between its registration and its callback. *)
Definition hasty_host : list label :=
  register_all 1 true 5 ++ [LStreamEnds 1; LAfter 0] ++ go 1.

(** A peer asks for a session without a host. *)
Definition lonely_peer : list label :=
  register_all 1 false 4 ++ [LConnEnds 1; LAfter 0].

Definition demo_relay (n : nat) : relay_request :=
  mkRelayRequest (bytes_of_string "ab") (Some 1) (Some (10 + n)).

(** Three relay requests with one session id; the first waiter's stream ends
    after it was paired. *)
Definition third_waiter : list label :=
  register_all 1 true 6
  ++ [LRelay (demo_relay 1)] ++ go 3
  ++ [LRelay (demo_relay 2)] ++ go 3
  ++ [LRelay (demo_relay 3)] ++ go 3
  ++ [LStreamEnds 11; LTask 2 TakeDone; LTask 2 Go].

Definition registered_as (w : @Server Authority) (n : nat) : option (Certificate * Certificate) :=
  last (omap (fun e => match e with
                       | EvRegistered q ca cert => if decide (q_str q = Some n) then Some (ca, cert) else None
                       | _ => None
                       end) (log w)).

Lemma reach_observed {X} (f : @Server Authority -> X) ls x :
  f <$> run demo_server ls = Some x ->
  exists w, reachable demo_authority w /\ f w = x.
Proof.
  destruct (run demo_server ls) as [w|] eqn:E; [|done]. cbn. intros [= <-].
  exists w. split; [by eapply run_star|done].
Qed.

(** C39. Four interleavings the locks do not exclude.  (1) A host that got its
    certificate before the session's previous host left is registered with a
    revoked CA: a peer that joins next gets another CA, and the two never
    complete a handshake.  (2) [HostDisconnected] can run before
    [HostConnected], leaving a host announced that is gone.  (3) A peer that
    joins a session without a host leaves a session CA behind for good.  (4) A
    relay waiter whose stream ends after it was paired removes the entry of a
    later waiter, which then waits without being in the table. *)
Theorem interleavings_leave_stale_state :
  (exists w m2 m3, reachable demo_authority w
     /\ (a_str <$> hosts w !! demo_key) = Some 2
     /\ registered_as w 2 = Some m2 /\ registered_as w 3 = Some m3
     /\ time_valid m2.2 20 = true /\ time_valid m3.2 20 = true
     /\ handshake_ok m2 m3 20 = false /\ handshake_ok m3 m2 20 = false)
  /\ (exists w a, reachable demo_authority w /\ hosts w = ∅ /\ tasks w = []
     /\ head (log w) = Some (EvHostConnected demo_key a))
  /\ (exists w, reachable demo_authority w /\ tasks w = [] /\ afters w = [] /\ hosts w = ∅
     /\ is_Some (session_ca (caAuthority w) demo_key))
  /\ (exists w, reachable demo_authority w /\ relayWaiting w = ∅
     /\ TRelayWait (bytes_of_string "ab") 13 1 ∈ tasks w
     /\ (1 ∉ ready_closed w) /\ (13 ∉ ended w)).
Proof.
  split_and!.
  - destruct (reach_observed (fun w => (a_str <$> hosts w !! demo_key, registered_as w 2, registered_as w 3))
      replaced_host (Some 2,
        Some (mkCertificate 7 10 3610 true false false true "Registar Intermediate CA" [] (RegistarKey 1) (RegistarKey 0),
              mkCertificate 7 10 604810 false true true false "star-p2p-peer" [] (PeerKey 2) (RegistarKey 1)),
        Some (mkCertificate 7 10 3610 true false false true "Registar Intermediate CA" [] (RegistarKey 2) (RegistarKey 0),
              mkCertificate 7 10 604810 false true true false "star-p2p-peer" [] (PeerKey 3) (RegistarKey 2))))
      as (w & Hr & E); [vm_compute; reflexivity|].
    injection E as E1 E2 E3. exists w. eexists _, _. by repeat (split; [done|]).
  - destruct (reach_observed (fun w => (size (hosts w), tasks w, head (log w)))
      hasty_host (0, [], Some (EvHostConnected demo_key (mkAddrPair (demo_addr 1) (demo_addr 1)))))
      as (w & Hr & E); [vm_compute; reflexivity|].
    injection E as E1%map_size_empty_inv E2 E3. by exists w, (mkAddrPair (demo_addr 1) (demo_addr 1)).
  - destruct (reach_observed (fun w => (tasks w, afters w, size (hosts w), session_ca (caAuthority w) demo_key))
      lonely_peer ([], [], 0,
        Some (mkCertificate 7 10 3610 true false false true "Registar Intermediate CA" [] (RegistarKey 1) (RegistarKey 0))))
      as (w & Hr & E); [vm_compute; reflexivity|].
    injection E as E1 E2 E3%map_size_empty_inv E4. exists w. split_and!; [done..|]. eexists. exact E4.
  - destruct (reach_observed (fun w => (size (relayWaiting w), tasks w, elements (ready_closed w), elements (ended w)))
      third_waiter (0, [TRelayWait (bytes_of_string "ab") 13 1; TRelayReady 0], [], [11]))
      as (w & Hr & E); [vm_compute; reflexivity|].
    injection E as E1%map_size_empty_inv E2 E3 E4. exists w.
    rewrite <- (elem_of_elements (ready_closed w)), <- (elem_of_elements (ended w)), E2, E3, E4.
    split_and!; [done|done|by left|set_solver|set_solver].
Qed.

(** * Witnesses *)

(** A host registers; a peer joins and is being connected; a relay pair has met. *)
Definition busy_server : list label :=
  register_all 1 true 6
  ++ [LRelay (demo_relay 1)] ++ go 3 ++ [LRelay (demo_relay 2)] ++ go 3
  ++ register_all 2 false 5.

Lemma server_forgets_witness :
  exists w, reachable demo_authority w /\ size (hosts w) = 1
  /\ forall k h, hosts w !! k = Some h -> host_pending w k h.
Proof.
  destruct (reach_observed (fun w => size (hosts w)) busy_server 1) as (w & Hr & E);
    [vm_compute; reflexivity|].
  exists w. split; [exact Hr|]. split; [exact E|]. exact (proj1 (server_forgets demo_authority w Hr)).
Defined.

Lemma relay_rendezvous_witness :
  exists w, reachable demo_authority w
  /\ omap (fun e => match e with EvProxy _ a b => Some (a, b) | _ => None end) (log w) = [(11, 12)]
  /\ NoDup (flat_map proxied (log w)).
Proof.
  destruct (reach_observed (fun w => omap (fun e => match e with EvProxy _ a b => Some (a, b) | _ => None end) (log w))
    busy_server [(11, 12)]) as (w & Hr & E); [vm_compute; reflexivity|].
  exists w. split; [exact Hr|]. split; [exact E|].
  exact (proj1 (proj2 (relay_rendezvous demo_authority w Hr))).
Defined.

Lemma peers_one_at_a_time_witness :
  exists w, reachable demo_authority w /\ flat_map task_locks (tasks w) = [1]
  /\ NoDup (flat_map task_locks (tasks w)).
Proof.
  destruct (reach_observed (fun w => flat_map task_locks (tasks w)) busy_server [1])
    as (w & Hr & E); [vm_compute; reflexivity|].
  exists w. split; [exact Hr|]. split; [exact E|].
  exact (proj1 (peers_one_at_a_time demo_authority w Hr)).
Defined.
