(* ===== verification/P2P.v ===== *)
(** NAT hole punching: [internal/registar/p2p/connector.go].

    A [Connector] listens and dials at the same time; on every connection the
    dialling side sends its id and the accepting side breaks the tie.  The
    answers of the QUIC library and of the network are the inputs of each
    function, what it does to a connection is its output. *)
From S2P Require Import Prelude Text Netip Errors Control.
Local Open Scope Z_scope.

(** * Error codes *)

Definition errcodeCancelled : Z := 1.
Definition errcodeBadRequest : Z := 2.
Definition errcodeConflict : Z := 3.

(** [http3.ErrCodeRequestRejected] and [http3.ErrCodeRequestCanceled] (RFC 9114) *)
Definition ErrCodeRequestRejected : Z := 267.
Definition ErrCodeRequestCanceled : Z := 268.

Definition StatusConflict : Z := 409.

Definition isRequestCancelledError (err : goerror) (isRemote : bool) : bool :=
  match As as_StreamError err with
  | Some (remote, code) => (code =? ErrCodeRequestCanceled) && Bool.eqb remote isRemote
  | None => false
  end.

Definition isRequestRejectedError (err : goerror) (isRemote : bool) : bool :=
  match As as_StreamError err with
  | Some (remote, code) => (code =? ErrCodeRequestRejected) && Bool.eqb remote isRemote
  | None => false
  end.

Definition isRemoteConflictError (err : goerror) : bool :=
  match As as_ApplicationError err with
  | Some (remote, code) => (code =? errcodeConflict) && remote
  | None => false
  end.

Definition isRemoteCancelledError (err : goerror) : bool :=
  match As as_ApplicationError err with
  | Some (remote, code) => (code =? errcodeCancelled) && remote
  | None => false
  end.

Definition Canceled : goerror := Sentinel context_Canceled.

(** * The connector *)

(** The fields of [quic.Config] that are set, in nanoseconds. *)
Record quicConfig := mkQuicConfig { KeepAlivePeriod : Z; EnableDatagrams : bool; HandshakeIdleTimeout : Z }.

(** [type Connector struct], without transport, TLS and logger. *)
Record Connector := mkConnector { connector_id : list Z; quicConf : quicConfig }.

(** [type Option func]: [WithLogger] and [WithHandshakeIdleTimeout]. *)
Inductive Option := WithLogger | WithHandshakeIdleTimeout (d : Z).

Definition apply_option (c : Connector) (o : Option) : Connector :=
  match o with
  | WithLogger => c
  | WithHandshakeIdleTimeout d =>
      mkConnector (connector_id c) (mkQuicConfig (KeepAlivePeriod (quicConf c)) (EnableDatagrams (quicConf c)) d)
  end.

(** [NewConnector], for eight random bytes. *)
Definition NewConnector (random : list Z) (opts : list Option) : Connector :=
  fold_left apply_option opts (mkConnector (hex_encode random) (mkQuicConfig (10 * 10 ^ 9) true 0)).

(** The options of [Join] and [NewHoster]. *)
Definition connectorOpts (p2pDialTimeout : Z) : list Option :=
  [WithLogger] ++ (if 0 <? p2pDialTimeout then [WithHandshakeIdleTimeout p2pDialTimeout] else []).

(** * The handshake *)

(** What happens on the accepting side: the stream, the request's header
    [X-Connector-ID] (empty when absent), the write of the response, the close. *)
Record accept_answers := mkAcceptAnswers {
  aa_stream : option goerror;
  aa_request : result goerror (list Z);
  aa_write : option goerror;
  aa_close : option goerror;
}.

(** [httpWrite] of a status, with the mapping of our own cancellation; the
    status that went out comes with the result. *)
Definition write_status (a : accept_answers) (status : Z) (ok : bool)
    : bool * option goerror * option Z :=
  match aa_write a with
  | Some err => if isRequestRejectedError err false then (false, Some Canceled, None)
                else (false, Some (Wrapped "write response" err), None)
  | None => (ok, aa_close a, Some status)
  end.

(** [readHandshake] of a connector with id [id]. *)
Definition readHandshake (id : list Z) (a : accept_answers) : bool * option goerror * option Z :=
  match aa_stream a with
  | Some err => (false, Some (Wrapped "accept stream" err), None)
  | None =>
      match aa_request a with
      | Err err => if isRequestRejectedError err false then (false, Some Canceled, None)
                   else (false, Some (Wrapped "read request" err), None)
      | Ok peerID =>
          if decide (peerID = []) then
            (false, Some (BadRequestError "missing X-Connector-ID"), None)
          else if bytes_ltb id peerID then write_status a StatusConflict false
          else write_status a StatusOK true
      end
  end.

(** What happens on the dialling side. *)
Record dial_answers := mkDialAnswers {
  da_stream : option goerror;
  da_write : option goerror;
  da_close : option goerror;
  da_response : result goerror (Z * list Z);
}.

(** [sendHandshake]; [newRequest] cannot fail. *)
Definition sendHandshake (a : dial_answers) : bool * option goerror :=
  match da_stream a with
  | Some err => (false, Some (Wrapped "open stream" err))
  | None =>
      match da_write a with
      | Some err => if isRequestCancelledError err false then (false, Some Canceled)
                    else (false, Some (Wrapped "write request" err))
      | None =>
          match da_close a with
          | Some err => (false, Some (Wrapped "close stream" err))
          | None =>
              match da_response a with
              | Err err => if isRequestCancelledError err false then (false, Some Canceled)
                           else (false, Some (Wrapped "read response" err))
              | Ok (status, body) =>
                  if decide (status = StatusConflict) then (false, None)
                  else if decide (status ≠ StatusOK)
                  then (false, Some (NewBadStatusCodeError status body))
                  else (true, None)
              end
          end
      end
  end.

(** [newRequest]: the header it sets. *)
Definition newRequest (id : list Z) : list Z := id.

(** * The attempt loops *)

(** What a loop does with a connection: hands it to [Connect], closes it with a
    code, finds it closed by the peer, or leaves it as it is. *)
Inductive fate := Delivered | ClosedWith (code : Z) | ClosedByPeer | Left.

(** The final [select]: the connection is taken, or the context is done, with
    what [CloseWithError] then returns. *)
Inductive selected := Taken | Done (close_err : option goerror).

(** One round: accepting or dialling fails, or gives a connection [c], whether
    it has datagrams, the result of its handshake, the outcome of the select. *)
Inductive round :=
| NoConn (err : goerror)
| Conn (c : nat) (datagrams : bool) (hs : bool * option goerror) (sel : selected).

(** What is left of a round: go on, or return; and the fate of its connection. *)
Inductive verdict := Continue (f : fate) | Return (f : fate) (err : option goerror).

Definition finish_round (sel : selected) : verdict :=
  match sel with
  | Taken => Return Delivered None
  | Done close_err => Return (ClosedWith errcodeCancelled) close_err
  end.

(** A round of [acceptLoop] with a connection. *)
Definition accept_conn (datagrams : bool) (hs : bool * option goerror) (sel : selected) : verdict :=
  if negb datagrams then Continue (ClosedWith errcodeCancelled)
  else
    match hs with
    | (_, Some err) =>
        if Is err context_Canceled then Continue (ClosedWith errcodeCancelled)
        else if isRequestCancelledError err true then Continue (ClosedWith errcodeCancelled)
        else if isRemoteCancelledError err then Continue ClosedByPeer
        else match As as_BadRequestError err with
             | Some _ => Continue (ClosedWith errcodeBadRequest)
             | None => Return Left (Some (Wrapped "handle request" err))
             end
    | (false, None) => Continue (ClosedWith errcodeConflict)
    | (true, None) => finish_round sel
    end.

(** A round of [dialLoop] with a connection. *)
Definition dial_conn (datagrams : bool) (hs : bool * option goerror) (sel : selected) : verdict :=
  if negb datagrams then Continue (ClosedWith errcodeCancelled)
  else
    match hs with
    | (_, Some err) =>
        if Is err context_Canceled then Continue (ClosedWith errcodeCancelled)
        else if isRemoteConflictError err then Continue ClosedByPeer
        else if isRemoteCancelledError err then Continue ClosedByPeer
        else Return Left (Some (Wrapped "send handshake to" err))
    | (false, None) => Continue (ClosedWith errcodeConflict)
    | (true, None) => finish_round sel
    end.

(** When a loop has no connection: the errors that end it quietly. *)
Definition accept_err (err : goerror) : option goerror :=
  if Is err context_Canceled then None
  else if Is err quic_ErrServerClosed then None
  else Some (Wrapped "accept" err).

Definition dial_err (err : goerror) : option goerror :=
  if Is err context_Canceled then None else Some (Wrapped "dial" err).

(** The loops over the rounds: the fates of their connections, and the result
    once they have returned. *)
Fixpoint loop (no_conn : goerror -> option goerror)
    (on_conn : bool -> bool * option goerror -> selected -> verdict) (rounds : list round)
    : list (nat * fate) * option (option goerror) :=
  match rounds with
  | [] => ([], None)
  | NoConn err :: _ => ([], Some (no_conn err))
  | Conn c dg hs sel :: rounds =>
      match on_conn dg hs sel with
      | Return f err => ([(c, f)], Some err)
      | Continue f => let '(fs, r) := loop no_conn on_conn rounds in ((c, f) :: fs, r)
      end
  end.

Definition acceptLoop := loop accept_err accept_conn.
Definition dialLoop := loop dial_err dial_conn.

(** * Connect *)

(** How many goroutines [Connect] starts. *)
Definition attempts (public private : AddrPort) : nat :=
  if decide (private ≠ public) then 3%nat else 2%nat.

(** [errgroup.Wait]: the first error, in the order of completion. *)
Definition Wait (errs : list (option goerror)) : option goerror := head (omap id errs).

(** [Connect] after [ListenEarly]: a connection arrives on [connected], or the
    context is done first; [errs] are the results of the goroutines.  The result
    is the pair Go returns, a nil connection being [None]. *)
Definition Connect (listen_err : option goerror) (arrived : option nat)
    (errs : list (option goerror)) : option nat * option goerror :=
  match listen_err with
  | Some err => (None, Some (Wrapped "listen early" err))
  | None =>
      match arrived with
      | Some conn => match Wait errs with Some err => (None, Some err) | None => (Some conn, None) end
      | None => (None, Wait errs)
      end
  end.

(** [connectedVia] *)
Inductive via := PublicDial | PrivateDial | Accepted.

Definition connectedVia (remote public private : AddrPort) : via :=
  if decide (remote = public) then PublicDial
  else if decide (remote = private) then PrivateDial
  else Accepted.

(** * Lemmas *)

(** Go's order on strings is total and irreflexive. *)
Lemma bytes_ltb_irrefl a : bytes_ltb a a = false.
Proof. induction a as [|x a IH]; [done|]. cbn. by rewrite Z.ltb_irrefl, Z.eqb_refl, IH. Qed.

Lemma bytes_ltb_trichotomy a b : a <> b -> bytes_ltb a b = negb (bytes_ltb b a).
Proof.
  revert b. induction a as [|x a IH]; intros [|y b] Hne; try done.
  cbn. destruct (Z.eqb_spec x y) as [->|Hxy].
  - rewrite Z.ltb_irrefl, Z.eqb_refl. cbn. apply IH. congruence.
  - destruct (Z.eqb_spec y x); [congruence|]. cbn. rewrite !orb_false_r.
    destruct (Z.ltb_spec x y), (Z.ltb_spec y x); try done; lia.
Qed.

(** The undisturbed handshake: the response of the accepting side is what the
    dialling side reads. *)
Definition undisturbed_accept (request : list Z) : accept_answers :=
  mkAcceptAnswers None (Ok request) None None.

Definition undisturbed_dial (response : option Z) : dial_answers :=
  mkDialAnswers None None None
    (match response with Some s => Ok (s, []) | None => Err (Sentinel "io.EOF") end).

(** Results of the two sides of a connection dialled by [dialer]. *)
Definition handshake (dialer acceptor : list Z) : bool * bool :=
  let '(acc, _, response) := readHandshake acceptor (undisturbed_accept (newRequest dialer)) in
  let '(dial, _) := sendHandshake (undisturbed_dial response) in
  (dial, acc).

Lemma handshake_spec d a :
  d <> [] -> handshake d a = (negb (bytes_ltb a d), negb (bytes_ltb a d)).
Proof.
  intros Hd. unfold handshake, readHandshake, newRequest. cbn.
  rewrite decide_False by done. by destruct (bytes_ltb a d).
Qed.

(** * Connections *)

Definition is_closed (cf : nat * fate) : Prop :=
  cf.2 = ClosedByPeer \/ exists code, cf.2 = ClosedWith code.

(** How a round may treat its connection. *)
Record careful (on_conn : bool -> bool * option goerror -> selected -> verdict) : Prop := {
  cf_continue : forall dg hs sel f, on_conn dg hs sel = Continue f ->
    f = ClosedByPeer \/ exists code, f = ClosedWith code;
  cf_delivered : forall dg hs sel err, on_conn dg hs sel = Return Delivered err ->
    err = None /\ dg = true /\ hs = (true, None) /\ sel = Taken;
  cf_left : forall dg hs sel err, on_conn dg hs sel = Return Left err ->
    exists e, err = Some (Wrapped e (default Canceled hs.2)) /\ is_Some hs.2;
}.

Lemma accept_conn_careful : careful accept_conn.
Proof.
  constructor; unfold accept_conn, finish_round; intros [|] [[|] [e|]] [|?]; cbn; intros;
    repeat case_match; simplify_eq; eauto; try (split; eauto); by (left + right; eauto).
Qed.

Lemma dial_conn_careful : careful dial_conn.
Proof.
  constructor; unfold dial_conn, finish_round; intros [|] [[|] [e|]] [|?]; cbn; intros;
    repeat case_match; simplify_eq; eauto; try (split; eauto); by (left + right; eauto).
Qed.

(** The ways a loop can have run so far. *)
Inductive accounted (rounds : list round) (fs : list (nat * fate))
    : option (option goerror) -> Prop :=
| Running : Forall is_closed fs -> accounted rounds fs None
| ReturnedClosed err : Forall is_closed fs -> accounted rounds fs (Some err)
| ReturnedConn closed c :
    fs = closed ++ [(c, Delivered)] -> Forall is_closed closed ->
    Conn c true (true, None) Taken ∈ rounds -> accounted rounds fs (Some None)
| ReturnedLeft closed c err :
    fs = closed ++ [(c, Left)] -> Forall is_closed closed -> accounted rounds fs (Some (Some err)).

Lemma accounted_cons r c f rounds fs res :
  is_closed (c, f) -> accounted rounds fs res -> accounted (r :: rounds) ((c, f) :: fs) res.
Proof.
  intros Hc [Hall|err Hall|closed d -> Hall Hin|closed d err -> Hall].
  - constructor. by constructor.
  - constructor. by constructor.
  - eapply (ReturnedConn _ _ ((c, f) :: closed) d); [done|by constructor|by right].
  - eapply (ReturnedLeft _ _ ((c, f) :: closed) d); [done|by constructor].
Qed.

Lemma loop_accounted no_conn on_conn rounds :
  careful on_conn ->
  let '(fs, r) := loop no_conn on_conn rounds in accounted rounds fs r.
Proof.
  intros Hcf. induction rounds as [|[err|c dg hs sel] rounds IH]; cbn.
  - constructor. constructor.
  - constructor. constructor.
  - destruct (on_conn dg hs sel) as [f|f err] eqn:E.
    + destruct (loop no_conn on_conn rounds) as [fs r]. apply accounted_cons; [|done].
      by eapply (cf_continue _ Hcf).
    + destruct f.
      * destruct (cf_delivered _ Hcf _ _ _ _ E) as (-> & -> & -> & ->).
        eapply (ReturnedConn _ _ [] c); [done|constructor|by left].
      * constructor. constructor; [right; by eexists|constructor].
      * constructor. constructor; [by left|constructor].
      * destruct (cf_left _ Hcf _ _ _ _ E) as (e & -> & _).
        eapply (ReturnedLeft _ _ [] c); [done|constructor].
Qed.

(** Options do not change the id. *)
Lemma apply_options_id opts c : connector_id (fold_left apply_option opts c) = connector_id c.
Proof. revert c. induction opts as [|[|d] opts IH]; intros c; [done|..]; cbn; by rewrite IH. Qed.

Lemma random_id b : length b = 8%nat -> hex_encode b <> [].
Proof. intros Hb E. pose proof (hex_encode_length b) as Hl. rewrite E, Hb in Hl. discriminate Hl. Qed.

(** * Property *)

(** C13. Two connectors and the connections between them.  On an undisturbed
    connection the dialling and the accepting side agree whether the handshake
    succeeded; exactly one direction of dialling succeeds, unless both drew the
    same random bytes: the connection dialled by the smaller id.  A connector
    without an id is refused as a bad request.  Neither loop loses a connection
    on the way: whatever the network does, every connection it got is closed, by
    this side or by the peer, except the last one when the loop returns: that
    one is handed to [Connect], with a successful handshake and a nil error, or
    the loop returns an error and leaves it open.  At most one connection is
    handed over.  Every connection can carry datagrams, and the handshake
    timeout is the one configured, if that is positive. *)
Theorem handshake_tie_break (b1 b2 : list Z) (opts1 opts2 : list Option) (rounds : list round)
    (H1 : bytes_ok b1) (H2 : bytes_ok b2) (L1 : length b1 = 8%nat) (L2 : length b2 = 8%nat) (Hne : b1 <> b2) :
  let id1 := connector_id (NewConnector b1 opts1) in
  let id2 := connector_id (NewConnector b2 opts2) in
  (exists b, handshake id1 id2 = (b, b) /\ handshake id2 id1 = (negb b, negb b)
     /\ (b = true <-> bytes_ltb id1 id2 = true))
  /\ (readHandshake id1 (undisturbed_accept (newRequest []))).1
     = (false, Some (BadRequestError "missing X-Connector-ID"))
  /\ (let '(fs, r) := acceptLoop rounds in accounted rounds fs r)
  /\ (let '(fs, r) := dialLoop rounds in accounted rounds fs r)
  /\ (forall d, quicConf (NewConnector b1 (connectorOpts d)) = mkQuicConfig (10 * 10 ^ 9) true (if 0 <? d then d else 0)).
Proof.
  intros id1 id2. unfold id1, id2, NewConnector. rewrite !apply_options_id. cbn [connector_id].
  assert (hex_encode b1 <> hex_encode b2) as Hi by (intros E; by apply hex_encode_inj in E).
  split_and!; [|done|apply loop_accounted, accept_conn_careful|apply loop_accounted, dial_conn_careful|].
  - exists (bytes_ltb (hex_encode b1) (hex_encode b2)). rewrite !handshake_spec by (by apply random_id).
    rewrite (bytes_ltb_trichotomy _ _ Hi). by rewrite negb_involutive.
  - intros d. unfold connectorOpts. by destruct (0 <? d).
Qed.

(** * Witness *)

Lemma handshake_tie_break_witness :
  let id n := connector_id (NewConnector (replicate 7 0 ++ [n]) []) in
  bytes_ltb (id 1) (id 2) = true /\ handshake (id 1) (id 2) = (true, true).
Proof.
  split; [reflexivity|].
  assert (forall n, is_byte n -> bytes_ok (replicate 7 0 ++ [n])) as Hb
    by (intros n Hn; repeat constructor; unfold is_byte in *; lia).
  destruct (handshake_tie_break (replicate 7 0 ++ [1]) (replicate 7 0 ++ [2]) [] [] [] ltac:(apply Hb; unfold is_byte; lia)
    ltac:(apply Hb; unfold is_byte; lia) eq_refl eq_refl ltac:(discriminate)) as [(b & E & _ & Hb') _].
  rewrite E. rewrite (proj2 Hb') by reflexivity. reflexivity.
Defined.
