(* ===== verification/Client.v ===== *)
(** The registar client: [internal/registar/client.go].

    Registration, the callbacks of the control agent, [Join], [Accept] and
    [Close] as functions of what the QUIC, HTTP/3 and TLS libraries answer. *)
From S2P Require Import Prelude Auth Netip Errors Control CA Registar P2P.
Local Open Scope Z_scope.

Definition ErrHosterClosed : goerror := Sentinel "registar.ErrHosterClosed".
Definition ErrHostNotFound : goerror := Sentinel "registar.ErrHostNotFound".
Definition ErrHostAlreadyRegistered : goerror := Sentinel "registar.ErrHostAlreadyRegistered".
Definition errCodeClientClosed : Z := 4099.      (* 0x1003 *)

(** * Errors *)

Definition isStreamError (err : goerror) (code : Z) (remote : bool) : bool :=
  match As as_StreamError err with
  | Some (r, c) => (c =? code) && Bool.eqb r remote
  | None => false
  end.

Definition isHTTP3Error (err : goerror) (code : Z) (remote : bool) : bool :=
  match As as_HTTP3Error err with
  | Some (r, c) => (c =? code) && Bool.eqb r remote
  | None => false
  end.

Definition isLocalHTTP3CloseError (err : goerror) : bool :=
  match As as_HTTP3Error err with
  | Some (r, c) => (c =? errCodeClientClosed) && negb r
  | None => false
  end.

Definition isHostNotFoundError (err : goerror) : bool :=
  isStreamError err errCodeHostNotFound true || isHTTP3Error err errCodeHostNotFound true.

Definition isHostAlreadyRegisteredError (err : goerror) : bool :=
  isStreamError err errCodeHostAlreadyRegistered true
  || isHTTP3Error err errCodeHostAlreadyRegistered true.

(** * TLS configuration *)

(** The two fields of [tls.Config] that [setupTLSConfig] touches. *)
Record tls_config := mkTLS { ServerName : list Z; NextProtos : list string }.

Definition setupTLSConfig (conf : option tls_config) (hostname : list Z) : tls_config :=
  match conf with
  | None => mkTLS hostname ["h3"%string]
  | Some c => if decide (ServerName c = []) then mkTLS hostname (NextProtos c) else c
  end.

(** * Registration *)

(** What happens while [register] runs, in its order. *)
Record register_script := mkScript {
  rs_key : option goerror;
  rs_csr : option goerror;
  rs_request : option goerror;
  rs_open : option goerror;
  rs_header : option goerror;
  rs_body : option goerror;                          (* bodySentErr *)
  rs_response : result goerror (Z * list Z);         (* ReadResponse *)
  rs_decode : result goerror (Certificate * Certificate);
}.

Definition fail_if {A} (msg : string) (e : option goerror) (k : result goerror A) : result goerror A :=
  match e with Some err => Err (Wrapped msg err) | None => k end.

(** [register]; the certificates are what its TLS configuration is made of. *)
Definition register (s : register_script) : result goerror (Certificate * Certificate) :=
  fail_if "generate private key" (rs_key s) (
  fail_if "create CSR" (rs_csr s) (
  fail_if "create request" (rs_request s) (
  fail_if "open request stream" (rs_open s) (
  fail_if "send request header" (rs_header s) (
  match rs_response s with
  | Err err => Err (Wrapped "read response" err)
  | Ok (status, body) =>
      if decide (status ≠ StatusOK) then Err (NewBadStatusCodeError status body)
      else fail_if "send request body" (rs_body s)
        (match rs_decode s with
         | Err err => Err (Wrapped "decode response" err)
         | Ok certs => Ok certs
         end)
  end))))).

(** * The control agent's callbacks *)

(** The final [select] of a callback: the connection goes into the channel, or
    the context is done. *)
Inductive delivery := Put | CtxDone (ctx_err : goerror).

(** [OnConnectTo] of [newControlAgent], with the pair [Connect] returned.  Both
    branches of the select use the connection: a nil one is dereferenced. *)
Definition on_connect_to (disableP2P : bool) (connect : option nat * option goerror) (d : delivery)
    : outcome (bool * option goerror) :=
  if disableP2P then Ret (false, None)
  else
    let '(p2pConn, err) := connect in
    match err with
    | Some err =>
        match As as_IdleTimeoutError err with
        | Some _ => Ret (false, None)
        | None => Ret (false, Some (Wrapped "connect to peer" err))
        end
    | None =>
        _ ← or_panic p2pConn;
        match d with
        | Put => Ret (true, None)
        | CtxDone err => Ret (false, Some err)
        end
    end.

(** What happens while [OnConnectViaRelay] runs. *)
Record relay_script := mkRelayScript {
  ls_request : option goerror;
  ls_open : option goerror;
  ls_header : option goerror;
  ls_response : result goerror (Z * list Z);
  ls_delivery : delivery;
}.

(** [OnConnectViaRelay] of [newControlAgent]. *)
Definition on_connect_via_relay (s : relay_script) : option goerror :=
  match ls_request s, ls_open s, ls_header s with
  | Some err, _, _ => Some (Wrapped "create relay request" err)
  | None, Some err, _ => Some (Wrapped "open relay request stream" err)
  | None, None, Some err => Some (Wrapped "send relay request header" err)
  | None, None, None =>
      match ls_response s with
      | Err err => Some (Wrapped "read relay response" err)
      | Ok (status, body) =>
          if decide (status ≠ StatusOK) then Some (NewBadStatusCodeError status body)
          else match ls_delivery s with
               | Put => None
               | CtxDone err => Some err
               end
      end
  end.

(** * Joining and hosting *)

(** The goroutine that runs [agent.Serve], which always returns an error. *)
Definition serve_agent (serve_err : goerror) : option goerror :=
  if isLocalHTTP3CloseError serve_err then None
  else Some (Wrapped "serve control agent" serve_err).

(** After registration [Join] gets a connection, or its context is done, the
    caller's or because [serve_agent] returned an error. *)
Inductive join_event := JoinConn (c : nat) | JoinDone (serve_err : goerror).

(** [Joiner.Join]; the result is the pair Go returns. *)
Definition Join (s : register_script) (ev : join_event) : option nat * option goerror :=
  match register s with
  | Err err => if isHostNotFoundError err then (None, Some ErrHostNotFound)
               else (None, Some (Wrapped "register" err))
  | Ok _ =>
      match ev with
      | JoinConn c => (Some c, None)
      | JoinDone serve_err => (None, Wait [serve_agent serve_err])
      end
  end.

(** The part of [type Hoster struct] its operations use. *)
Record Hoster := mkHoster { conns : list nat; done : bool; eg : option goerror }.

(** [NewHoster] after [connect]; [serve_err] is what its agent will return. *)
Definition NewHoster (s : register_script) (serve_err : goerror) : result goerror Hoster :=
  match register s with
  | Err err => if isHostAlreadyRegisteredError err then Err ErrHostAlreadyRegistered
               else Err (Wrapped "register" err)
  | Ok _ => Ok (mkHoster [] false (serve_agent serve_err))
  end.

(** Which ready case the select of [Accept] takes. *)
Inductive accept_case := CaseConn | CaseDone | CaseCtx (err : goerror).

(** [Hoster.Accept]; [None]: the case is not ready. *)
Definition Accept (h : Hoster) (c : accept_case) : option (Hoster * result goerror nat) :=
  match c with
  | CaseConn => match conns h with
                | conn :: rest => Some (mkHoster rest (done h) (eg h), Ok conn)
                | [] => None
                end
  | CaseDone => if done h then Some (h, Err ErrHosterClosed) else None
  | CaseCtx err => Some (h, Err err)
  end.

(** [Hoster.Close]: closing twice panics on the channel [done]. *)
Definition Hoster_Close (h : Hoster) : outcome (Hoster * option goerror) :=
  if done h then Panic
  else
    let h' := mkHoster (conns h) true (eg h) in
    match eg h with
    | Some err => if isLocalHTTP3CloseError err then Ret (h', None)
                  else Ret (h', Some (Wrapped "hoster error" err))
    | None => Ret (h', None)
    end.

(** * Lemmas *)

Lemma Wait_nil errs : Wait errs = None <-> Forall (fun e => e = None) errs.
Proof.
  unfold Wait. induction errs as [|[e|] errs IH]; cbn.
  - split; [constructor|done].
  - split; [done|]. intros H. by apply Forall_cons in H as [? _].
  - rewrite IH. split; [by constructor|]. intros H. by apply Forall_cons in H as [_ ?].
Qed.

(** The predicates of the client and those of [errcode], by the first error of
    their type. *)
Lemma predicates_agree e c :
  (errcode.IsLocalStreamError (Some e) c, errcode.IsRemoteStreamError (Some e) c, errcode.IsLocalHTTPError (Some e) c)
    = (isStreamError e c false, isStreamError e c true, isHTTP3Error e c false)
  /\ (forall remote, isStreamError e c remote = bool_decide (head (omap as_StreamError (leaves e)) = Some (remote, c)))
  /\ (forall remote, isHTTP3Error e c remote = bool_decide (head (omap as_HTTP3Error (leaves e)) = Some (remote, c))).
Proof.
  pose proof selectors_are_leaf as (Hs & _ & Hh & _). destruct (errcode_first_error e c) as [E1 E2].
  unfold isStreamError, isHTTP3Error. rewrite (As_leaves _ e Hs), (As_leaves _ e Hh).
  assert (forall a r r', (a =? c) && Bool.eqb r r' = bool_decide (Some (r, a) = Some (r', c))) as Hb.
  { intros a r r'. destruct (Z.eqb_spec a c) as [->|]; destruct (Bool.eqb_spec r r') as [->|];
      case_bool_decide; naive_solver. }
  assert (forall (r r' : bool) a, bool_decide (Some (r, a) = Some (r', c)) = (if r' then r else negb r) && bool_decide (a = c)) as Hd.
  { intros r r' a. rewrite <- Hb. destruct (Z.eqb_spec a c); [rewrite bool_decide_true by done|rewrite bool_decide_false by done];
      by destruct r, r'. }
  split_and!.
  - destruct (head (omap as_StreamError _)) as [[r a]|], (head (omap as_HTTP3Error _)) as [[r' a']|];
      injection E1 as -> ->; injection E2 as -> _ _; by rewrite ?Hb, ?Hd.
  - intros remote. destruct (head (omap as_StreamError _)) as [[r a]|]; [apply Hb|by rewrite bool_decide_false].
  - intros remote. destruct (head (omap as_HTTP3Error _)) as [[r a]|]; [apply Hb|by rewrite bool_decide_false].
Qed.

(** A script that gets as far as the response with status 200. *)
Definition accepted_script (resp : result goerror (Z * list Z))
    (dec : result goerror (Certificate * Certificate)) : register_script :=
  mkScript None None None None None None resp dec.

(** The error a client reads on a stream the server has cancelled with a code:
    a stream error, or the HTTP/3 error made of it. *)
Definition reset_with (code : Z) (err : goerror) : Prop :=
  As as_StreamError err = Some (true, code) \/ As as_HTTP3Error err = Some (true, code).

Lemma reset_not_found err m :
  reset_with errCodeHostNotFound err -> isHostNotFoundError (Wrapped m err) = true.
Proof.
  intros [H|H]; unfold isHostNotFoundError, isStreamError, isHTTP3Error; cbn;
    rewrite H; cbn; [done|apply orb_true_r].
Qed.

Lemma reset_registered err m :
  reset_with errCodeHostAlreadyRegistered err -> isHostAlreadyRegisteredError (Wrapped m err) = true.
Proof.
  intros [H|H]; unfold isHostAlreadyRegisteredError, isStreamError, isHTTP3Error; cbn;
    rewrite H; cbn; [done|apply orb_true_r].
Qed.

(** * Properties *)

(** C40. The server refuses a peer without a host, or a second host, after it has
    sent its response, by resetting the stream with a code.  If the reset comes
    while the response is read or decoded, [Join] returns [ErrHostNotFound] and
    [NewHoster] returns [ErrHostAlreadyRegistered].  If the response arrives
    first, [Join] returns another error, which is not [ErrHostNotFound], and
    [NewHoster] succeeds.  The callback of the agent dereferences a nil
    connection, and panics, exactly when its context is cancelled before a
    connection arrives and no attempt has reported an error.  The predicates on
    errors are those of package [errcode]; both depend only on the first error of
    their type in the tree, however it was wrapped and joined. *)
Theorem refusal_is_a_race (err : goerror) (certs : Certificate * Certificate)
    (ev : join_event) (serve : goerror) :
  (reset_with errCodeHostNotFound err ->
     Join (accepted_script (Err err) (Ok certs)) ev = (None, Some ErrHostNotFound)
     /\ Join (accepted_script (Ok (200, [])) (Err err)) ev = (None, Some ErrHostNotFound))
  /\ (reset_with errCodeHostAlreadyRegistered err ->
     NewHoster (accepted_script (Err err) (Ok certs)) serve = Err ErrHostAlreadyRegistered
     /\ NewHoster (accepted_script (Ok (200, [])) (Err err)) serve = Err ErrHostAlreadyRegistered)
  /\ (let late := Wrapped "read request" (StreamError true errCodeHostNotFound) in
      Join (accepted_script (Ok (200, [])) (Ok certs)) (JoinDone late)
        = (None, Some (Wrapped "serve control agent" late))
      /\ errors_Is (Join (accepted_script (Ok (200, [])) (Ok certs)) (JoinDone late)).2
           "registar.ErrHostNotFound" = false)
  /\ is_ok (NewHoster (accepted_script (Ok (200, [])) (Ok certs)) serve) = true
  /\ (forall arrived errs d, on_connect_to false (Connect None arrived errs) d = Panic
       <-> arrived = None /\ Forall (fun e => e = None) errs)
  /\ (forall e c,
      (errcode.IsLocalStreamError (Some e) c, errcode.IsRemoteStreamError (Some e) c, errcode.IsLocalHTTPError (Some e) c)
        = (isStreamError e c false, isStreamError e c true, isHTTP3Error e c false)
      /\ (forall remote, isStreamError e c remote = bool_decide (head (omap as_StreamError (leaves e)) = Some (remote, c)))
      /\ (forall remote, isHTTP3Error e c remote = bool_decide (head (omap as_HTTP3Error (leaves e)) = Some (remote, c)))).
Proof.
  split_and!; [..|done| |exact predicates_agree].
  - intros H. split; unfold Join;
      [change (register _) with (@Err goerror (Certificate * Certificate) (Wrapped "read response" err))
      |change (register _) with (@Err goerror (Certificate * Certificate) (Wrapped "decode response" err))];
      cbn match; by rewrite reset_not_found.
  - intros H. split; unfold NewHoster;
      [change (register _) with (@Err goerror (Certificate * Certificate) (Wrapped "read response" err))
      |change (register _) with (@Err goerror (Certificate * Certificate) (Wrapped "decode response" err))];
      cbn match; by rewrite reset_registered.
  - done.
  - intros arrived errs d. rewrite <- Wait_nil. unfold on_connect_to, Connect.
    destruct arrived as [c|], (Wait errs) as [e|]; cbn;
      try destruct (As as_IdleTimeoutError e); destruct d; cbn; naive_solver.
Qed.

(** * Witness *)

Lemma refusal_is_a_race_witness :
  Join (accepted_script (Err (Wrapped "frame" (StreamError true 4098)))
          (Ok (root_cert demo_root, root_cert demo_root))) (JoinConn 1) = (None, Some ErrHostNotFound).
Proof.
  assert (reset_with errCodeHostNotFound (Wrapped "frame" (StreamError true 4098))) as H
    by (left; reflexivity).
  exact (proj1 (proj1 (refusal_is_a_race (Wrapped "frame" (StreamError true 4098))
    (root_cert demo_root, root_cert demo_root)
    (JoinConn 1) (OtherError "")) H)).
Defined.
