(* ===== verification/Udp.v ===== *)
(** Connections over one UDP socket: [internal/platform/udp/listen.go] and
    [conn.go].

    The read loop of the [Listener] is a program counter; calls of [Close] on
    the listener and on connections are tasks, because they hold [connLock]
    across blocking operations.  Connections live in a heap, named by numbers. *)
From S2P Require Import Prelude Netip Errors.

(** [platform.MTU] *)
Definition MTU : nat := 1200.

Definition defaultConnBacklog : nat := 128.
Definition defaultReadBufferSize : nat := 512.

(** [type ListenConfig struct] *)
Record ListenConfig := mkConfig { ConnBacklog : Z; ReadBufferSize : Z }.

(** [type Conn struct]: the remote address, the channel [reads], and [done]. *)
Record Conn := mkConn { writeAddr : AddrPort; reads : list (list Z); c_done : bool }.

(** The read loop: [readLoop] and [dispatch]. *)
Inductive reader :=
| LRead                                        (* ReadFrom *)
| LLookup (a : AddrPort) (pkt : list Z)        (* under the read lock *)
| LFound (c : nat) (a : AddrPort) (pkt : list Z)   (* non-blocking send on reads *)
| LCheck (a : AddrPort) (pkt : list Z)         (* select on done; create the Conn *)
| LEnqueue (c : nat) (a : AddrPort)            (* select on acceptQueue *)
| LStore (c : nat) (a : AddrPort)              (* under the lock *)
| LExit.                                       (* readDone is closed *)

(** Calls in progress that may hold the lock. *)
Inductive task :=
| TClose                                       (* Listener.Close: Lock *)
| TCloseHeld                                   (* Listener.Close with the lock *)
| TRelease (c : nat) (a : AddrPort)            (* Conn.Close: release, Lock *)
| TReleaseHeld (c : nat) (a : AddrPort)
| TWait.                                       (* tryCloseConn: wait for readDone, lock held *)

Inductive event :=
| EvPacket (a : AddrPort) (pkt : list Z)       (* received by the read loop *)
| EvRead (c : nat) (data : list Z)             (* taken by Conn.Read *)
| EvAccepted (c : nat)
| EvReturned.                                  (* a Close has returned *)

#[export] Instance event_eq_dec : EqDecision event.
Proof. solve_decision. Defined.

(** [type Listener struct] *)
Record Listener := mkListener {
  backlog : nat;
  readBufferSize : nat;
  done : bool;
  sock_closed : bool;
  lock : bool;
  conns : gmap AddrPort nat;
  heap : gmap nat Conn;
  next : nat;
  acceptQueue : list nat;
  rd : reader;
  tasks : list task;
  log : list event;
}.

(** [ListenConfig.Listen]: non-positive sizes take their default. *)
Definition Listen (l : ListenConfig) : Listener :=
  let connBacklog := if (ConnBacklog l <=? 0)%Z then defaultConnBacklog else Z.to_nat (ConnBacklog l) in
  let bufferSize := if (ReadBufferSize l <=? 0)%Z then defaultReadBufferSize
                    else Z.to_nat (ReadBufferSize l) in
  mkListener connBacklog bufferSize false false false ∅ ∅ 0 [] LRead [] [].

Definition set_rd (l : Listener) (r : reader) (ev : list event) : Listener :=
  mkListener (backlog l) (readBufferSize l) (done l) (sock_closed l) (lock l) (conns l) (heap l)
    (next l) (acceptQueue l) r (tasks l) (log l ++ ev).

Definition set_heap (l : Listener) (h : gmap nat Conn) (n : nat) : Listener :=
  mkListener (backlog l) (readBufferSize l) (done l) (sock_closed l) (lock l) (conns l) h
    n (acceptQueue l) (rd l) (tasks l) (log l).

Definition set_conns (l : Listener) (m : gmap AddrPort nat) : Listener :=
  mkListener (backlog l) (readBufferSize l) (done l) (sock_closed l) (lock l) m (heap l)
    (next l) (acceptQueue l) (rd l) (tasks l) (log l).

Definition set_queue (l : Listener) (q : list nat) (ev : list event) : Listener :=
  mkListener (backlog l) (readBufferSize l) (done l) (sock_closed l) (lock l) (conns l) (heap l)
    (next l) q (rd l) (tasks l) (log l ++ ev).

Definition set_closing (l : Listener) (d s k : bool) : Listener :=
  mkListener (backlog l) (readBufferSize l) d s k (conns l) (heap l)
    (next l) (acceptQueue l) (rd l) (tasks l) (log l).

Definition set_tasks (l : Listener) (ts : list task) (ev : list event) : Listener :=
  mkListener (backlog l) (readBufferSize l) (done l) (sock_closed l) (lock l) (conns l) (heap l)
    (next l) (acceptQueue l) (rd l) ts (log l ++ ev).

(** ** The read loop *)

(** What the socket gives: a packet, cut to the buffer, or an error, which
    every read on a closed socket returns. *)
Inductive incoming := Packet (a : AddrPort) (data : list Z) | ReadError.

(** [readLoop], one operation; [None]: it is blocked. *)
Definition readLoop_step (l : Listener) (i : incoming) : option Listener :=
  match rd l with
  | LRead =>
      match i with
      | ReadError => Some (set_rd l LExit [])
      | Packet a data =>
          if sock_closed l then None
          else Some (set_rd l (LLookup a (take MTU data)) [EvPacket a (take MTU data)])
      end
  | LLookup a pkt =>
      if lock l then None
      else match conns l !! a with
           | Some c => Some (set_rd l (LFound c a pkt) [])
           | None => Some (set_rd l (LCheck a pkt) [])
           end
  | LFound c a pkt =>
      match heap l !! c with
      | None => None
      | Some cn =>
          (* when the buffer is full: ErrReadBufferExceeded, the packet is lost *)
          if decide (length (reads cn) < readBufferSize l)
          then Some (set_heap (set_rd l LRead [])
                       (<[c := mkConn (writeAddr cn) (reads cn ++ [pkt]) (c_done cn)]> (heap l)) (next l))
          else Some (set_rd l LRead [])
      end
  | LCheck a pkt =>
      if done l then Some (set_rd l LRead [])  (* ErrClosedListener *)
      else Some (set_heap (set_rd l (LEnqueue (next l) a) [])
                   (<[next l := mkConn a [pkt] false]> (heap l)) (S (next l)))
  | LEnqueue c a =>
      if decide (length (acceptQueue l) < backlog l)
      then Some (set_queue (set_rd l (LStore c a) []) (acceptQueue l ++ [c]) [])
      else Some (set_rd l LRead [])            (* ErrListenQueueExceeded *)
  | LStore c a =>
      if lock l then None
      else Some (set_conns (set_rd l LRead []) (<[a := c]> (conns l)))
  | LExit => None
  end.

(** The last select of [dispatch] may take the case of [done] instead, even when
    the queue has room: ErrClosedListener. *)
Definition dispatch_closed (l : Listener) : option Listener :=
  match rd l with
  | LEnqueue _ _ => if done l then Some (set_rd l LRead []) else None
  | _ => None
  end.

(** ** Accept, Read, Close *)

(** The case of the select in [Accept] that takes a connection; the others
    change nothing. *)
Definition Accept (l : Listener) : option Listener :=
  match acceptQueue l with
  | c :: q => Some (set_queue l q [EvAccepted c])
  | [] => None
  end.

(** The case of the select in [Conn.Read] that takes data. *)
Definition Read (l : Listener) (c : nat) : option Listener :=
  cn ← heap l !! c;
  match reads cn with
  | data :: rest =>
      Some (set_queue (set_heap l (<[c := mkConn (writeAddr cn) rest (c_done cn)]> (heap l)) (next l))
              (acceptQueue l) [EvRead c data])
  | [] => None
  end.

(** [Conn.Close] up to [release]: only the first call goes on. *)
Definition Conn_Close (l : Listener) (c : nat) : option Listener :=
  if decide (EvAccepted c ∉ log l) then None
  else
    cn ← heap l !! c;
    if c_done cn then Some (set_tasks l (tasks l) [EvReturned])
    else Some (set_tasks (set_heap l (<[c := mkConn (writeAddr cn) (reads cn) true]> (heap l)) (next l))
                 (TRelease c (writeAddr cn) :: tasks l) []).

(** [tryCloseConn], with the lock held: either done, or the socket is closed and
    [readDone] awaited. *)
Definition tryCloseConn (l : Listener) (i : nat) : Listener :=
  if done l then
    if decide (conns l = ∅) then set_tasks (set_closing l (done l) true true) (<[i := TWait]> (tasks l)) []
    else set_tasks (set_closing l (done l) (sock_closed l) false) (delete i (tasks l)) [EvReturned]
  else set_tasks (set_closing l (done l) (sock_closed l) false) (delete i (tasks l)) [EvReturned].

(** A step of a call that holds or wants the lock. *)
Definition task_step (l : Listener) (i : nat) : option Listener :=
  t ← tasks l !! i;
  match t with
  | TClose =>
      if lock l then None
      else Some (set_tasks (set_closing l (done l) (sock_closed l) true) (<[i := TCloseHeld]> (tasks l)) [])
  | TCloseHeld =>
      if done l
      then Some (set_tasks (set_closing l (done l) (sock_closed l) false) (delete i (tasks l)) [EvReturned])
      else Some (tryCloseConn (set_closing l true (sock_closed l) true) i)
  | TRelease c a =>
      if lock l then None
      else Some (set_tasks (set_closing l (done l) (sock_closed l) true) (<[i := TReleaseHeld c a]> (tasks l)) [])
  | TReleaseHeld c a => Some (tryCloseConn (set_conns l (delete a (conns l))) i)
  | TWait =>
      match rd l with
      | LExit => Some (set_tasks (set_closing l (done l) (sock_closed l) false) (delete i (tasks l)) [EvReturned])
      | _ => None
      end
  end.

Inductive label :=
| LReadLoop (i : incoming)
| LDispatchClosed
| LAccept
| LRd (c : nat)
| LCloseConn (c : nat)
| LClose
| LTask (i : nat).

Definition step (l : Listener) (x : label) : option Listener :=
  match x with
  | LReadLoop i => readLoop_step l i
  | LDispatchClosed => dispatch_closed l
  | LAccept => Accept l
  | LRd c => Read l c
  | LCloseConn c => Conn_Close l c
  | LClose => Some (set_tasks l (TClose :: tasks l) [])
  | LTask i => task_step l i
  end.

Definition steps_to (l l' : Listener) : Prop := exists x, step l x = Some l'.

Definition reachable (cfg : ListenConfig) (l : Listener) : Prop := star steps_to (Listen cfg) l.

Fixpoint run (l : Listener) (xs : list label) : option Listener :=
  match xs with
  | [] => Some l
  | x :: xs => l' ← step l x; run l' xs
  end.

(** * Delivery *)

Definition packets_of (a : AddrPort) (es : list event) : list (list Z) :=
  omap (fun e => match e with EvPacket b pkt => if decide (a = b) then Some pkt else None | _ => None end) es.

Definition read_of (c : nat) (es : list event) : list (list Z) :=
  omap (fun e => match e with EvRead d data => if decide (c = d) then Some data else None | _ => None end) es.

Arguments packets_of : simpl never.
Arguments read_of : simpl never.

(** The packet the read loop is working on, not delivered yet. *)
Definition pending (r : reader) : option (AddrPort * list Z) :=
  match r with
  | LLookup a pkt | LFound _ a pkt | LCheck a pkt => Some (a, pkt)
  | _ => None
  end.

(** Packets of [a] that may have been delivered. *)
Definition handled (l : Listener) (a : AddrPort) (ps : list (list Z)) : Prop :=
  match pending (rd l) with
  | Some (b, pkt) => if decide (a = b) then packets_of a (log l) = ps ++ [pkt] else packets_of a (log l) = ps
  | None => packets_of a (log l) = ps
  end.

Arguments handled : simpl never.

Record delivery (l : Listener) : Prop := {
  dl_buffer : (0 < readBufferSize l)%nat;
  dl_fresh : forall c, is_Some (heap l !! c) -> (c < next l)%nat;
  dl_log : forall c data, EvRead c data ∈ log l -> is_Some (heap l !! c);
  dl_conns : forall a c, conns l !! a = Some c -> exists cn, heap l !! c = Some cn /\ writeAddr cn = a;
  dl_reader : match rd l with
              | LFound c a _ | LEnqueue c a | LStore c a =>
                  exists cn, heap l !! c = Some cn /\ writeAddr cn = a
              | _ => True
              end;
  dl_bound : forall c cn, heap l !! c = Some cn -> (length (reads cn) <= readBufferSize l)%nat;
  dl_order : forall c cn, heap l !! c = Some cn ->
    exists ps, handled l (writeAddr cn) ps /\ read_of c (log l) ++ reads cn `sublist_of` ps;
  dl_pending : forall a pkt, pending (rd l) = Some (a, pkt) ->
    exists ps, packets_of a (log l) = ps ++ [pkt];
}.

Lemma packets_of_app a es e : packets_of a (es ++ e) = packets_of a es ++ packets_of a e.
Proof. apply omap_app. Qed.

Lemma read_of_app c es e : read_of c (es ++ e) = read_of c es ++ read_of c e.
Proof. apply omap_app. Qed.

Lemma handled_exists l a : delivery l -> exists ps, handled l a ps.
Proof.
  intros Hd. unfold handled. destruct (pending (rd l)) as [[b pkt]|] eqn:Hp; [|by eexists].
  case_decide as Hb; [|by eexists]. subst b. by apply (dl_pending _ Hd).
Qed.

(** What was handled before a step is handled, or about to be, after it. *)
Lemma handled_grows l a ps :
  handled l a ps -> exists ps', packets_of a (log l) = ps ++ ps'.
Proof.
  unfold handled. destruct (pending (rd l)) as [[b pkt]|].
  - case_decide; intros ->; [by eexists|]. exists []. by rewrite app_nil_r.
  - intros ->. exists []. by rewrite app_nil_r.
Qed.

(** Steps that deliver nothing and take no packet. *)
Lemma delivery_same (l l' : Listener) :
  delivery l -> readBufferSize l' = readBufferSize l -> next l' = next l ->
  (forall c cn', heap l' !! c = Some cn' -> exists cn, heap l !! c = Some cn
     /\ writeAddr cn' = writeAddr cn /\ reads cn' = reads cn) ->
  (forall c cn, heap l !! c = Some cn -> exists cn', heap l' !! c = Some cn'
     /\ writeAddr cn' = writeAddr cn) ->
  (forall a c, conns l' !! a = Some c -> conns l !! a = Some c) ->
  rd l' = rd l ->
  (exists ev, log l' = log l ++ ev /\ Forall (fun e => match e with EvAccepted _ | EvReturned => True | _ => False end) ev) ->
  delivery l'.
Proof.
  intros [D1 D2 D3 D4 D5 D6 D7 D8] Eb En Hh Hh' Hc Er (ev & El & Hev).
  assert (forall a, packets_of a (log l') = packets_of a (log l)) as Hp.
  { intros a. rewrite El, packets_of_app. replace (packets_of a ev) with ([] : list (list Z)); [by rewrite app_nil_r|].
    clear -Hev. induction Hev as [|[] ev He _ IH]; try done. }
  assert (forall c, read_of c (log l') = read_of c (log l)) as Hr.
  { intros c. rewrite El, read_of_app. replace (read_of c ev) with ([] : list (list Z)); [by rewrite app_nil_r|].
    clear -Hev. induction Hev as [|[] ev He _ IH]; try done. }
  constructor; rewrite ?Eb, ?En, ?Er.
  - done.
  - intros c [cn' Hcn]. destruct (Hh _ _ Hcn) as (cn & Hl & _). apply D2. by eexists.
  - intros c data Hin. rewrite El, elem_of_app in Hin. destruct Hin as [Hin|Hin].
    + destruct (D3 _ _ Hin) as [cn Hcn]. destruct (Hh' _ _ Hcn) as (cn' & ? & _). by eexists.
    + rewrite Forall_forall in Hev. by specialize (Hev _ Hin).
  - intros a c Hca. destruct (D4 _ _ (Hc _ _ Hca)) as (cn & Hcn & Ha).
    destruct (Hh' _ _ Hcn) as (cn' & ? & ?). exists cn'. split; [done|congruence].
  - destruct (rd l); try done; destruct D5 as (cn & Hcn & Ha);
      destruct (Hh' _ _ Hcn) as (cn' & ? & ?); exists cn'; (split; [done|congruence]).
  - intros c cn' Hcn. destruct (Hh _ _ Hcn) as (cn & Hl & _ & ->). by eapply D6.
  - intros c cn' Hcn. destruct (Hh _ _ Hcn) as (cn & Hl & -> & ->).
    destruct (D7 _ _ Hl) as (ps & Hps & Hs). exists ps. unfold handled. by rewrite Er, Hp, Hr.
  - intros a pkt Hpe. rewrite Hp. by apply D8.
Qed.

(** A step of the read loop: the heap may only grow, nothing is read. *)
Lemma delivery_reader (l l' : Listener) ev :
  delivery l -> readBufferSize l' = readBufferSize l -> log l' = log l ++ ev ->
  (forall c data, EvRead c data ∉ ev) ->
  (forall c, is_Some (heap l !! c) -> is_Some (heap l' !! c)) ->
  (forall c, is_Some (heap l' !! c) -> (c < next l')%nat) ->
  (forall a c, conns l' !! a = Some c -> exists cn, heap l' !! c = Some cn /\ writeAddr cn = a) ->
  match rd l' with
  | LFound c a _ | LEnqueue c a | LStore c a =>
      exists cn, heap l' !! c = Some cn /\ writeAddr cn = a
  | _ => True
  end ->
  (forall c cn, heap l' !! c = Some cn -> (length (reads cn) <= readBufferSize l)%nat
     /\ exists ps, handled l' (writeAddr cn) ps /\ read_of c (log l) ++ reads cn `sublist_of` ps) ->
  (forall a pkt, pending (rd l') = Some (a, pkt) -> exists ps, packets_of a (log l') = ps ++ [pkt]) ->
  delivery l'.
Proof.
  intros Hd Eb El Hev Hh Hf Hc Hr Ho Hp.
  assert (forall c, read_of c (log l') = read_of c (log l)) as Er.
  { intros c. rewrite El, read_of_app. replace (read_of c ev) with ([] : list (list Z)); [by rewrite app_nil_r|].
    symmetry. apply elem_of_nil_inv. intros data Hin. unfold read_of in Hin.
    apply list_elem_of_omap in Hin as ([] & Hin & He); try done. by apply Hev in Hin. }
  constructor; rewrite ?Eb; try done.
  - apply (dl_buffer _ Hd).
  - intros c data Hin. rewrite El, elem_of_app in Hin. destruct Hin as [Hin|Hin]; [|by apply Hev in Hin].
    apply Hh. by eapply dl_log.
  - intros c cn Hcn. by destruct (Ho _ _ Hcn).
  - intros c cn Hcn. rewrite Er. by destruct (Ho _ _ Hcn).
Qed.

(** When the pending packet is dropped or passed on, more packets are handled. *)
Lemma order_grows (l l' : Listener) c cn :
  delivery l -> heap l !! c = Some cn -> log l' = log l -> pending (rd l') = None ->
  exists ps, handled l' (writeAddr cn) ps /\ read_of c (log l) ++ reads cn `sublist_of` ps.
Proof.
  intros Hd Hcn El Hp. destruct (dl_order _ Hd _ _ Hcn) as (ps & Hps & Hs).
  destruct (handled_grows _ _ _ Hps) as (ps' & E). exists (ps ++ ps').
  split; [unfold handled; by rewrite Hp, El|]. by apply sublist_inserts_r.
Qed.

(** The pending packet stays pending. *)
Lemma order_same (l l' : Listener) c cn :
  delivery l -> heap l !! c = Some cn -> log l' = log l -> pending (rd l') = pending (rd l) ->
  exists ps, handled l' (writeAddr cn) ps /\ read_of c (log l) ++ reads cn `sublist_of` ps.
Proof.
  intros Hd Hcn El Hp. destruct (dl_order _ Hd _ _ Hcn) as (ps & Hps & Hs).
  exists ps. split; [|done]. unfold handled in *. by rewrite Hp, El.
Qed.

(** A reader step that changes neither heap nor connections nor log. *)
Lemma delivery_move (l l' : Listener) :
  delivery l -> readBufferSize l' = readBufferSize l -> log l' = log l ++ [] -> heap l' = heap l ->
  next l' = next l ->
  (forall a c, conns l' !! a = Some c -> exists cn, heap l !! c = Some cn /\ writeAddr cn = a) ->
  match rd l' with
  | LFound c a _ | LEnqueue c a | LStore c a =>
      exists cn, heap l !! c = Some cn /\ writeAddr cn = a
  | _ => True
  end ->
  (pending (rd l') = pending (rd l) \/ pending (rd l') = None) ->
  delivery l'.
Proof.
  intros Hd Eb El Eh En Hc Hr Hp. rewrite app_nil_r in El.
  apply (delivery_reader l l' []); rewrite ?Eh, ?En, ?app_nil_r; try done.
  - intros ?? Hin. by apply not_elem_of_nil in Hin.
  - apply (dl_fresh _ Hd).
  - intros c cn Hcn. split; [by eapply dl_bound|].
    destruct Hp; [by apply order_same|by apply order_grows].
  - intros a pkt Hpe. rewrite El. destruct Hp as [Hp|Hp]; [|congruence].
    apply (dl_pending _ Hd). congruence.
Qed.

Lemma delivery_packet l a pkt :
  delivery l -> rd l = LRead -> delivery (set_rd l (LLookup a pkt) [EvPacket a pkt]).
Proof.
  intros Hd Hrd.
  assert (forall b, packets_of b (log l ++ [EvPacket a pkt])
    = packets_of b (log l) ++ if decide (b = a) then [pkt] else []) as Hp.
  { intros b. rewrite packets_of_app. f_equal. unfold packets_of. cbn. by case_decide. }
  apply (delivery_reader l _ [EvPacket a pkt]); cbn; try done.
  - intros c data Hin. by apply list_elem_of_singleton in Hin.
  - apply (dl_fresh _ Hd).
  - apply (dl_conns _ Hd).
  - intros c cn Hcn. split; [by eapply dl_bound|].
    destruct (dl_order _ Hd _ _ Hcn) as (ps & Hps & Hs). exists ps. split; [|done].
    unfold handled in *. cbn. rewrite Hrd in Hps. cbn in Hps. rewrite Hp, Hps.
    case_decide; [done|by rewrite app_nil_r].
  - intros b pkt' [= -> ->]. rewrite Hp, decide_True by done. by eexists.
Qed.

Lemma delivery_deliver l c a pkt cn :
  delivery l -> rd l = LFound c a pkt -> heap l !! c = Some cn ->
  (length (reads cn) < readBufferSize l)%nat ->
  delivery (set_heap (set_rd l LRead []) (<[c := mkConn (writeAddr cn) (reads cn ++ [pkt]) (c_done cn)]> (heap l))
              (next l)).
Proof.
  intros Hd Hrd Hcn Hlen. pose proof (dl_reader _ Hd) as Hr. rewrite Hrd in Hr.
  destruct Hr as (cn0 & Hcn0 & Ha). rewrite Hcn in Hcn0. injection Hcn0 as <-.
  apply (delivery_reader l _ []); cbn; try done.
  - intros ?? Hin. by apply not_elem_of_nil in Hin.
  - intros d [x Hx]. destruct (decide (c = d)) as [->|]; [rewrite lookup_insert_eq; by eexists|].
    rewrite lookup_insert_ne by done. by eexists.
  - intros d [x [[<- _]|[_ Hx]]%lookup_insert_Some]; apply (dl_fresh _ Hd); by eexists.
  - intros b d Hbd. destruct (dl_conns _ Hd _ _ Hbd) as (x & Hx & Hb).
    destruct (decide (c = d)) as [->|]; [|exists x; by rewrite lookup_insert_ne].
    rewrite lookup_insert_eq. eexists. split; [done|]. cbn. congruence.
  - intros d x [[<- <-]|[_ Hx]]%lookup_insert_Some; cbn.
    + split; [rewrite length_app; cbn; lia|].
      destruct (dl_order _ Hd _ _ Hcn) as (ps & Hps & Hs). exists (ps ++ [pkt]).
      unfold handled in *. cbn. rewrite Hrd in Hps. cbn in Hps. rewrite decide_True in Hps by done.
      rewrite app_nil_r. split; [done|]. rewrite app_assoc. by apply sublist_app.
    + split; [by eapply dl_bound|]. apply order_grows; cbn; try done. by rewrite app_nil_r.
Qed.

Lemma delivery_create l a pkt :
  delivery l -> rd l = LCheck a pkt ->
  delivery (set_heap (set_rd l (LEnqueue (next l) a) []) (<[next l := mkConn a [pkt] false]> (heap l))
              (S (next l))).
Proof.
  intros Hd Hrd.
  assert (heap l !! next l = None) as Hfresh.
  { apply eq_None_not_Some. intros Hs. pose proof (dl_fresh _ Hd _ Hs). lia. }
  assert (forall d x, heap l !! d = Some x -> <[next l := mkConn a [pkt] false]> (heap l) !! d = Some x) as Hk
    by (intros d x Hx; rewrite lookup_insert_ne; [done|congruence]).
  apply (delivery_reader l _ []); cbn; try done.
  - intros ?? Hin. by apply not_elem_of_nil in Hin.
  - intros d [x Hx]. exists x. by apply Hk.
  - intros d [x [[<- _]|[_ Hx]]%lookup_insert_Some]; [lia|].
    pose proof (dl_fresh _ Hd d ltac:(by eexists)). lia.
  - intros b d Hbd. destruct (dl_conns _ Hd _ _ Hbd) as (x & Hx & Hb). exists x. split; [by apply Hk|done].
  - eexists. rewrite lookup_insert_eq. by split.
  - intros d x [[<- <-]|[_ Hx]]%lookup_insert_Some; cbn.
    + split; [apply (dl_buffer _ Hd)|].
      destruct (dl_pending _ Hd a pkt) as (ps & Hps); [by rewrite Hrd|].
      exists (ps ++ [pkt]). unfold handled. cbn. rewrite app_nil_r. split; [done|].
      replace (read_of (next l) (log l)) with ([] : list (list Z)).
      * cbn. by apply sublist_inserts_l.
      * symmetry. apply elem_of_nil_inv. intros data Hin. unfold read_of in Hin.
        apply list_elem_of_omap in Hin as ([] & Hin & He); try done. case_decide; [|done]. subst c.
        destruct (dl_log _ Hd _ _ Hin). congruence.
    + split; [by eapply dl_bound|]. apply order_grows; cbn; try done. by rewrite app_nil_r.
Qed.

Lemma handled_same_packets (l l' : Listener) a ps :
  rd l' = rd l -> packets_of a (log l') = packets_of a (log l) -> handled l a ps -> handled l' a ps.
Proof. unfold handled. by intros -> ->. Qed.

Lemma delivery_Read l c cn data rest :
  delivery l -> heap l !! c = Some cn -> reads cn = data :: rest ->
  delivery (set_queue (set_heap l (<[c := mkConn (writeAddr cn) rest (c_done cn)]> (heap l)) (next l))
              (acceptQueue l) [EvRead c data]).
Proof.
  intros Hd Hcn Hreads. pose proof Hd as [D1 D2 D3 D4 D5 D6 D7 D8].
  match goal with |- delivery ?v => set (l' := v) end.
  assert (forall a, packets_of a (log l') = packets_of a (log l)) as Ep
    by (intros a; cbn; rewrite packets_of_app; unfold packets_of at 2; cbn; by rewrite app_nil_r).
  assert (forall d, read_of d (log l') = read_of d (log l) ++ if decide (d = c) then [data] else []) as Er
    by (intros d; cbn; rewrite read_of_app; f_equal; unfold read_of; cbn; by case_decide).
  assert (forall d x, heap l !! d = Some x -> exists x', heap l' !! d = Some x' /\ writeAddr x' = writeAddr x) as Hk.
  { intros d x Hx. cbn. destruct (decide (c = d)) as [->|Hne].
    - rewrite lookup_insert_eq. eexists. split; [done|]. cbn. congruence.
    - rewrite lookup_insert_ne by done. by eexists. }
  constructor; try done.
  - intros d [x Hx]. cbn in Hx. apply lookup_insert_Some in Hx as [[<- _]|[_ Hx]]; apply D2; by eexists.
  - intros d data' Hin. cbn in Hin. apply elem_of_app in Hin as [Hin|[= -> ->]%list_elem_of_singleton].
    + destruct (D3 _ _ Hin) as [x Hx]. destruct (Hk _ _ Hx) as (x' & ? & _). by eexists.
    + destruct (Hk _ _ Hcn) as (x' & ? & _). by eexists.
  - intros a d Had. destruct (D4 _ _ Had) as (x & Hx & Ha). destruct (Hk _ _ Hx) as (x' & ? & ?).
    exists x'. split; [done|congruence].
  - change (rd l') with (rd l). destruct (rd l); try done; destruct D5 as (x & Hx & Ha);
      destruct (Hk _ _ Hx) as (x' & ? & ?); exists x'; (split; [done|congruence]).
  - intros d x Hx. cbn in Hx. apply lookup_insert_Some in Hx as [[<- <-]|[_ Hx]]; [|by eapply D6]. cbn.
    pose proof (D6 _ _ Hcn) as Hb. rewrite Hreads in Hb. cbn in Hb. lia.
  - intros d x Hx. rewrite Er.
    assert (exists x0, heap l !! d = Some x0 /\ writeAddr x = writeAddr x0
      /\ (read_of d (log l) ++ if decide (d = c) then [data] else []) ++ reads x
         = read_of d (log l) ++ reads x0) as (x0 & Hx0 & Ha & ->).
    { cbn in Hx. apply lookup_insert_Some in Hx as [[<- <-]|[Hne Hx]].
      - exists cn. split; [done|]. split; [done|]. rewrite decide_True by done.
        cbn. by rewrite Hreads, <- app_assoc.
      - exists x. rewrite decide_False by done. by rewrite app_nil_r. }
    destruct (D7 _ _ Hx0) as (ps & Hps & Hs). exists ps. split; [|done]. rewrite Ha.
    apply (handled_same_packets l); [done|apply Ep|done].
  - intros a pkt Hpe. rewrite Ep. by apply D8.
Qed.

Ltac same := apply delivery_same; cbn; eauto;
  [try (intros; by eexists)|try (intros; by eexists)|..].

Lemma delivery_step l l' : delivery l -> steps_to l l' -> delivery l'.
Proof.
  intros Hd [x Hs]. destruct x as [i| | |c|c| |i]; cbn in Hs.
  - unfold readLoop_step in Hs. destruct (rd l) eqn:Hrd.
    + destruct i as [a data|]; [case_match; [done|]|]; injection Hs as <-; [by apply delivery_packet|].
      apply (delivery_move l); cbn; auto. apply (dl_conns _ Hd).
    + case_match; [done|]. destruct (conns l !! a) as [c|] eqn:Hc; injection Hs as <-.
      * apply (delivery_move l); cbn; auto; [apply (dl_conns _ Hd)|by apply (dl_conns _ Hd)|].
        left. by rewrite Hrd.
      * apply (delivery_move l); cbn; auto; [apply (dl_conns _ Hd)|]. left. by rewrite Hrd.
    + destruct (heap l !! c) as [cn|] eqn:Hcn; [|done]. case_decide; injection Hs as <-.
      * by eapply delivery_deliver.
      * apply (delivery_move l); cbn; auto. apply (dl_conns _ Hd).
    + case_match; injection Hs as <-; [|by eapply delivery_create].
      apply (delivery_move l); cbn; auto. apply (dl_conns _ Hd).
    + pose proof (dl_reader _ Hd) as Hr. rewrite Hrd in Hr.
      case_decide; injection Hs as <-; apply (delivery_move l); cbn; rewrite ?app_nil_r; auto;
        apply (dl_conns _ Hd).
    + pose proof (dl_reader _ Hd) as Hr. rewrite Hrd in Hr.
      case_match; [done|]. injection Hs as <-. apply (delivery_move l); cbn; auto.
      intros b d [[<- <-]|[_ Hb]]%lookup_insert_Some; [done|by apply (dl_conns _ Hd)].
    + done.
  - unfold dispatch_closed in Hs. destruct (rd l) eqn:Hrd; try done. case_match; [|done]. injection Hs as <-.
    apply (delivery_move l); cbn; auto. apply (dl_conns _ Hd).
  - unfold Accept in Hs. destruct (acceptQueue l) as [|c q]; [done|]. injection Hs as <-.
    apply (delivery_same l); cbn; eauto.
  - unfold Read in Hs. destruct (heap l !! c) as [cn|] eqn:Hcn; [|done]. cbn in Hs.
    destruct (reads cn) as [|data rest] eqn:Hr; [done|]. injection Hs as <-. by apply delivery_Read.
  - unfold Conn_Close in Hs. case_decide; [done|].
    destruct (heap l !! c) as [cn|] eqn:Hcn; [|done]. cbn in Hs.
    case_match; injection Hs as <-.
    + apply (delivery_same l); cbn; eauto.
    + apply (delivery_same l); cbn; eauto; [|].
      * intros d x [[<- <-]|[_ Hx]]%lookup_insert_Some; by eexists.
      * intros d x Hx. destruct (decide (c = d)) as [->|]; [|rewrite lookup_insert_ne by done; by eexists].
        rewrite lookup_insert_eq. eexists. split; [done|]. cbn. congruence.
  - injection Hs as <-. apply (delivery_same l); cbn; eauto.
  - unfold task_step, tryCloseConn in Hs. destruct (tasks l !! i) as [t|]; [|done]. cbn in Hs.
    destruct t; repeat (case_match; try discriminate Hs); injection Hs as <-;
      apply (delivery_same l); cbn; eauto;
      try (intros ?? ?%lookup_delete_Some; tauto);
      try by (exists []; rewrite ?app_nil_r).
Qed.

Lemma delivery_Listen cfg : delivery (Listen cfg).
Proof.
  constructor; cbn; try done.
  - case_match eqn:E; [unfold defaultReadBufferSize; lia|]. apply Z.leb_gt in E. lia.
  - intros c [x Hx]. by rewrite lookup_empty in Hx.
  - intros c data Hin. by apply not_elem_of_nil in Hin.
Qed.

Lemma udp_reachable_delivery cfg l : reachable cfg l -> delivery l.
Proof.
  intros Hr. eapply star_invariant; [|exact Hr|apply delivery_Listen].
  intros a b Ha Hb. by eapply delivery_step.
Qed.

(** * Hazards of closing *)

(** Close waits for a read loop that waits for the lock Close holds. *)
Record deadlocked (l : Listener) : Prop := {
  dk_lock : lock l = true;
  dk_reader : exists a pkt, rd l = LLookup a pkt;
  dk_wait : TWait ∈ tasks l;
  dk_tasks : Forall (fun t => t <> TCloseHeld /\ forall c a, t <> TReleaseHeld c a) (tasks l);
}.

Lemma deadlocked_step l l' : deadlocked l -> steps_to l l' -> deadlocked l'.
Proof.
  intros [Hk (a & pkt & Hr) Hw Ht] [x Hs]. destruct x as [i| | |c|c| |i]; cbn in Hs.
  - unfold readLoop_step in Hs. by rewrite Hr, Hk in Hs.
  - unfold dispatch_closed in Hs. by rewrite Hr in Hs.
  - unfold Accept in Hs. destruct (acceptQueue l); [done|]. injection Hs as <-.
    constructor; cbn; eauto.
  - unfold Read in Hs. destruct (heap l !! c) as [cn|]; [|done]. cbn in Hs.
    destruct (reads cn); [done|]. injection Hs as <-. constructor; cbn; eauto.
  - unfold Conn_Close in Hs. case_decide; [done|]. destruct (heap l !! c) as [cn|]; [|done]. cbn in Hs.
    case_match; injection Hs as <-; constructor; cbn; eauto; by constructor.
  - injection Hs as <-. constructor; cbn; eauto; by constructor.
  - unfold task_step in Hs. destruct (tasks l !! i) as [t|] eqn:Hi; [|done]. cbn in Hs.
    rewrite Forall_forall in Ht. destruct (Ht t) as [H1 H2]; [by eapply list_elem_of_lookup_2|].
    destruct t; rewrite ?Hk, ?Hr in Hs; try done. by destruct (H2 c a0).
Qed.

(** A closed connection stays in the table of a closed listener. *)
Record orphaned (a : AddrPort) (l : Listener) : Prop := {
  or_done : done l = true;
  or_sock : sock_closed l = false;
  or_conns : conns l = {[a := 0]};
  or_conn : exists cn, heap l !! 0 = Some cn /\ c_done cn = true;
  or_queue : acceptQueue l = [];
  or_accepted : forall c, EvAccepted c ∈ log l -> c = 0;
  or_tasks : Forall (fun t => t = TClose \/ t = TCloseHeld) (tasks l);
  or_reader : match rd l with LEnqueue _ _ | LStore _ _ => False | _ => True end;
}.

Lemma Forall_insert_delete (P : task -> Prop) ts i t :
  Forall P ts -> P t -> Forall P (<[i := t]> ts) /\ Forall P (delete i ts).
Proof.
  intros H Ht. split; [by apply Forall_insert|]. rewrite Forall_forall in *.
  intros x Hx. apply H. by eapply list_elem_of_delete_inv.
Qed.

Lemma orphaned_step a l l' : orphaned a l -> steps_to l l' -> orphaned a l'.
Proof.
  intros Ho [x Hs]. pose proof Ho as [O1 O2 O3 (cn & O4 & O4') O5 O6 O7 O8].
  assert (forall e, match e with EvAccepted _ => False | _ => True end ->
    forall c, EvAccepted c ∈ log l ++ [e] -> c = 0) as Hlog.
  { intros e He c Hin. apply elem_of_app in Hin as [Hin|Hin%list_elem_of_singleton]; [by apply O6|].
    by subst e. }
  destruct x as [i| | |c|c| |i]; cbn in Hs.
  - unfold readLoop_step in Hs. destruct (rd l) eqn:Hr; try done.
    all: repeat (case_match; try discriminate Hs); injection Hs as <-; constructor; cbn; eauto;
      rewrite ?app_nil_r; eauto; try congruence; try (by apply Hlog).
    destruct (decide (c = 0)) as [->|Hc].
    + rewrite lookup_insert_eq. eexists. split; [done|]. cbn. congruence.
    + rewrite lookup_insert_ne by done. by eexists.
  - unfold dispatch_closed in Hs. by destruct (rd l).
  - unfold Accept in Hs. by rewrite O5 in Hs.
  - unfold Read in Hs. destruct (heap l !! c) as [x|] eqn:Hc; [|done]. cbn in Hs.
    destruct (reads x); [done|]. injection Hs as <-. constructor; cbn; eauto; [|by apply Hlog].
    destruct (decide (c = 0)) as [->|Hne].
    + rewrite lookup_insert_eq. eexists. split; [done|]. cbn. congruence.
    + rewrite lookup_insert_ne by done. by eexists.
  - unfold Conn_Close in Hs. case_decide as Ha; [done|].
    rewrite (O6 _ Ha), O4 in Hs. cbn in Hs. rewrite O4' in Hs. injection Hs as <-.
    constructor; cbn; eauto. by apply Hlog.
  - injection Hs as <-. constructor; cbn; rewrite ?app_nil_r; eauto.
  - unfold task_step in Hs. destruct (tasks l !! i) as [t|] eqn:Hi; [|done]. cbn in Hs.
    assert (t = TClose \/ t = TCloseHeld) as Ht
      by (rewrite Forall_forall in O7; apply O7; by eapply list_elem_of_lookup_2).
    destruct Ht as [-> | ->]; [destruct (lock l); [done|]|rewrite O1 in Hs]; injection Hs as <-;
      constructor; cbn; rewrite ?app_nil_r; eauto; try (by apply Hlog);
      by apply (Forall_insert_delete _ _ i TCloseHeld); [|right].
Qed.

Definition udp_demo_addr : AddrPort := AddrPortFrom (Addr4 [127; 0; 0; 1]%Z) 9000.
Definition udp_demo : Listener := Listen (mkConfig 0 0).

(** A packet is being dispatched while the listener is closed. *)
Definition close_during_dispatch : list label :=
  [LReadLoop (Packet udp_demo_addr [1%Z]); LClose; LTask 0; LTask 0].

(** A connection is accepted and closed before [dispatch] has stored it. *)
Definition close_before_store : list label :=
  replicate 4 (LReadLoop (Packet udp_demo_addr [1%Z]))
  ++ [LAccept; LCloseConn 0; LTask 0; LTask 0; LReadLoop ReadError; LClose; LTask 0; LTask 0].

Lemma udp_run_star l xs l' : run l xs = Some l' -> star steps_to l l'.
Proof.
  revert l. induction xs as [|x xs IH]; intros l Hr; cbn in Hr.
  - injection Hr as ->. constructor.
  - destruct (step l x) as [l1|] eqn:Hl; [|done]. eapply star_step; [by exists x|]. by apply IH.
Qed.

(** Two hazards of closing.  (1) [Close] holds [connLock] while it waits for the read
    loop to end; a read loop that is dispatching a packet waits for the same
    lock.  From such a reachable state every continuation keeps both waiting.
    (2) A connection that is accepted and closed before [dispatch] stores it is
    stored afterwards: the listener is closed and every accepted connection
    too, but the socket stays open in every continuation. *)
Lemma close_hazards :
  (exists l, reachable (mkConfig 0 0) l /\ TWait ∈ tasks l
     /\ forall l', star steps_to l l' ->
          TWait ∈ tasks l' /\ lock l' = true /\ exists a pkt, rd l' = LLookup a pkt)
  /\ (exists l, reachable (mkConfig 0 0) l /\ done l = true /\ tasks l = []
     /\ (forall c cn, EvAccepted c ∈ log l -> heap l !! c = Some cn -> c_done cn = true)
     /\ forall l', star steps_to l l' -> sock_closed l' = false).
Proof.
  split.
  - destruct (run udp_demo close_during_dispatch) as [l|] eqn:E; [|vm_compute in E; discriminate E].
    assert (deadlocked l) as Hd.
    { vm_compute in E. injection E as <-. constructor; cbn; eauto; by repeat constructor. }
    exists l. split; [by eapply udp_run_star|]. split; [apply Hd|]. intros l' Hs.
    assert (deadlocked l') as [H1 H2 H3 _]; [|done].
    eapply star_invariant; [|exact Hs|exact Hd]. intros x y Hx Hy. by eapply deadlocked_step.
  - destruct (run udp_demo close_before_store) as [l|] eqn:E; [|vm_compute in E; discriminate E].
    assert (orphaned udp_demo_addr l /\ tasks l = []) as [Ho Ht].
    { vm_compute in E. injection E as <-. split; [|done]. constructor; cbn; eauto.
      intros c Hc. repeat (apply elem_of_cons in Hc as [Hc|Hc];
        [first [discriminate Hc|by injection Hc as ->]|]). by apply not_elem_of_nil in Hc. }
    exists l. split; [by eapply udp_run_star|]. split; [apply Ho|]. split; [done|]. split.
    + intros c cn Hc Hcn. rewrite (or_accepted _ _ Ho _ Hc) in Hcn.
      destruct (or_conn _ _ Ho) as (x & Hx & ?). congruence.
    + intros l' Hs. assert (orphaned udp_demo_addr l') as Ho'; [|by destruct Ho'].
      eapply star_invariant; [|exact Hs|exact Ho]. intros x y Hx Hy. by eapply orphaned_step.
Qed.

(** * Deadlines *)

(** The two deadlines of a connection; the zero time is none. *)
Record deadlines := mkDeadlines { readDeadline : option Z; writeDeadline : option Z }.

Definition SetReadDeadline (d : deadlines) (t : option Z) : deadlines := mkDeadlines t (writeDeadline d).
Definition SetWriteDeadline (d : deadlines) (t : option Z) : deadlines := mkDeadlines (readDeadline d) t.
Definition SetDeadline (t : option Z) : deadlines := mkDeadlines t t.

(** [newDeadline]: whether its context is done at a time. *)
Definition expired (deadline : option Z) (now : Z) : bool :=
  match deadline with Some t => (t <=? now)%Z | None => false end.

(** The cases of the selects of [Conn.Read] and [Conn.Write]; [Ready] is the
    data, or the default case. *)
Inductive io_case := DeadlineDone | Ready | ConnDone.

Definition os_DeadlineExceeded : goerror := Sentinel "os.ErrDeadlineExceeded".
Definition net_ErrClosed : goerror := Sentinel "net.ErrClosed".

(** [Conn.Read] into [p] bytes, for the deadline at the start of the call;
    [None]: the case is not ready.  The data that [copy] leaves out is lost. *)
Definition Conn_Read (cn : Conn) (deadline : option Z) (now : Z) (p : nat) (c : io_case) : option (Conn * result goerror (list Z)) :=
  match c with
  | DeadlineDone => if expired deadline now then Some (cn, Err os_DeadlineExceeded) else None
  | Ready => match reads cn with
             | data :: rest => Some (mkConn (writeAddr cn) rest (c_done cn), Ok (take p data))
             | [] => None
             end
  | ConnDone => if c_done cn then Some (cn, Err net_ErrClosed) else None
  end.

(** [Conn.Write]; [WriteTo] is what the socket answers. *)
Definition Conn_Write (cn : Conn) (deadline : option Z) (now : Z) (WriteTo : AddrPort -> result goerror nat) (c : io_case)
    : option (result goerror nat) :=
  match c with
  | DeadlineDone => if expired deadline now then Some (Err os_DeadlineExceeded) else None
  | ConnDone => if c_done cn then Some (Err net_ErrClosed) else None
  | Ready => if expired deadline now || c_done cn then None else Some (WriteTo (writeAddr cn))
  end.

(** When a read blocks, what it takes from the listener, and when a write goes
    to the socket. *)
Lemma conn_io l c cn deadline now p WriteTo : heap l !! c = Some cn ->
  ((forall k, Conn_Read cn deadline now p k = None) <-> reads cn = [] /\ expired deadline now = false /\ c_done cn = false) /\
  (forall cn' data, Conn_Read cn deadline now p Ready = Some (cn', Ok data) ->
     exists full l', Read l c = Some l' /\ log l' = log l ++ [EvRead c full] /\ heap l' = <[c := cn']> (heap l) /\ data = take p full) /\
  (exists k r, Conn_Write cn deadline now WriteTo k = Some r) /\
  (forall k r, Conn_Write cn deadline now WriteTo k = Some r ->
     if expired deadline now || c_done cn then r = Err os_DeadlineExceeded \/ r = Err net_ErrClosed else r = WriteTo (writeAddr cn)).
Proof.
  intros Hc. split_and!.
  - split.
    + intros Hk. pose proof (Hk DeadlineDone) as H1. pose proof (Hk Ready) as H2. pose proof (Hk ConnDone) as H3. cbn in H1, H2, H3.
      destruct (expired deadline now), (c_done cn), (reads cn); done.
    + intros (H1 & H2 & H3) k. unfold Conn_Read. rewrite H1, H2, H3. by destruct k.
  - intros cn' data. cbn. unfold Read. rewrite Hc. cbn [mbind option_bind]. destruct (reads cn) as [|full rest]; [done|].
    intros [= <- <-]. eexists full, _. split; [done|]. done.
  - destruct (expired deadline now) eqn:E1; [exists DeadlineDone; eexists; cbn; by rewrite E1|].
    destruct (c_done cn) eqn:E2; [exists ConnDone; eexists; cbn; by rewrite E2|].
    exists Ready. eexists. cbn. rewrite E1, E2. done.
  - intros k r. unfold Conn_Write. destruct k, (expired deadline now), (c_done cn); cbn; intros [= <-]; auto.
Qed.

(** C17. In every reachable state, what a connection has handed to its reader,
    followed by what waits in its buffer, is a subsequence of the packets that
    arrived from its own address, in order: packets may be lost, never
    reordered, duplicated or delivered to another connection.  No buffer holds
    more than its configured number of packets.  Closing has two hazards:
    [Close] holds [connLock] while it waits for the read loop, which can be
    waiting for that lock, and then both wait in every continuation; and a
    connection accepted and closed before [dispatch] stores it is stored
    afterwards, so the socket of a closed listener whose connections are all
    closed stays open in every continuation.  A read blocks exactly while there
    is no data, the connection is open and the deadline it began with has not
    passed, and gives the oldest packet, cut to the buffer; a write never
    blocks, and goes to the socket exactly when the connection is open and the
    deadline has not passed. *)
Theorem udp_delivery (cfg : ListenConfig) (l : Listener) (Hr : reachable cfg l) :
  (forall c cn, heap l !! c = Some cn ->
    read_of c (log l) ++ reads cn `sublist_of` packets_of (writeAddr cn) (log l)
    /\ length (reads cn) <= readBufferSize l)
  /\ (exists l, reachable (mkConfig 0 0) l /\ TWait ∈ tasks l
     /\ forall l', star steps_to l l' ->
          TWait ∈ tasks l' /\ lock l' = true /\ exists a pkt, rd l' = LLookup a pkt)
  /\ (exists l, reachable (mkConfig 0 0) l /\ done l = true /\ tasks l = []
     /\ (forall c cn, EvAccepted c ∈ log l -> heap l !! c = Some cn -> c_done cn = true)
     /\ forall l', star steps_to l l' -> sock_closed l' = false)
  /\ (forall c cn deadline now p WriteTo, heap l !! c = Some cn ->
     ((forall k, Conn_Read cn deadline now p k = None) <-> reads cn = [] /\ expired deadline now = false /\ c_done cn = false)
     /\ (forall cn' data, Conn_Read cn deadline now p Ready = Some (cn', Ok data) ->
          exists full l', Read l c = Some l' /\ log l' = log l ++ [EvRead c full] /\ heap l' = <[c := cn']> (heap l) /\ data = take p full)
     /\ (exists k r, Conn_Write cn deadline now WriteTo k = Some r)
     /\ (forall k r, Conn_Write cn deadline now WriteTo k = Some r ->
          if expired deadline now || c_done cn then r = Err os_DeadlineExceeded \/ r = Err net_ErrClosed else r = WriteTo (writeAddr cn))).
Proof.
  split; [|split; [exact (proj1 close_hazards)|split; [exact (proj2 close_hazards)|intros c cn deadline now p WriteTo; apply conn_io]]].
  pose proof (udp_reachable_delivery cfg l Hr) as Hd. intros c cn Hcn. split; [|by eapply dl_bound].
  destruct (dl_order _ Hd _ _ Hcn) as (ps & Hps & Hs).
  destruct (handled_grows _ _ _ Hps) as (ps' & ->). by apply sublist_inserts_r.
Qed.

(** * Witness *)

Definition two_packets : list label :=
  replicate 6 (LReadLoop (Packet udp_demo_addr [1%Z])) ++ [LAccept; LRd 0].

Lemma udp_delivery_witness :
  exists l cn, reachable (mkConfig 0 0) l /\ heap l !! 0 = Some cn
  /\ read_of 0 (log l) ++ reads cn `sublist_of` packets_of (writeAddr cn) (log l).
Proof.
  destruct (run udp_demo two_packets) as [l|] eqn:E; [|vm_compute in E; discriminate E].
  assert (is_Some (heap l !! 0)) as [cn Hcn] by (vm_compute in E; injection E as <-; by eexists).
  exists l, cn. pose proof (udp_run_star _ _ _ E) as Hr.
  split; [exact Hr|]. split; [exact Hcn|].
  exact (proj1 (proj1 (udp_delivery (mkConfig 0 0) l Hr) 0 cn Hcn)).
Defined.
