(* ===== verification/Sse.v ===== *)
(** The log broadcaster of [internal/webserver/sse.go].

    The handler keeps a ring of the last lines and a set of subscriber channels.
    Its methods hold one mutex, so each is one step; receiving from a channel
    needs no lock.  Channels are named by numbers and live in a heap, with the
    panics Go raises on a closed one. *)
From S2P Require Import Prelude Ring.

(** * The ring buffer *)

(** [type ringBuffer struct]: [container/ring] as its cells and the position of
    [r]; a ring made with capacity 0 is nil. *)
Record ringBuffer := mkRing {
  cells : list (option string);
  pos : nat;
  count : nat;
  capacity : nat;
}.

Definition newRingBuffer (cap : nat) : ringBuffer := mkRing (replicate cap None) 0 0 cap.

(** [ringBuffer.add] *)
Definition add (rb : ringBuffer) (s : string) : outcome ringBuffer :=
  cells' ← go_set (cells rb) (pos rb) (Some s);
  pos' ← go_mod (pos rb + 1) (length cells');
  Ret (mkRing cells' pos'
         (if decide (count rb < capacity rb) then count rb + 1 else count rb) (capacity rb)).

(** The loop of [entries]: an empty cell fails the type assertion. *)
Fixpoint entries_loop (rb : ringBuffer) (r n : nat) : outcome (list string) :=
  match n with
  | 0 => Ret []
  | S n =>
      v ← go_get (cells rb) r;
      s ← or_panic v;
      r' ← go_mod (r + 1) (length (cells rb));
      rest ← entries_loop rb r' n;
      Ret (s :: rest)
  end.

(** [ringBuffer.entries]: [Move(-count)] and the loop. *)
Definition entries (rb : ringBuffer) : outcome (list string) :=
  r ← go_mod (pos rb + (length (cells rb) - count rb)) (length (cells rb));
  entries_loop rb r (count rb).

(** [ringBuffer.reset] *)
Definition reset (rb : ringBuffer) : ringBuffer := newRingBuffer (capacity rb).

(** * The handler *)

(** A subscriber channel, and what its reader has received. *)
Record channel := mkChan { ch_buf : list string; ch_closed : bool; ch_received : list string }.

Definition chan_size : nat := 100.

(** [type SSEHandler struct], with the channels; [next] names the next one. *)
Record SSEHandler := mkSSE {
  history : ringBuffer;
  subscribers : gset nat;
  chans : gmap nat channel;
  next : nat;
}.

(** [NewSSEHandler] *)
Definition NewSSEHandler (bufferSize : nat) : SSEHandler := mkSSE (newRingBuffer bufferSize) ∅ ∅ 0.

(** [select { case ch <- line: default: }]: a send on a closed channel panics. *)
Definition try_send (c : channel) (line : string) : outcome channel :=
  if ch_closed c then Panic
  else if decide (length (ch_buf c) < chan_size)
  then Ret (mkChan (ch_buf c ++ [line]) false (ch_received c))
  else Ret c.

(** The loop of [Handle] over the subscribers, in some order. *)
Fixpoint broadcast (cs : gmap nat channel) (subs : list nat) (line : string)
    : outcome (gmap nat channel) :=
  match subs with
  | [] => Ret cs
  | s :: subs =>
      c ← or_panic (cs !! s);
      c' ← try_send c line;
      broadcast (<[s := c']> cs) subs line
  end.

(** [Handle], for a record formatted as [line]. *)
Definition Handle (h : SSEHandler) (line : string) : outcome SSEHandler :=
  rb ← add (history h) line;
  cs ← broadcast (chans h) (elements (subscribers h)) line;
  Ret (mkSSE rb (subscribers h) cs (next h)).

(** [Subscribe] *)
Definition Subscribe (h : SSEHandler) : outcome (SSEHandler * (list string * nat)) :=
  es ← entries (history h);
  Ret (mkSSE (history h) ({[next h]} ∪ subscribers h)
         (<[next h := mkChan [] false []]> (chans h)) (S (next h)), (es, next h)).

(** [close(ch)] *)
Definition close_chan (cs : gmap nat channel) (s : nat) : outcome (gmap nat channel) :=
  c ← or_panic (cs !! s);
  if ch_closed c then Panic else Ret (<[s := mkChan (ch_buf c) true (ch_received c)]> cs).

(** [Unsubscribe] *)
Definition Unsubscribe (h : SSEHandler) (s : nat) : outcome SSEHandler :=
  if decide (s ∈ subscribers h) then
    cs ← close_chan (chans h) s;
    Ret (mkSSE (history h) (subscribers h ∖ {[s]}) cs (next h))
  else Ret h.

(** The loop of [Reset]. *)
Fixpoint close_all (cs : gmap nat channel) (subs : list nat) : outcome (gmap nat channel) :=
  match subs with
  | [] => Ret cs
  | s :: subs => cs' ← close_chan cs s; close_all cs' subs
  end.

(** [Reset] *)
Definition Reset (h : SSEHandler) : outcome SSEHandler :=
  cs ← close_all (chans h) (elements (subscribers h));
  Ret (mkSSE (reset (history h)) ∅ cs (next h)).

(** The receive of [handleLogs]: a line, or the end of a closed channel. *)
Definition Receive (h : SSEHandler) (s : nat) : option (SSEHandler * option string) :=
  c ← chans h !! s;
  match ch_buf c with
  | line :: rest =>
      Some (mkSSE (history h) (subscribers h)
              (<[s := mkChan rest (ch_closed c) (ch_received c ++ [line])]> (chans h)) (next h),
            Some line)
  | [] => if ch_closed c then Some (h, None) else None
  end.

(** * Histories of calls *)

Inductive op := OpHandle (line : string) | OpSubscribe | OpUnsubscribe (s : nat) | OpReset | OpReceive (s : nat).

(** What the calls so far amount to: all lines, those since the last [Reset],
    and for each channel how many lines had been logged when it was made. *)
Record trace := mkTrace {
  lines : list string;
  recent : list string;
  subs_at : gmap nat nat;
}.

Definition apply_op (h : SSEHandler) (t : trace) (o : op) : outcome (SSEHandler * trace) :=
  match o with
  | OpHandle line => h' ← Handle h line;
      Ret (h', mkTrace (lines t ++ [line]) (recent t ++ [line]) (subs_at t))
  | OpSubscribe => '(h', (_, s)) ← Subscribe h;
      Ret (h', mkTrace (lines t) (recent t) (<[s := length (lines t)]> (subs_at t)))
  | OpUnsubscribe s => h' ← Unsubscribe h s; Ret (h', t)
  | OpReset => h' ← Reset h; Ret (h', mkTrace (lines t) [] (subs_at t))
  | OpReceive s => match Receive h s with Some (h', _) => Ret (h', t) | None => Ret (h, t) end
  end.

Fixpoint run_ops (h : SSEHandler) (t : trace) (os : list op) : outcome (SSEHandler * trace) :=
  match os with
  | [] => Ret (h, t)
  | o :: os => '(h', t') ← apply_op h t o; run_ops h' t' os
  end.

(** * Invariants *)

(** The ring holds the last lines: its cells from the oldest on. *)
Record ring_wf (rb : ringBuffer) (ls : list string) : Prop := {
  rw_cells : length (cells rb) = capacity rb;
  rw_last : holds_last (cells rb) (pos rb) (count rb) (map Some ls);
}.

Lemma newRing_wf cap : (0 < cap)%nat -> ring_wf (newRingBuffer cap) [].
Proof.
  intros Hc. constructor; cbn; [apply length_replicate|]. apply holds_last_nil. destruct cap; [lia|done].
Qed.

Lemma lastn_map {A B} (f : A -> B) n (l : list A) : lastn n (map f l) = map f (lastn n l).
Proof. unfold lastn. rewrite length_map. apply skipn_map. Qed.

Lemma add_wf rb ls s :
  ring_wf rb ls -> exists rb', add rb s = Ret rb' /\ ring_wf rb' (ls ++ [s]) /\ capacity rb' = capacity rb.
Proof.
  intros [H1 H2]. pose proof (hl_pos _ _ _ _ H2). unfold add. rewrite go_set_lt by lia. cbn [mbind outcome_bind].
  rewrite go_mod_pos by (rewrite length_insert; lia). cbn [mbind outcome_bind].
  eexists. split; [done|]. split; [|done]. rewrite length_insert.
  constructor; cbn [cells pos count capacity]; [by rewrite length_insert|].
  rewrite map_app, <- H1. by apply holds_last_push.
Qed.

Lemma entries_loop_window rb r ls :
  cells rb <> [] -> (r < length (cells rb))%nat ->
  window (cells rb) r (length ls) = map Some ls -> entries_loop rb r (length ls) = Ret ls.
Proof.
  intros Hne. revert r. induction ls as [|l ls IH]; intros r Hr Hw; [done|]. cbn [entries_loop length] in *.
  destruct (slot_is_Some (cells rb) r 0 Hne) as [x Hx].
  rewrite (window_cons _ _ _ x Hx) in Hw. injection Hw as -> Hw.
  unfold slot in Hx. rewrite Nat.add_0_r, Nat.mod_small in Hx by done.
  rewrite (go_get_Some _ _ _ Hx). cbn. rewrite go_mod_pos by lia. cbn.
  rewrite (IH ((r + 1) mod length (cells rb))); [done| |].
  - apply Nat.mod_upper_bound. lia.
  - rewrite window_mod by done. by rewrite Nat.add_1_r.
Qed.

Lemma entries_wf rb ls : ring_wf rb ls -> entries rb = Ret (lastn (capacity rb) ls).
Proof.
  intros [H1 [H2 H3 H4]]. rewrite lastn_map, H1 in H4. unfold entries. rewrite go_mod_pos by lia. cbn.
  assert (count rb = length (lastn (capacity rb) ls)) as Hc by (rewrite length_lastn; rewrite length_map in H3; lia).
  rewrite Hc in *. apply entries_loop_window.
  - intros E. rewrite E in H2. cbn in H2. lia.
  - apply Nat.mod_upper_bound. lia.
  - rewrite window_mod by done. by rewrite H1.
Qed.

(** A send that does not panic: dropped when the buffer is full. *)
Definition pushed (line : string) (c : channel) : channel :=
  if decide (length (ch_buf c) < chan_size)
  then mkChan (ch_buf c ++ [line]) false (ch_received c) else c.

Definition closed_of (c : channel) : channel := mkChan (ch_buf c) true (ch_received c).

Definition open_in (cs : gmap nat channel) (s : nat) : Prop :=
  exists c, cs !! s = Some c /\ ch_closed c = false.

(** Both loops touch every subscriber once, whatever the order. *)
Definition updated (f : channel -> channel) (subs : list nat) (cs cs' : gmap nat channel) : Prop :=
  forall s, cs' !! s = if decide (s ∈ subs) then f <$> cs !! s else cs !! s.

Lemma open_in_insert cs s s' c : s' <> s -> open_in cs s -> open_in (<[s' := c]> cs) s.
Proof. intros Hne (c0 & H & Ho). exists c0. by rewrite lookup_insert_ne. Qed.

Lemma updated_cons f s subs cs cs' c :
  s ∉ subs -> cs !! s = Some c -> updated f subs (<[s := f c]> cs) cs' -> updated f (s :: subs) cs cs'.
Proof.
  intros Hs Hc Hu s'. rewrite Hu. destruct (decide (s = s')) as [<-|Hne].
  - rewrite (decide_False (P := s ∈ subs)), decide_True, Hc by set_solver. by rewrite lookup_insert_eq.
  - rewrite lookup_insert_ne by done. destruct (decide (s' ∈ subs)), (decide (s' ∈ s :: subs)); set_solver.
Qed.

Lemma broadcast_updated line subs : forall cs,
  NoDup subs -> Forall (open_in cs) subs ->
  exists cs', broadcast cs subs line = Ret cs' /\ updated (pushed line) subs cs cs'.
Proof.
  induction subs as [|s subs IH]; intros cs Hnd Ho; [exists cs; split; [done|by intros s]|].
  apply NoDup_cons in Hnd as [Hs Hnd]. apply Forall_cons in Ho as [(c & Hc & Hop) Ho].
  destruct (IH (<[s := pushed line c]> cs) Hnd) as (cs' & Hb & Hu).
  { apply Forall_forall. intros s' Hs'. rewrite Forall_forall in Ho. apply open_in_insert; [set_solver|auto]. }
  exists cs'. split; [|by eapply updated_cons]. cbn. rewrite Hc. cbn. unfold try_send. rewrite Hop.
  unfold pushed in Hb. by case_decide.
Qed.

Lemma close_all_updated subs : forall cs,
  NoDup subs -> Forall (open_in cs) subs ->
  exists cs', close_all cs subs = Ret cs' /\ updated closed_of subs cs cs'.
Proof.
  induction subs as [|s subs IH]; intros cs Hnd Ho; [exists cs; split; [done|by intros s]|].
  apply NoDup_cons in Hnd as [Hs Hnd]. apply Forall_cons in Ho as [(c & Hc & Hop) Ho].
  destruct (IH (<[s := closed_of c]> cs) Hnd) as (cs' & Hb & Hu).
  { apply Forall_forall. intros s' Hs'. rewrite Forall_forall in Ho. apply open_in_insert; [set_solver|auto]. }
  exists cs'. split; [|by eapply updated_cons]. cbn. unfold close_chan. rewrite Hc. cbn. by rewrite Hop.
Qed.

(** What a channel holds, for a subscription made after [start] lines. *)
Record chan_ok (ls : list string) (start : nat) (c : channel) : Prop := {
  co_start : (start <= length ls)%nat;
  co_sub : ch_received c ++ ch_buf c `sublist_of` drop start ls;
  co_size : (length (ch_buf c) <= chan_size)%nat;
  co_exact : ch_closed c = false -> (length ls <= start + chan_size)%nat ->
             ch_received c ++ ch_buf c = drop start ls;
}.

Record sse_inv (cap : nat) (h : SSEHandler) (t : trace) : Prop := {
  si_cap : capacity (history h) = cap;
  si_ring : ring_wf (history h) (recent t);
  si_dom : forall s, is_Some (chans h !! s) <-> (s < next h)%nat;
  si_open : forall s, s ∈ subscribers h <-> open_in (chans h) s;
  si_chan : forall s c, chans h !! s = Some c -> exists start, subs_at t !! s = Some start /\ chan_ok (lines t) start c;
}.

Lemma new_inv cap : (0 < cap)%nat -> sse_inv cap (NewSSEHandler cap) (mkTrace [] [] ∅).
Proof.
  intros Hc. constructor; cbn; [done|by apply newRing_wf| | |done].
  - intros s. rewrite lookup_empty. split; [intros []; done|lia].
  - intros s. split; [set_solver|]. intros (c & H & _). by rewrite lookup_empty in H.
Qed.

Lemma chan_ok_push ls start c line :
  chan_ok ls start c -> ch_closed c = false -> chan_ok (ls ++ [line]) start (pushed line c).
Proof.
  intros [H1 H2 H3 H4] Ho. unfold pushed.
  assert (length (ch_received c ++ ch_buf c) <= length (drop start ls))%nat as Hlen by by apply sublist_length.
  rewrite length_app, length_drop in Hlen.
  case_decide as Hd; constructor; rewrite ?length_app; cbn [ch_received ch_buf ch_closed length]; rewrite ?length_app; cbn [length];
    rewrite ?drop_app_le by done; try lia.
  - rewrite (assoc_L (++)). by apply sublist_app.
  - intros _ Hle. rewrite (assoc_L (++)). rewrite H4 by (done || lia). done.
  - by apply sublist_inserts_r.
Qed.

Lemma chan_ok_snoc ls start c line :
  chan_ok ls start c -> ch_closed c = true -> chan_ok (ls ++ [line]) start c.
Proof.
  intros [H1 H2 H3 H4] Ho. constructor; rewrite ?length_app; rewrite ?drop_app_le by done; try lia; try done.
  - by apply sublist_inserts_r.
  - congruence.
Qed.

Lemma chan_ok_close ls start c : chan_ok ls start c -> chan_ok ls start (closed_of c).
Proof. intros []. constructor; cbn; try done. Qed.

Lemma chan_ok_receive ls start c line rest :
  chan_ok ls start c -> ch_buf c = line :: rest ->
  chan_ok ls start (mkChan rest (ch_closed c) (ch_received c ++ [line])).
Proof.
  intros [H1 H2 H3 H4] Hb. rewrite Hb in *. cbn in H3.
  constructor; cbn; rewrite <- ?(assoc_L (++)); try done. lia.
Qed.

Lemma open_subs h t cap : sse_inv cap h t -> Forall (open_in (chans h)) (elements (subscribers h)).
Proof. intros Hi. apply Forall_forall. intros s Hs. apply (si_open _ _ _ Hi). by apply elem_of_elements. Qed.

Lemma updated_is_Some f subs cs cs' s : updated f subs cs cs' -> is_Some (cs' !! s) <-> is_Some (cs !! s).
Proof. intros Hu. rewrite Hu. case_decide; [apply fmap_is_Some|done]. Qed.

Lemma Handle_inv cap h t line :
  sse_inv cap h t ->
  exists h', Handle h line = Ret h' /\ sse_inv cap h' (mkTrace (lines t ++ [line]) (recent t ++ [line]) (subs_at t)).
Proof.
  intros Hi. pose proof Hi as [H1 H2 H3 H4 H5]. unfold Handle.
  destruct (add_wf _ _ line H2) as (rb' & -> & Hr & Hcap). cbn.
  destruct (broadcast_updated line (elements (subscribers h)) (chans h)) as (cs' & -> & Hu);
    [apply NoDup_elements|by eapply open_subs|]. cbn.
  eexists. split; [done|]. constructor; cbn; [congruence|done| | |].
  - intros s. rewrite (updated_is_Some _ _ _ _ _ Hu). apply H3.
  - intros s. rewrite H4. unfold open_in. rewrite Hu. case_decide as Hs; [|done].
    rewrite elem_of_elements, H4 in Hs. destruct Hs as (c & Hc & Ho). rewrite Hc. cbn.
    split; intros _; eexists; (split; [done|]); [|done]. unfold pushed. by case_decide.
  - intros s c. rewrite Hu. case_decide as Hs.
    + rewrite elem_of_elements, H4 in Hs. destruct Hs as (c0 & Hc & Ho). rewrite Hc. cbn.
      intros [= <-]. destruct (H5 s c0 Hc) as (start & Hst & Hok). exists start. split; [done|].
      by apply chan_ok_push.
    + intros Hc. destruct (H5 s c Hc) as (start & Hst & Hok). exists start. split; [done|].
      apply chan_ok_snoc; [done|]. rewrite elem_of_elements, H4 in Hs.
      destruct (ch_closed c) eqn:Ho; [done|]. exfalso. apply Hs. by exists c.
Qed.

Lemma Subscribe_inv cap h t :
  sse_inv cap h t ->
  exists h', Subscribe h = Ret (h', (lastn cap (recent t), next h)) /\
    sse_inv cap h' (mkTrace (lines t) (recent t) (<[next h := length (lines t)]> (subs_at t))).
Proof.
  intros Hi. pose proof Hi as [H1 H2 H3 H4 H5]. unfold Subscribe.
  rewrite (entries_wf _ _ H2), H1. cbn. eexists. split; [done|].
  constructor; cbn; [done|done| | |]; intros s; (destruct (decide (next h = s)) as [<-|Hne];
    [rewrite ?lookup_insert_eq|rewrite ?lookup_insert_ne by done]).
  - split; [lia|eauto].
  - rewrite H3. lia.
  - split; [|set_solver]. intros _. exists (mkChan [] false []). by rewrite lookup_insert_eq.
  - unfold open_in. rewrite lookup_insert_ne by done.
    rewrite elem_of_union, elem_of_singleton, H4. unfold open_in. naive_solver.
  - intros c [= <-]. eexists. split; [done|]. constructor; cbn; try done; try lia.
    + apply sublist_nil_l.
    + intros _ _. by rewrite drop_all.
  - apply H5.
Qed.

Lemma Unsubscribe_inv cap h t s :
  sse_inv cap h t -> exists h', Unsubscribe h s = Ret h' /\ sse_inv cap h' t.
Proof.
  intros Hi. pose proof Hi as [H1 H2 H3 H4 H5]. unfold Unsubscribe. case_decide as Hs; [|eauto].
  apply H4 in Hs as (c & Hc & Ho). unfold close_chan. rewrite Hc. cbn. rewrite Ho. cbn.
  eexists. split; [done|].
  constructor; cbn; [done|done| | |]; intros s'; (destruct (decide (s = s')) as [<-|Hne];
    unfold open_in; [rewrite ?lookup_insert_eq|rewrite ?lookup_insert_ne by done]).
  - rewrite <- H3, Hc. split; eauto.
  - apply H3.
  - split; [set_solver|]. intros (c' & [= <-] & Ho'). done.
  - rewrite elem_of_difference, elem_of_singleton, H4. unfold open_in. naive_solver.
  - intros c' [= <-]. destruct (H5 s c Hc) as (start & Hst & Hok). exists start. split; [done|].
    by apply chan_ok_close in Hok.
  - apply H5.
Qed.

Lemma Reset_inv cap h t :
  (0 < cap)%nat -> sse_inv cap h t ->
  exists h', Reset h = Ret h' /\ sse_inv cap h' (mkTrace (lines t) [] (subs_at t)).
Proof.
  intros Hcap Hi. pose proof Hi as [H1 H2 H3 H4 H5]. unfold Reset.
  destruct (close_all_updated (elements (subscribers h)) (chans h)) as (cs' & -> & Hu);
    [apply NoDup_elements|by eapply open_subs|]. cbn. eexists. split; [done|].
  constructor; cbn; [done| | | |].
  - apply newRing_wf. lia.
  - intros s. rewrite (updated_is_Some _ _ _ _ _ Hu). apply H3.
  - intros s. split; [set_solver|]. intros (c & Hc & Ho). rewrite Hu in Hc. case_decide as Hs.
    + destruct (chans h !! s); [|done]. injection Hc as <-. done.
    + exfalso. apply Hs, elem_of_elements, H4. by exists c.
  - intros s c. rewrite Hu. case_decide as Hs; [|apply H5].
    destruct (chans h !! s) as [c0|] eqn:Hc; [|done]. cbn. intros [= <-].
    destruct (H5 s c0 Hc) as (start & Hst & Hok). exists start. split; [done|]. by apply chan_ok_close.
Qed.

Lemma Receive_inv cap h t s h' r :
  sse_inv cap h t -> Receive h s = Some (h', r) -> sse_inv cap h' t.
Proof.
  intros Hi. pose proof Hi as [H1 H2 H3 H4 H5]. unfold Receive.
  destruct (chans h !! s) as [c|] eqn:Hc; [cbn|done].
  destruct (ch_buf c) as [|line rest] eqn:Hb; [case_match; [|done]; by intros [= <- <-]|].
  intros [= <- <-].
  constructor; cbn; [done|done| | |]; intros s'; (destruct (decide (s = s')) as [<-|Hne];
    unfold open_in; [rewrite ?lookup_insert_eq|rewrite ?lookup_insert_ne by done]).
  - rewrite <- H3, Hc. split; eauto.
  - apply H3.
  - rewrite H4. unfold open_in. rewrite Hc. split; intros (c' & [= <-] & Ho); eauto.
  - apply H4.
  - intros c' [= <-]. destruct (H5 s c Hc) as (start & Hst & Hok). exists start. split; [done|].
    by eapply chan_ok_receive.
  - apply H5.
Qed.

Lemma apply_op_inv cap h t o :
  (0 < cap)%nat -> sse_inv cap h t -> exists h' t', apply_op h t o = Ret (h', t') /\ sse_inv cap h' t'.
Proof.
  intros Hcap Hi. destruct o as [line| |s| |s]; cbn.
  - destruct (Handle_inv cap h t line Hi) as (h' & -> & ?). cbn. eauto.
  - destruct (Subscribe_inv cap h t Hi) as (h' & -> & ?). cbn. eauto.
  - destruct (Unsubscribe_inv cap h t s Hi) as (h' & -> & ?). cbn. eauto.
  - destruct (Reset_inv cap h t Hcap Hi) as (h' & -> & ?). cbn. eauto.
  - destruct (Receive h s) as [[h' r]|] eqn:Hr; [|eauto]. eauto using Receive_inv.
Qed.

Lemma run_ops_inv cap os : forall h t,
  (0 < cap)%nat -> sse_inv cap h t -> exists h' t', run_ops h t os = Ret (h', t') /\ sse_inv cap h' t'.
Proof.
  induction os as [|o os IH]; intros h t Hcap Hi; [cbn; eauto|]. cbn.
  destruct (apply_op_inv cap h t o Hcap Hi) as (h' & t' & -> & Hi'). cbn. eauto.
Qed.
