(* ===== verification/Forms.v ===== *)
(** The forms of the web page: [internal/webserver/models.go].

    Each [UnmarshalHTTP] collects the errors of all fields; the handlers go on
    only when there is none.  A form is a function from field names to the
    bytes of the first value ([FormValue]: empty when the field is missing).
    [net/url.Parse], [encoding/pem.Decode], [x509.ParseCertificate] and the
    case table of [unicode] are parameters. *)
From S2P Require Import Prelude Auth.
Local Open Scope Z_scope.

(** * [strconv.Atoi] *)

Definition is_digit (c : Z) : bool := (48 <=? c) && (c <=? 57).

Fixpoint digits_value (acc : Z) (ds : list Z) : option Z :=
  match ds with
  | [] => Some acc
  | c :: ds => if is_digit c then digits_value (10 * acc + (c - 48)) ds else None
  end.

Definition number (ds : list Z) : option Z := match ds with [] => None | _ => digits_value 0 ds end.

(** An optional sign, digits, and a value that fits an [int]; [None] is any
    error. *)
Definition Atoi (s : list Z) : option Z :=
  v ← match s with
      | [] => None
      | c :: ds => if c =? 43 then number ds else if c =? 45 then Z.opp <$> number ds else number s
      end;
  if (- 2 ^ 63 <=? v) && (v <? 2 ^ 63) then Some v else None.

(** * Requests and errors *)

(** The result of [r.FormFile] and of reading the file. *)
Inductive form_file := NoFile | FileError (e : string) | FileUnreadable (e : string) | FileData (data : list Z).

(** What a handler reads of a request: the result of parsing the form, the
    uploaded file and the fields. *)
Record form_request := mkForm {
  parse_err : option string;
  ca_cert : form_file;
  FormValue : string -> list Z;
}.

Inductive form_error :=
| InvalidFormData (e : string)
| CAReadFailed (e : string)
| InvalidCA
| URLRequired
| InvalidURL
| URLScheme
| PortRequired
| InvalidPort
| InvalidGameKey (e : error)
| InvalidInviteCode (e : error)
| InviteRequired.

(** [p, err := strconv.Atoi(portStr)] and the check of the range; the three
    forms repeat it. *)
Definition parse_port (text : list Z) : option Z :=
  match Atoi text with
  | None => None
  | Some p => if (p <=? 0) || (65535 <? p) then None else Some p
  end.

(** An optional port field: empty is 0. *)
Definition unmarshal_port (text : list Z) : list form_error * Z :=
  if decide (text = []) then ([], 0)
  else match parse_port text with None => ([InvalidPort], 0) | Some p => ([], p) end.

(** * What a port field means *)

(** The decimal value of digits. *)
Fixpoint dec (ds : list Z) : Z :=
  match ds with [] => 0 | c :: ds => (c - 48) * 10 ^ Z.of_nat (length ds) + dec ds end.

(** [text] is a decimal numeral, possibly with a plus sign and leading zeros,
    of a port. *)
Definition port_text (text : list Z) (p : Z) : Prop :=
  exists ds, (text = ds \/ text = 43 :: ds) /\ ds <> [] /\
    Forall (fun c => 48 <= c <= 57) ds /\ dec ds = p /\ 1 <= p <= 65535.

Lemma is_digit_true c : is_digit c = true <-> 48 <= c <= 57.
Proof. unfold is_digit. lia. Qed.

Lemma digits_value_dec ds : forall acc v,
  digits_value acc ds = Some v <->
  Forall (fun c => 48 <= c <= 57) ds /\ v = acc * 10 ^ Z.of_nat (length ds) + dec ds.
Proof.
  induction ds as [|c ds IH]; intros acc v; cbn [digits_value dec].
  - cbn. split; [intros [= <-]; split; [constructor|lia]|intros [_ ->]; f_equal; lia].
  - destruct (is_digit c) eqn:Hc.
    + apply is_digit_true in Hc. rewrite IH, Forall_cons. cbn [length].
      rewrite Nat2Z.inj_succ, Z.pow_succ_r by lia. split; intros [H ->]; (split; [naive_solver|ring]).
    + split; [done|]. intros [H _]. apply Forall_cons in H as [H _]. apply is_digit_true in H. congruence.
Qed.

Lemma dec_nonneg ds : Forall (fun c => 48 <= c <= 57) ds -> 0 <= dec ds.
Proof. induction 1; cbn; [lia|]. pose proof (Z.pow_nonneg 10 (Z.of_nat (length l))). nia. Qed.

Lemma number_Some ds v :
  number ds = Some v <-> ds <> [] /\ Forall (fun c => 48 <= c <= 57) ds /\ v = dec ds.
Proof.
  destruct ds as [|c ds]; [cbn; naive_solver|]. unfold number. rewrite digits_value_dec.
  rewrite Z.mul_0_l, Z.add_0_l. naive_solver.
Qed.

Lemma parse_port_Some text p : parse_port text = Some p <-> port_text text p.
Proof.
  assert (parse_port text = Some p <-> Atoi text = Some p /\ 1 <= p <= 65535) as ->.
  { unfold parse_port. destruct (Atoi text) as [q|]; [|naive_solver].
    destruct ((q <=? 0) || (65535 <? q)) eqn:E; split; [done| |intros [= ->]; split; [done|lia]|naive_solver].
    intros [[= ->] ?]. lia. }
  assert (Atoi text = Some p /\ 1 <= p <= 65535 <->
    exists ds, (text = ds \/ text = 43 :: ds) /\ number ds = Some p /\ 1 <= p <= 65535) as ->;
    [|unfold port_text; setoid_rewrite number_Some; naive_solver].
  unfold Atoi. destruct text as [|c ds].
  { split; [intros [? ?]; done|]. intros (ds & [<-|?] & Hn & _); done. }
  assert (forall o : option Z, (v ← o; if (- 2 ^ 63 <=? v) && (v <? 2 ^ 63) then Some v else None) = Some p /\ 1 <= p <= 65535
    <-> o = Some p /\ 1 <= p <= 65535) as ->.
  { intros [w|]; cbn; [|naive_solver]. case_match eqn:E; [done|]. split; intros [[= ->] ?]. lia. }
  destruct (c =? 43) eqn:E1; [|destruct (c =? 45) eqn:E2].
  - apply Z.eqb_eq in E1. subst c. split; [intros []; eauto|]. intros (ds' & [<-|[= <-]] & Hn & ?); [|done].
    apply number_Some in Hn as (_ & Hd & _). apply Forall_cons in Hd as [? _]. lia.
  - apply Z.eqb_eq in E2. subst c. split.
    + intros [Hn ?]. destruct (number ds) as [w|] eqn:Hw; [|done]. apply number_Some in Hw as (_ & Hd & ->).
      injection Hn as Hn. pose proof (dec_nonneg _ Hd). lia.
    + intros (ds' & [<-|[=]] & Hn & ?). apply number_Some in Hn as (_ & Hd & _). apply Forall_cons in Hd as [? _]. lia.
  - split; [intros []; eauto|]. intros (ds' & [<-|[= -> <-]] & Hn & ?); [done|]. lia.
Qed.

(** An optional port field. *)
Definition optional_port (text : list Z) (p : Z) : Prop := (text = [] /\ p = 0) \/ port_text text p.

Lemma unmarshal_port_ok text p : unmarshal_port text = ([], p) <-> optional_port text p.
Proof.
  unfold unmarshal_port, optional_port. rewrite <- parse_port_Some. case_decide as H.
  - subst. split; [intros [= <-]; by left|]. intros [[_ ->]|Hp]; [done|]. by vm_compute in Hp.
  - destruct (parse_port text) as [q|] eqn:E; naive_solver.
Qed.

(** * The setup form *)

Section setup.
Context {URL Cert : Type}.
Variable url_Parse : list Z -> option URL.
Variable url_Scheme : URL -> list Z.
Variable pem_Decode : list Z -> option (list Z * list Z).
Variable ParseCertificate : list Z -> option Cert.

(** [parseCACert]; a block is its type and its bytes. *)
Definition parseCACert (data : list Z) : option Cert :=
  match pem_Decode data with
  | None => None
  | Some (typ, body) =>
      if decide (typ <> bytes_of_string "CERTIFICATE") then None else ParseCertificate body
  end.

(** [type sharedConfig struct] *)
Record sharedConfig := mkShared {
  RegistarURL : option URL;
  Secret : list Z;
  CACert : option Cert;
  Port : Z;
}.

Definition zero_shared : sharedConfig := mkShared None [] None 0.

(** The certificate part of [sharedConfig.UnmarshalHTTP]. *)
Definition unmarshal_ca (r : form_request) : list form_error * option Cert :=
  match ca_cert r with
  | NoFile => ([], None)
  | FileError e => ([CAReadFailed e], None)
  | FileUnreadable e => ([CAReadFailed e], None)
  | FileData data =>
      match parseCACert data with
      | None => ([InvalidCA], None)
      | Some c => ([], Some c)
      end
  end.

(** The URL part. *)
Definition unmarshal_url (r : form_request) : list form_error * option URL :=
  let raw := FormValue r "registar-url" in
  if decide (raw = []) then ([URLRequired], None)
  else match url_Parse raw with
       | None => ([InvalidURL], None)
       | Some u =>
           if decide (url_Scheme u <> bytes_of_string "http" /\ url_Scheme u <> bytes_of_string "https")
           then ([URLScheme], None) else ([], Some u)
       end.

(** [sharedConfig.UnmarshalHTTP] on a zero configuration. *)
Definition UnmarshalShared (r : form_request) : list form_error * sharedConfig :=
  match parse_err r with
  | Some e => ([InvalidFormData e], zero_shared)
  | None =>
      let (errs1, ca) := unmarshal_ca r in
      let (errs2, u) := unmarshal_url r in
      let (errs3, p) := unmarshal_port (FormValue r "port") in
      (errs1 ++ errs2 ++ errs3, mkShared u (FormValue r "secret") ca p)
  end.

(** [sharedConfig.tlsConfig]: the trusted roots, [None] for the system's, and
    the protocols offered. *)
Record tls_Config := mkTLS { RootCAs : option (list Cert); NextProtos : list string }.

Definition NextProtoH3 : string := "h3".

Definition tlsConfig (cfg : sharedConfig) : tls_Config :=
  match CACert cfg with
  | None => mkTLS None [NextProtoH3]
  | Some c => mkTLS (Some [c]) [NextProtoH3]
  end.

(** An optional trust root. *)
Definition optional_ca (f : form_file) (ca : option Cert) : Prop :=
  match f with
  | NoFile => ca = None
  | FileData data => exists body c, pem_Decode data = Some (bytes_of_string "CERTIFICATE", body) /\
      ParseCertificate body = Some c /\ ca = Some c
  | _ => False
  end.

Lemma unmarshal_ca_ok r ca : unmarshal_ca r = ([], ca) <-> optional_ca (ca_cert r) ca.
Proof.
  unfold unmarshal_ca, optional_ca, parseCACert. destruct (ca_cert r) as [| | |data]; [naive_solver..|].
  destruct (pem_Decode data) as [[typ body]|]; [|naive_solver].
  case_decide as H; [naive_solver|]. destruct (ParseCertificate body) eqn:E; [|naive_solver].
  naive_solver.
Qed.

Definition valid_url (raw : list Z) (u : option URL) : Prop :=
  raw <> [] /\ exists v, url_Parse raw = Some v /\ u = Some v /\
    (url_Scheme v = bytes_of_string "http" \/ url_Scheme v = bytes_of_string "https").

Lemma unmarshal_url_ok r u : unmarshal_url r = ([], u) <-> valid_url (FormValue r "registar-url") u.
Proof.
  unfold unmarshal_url, valid_url. case_decide as H; [naive_solver|].
  destruct (url_Parse _) as [v|]; [|naive_solver]. case_decide as Hs; [naive_solver|].
  assert (url_Scheme v = bytes_of_string "http" \/ url_Scheme v = bytes_of_string "https") as Hok
    by (destruct (decide (url_Scheme v = bytes_of_string "http")); [by left|right; apply dec_stable; naive_solver]).
  naive_solver.
Qed.

(** A setup is accepted. *)
Definition valid_shared (r : form_request) (cfg : sharedConfig) : Prop :=
  parse_err r = None /\ optional_ca (ca_cert r) (CACert cfg) /\
  valid_url (FormValue r "registar-url") (RegistarURL cfg) /\
  Secret cfg = FormValue r "secret" /\ optional_port (FormValue r "port") (Port cfg).

Lemma app_nil_3 {A} (a b c : list A) : a ++ b ++ c = [] <-> a = [] /\ b = [] /\ c = [].
Proof. split; [intros [? [? ?]%app_nil]%app_nil; done|by intros (-> & -> & ->)]. Qed.

Lemma shared_ok r cfg : UnmarshalShared r = ([], cfg) <-> valid_shared r cfg.
Proof.
  unfold UnmarshalShared, valid_shared. destruct (parse_err r); [naive_solver|].
  rewrite <- unmarshal_ca_ok, <- unmarshal_url_ok, <- unmarshal_port_ok.
  destruct (unmarshal_ca r) as [e1 ca], (unmarshal_url r) as [e2 u], (unmarshal_port _) as [e3 p].
  destruct cfg as [u' s ca' p']. cbn. split.
  - intros [= (-> & -> & ->)%app_nil_3 -> <- -> ->]. done.
  - intros (_ & [= -> ->] & [= -> ->] & -> & [= -> ->]). done.
Qed.

End setup.

(** * The host and peer forms *)

Section keys.
Variable upper : Z -> Z.

(** [type hostConfig struct] and its [UnmarshalHTTP]; [rnd] is what the random
    source returns if a key has to be made. *)
Record hostConfig := mkHost { GamePort : Z; GameKey : Key }.

Definition UnmarshalHost (rnd : result unit (list Z)) (r : form_request)
    : outcome (list form_error * hostConfig) :=
  match parse_err r with
  | Some e => Ret ([InvalidFormData e], mkHost 0 zero_key)
  | None =>
      let field := FormValue r "game-port" in
      let portStr := if decide (field = bytes_of_string "custom")
                     then FormValue r "custom-game-port" else field in
      let '(errs1, p) :=
        if decide (portStr = []) then ([PortRequired], 0)
        else match parse_port portStr with None => ([InvalidPort], 0) | Some p => ([], p) end in
      let key := FormValue r "game-key" in
      if decide (key = []) then
        k ← NewKey rnd; Ret (errs1, mkHost p k)
      else
        res ← ParseKey upper key;
        match res with
        | Err e => Ret (errs1 ++ [InvalidGameKey e], mkHost p zero_key)
        | Ok k => Ret (errs1, mkHost p k)
        end
  end.

(** [type peerConfig struct] and its [UnmarshalHTTP] *)
Record peerConfig := mkPeer { InviteCode : Key; GameListenPort : Z }.

Definition UnmarshalPeer (r : form_request) : outcome (list form_error * peerConfig) :=
  match parse_err r with
  | Some e => Ret ([InvalidFormData e], mkPeer zero_key 0)
  | None =>
      let code := FormValue r "invite-code" in
      let '(errs2, p) := unmarshal_port (FormValue r "game-listen-port") in
      if decide (code = []) then Ret (InviteRequired :: errs2, mkPeer zero_key p)
      else
        res ← ParseKey upper code;
        match res with
        | Err e => Ret (InvalidInviteCode e :: errs2, mkPeer zero_key p)
        | Ok k => Ret (errs2, mkPeer k p)
        end
  end.

(** The field the game port is read from. *)
Definition game_port_field (r : form_request) : list Z :=
  if decide (FormValue r "game-port" = bytes_of_string "custom")
  then FormValue r "custom-game-port" else FormValue r "game-port".

(** A configuration is accepted. *)
Definition valid_host (rnd : result unit (list Z)) (r : form_request) (cfg : hostConfig) : Prop :=
  parse_err r = None /\ port_text (game_port_field r) (GamePort cfg) /\
  if decide (FormValue r "game-key" = []) then NewKey rnd = Ret (GameKey cfg)
  else ParseKey upper (FormValue r "game-key") = Ret (Ok (GameKey cfg)).

Definition valid_peer (r : form_request) (cfg : peerConfig) : Prop :=
  parse_err r = None /\ FormValue r "invite-code" <> [] /\
  ParseKey upper (FormValue r "invite-code") = Ret (Ok (InviteCode cfg)) /\
  optional_port (FormValue r "game-listen-port") (GameListenPort cfg).

Lemma host_ok rnd r cfg : UnmarshalHost rnd r = Ret ([], cfg) <-> valid_host rnd r cfg.
Proof.
  unfold UnmarshalHost, valid_host. fold (game_port_field r). destruct (parse_err r); [naive_solver|].
  rewrite <- parse_port_Some. destruct cfg as [p' k']. cbn [GamePort GameKey].
  assert (forall errs p, (if decide (game_port_field r = []) then ([PortRequired], 0)
      else match parse_port (game_port_field r) with None => ([InvalidPort], 0) | Some p => ([], p) end) = (errs, p) ->
    errs = [] /\ parse_port (game_port_field r) = Some p \/ errs <> [] /\ parse_port (game_port_field r) = None) as Hp.
  { intros errs p. case_decide as H; [rewrite H; intros [= <- <-]; by right|].
    destruct (parse_port (game_port_field r)) as [q|] eqn:E; naive_solver. }
  destruct (if decide (game_port_field r = []) then _ else _) as [errs p]. specialize (Hp errs p eq_refl).
  case_decide as Hk.
  - destruct (NewKey rnd) as [k|]; cbn; naive_solver.
  - destruct (ParseKey upper _) as [[k|e]|]; cbn; [naive_solver| |naive_solver].
    split; [intros [= []%app_nil _ _]; done|naive_solver].
Qed.

Lemma peer_ok r cfg : UnmarshalPeer r = Ret ([], cfg) <-> valid_peer r cfg.
Proof.
  unfold UnmarshalPeer, valid_peer. destruct (parse_err r); [naive_solver|].
  rewrite <- unmarshal_port_ok. destruct (unmarshal_port _) as [errs p], cfg as [k' p'].
  cbn. case_decide; [naive_solver|]. destruct (ParseKey upper _) as [[k|e]|]; cbn; naive_solver.
Qed.

Lemma host_returns rnd r data : rnd = Ok data -> UnmarshalHost rnd r <> Panic.
Proof.
  intros ->. unfold UnmarshalHost. destruct (parse_err r); [done|].
  destruct (if decide _ then ([PortRequired], 0) else _). case_decide; [done|].
  pose proof (ParseKey_no_panic upper (FormValue r "game-key")).
  by destruct (ParseKey upper (FormValue r "game-key")) as [[]|].
Qed.

Lemma peer_returns r : UnmarshalPeer r <> Panic.
Proof.
  unfold UnmarshalPeer. destruct (parse_err r); [done|].
  destruct (unmarshal_port _). case_decide; [done|].
  pose proof (ParseKey_no_panic upper (FormValue r "invite-code")).
  by destruct (ParseKey upper (FormValue r "invite-code")) as [[]|].
Qed.

End keys.

(** * Correctness *)

(** C35. A form is accepted, with no error, exactly when it is meant to be.  The
    setup form: an http or https URL, no certificate or one that parses, no
    port or a numeral from 1 to 65535.  The host form: such a port, from the
    custom field when that is chosen, and a key that parses, or none and a
    fresh key.  The peer form: an invite code that parses, no port or such a
    port.  No form makes the server panic while the random source works.  The configuration is then the one the fields denote, and the TLS
    configuration trusts the given certificate alone, or the system's roots
    when there is none. *)
Theorem forms_validate {URL Cert : Type} (url_Parse : list Z -> option URL) (url_Scheme : URL -> list Z)
    (pem_Decode : list Z -> option (list Z * list Z)) (ParseCertificate : list Z -> option Cert)
    (upper : Z -> Z) (rnd : result unit (list Z)) (r : form_request) :
  (forall cfg, UnmarshalShared url_Parse url_Scheme pem_Decode ParseCertificate r = ([], cfg) <->
               valid_shared url_Parse url_Scheme pem_Decode ParseCertificate r cfg) /\
  (forall cfg, UnmarshalHost upper rnd r = Ret ([], cfg) <-> valid_host upper rnd r cfg) /\
  (forall cfg, UnmarshalPeer upper r = Ret ([], cfg) <-> valid_peer upper r cfg) /\
  (UnmarshalPeer upper r <> Panic /\ (UnmarshalHost upper rnd r = Panic -> rnd = Err ())) /\
  (forall cfg : @sharedConfig URL Cert, RootCAs (tlsConfig cfg) = (fun c => [c]) <$> CACert cfg /\
               NextProtos (tlsConfig cfg) = [NextProtoH3]).
Proof.
  split_and!; [apply shared_ok|apply host_ok|apply peer_ok|apply peer_returns| |].
  { destruct rnd as [data|[]]; [|done]. intros H. by destruct (host_returns upper (Ok data) r data eq_refl). }
  intros cfg. unfold tlsConfig. by destruct (CACert cfg).
Qed.
