(* ===== verification/Web.v ===== *)
(** The web page's server: [internal/webserver/server.go], [session.go].

    Requests, the goroutines of a session and [Stop] are tasks; a step of a
    task is a critical section or the code between two of them.  The two start
    handlers hold the mutex from their first line to their last, so each is one
    step.  What the registar and the game sockets answer comes with the step. *)
From S2P Require Import Prelude Auth Forms.
Local Open Scope Z_scope.

Definition routeIndex : string := "/".
Definition routeHost : string := "/host".
Definition routeHostRunning : string := "/host/running".
Definition routePeer : string := "/peer".
Definition routePeerConnected : string := "/peer/connected".

Section web.
Context {URL Cert : Type}.
Variable url_Parse : list Z -> option URL.
Variable url_Scheme : URL -> list Z.
Variable pem_Decode : list Z -> option (list Z * list Z).
Variable ParseCertificate : list Z -> option Cert.
Variable upper : Z -> Z.

(** * Data *)

Inductive session_kind := KHost | KPeer.

(** [type sessionInfo struct], with the address of the game as its port. *)
Record sessionInfo := mkInfo { info_InviteCode : Key; GameAddress : Z; ListenAddress : string }.

(** What [Register] or [Join] was called with. *)
Record registration := mkRegistration {
  reg_url : URL;
  reg_token : Token;
  reg_tls : @tls_Config Cert;
  reg_port : Z;
}.

(** [type activeSession struct]: whether [done] is closed; besides, whether the
    context of its goroutines is cancelled, and how it was registered. *)
Record activeSession := mkSession {
  kind : session_kind;
  info : sessionInfo;
  done : bool;
  cancelled : bool;
  registered : registration;
}.

Inductive page_error := FormErr (e : form_error) | RegisterHost (e : string) | RegisterPeer (e : string).

(** The values a page is rendered with: those of the request, or cached ones. *)
Definition values : Type := option (string -> list Z).

(** [render] with the data of each page, and [http.Redirect]. *)
Inductive response :=
| Redirect (route : string)
| RenderIndex (errs : list page_error) (v : values)
| RenderHost (errs : list page_error) (v : values)
| RenderHostRunning (code : Key) (addr : Z)
| RenderPeer (errs : list page_error) (v : values)
| RenderPeerConnected (addr : string)
| Stopped.                                             (* Stop returns *)

(** The routes; [rnd] is the random source for a new key. *)
Inductive request :=
| GetIndex | PostSetup (f : form_request)
| GetHost | PostHost (rnd : result unit (list Z)) (f : form_request) | GetHostRunning | PostHostStop
| GetPeer | PostPeer (f : form_request) | GetPeerConnected | PostPeerStop
| StopServer.

Inductive after_stop := ThenIndex | ThenWait.

(** A panic of a handler: [s.session] read as nil by [redirectToSession], a nil
    registar URL, a failing random source, and a second [close(s.done)]. *)
Inductive panic := NilSession | NilURL | NoRandom | CloseOfClosed.

Inductive task :=
| TRequest (r : request)
| TRedirect                              (* redirectIfSession, after Unlock, a session found *)
| TContinue (r : request)                (* the handler after redirectIfSession *)
| TSetShared (cfg : @sharedConfig URL Cert) (mode : list Z)
| TStop (sid : nat) (k : after_stop)     (* sess.stop(), before its select *)
| TClose (sid : nat) (k : after_stop)    (* in the default case *)
| TReset (k : after_stop)                (* before logHandler.Reset() *)
| TWait                                  (* s.wg.Wait() *)
| TLink (sid : nat)                      (* the goroutine of AcceptAndLink *)
| TWatch (sid : nat)                     (* the goroutine at <-sess.done *)
| TClosing (sid : nat)                   (* after cancel(), in Close *)
| TDone (r : response)
| TEnd                                   (* a goroutine that has returned *)
| TPanicked (p : panic).

(** [type Server struct]; [session] is an index of [sessions], all sessions
    ever made, and [resets] counts the resets of the log. *)
Record Server := mkServer {
  session : option nat;
  sessions : list activeSession;
  shared : @sharedConfig URL Cert;
  formCache : gmap string (string -> list Z);
  wg : nat;
  resets : nat;
  tasks : list task;
}.

(** [New], with the configuration a test or an earlier setup left. *)
Definition New (cfg : @sharedConfig URL Cert) : Server := mkServer None [] cfg ∅ 0 0 [].

Definition set_session (w : Server) (o : option nat) : Server :=
  mkServer o (sessions w) (shared w) (formCache w) (wg w) (resets w) (tasks w).
Definition set_sessions (w : Server) (l : list activeSession) : Server :=
  mkServer (session w) l (shared w) (formCache w) (wg w) (resets w) (tasks w).
Definition set_shared (w : Server) (cfg : @sharedConfig URL Cert) : Server :=
  mkServer (session w) (sessions w) cfg (formCache w) (wg w) (resets w) (tasks w).
Definition set_wg (w : Server) (n : nat) : Server :=
  mkServer (session w) (sessions w) (shared w) (formCache w) n (resets w) (tasks w).
Definition set_tasks (w : Server) (l : list task) : Server :=
  mkServer (session w) (sessions w) (shared w) (formCache w) (wg w) (resets w) l.
Definition Reset (w : Server) : Server :=
  mkServer (session w) (sessions w) (shared w) (formCache w) (wg w) (S (resets w)) (tasks w).

(** [cacheForm] and [cachedForm] *)
Definition cacheForm (w : Server) (key : string) (form : string -> list Z) : Server :=
  mkServer (session w) (sessions w) (shared w) (<[key := form]> (formCache w)) (wg w) (resets w) (tasks w).
Definition cachedForm (w : Server) (key : string) : values := formCache w !! key.

(** * Handlers *)

(** The answers of the world to a step: that of [Register] or [Join] with the
    address the peer listens on, or that [AcceptAndLink] returns by itself. *)
Inductive env := Go | Forward (answer : result string string) | LinkReturns.

(** A step: the new state, the task's continuation, and the goroutines it starts. *)
Definition task_result : Type := option (Server * task * list task).

Definition continue (w : Server) (t : task) : task_result := Some (w, t, []).

(** [redirectToSession] *)
Definition redirectToSession (w : Server) : task :=
  match session w with
  | None => TPanicked NilSession
  | Some sid =>
      match kind <$> sessions w !! sid with
      | Some KHost => TDone (Redirect routeHostRunning)
      | Some KPeer => TDone (Redirect routePeerConnected)
      | None => TPanicked NilSession
      end
  end.

(** [redirectIfSession], the critical section. *)
Definition redirectIfSession (w : Server) (r : request) : task_result :=
  match session w with None => continue w (TContinue r) | Some _ => continue w TRedirect end.

(** The rest of [handleIndex], [handleSetup], [handleHostForm], [handlePeerForm]. *)
Definition handle_rest (w : Server) (r : request) : task_result :=
  match r with
  | GetIndex => continue w (TDone (RenderIndex [] (cachedForm w "index")))
  | PostSetup f =>
      match UnmarshalShared url_Parse url_Scheme pem_Decode ParseCertificate f with
      | ([], cfg) => continue (cacheForm w "index" (FormValue f)) (TSetShared cfg (FormValue f "mode"))
      | (errs, _) => continue w (TDone (RenderIndex (FormErr <$> errs) (Some (FormValue f))))
      end
  | GetHost => continue w (TDone (RenderHost [] (cachedForm w "host")))
  | GetPeer => continue w (TDone (RenderPeer [] (cachedForm w "peer")))
  | _ => None
  end.

(** The redirect at the end of [handleSetup]. *)
Definition setup_route (mode : list Z) : string :=
  if decide (mode = bytes_of_string "host") then routeHost
  else if decide (mode = bytes_of_string "peer") then routePeer else routeIndex.

(** The session, its two goroutines and the redirect at the end of a start. *)
Definition start_session (w : Server) (s : activeSession) (route : string) : task_result :=
  let sid := length (sessions w) in
  Some (set_wg (set_session (set_sessions w (sessions w ++ [s])) (Some sid)) (wg w + 2)%nat,
        TDone (Redirect route), [TLink sid; TWatch sid]).

(** The arguments of [Register] and [Join]; a nil URL is dereferenced there. *)
Definition registration_for (w : Server) (u : URL) (k : Key) : registration :=
  mkRegistration u (NewToken k (Secret (shared w))) (tlsConfig (shared w)) (Port (shared w)).

(** [handleHostStart] *)
Definition handleHostStart (w : Server) (rnd : result unit (list Z)) (f : form_request)
    (answer : result string string) : task_result :=
  match session w with
  | Some _ => continue w (redirectToSession w)
  | None =>
      match UnmarshalHost upper rnd f with
      | Panic => continue w (TPanicked NoRandom)
      | Ret ([], cfg) =>
          let w := cacheForm w "host" (FormValue f) in
          match RegistarURL (shared w) with
          | None => continue w (TPanicked NilURL)
          | Some u =>
              match answer with
              | Err e => continue w (TDone (RenderHost [RegisterHost e] (Some (FormValue f))))
              | Ok _ => start_session w
                  (mkSession KHost (mkInfo (GameKey cfg) (GamePort cfg) "") false false
                     (registration_for w u (GameKey cfg))) routeHostRunning
              end
          end
      | Ret (errs, _) => continue w (TDone (RenderHost (FormErr <$> errs) (Some (FormValue f))))
      end
  end.

(** [handlePeerStart] *)
Definition handlePeerStart (w : Server) (f : form_request) (answer : result string string) : task_result :=
  match session w with
  | Some _ => continue w (redirectToSession w)
  | None =>
      match UnmarshalPeer upper f with
      | Panic => continue w (TPanicked NoRandom)
      | Ret ([], cfg) =>
          let w := cacheForm w "peer" (FormValue f) in
          match RegistarURL (shared w) with
          | None => continue w (TPanicked NilURL)
          | Some u =>
              match answer with
              | Err e => continue w (TDone (RenderPeer [RegisterPeer e] (Some (FormValue f))))
              | Ok addr => start_session w
                  (mkSession KPeer (mkInfo zero_key 0 addr) false false
                     (registration_for w u (InviteCode cfg))) routePeerConnected
              end
          end
      | Ret (errs, _) => continue w (TDone (RenderPeer (FormErr <$> errs) (Some (FormValue f))))
      end
  end.

(** The session a handler reads under the mutex. *)
Definition active (w : Server) : option activeSession :=
  match session w with Some sid => sessions w !! sid | None => None end.

(** [handleHostRunning] and [handlePeerConnected] *)
Definition handleHostRunning (w : Server) : response :=
  match active w with
  | Some s => match kind s with
              | KHost => RenderHostRunning (info_InviteCode (info s)) (GameAddress (info s))
              | KPeer => Redirect routeIndex
              end
  | None => Redirect routeIndex
  end.

Definition handlePeerConnected (w : Server) : response :=
  match active w with
  | Some s => match kind s with
              | KPeer => RenderPeerConnected (ListenAddress (info s))
              | KHost => Redirect routeIndex
              end
  | None => Redirect routeIndex
  end.

(** What follows the stop of a session: a redirect, or in [Stop] the wait. *)
Definition after (k : after_stop) : task :=
  match k with ThenIndex => TDone (Redirect routeIndex) | ThenWait => TWait end.

(** [handleHostStop], [handlePeerStop] and [Stop], the critical section. *)
Definition take_session (w : Server) (k : after_stop) : task_result :=
  match session w with
  | None => continue w (after k)
  | Some sid => continue (set_session w None) (TStop sid k)
  end.

(** [activeSession.stop]: the select, then in its default case the close. *)
Definition stop_select (w : Server) (sid : nat) (k : after_stop) : task_result :=
  s ← sessions w !! sid;
  continue w (if done s then TReset k else TClose sid k).

Definition stop_close (w : Server) (sid : nat) (k : after_stop) : task_result :=
  s ← sessions w !! sid;
  if done s then continue w (TPanicked CloseOfClosed)
  else continue (set_sessions w (<[sid := mkSession (kind s) (info s) true (cancelled s) (registered s)]> (sessions w)))
         (TReset k).

(** The two goroutines of a session: each ends with [s.wg.Done()]. *)
Definition link_returns (w : Server) (sid : nat) (e : env) : task_result :=
  s ← sessions w !! sid;
  match cancelled s, e with
  | true, _ | false, LinkReturns => continue (set_wg w (wg w - 1)%nat) TEnd
  | _, _ => None
  end.

Definition watch_done (w : Server) (sid : nat) : task_result :=
  s ← sessions w !! sid;
  if done s
  then continue (set_sessions w (<[sid := mkSession (kind s) (info s) true true (registered s)]> (sessions w)))
         (TClosing sid)
  else None.

Definition task_step (w : Server) (t : task) (e : env) : task_result :=
  match t with
  | TRequest r =>
      match r with
      | GetIndex | PostSetup _ | GetHost | GetPeer => redirectIfSession w r
      | PostHost rnd f => match e with Forward a => handleHostStart w rnd f a | _ => None end
      | PostPeer f => match e with Forward a => handlePeerStart w f a | _ => None end
      | GetHostRunning => continue w (TDone (handleHostRunning w))
      | GetPeerConnected => continue w (TDone (handlePeerConnected w))
      | PostHostStop | PostPeerStop => take_session w ThenIndex
      | StopServer => take_session w ThenWait
      end
  | TRedirect => continue w (redirectToSession w)
  | TContinue r => handle_rest w r
  | TSetShared cfg mode => continue (set_shared w cfg) (TDone (Redirect (setup_route mode)))
  | TStop sid k => stop_select w sid k
  | TClose sid k => stop_close w sid k
  | TReset k => continue (Reset w) (after k)
  | TWait => if decide (wg w = 0%nat) then continue w (TDone Stopped) else None
  | TLink sid => link_returns w sid e
  | TWatch sid => watch_done w sid
  | TClosing sid => continue (set_wg w (wg w - 1)%nat) TEnd
  | TDone _ | TEnd | TPanicked _ => None
  end.

Inductive label := LArrive (r : request) | LTask (i : nat) (e : env).

Definition step (w : Server) (l : label) : option Server :=
  match l with
  | LArrive r => Some (set_tasks w (tasks w ++ [TRequest r]))
  | LTask i e =>
      t ← tasks w !! i;
      '(w', t', new) ← task_step w t e;
      Some (set_tasks w' (<[i := t']> (tasks w) ++ new))
  end.

Definition steps_to (w w' : Server) : Prop := exists l, step w l = Some w'.
Definition reachable (cfg : @sharedConfig URL Cert) (w : Server) : Prop := star steps_to (New cfg) w.

Fixpoint run (w : Server) (ls : list label) : option Server :=
  match ls with [] => Some w | l :: ls => w' ← step w l; run w' ls end.

(** * Invariant *)

(** The session a task has taken and not yet stopped, the one a goroutine
    waits for, and whether the wait group counts the task. *)
Definition holds (t : task) : option nat :=
  match t with TStop sid _ | TClose sid _ => Some sid | _ => None end.
Definition watches (t : task) : option nat := match t with TWatch sid => Some sid | _ => None end.
Definition counted (t : task) : nat :=
  match t with TLink _ | TWatch _ | TClosing _ => 1 | _ => 0 end.

Definition holders (ts : list task) : list nat := omap holds ts.
Definition watchers (ts : list task) : list nat := omap watches ts.
Definition running (ts : list task) : nat := sum_list_with counted ts.

#[local] Arguments holders _ : simpl never.
#[local] Arguments watchers _ : simpl never.
#[local] Arguments running _ : simpl never.

(** A host session is registered with a token for the key it shows. *)
Definition session_ok (s : activeSession) : Prop :=
  match kind s with
  | KHost => 1 <= GameAddress (info s) <= 65535 /\
             exists secret, reg_token (registered s) = NewToken (info_InviteCode (info s)) secret
  | KPeer => True
  end.

Definition shows (r : response) (s : activeSession) : Prop :=
  match r with
  | RenderHostRunning code addr => kind s = KHost /\ info_InviteCode (info s) = code /\ GameAddress (info s) = addr
  | RenderPeerConnected addr => kind s = KPeer /\ ListenAddress (info s) = addr
  | _ => True
  end.

Definition is_running_page (r : response) : bool :=
  match r with RenderHostRunning _ _ | RenderPeerConnected _ => true | _ => false end.

Section invariant.
Variable cfg0 : @sharedConfig URL Cert.

Definition task_ok (ss : list activeSession) (t : task) : Prop :=
  match t with
  | TLink sid | TWatch sid | TClosing sid => (sid < length ss)%nat
  | TSetShared cfg _ => RegistarURL cfg <> None
  | TDone r => is_running_page r = true -> exists sid s, ss !! sid = Some s /\ shows r s
  | TPanicked CloseOfClosed => False
  | TPanicked NilURL => RegistarURL cfg0 = None
  | _ => True
  end.

Record inv (w : Server) : Prop := {
  i_nodup : NoDup (holders (tasks w));
  i_held : forall sid, sid ∈ holders (tasks w) ->
    session w <> Some sid /\ exists s, sessions w !! sid = Some s /\ done s = false;
  i_current : forall sid, session w = Some sid -> exists s, sessions w !! sid = Some s /\ done s = false;
  i_stopped : forall sid s, sessions w !! sid = Some s ->
    done s = true \/ session w = Some sid \/ sid ∈ holders (tasks w);
  i_watched : forall sid s, sessions w !! sid = Some s -> cancelled s = true \/ sid ∈ watchers (tasks w);
  i_session : Forall session_ok (sessions w);
  i_wg : wg w = running (tasks w);
  i_url : RegistarURL cfg0 <> None -> RegistarURL (shared w) <> None;
  i_tasks : Forall (task_ok (sessions w)) (tasks w);
}.

Lemma new_web_inv : inv (New cfg0).
Proof. constructor; cbn; try done; try (intros; set_solver); constructor. Qed.

(** Sessions only change in their flags. *)
Definition same_session (s s' : activeSession) : Prop :=
  kind s = kind s' /\ info s = info s' /\ registered s = registered s'.

Lemma task_ok_mono ss ss' t :
  (forall sid s, ss !! sid = Some s -> exists s', ss' !! sid = Some s' /\ same_session s s') ->
  task_ok ss t -> task_ok ss' t.
Proof.
  intros Hm. assert (forall sid, (sid < length ss)%nat -> (sid < length ss')%nat) as Hl.
  { intros sid (s & Hs)%lookup_lt_is_Some. destruct (Hm _ _ Hs) as (s' & Hs' & _). by eapply lookup_lt_Some. }
  destruct t as [| | | | | | | | | | |r| |[]]; cbn; auto.
  intros H Hr. destruct (H Hr) as (sid & s & Hs & Hsh). destruct (Hm _ _ Hs) as (s' & Hs' & Hk & Hi & _).
  exists sid, s'. split; [done|]. destruct r; cbn in *; rewrite <- ?Hk, <- ?Hi; auto.
Qed.

(** A step that touches neither the sessions nor the bookkeeping. *)
Lemma inv_quiet w w' i t t' :
  inv w -> tasks w !! i = Some t ->
  session w' = session w -> sessions w' = sessions w -> wg w' = wg w ->
  (RegistarURL (shared w) <> None -> RegistarURL (shared w') <> None) ->
  holds t' = holds t -> watches t' = watches t -> counted t' = counted t ->
  task_ok (sessions w) t' -> inv (set_tasks w' (<[i := t']> (tasks w) ++ [])).
Proof.
  intros [H1 H2 H3 H4 H5 H6 H7 H8 H9] Hi E1 E2 E3 E4 E5 E6 E7 Hok.
  destruct (lookup_split _ _ _ Hi) as (l1 & l2 & Hl & Hins & _). rewrite app_nil_r, Hins.
  assert (holders (l1 ++ t' :: l2) = holders (tasks w)) as Eh
    by (rewrite Hl; unfold holders; rewrite !omap_app; cbn; by rewrite E5).
  assert (watchers (l1 ++ t' :: l2) = watchers (tasks w)) as Ew
    by (rewrite Hl; unfold watchers; rewrite !omap_app; cbn; by rewrite E6).
  assert (running (l1 ++ t' :: l2) = running (tasks w)) as Er
    by (rewrite Hl; unfold running; rewrite !sum_list_with_app; cbn; lia).
  constructor; cbn; rewrite ?E1, ?E2, ?E3, ?Eh, ?Ew, ?Er; auto.
  rewrite Hl, Forall_app, Forall_cons in H9. rewrite Forall_app, Forall_cons. tauto.
Qed.

(** A task ends, or takes or starts something: what each list becomes. *)
Lemma bookkeeping w i t t' new :
  tasks w !! i = Some t ->
  holders (<[i := t']> (tasks w) ++ new) ++ omap holds [t]
    ≡ₚ holders (tasks w) ++ omap holds (t' :: new) /\
  watchers (<[i := t']> (tasks w) ++ new) ++ omap watches [t]
    ≡ₚ watchers (tasks w) ++ omap watches (t' :: new) /\
  (running (<[i := t']> (tasks w) ++ new) + counted t
    = running (tasks w) + sum_list_with counted (t' :: new))%nat.
Proof.
  intros Hi. destruct (lookup_split _ _ _ Hi) as (l1 & l2 & Hl & Hins & _). rewrite Hins, Hl.
  unfold holders, watchers, running. rewrite !omap_app, !sum_list_with_app. cbn.
  split_and!; [| |lia].
  - destruct (holds t), (holds t'); cbn; solve_Permutation.
  - destruct (watches t), (watches t'); cbn; solve_Permutation.
Qed.

Lemma tasks_ok_step w ss' i t' new :
  Forall (task_ok (sessions w)) (tasks w) ->
  (forall sid s, sessions w !! sid = Some s -> exists s', ss' !! sid = Some s' /\ same_session s s') ->
  Forall (task_ok ss') (t' :: new) ->
  Forall (task_ok ss') (<[i := t']> (tasks w) ++ new).
Proof.
  intros H Hm Hn. apply Forall_cons in Hn as [Ht Hn]. apply Forall_app. split; [|done].
  apply Forall_insert; [|done]. eapply Forall_impl; [exact H|]. intros x. by apply task_ok_mono.
Qed.

Lemma same_refl w sid s : sessions w !! sid = Some s -> exists s', sessions w !! sid = Some s' /\ same_session s s'.
Proof. exists s. by repeat split. Qed.

(** A stop takes the current session. *)
Lemma inv_take w i r sid k :
  inv w -> tasks w !! i = Some (TRequest r) -> session w = Some sid ->
  inv (set_tasks (set_session w None) (<[i := TStop sid k]> (tasks w) ++ [])).
Proof.
  intros [H1 H2 H3 H4 H5 H6 H7 H8 H9] Hi Hs.
  destruct (bookkeeping w i _ (TStop sid k) [] Hi) as (Bh & Bw & Br). cbn in Bh, Bw, Br.
  rewrite ?app_nil_r in Bh; rewrite ?app_nil_r in Bw.
  constructor; cbn; rewrite ?app_nil_r in *; auto.
  - rewrite Bh. apply NoDup_app. split_and!; [done| |apply NoDup_singleton].
    intros x Hx ->%list_elem_of_singleton. by apply H2 in Hx as [].
  - intros x. rewrite Bh, elem_of_app, list_elem_of_singleton. intros [Hx| ->].
    + apply H2 in Hx as [_ ?]. done.
    + split; [done|]. by apply H3.
  - done.
  - intros x s Hx. rewrite Bh, elem_of_app, list_elem_of_singleton.
    destruct (H4 x s Hx) as [?|[?|?]]; [by left| |by auto]. simplify_eq. auto.
  - intros x s Hx. rewrite Bw. by apply (H5 x s).
  - lia.
  - rewrite <- (app_nil_r (<[i := _]> _)). eapply tasks_ok_step; [done|apply same_refl|by repeat constructor].
Qed.

(** A start makes a session current. *)
Lemma inv_start w i r s route :
  inv w -> tasks w !! i = Some (TRequest r) -> session w = None ->
  session_ok s -> done s = false -> cancelled s = false ->
  inv (set_tasks (set_wg (set_session (set_sessions w (sessions w ++ [s])) (Some (length (sessions w)))) (wg w + 2)%nat)
         (<[i := TDone (Redirect route)]> (tasks w) ++ [TLink (length (sessions w)); TWatch (length (sessions w))])).
Proof.
  intros [H1 H2 H3 H4 H5 H6 H7 H8 H9] Hi Hs Hok Hd Hc.
  destruct (bookkeeping w i _ (TDone (Redirect route)) [TLink (length (sessions w)); TWatch (length (sessions w))] Hi)
    as (Bh & Bw & Br). cbn in Bh, Bw, Br. rewrite ?app_nil_r in Bh; rewrite ?app_nil_r in Bw.
  assert (forall sid s', (sessions w ++ [s]) !! sid = Some s' ->
    sessions w !! sid = Some s' \/ sid = length (sessions w) /\ s' = s) as Hl.
  { intros sid s' [?|[? Hx]]%lookup_app_Some; [by left|]. right. apply list_lookup_singleton_Some in Hx as [? <-].
    split; [lia|done]. }
  constructor; cbn; auto.
  - by rewrite Bh.
  - intros x. rewrite Bh. intros Hx. apply H2 in Hx as [_ (s' & Hx & Hds)]. split.
    + intros [= <-]. apply lookup_lt_Some in Hx. lia.
    + exists s'. split; [by apply lookup_app_l_Some|done].
  - intros x [= <-]. exists s. split; [|done]. by apply list_lookup_middle.
  - intros x s' Hx. rewrite Bh. destruct (Hl _ _ Hx) as [Hx'|[-> ->]]; [|by auto].
    destruct (H4 x s' Hx') as [?|[?|?]]; [by left|congruence|by auto].
  - intros x s' Hx. rewrite Bw, elem_of_app, list_elem_of_singleton.
    destruct (Hl _ _ Hx) as [Hx'|[-> ->]]; [|by auto]. destruct (H5 x s' Hx'); auto.
  - apply Forall_app. split; [done|by repeat constructor].
  - lia.
  - eapply tasks_ok_step; [done| |].
    + intros x s' Hx. exists s'. split; [by apply lookup_app_l_Some|by repeat split].
    + repeat constructor; cbn; [done|rewrite length_app; cbn; lia..].
Qed.

Definition flags (s : activeSession) (d c : bool) : activeSession := mkSession (kind s) (info s) d c (registered s).

Lemma same_flags w sid s d c :
  sessions w !! sid = Some s ->
  forall x s', sessions w !! x = Some s' ->
  exists s'', <[sid := flags s d c]> (sessions w) !! x = Some s'' /\ same_session s' s''.
Proof.
  intros Hs x s' Hx. destruct (decide (sid = x)) as [<-|Hne].
  - rewrite list_lookup_insert_eq by by eapply lookup_lt_Some. simplify_eq. eexists. by repeat split.
  - rewrite list_lookup_insert_ne by done. exists s'. by repeat split.
Qed.

Lemma flags_cases w sid s d c x s' :
  <[sid := flags s d c]> (sessions w) !! x = Some s' ->
  sid = x /\ s' = flags s d c \/ sid <> x /\ sessions w !! x = Some s'.
Proof. intros [(-> & <- & _)|[? ?]]%list_lookup_insert_Some; auto. Qed.

Lemma session_ok_flags w sid s d c :
  Forall session_ok (sessions w) -> sessions w !! sid = Some s ->
  Forall session_ok (<[sid := flags s d c]> (sessions w)).
Proof. intros H Hs. apply Forall_insert; [done|]. apply (Forall_lookup_1 _ _ _ _ H Hs). Qed.

(** A stop closes [done] of the session it took. *)
Lemma inv_close w i sid k s :
  inv w -> tasks w !! i = Some (TClose sid k) -> sessions w !! sid = Some s ->
  inv (set_tasks (set_sessions w (<[sid := flags s true (cancelled s)]> (sessions w)))
         (<[i := TReset k]> (tasks w) ++ [])).
Proof.
  intros [H1 H2 H3 H4 H5 H6 H7 H8 H9] Hi Hs.
  destruct (bookkeeping w i _ (TReset k) [] Hi) as (Bh & Bw & Br). cbn in Bh, Bw, Br.
  rewrite ?app_nil_r in Bh; rewrite ?app_nil_r in Bw.
  assert (NoDup (holders (<[i := TReset k]> (tasks w)) ++ [sid])) as Hnd by by rewrite Bh.
  apply NoDup_app in Hnd as (Hnd & Hne & _).
  assert (sid ∈ holders (tasks w)) as Hin by (rewrite <- Bh; set_solver).
  constructor; cbn; rewrite ?app_nil_r in *; auto.
  - intros x Hx. assert (x <> sid) as Hxs by (intros ->; by apply (Hne sid Hx); left).
    assert (x ∈ holders (tasks w)) as Hx' by (rewrite <- Bh; set_solver).
    apply H2 in Hx' as (? & s' & ? & ?). split; [done|]. exists s'. by rewrite list_lookup_insert_ne.
  - intros x Hx. destruct (H2 sid Hin) as [Hns _]. destruct (H3 x Hx) as (s' & Hs' & Hd).
    exists s'. rewrite list_lookup_insert_ne; [done|]. intros ->. congruence.
  - intros x s' [[<- ->]|[Hx Hs']]%flags_cases; [by left|].
    destruct (H4 x s' Hs') as [?|[?|Hh]]; [by auto..|]. right; right.
    rewrite <- Bh in Hh. set_solver.
  - intros x s' [[<- ->]|[Hx Hs']]%flags_cases; rewrite Bw; [by apply (H5 sid s)|by apply (H5 x s')].
  - by apply session_ok_flags.
  - lia.
  - rewrite <- (app_nil_r (<[i := TReset k]> _)). eapply tasks_ok_step; [done|by apply same_flags|by repeat constructor].
Qed.

(** A goroutine sees [done] closed and cancels the context. *)
Lemma inv_watch w i sid s :
  inv w -> tasks w !! i = Some (TWatch sid) -> sessions w !! sid = Some s -> done s = true ->
  inv (set_tasks (set_sessions w (<[sid := flags s true true]> (sessions w)))
         (<[i := TClosing sid]> (tasks w) ++ [])).
Proof.
  intros [H1 H2 H3 H4 H5 H6 H7 H8 H9] Hi Hs Hd.
  destruct (bookkeeping w i _ (TClosing sid) [] Hi) as (Bh & Bw & Br). cbn in Bh, Bw, Br.
  rewrite ?app_nil_r in Bh; rewrite ?app_nil_r in Bw.
  constructor; cbn; rewrite ?app_nil_r in *; auto.
  - by rewrite Bh.
  - intros x. rewrite Bh. intros Hx. apply H2 in Hx as (? & s' & Hs' & Hd'). split; [done|].
    exists s'. rewrite list_lookup_insert_ne; [done|]. intros ->. congruence.
  - intros x Hx. destruct (H3 x Hx) as (s' & Hs' & Hd').
    exists s'. rewrite list_lookup_insert_ne; [done|]. intros ->. congruence.
  - intros x s' [[<- ->]|[Hx Hs']]%flags_cases; rewrite Bh; [by left|by apply (H4 x s')].
  - intros x s' [[<- ->]|[Hx Hs']]%flags_cases; [by left|].
    destruct (H5 x s' Hs') as [?|Hw]; [by left|]. right. rewrite <- Bw in Hw. set_solver.
  - by apply session_ok_flags.
  - lia.
  - rewrite <- (app_nil_r (<[i := TClosing sid]> _)). eapply tasks_ok_step; [done|by apply same_flags|].
    repeat constructor. cbn. rewrite length_insert. by eapply lookup_lt_Some.
Qed.

(** A goroutine returns. *)
Lemma inv_end w i t :
  inv w -> tasks w !! i = Some t -> holds t = None -> watches t = None -> counted t = 1%nat ->
  inv (set_tasks (set_wg w (wg w - 1)%nat) (<[i := TEnd]> (tasks w) ++ [])).
Proof.
  intros [H1 H2 H3 H4 H5 H6 H7 H8 H9] Hi Et Ew Ec.
  destruct (bookkeeping w i _ TEnd [] Hi) as (Bh & Bw & Br). cbn in Bh, Bw, Br. rewrite Et in Bh. rewrite Ew in Bw.
  rewrite ?app_nil_r in Bh; rewrite ?app_nil_r in Bw.
  constructor; cbn; rewrite ?app_nil_r in *; auto.
  - by rewrite Bh.
  - intros x. rewrite Bh. apply H2.
  - intros x s. rewrite Bh. apply H4.
  - intros x s. rewrite Bw. apply H5.
  - lia.
  - rewrite <- (app_nil_r (<[i := TEnd]> _)). eapply tasks_ok_step; [done|apply same_refl|by repeat constructor].
Qed.
Lemma arrive_inv w r : inv w -> inv (set_tasks w (tasks w ++ [TRequest r])).
Proof.
  intros [H1 H2 H3 H4 H5 H6 H7 H8 H9].
  assert (holders (tasks w ++ [TRequest r]) = holders (tasks w)) as Eh
    by (unfold holders; rewrite omap_app; apply app_nil_r).
  assert (watchers (tasks w ++ [TRequest r]) = watchers (tasks w)) as Ew
    by (unfold watchers; rewrite omap_app; apply app_nil_r).
  assert (running (tasks w ++ [TRequest r]) = running (tasks w)) as Er
    by (unfold running; rewrite sum_list_with_app; cbn; lia).
  constructor; cbn; rewrite ?Eh, ?Ew, ?Er; auto.
  apply Forall_app. split; [done|by repeat constructor].
Qed.

Lemma active_lookup w s : active w = Some s -> exists sid, sessions w !! sid = Some s.
Proof. unfold active. destruct (session w); [eauto|done]. Qed.

Lemma redirect_ok w : inv w -> forall ss, task_ok ss (redirectToSession w).
Proof.
  intros Hi ss. unfold redirectToSession. destruct (session w) as [sid|]; [|done].
  destruct (kind <$> sessions w !! sid) as [[]|]; done.
Qed.

Lemma redirect_quiet w : holds (redirectToSession w) = None /\ watches (redirectToSession w) = None /\
  counted (redirectToSession w) = 0%nat.
Proof. unfold redirectToSession. by repeat case_match. Qed.

Ltac quiet := eapply inv_quiet; try eassumption; try done; auto.

Lemma host_start_inv w i rnd f a w' t' new :
  inv w -> tasks w !! i = Some (TRequest (PostHost rnd f)) ->
  handleHostStart w rnd f a = Some (w', t', new) -> inv (set_tasks w' (<[i := t']> (tasks w) ++ new)).
Proof.
  intros Hi Ht. unfold handleHostStart, continue. pose proof (redirect_quiet w) as (Q1 & Q2 & Q3).
  destruct (session w) as [sid|] eqn:Hs.
  { intros [= <- <- <-]. quiet. by apply redirect_ok. }
  destruct (UnmarshalHost upper rnd f) as [[[|e errs] cfg]|] eqn:Hu; [|intros [= <- <- <-]; quiet..].
  destruct (RegistarURL (shared _)) as [u|] eqn:Hurl; cbn in Hurl.
  - destruct a as [addr|e]; [|intros [= <- <- <-]; quiet].
    unfold start_session. intros [= <- <- <-].
    eapply (inv_start (cacheForm w "host" (FormValue f))); cbn; try done.
    + destruct Hi. by constructor.
    + apply host_ok in Hu as (_ & (ds & _ & _ & _ & Hp & Hr) & _). unfold session_ok; cbn. split; [done|eauto].
  - intros [= <- <- <-]. quiet. cbn. destruct (RegistarURL cfg0) eqn:E; [|done].
    exfalso. by apply (i_url w Hi); rewrite ?E.
Qed.

Lemma peer_start_inv w i f a w' t' new :
  inv w -> tasks w !! i = Some (TRequest (PostPeer f)) ->
  handlePeerStart w f a = Some (w', t', new) -> inv (set_tasks w' (<[i := t']> (tasks w) ++ new)).
Proof.
  intros Hi Ht. unfold handlePeerStart, continue. pose proof (redirect_quiet w) as (Q1 & Q2 & Q3).
  destruct (session w) as [sid|] eqn:Hs.
  { intros [= <- <- <-]. quiet. by apply redirect_ok. }
  destruct (UnmarshalPeer upper f) as [[[|e errs] cfg]|] eqn:Hu; [|intros [= <- <- <-]; quiet..].
  destruct (RegistarURL (shared _)) as [u|] eqn:Hurl; cbn in Hurl.
  - destruct a as [addr|e]; [|intros [= <- <- <-]; quiet].
    unfold start_session. intros [= <- <- <-].
    eapply (inv_start (cacheForm w "peer" (FormValue f))); cbn; try done. destruct Hi. by constructor.
  - intros [= <- <- <-]. quiet. cbn. destruct (RegistarURL cfg0) eqn:E; [|done].
    exfalso. by apply (i_url w Hi); rewrite ?E.
Qed.

Lemma running_page_ok w : task_ok (sessions w) (TDone (handleHostRunning w)) /\
  task_ok (sessions w) (TDone (handlePeerConnected w)).
Proof.
  unfold handleHostRunning, handlePeerConnected. destruct (active w) as [s|] eqn:Ha; [|done].
  destruct (active_lookup w s Ha) as [sid Hs]. destruct (kind s) eqn:Hk; cbn; split; try done; intros _;
    exists sid, s; by repeat split.
Qed.

Lemma request_inv w i r e w' t' new :
  inv w -> tasks w !! i = Some (TRequest r) -> task_step w (TRequest r) e = Some (w', t', new) ->
  inv (set_tasks w' (<[i := t']> (tasks w) ++ new)).
Proof.
  intros Hi Ht H. pose proof (running_page_ok w) as [Hr1 Hr2].
  assert (forall k, take_session w k = Some (w', t', new) -> inv (set_tasks w' (<[i := t']> (tasks w) ++ new))) as Htake.
  { intros k. unfold take_session, continue. destruct (session w) as [sid|] eqn:Hs; intros [= <- <- <-].
    - by eapply inv_take.
    - destruct k; quiet. }
  assert (redirectIfSession w r = Some (w', t', new) -> inv (set_tasks w' (<[i := t']> (tasks w) ++ new))) as Hred.
  { unfold redirectIfSession, continue. destruct (session w); intros [= <- <- <-]; quiet. }
  destruct r; cbn in H; try (by eauto); try (destruct e; try discriminate H).
  - by eapply host_start_inv.
  - injection H as <- <- <-. quiet.
  - injection H as <- <- <-. quiet.
  - injection H as <- <- <-. quiet.
  - by eapply peer_start_inv.
  - injection H as <- <- <-. quiet.
  - injection H as <- <- <-. quiet.
  - injection H as <- <- <-. quiet.
Qed.

Lemma rest_inv w i r w' t' new :
  inv w -> tasks w !! i = Some (TContinue r) -> handle_rest w r = Some (w', t', new) ->
  inv (set_tasks w' (<[i := t']> (tasks w) ++ new)).
Proof.
  intros Hi Ht. unfold handle_rest, continue. destruct r; try done; try (intros [= <- <- <-]; quiet).
  destruct (UnmarshalShared _ _ _ _ f) as [[|e errs] cfg] eqn:Hu; intros [= <- <- <-]; quiet.
  cbn. apply shared_ok in Hu as (_ & _ & (_ & v & _ & -> & _) & _). done.
Qed.

Lemma held_lookup w i sid t : inv w -> tasks w !! i = Some t -> holds t = Some sid ->
  exists s, sessions w !! sid = Some s /\ done s = false.
Proof.
  intros Hi Ht Hh. apply (i_held w Hi). unfold holders. apply list_elem_of_omap. exists t. split; [|done].
  by eapply list_elem_of_lookup_2.
Qed.

Lemma web_step_inv w l w' : inv w -> step w l = Some w' -> inv w'.
Proof.
  intros Hi H. destruct l as [r|i e]; [injection H as <-; by apply arrive_inv|]. cbn [step] in H.
  destruct (tasks w !! i) as [t|] eqn:Ht; [|done]. cbn in H.
  destruct (task_step w t e) as [[[w1 t'] new]|] eqn:Hs; [|done]. injection H as <-.
  destruct t; cbn [task_step] in Hs; try discriminate Hs.
  - by eapply request_inv.
  - injection Hs as <- <- <-. pose proof (redirect_quiet w) as (Q1 & Q2 & Q3). quiet. by apply redirect_ok.
  - by eapply rest_inv.
  - injection Hs as <- <- <-. quiet. intros _. apply (proj1 (Forall_forall _ _) (i_tasks w Hi) _ (list_elem_of_lookup_2 _ _ _ Ht)).
  - destruct (held_lookup w i sid _ Hi Ht eq_refl) as (s & Hl & Hd).
    unfold stop_select in Hs. rewrite Hl in Hs. cbn in Hs. rewrite Hd in Hs. injection Hs as <- <- <-. quiet.
  - destruct (held_lookup w i sid _ Hi Ht eq_refl) as (s & Hl & Hd).
    unfold stop_close in Hs. rewrite Hl in Hs. cbn in Hs. rewrite Hd in Hs. injection Hs as <- <- <-. by eapply inv_close.
  - injection Hs as <- <- <-. destruct k; quiet.
  - case_decide; [|done]. injection Hs as <- <- <-. quiet.
  - unfold link_returns in Hs. destruct (sessions w !! sid) as [s|]; [|done]. cbn in Hs.
    destruct (cancelled s), e; try discriminate Hs; injection Hs as <- <- <-; by eapply inv_end.
  - unfold watch_done in Hs. destruct (sessions w !! sid) as [s|] eqn:Hl; [|done]. cbn in Hs.
    destruct (done s) eqn:Hd; [|done]. injection Hs as <- <- <-. by eapply inv_watch.
  - injection Hs as <- <- <-. by eapply inv_end.
Qed.

Lemma web_reachable_inv w : reachable cfg0 w -> inv w.
Proof.
  unfold reachable. intros H. remember (New cfg0) as w0. assert (inv w0) as H0 by (subst; apply new_web_inv). clear Heqw0.
  induction H as [|x y z [l Hl] _ IH]; [done|]. apply IH. by eapply web_step_inv.
Qed.
(** * Stopping *)

(** The steps a task can still need to end. *)
Definition weight (t : task) : nat :=
  match t with TStop _ _ => 3 | TClose _ _ => 2 | TWatch _ => 2 | TClosing _ | TLink _ => 1 | _ => 0 end.

Definition total (w : Server) : nat := sum_list_with weight (tasks w).

(** A step of an existing task, the world giving no answer but [Go]. *)
Definition advances (w w' : Server) : Prop :=
  exists i, step w (LTask i Go) = Some w' /\ session w' = None /\ (total w' < total w)%nat.

Lemma advance w i t w1 t' :
  tasks w !! i = Some t -> task_step w t Go = Some (w1, t', []) ->
  session w1 = None -> (weight t' < weight t)%nat -> exists w', advances w w'.
Proof.
  intros Ht Hs Hn Hw. exists (set_tasks w1 (<[i := t']> (tasks w) ++ [])), i. cbn. rewrite Ht. cbn. rewrite Hs.
  split; [done|]. split; [done|]. unfold total. cbn.
  destruct (lookup_split _ _ _ Ht) as (l1 & l2 & Hl & Hins & _). rewrite Hins, Hl, app_nil_r, !sum_list_with_app.
  cbn. lia.
Qed.

Lemma advance_holder w sid : inv w -> session w = None -> sid ∈ holders (tasks w) -> exists w', advances w w'.
Proof.
  intros Hi Hn (t & Ht & Hh)%list_elem_of_omap. apply list_elem_of_lookup in Ht as [i Ht].
  destruct (held_lookup w i sid t Hi Ht Hh) as (s & Hl & Hd).
  destruct t; cbn in Hh; try discriminate Hh; injection Hh as ->.
  - eapply (advance w i _ w (TClose sid k)); [done| |done|cbn; lia]. cbn. unfold stop_select. rewrite Hl. cbn. by rewrite Hd.
  - eapply (advance w i); [done|cbn; unfold stop_close; rewrite Hl; cbn; rewrite Hd; reflexivity|done|cbn; lia].
Qed.

Lemma advance_watch w sid i :
  inv w -> session w = None -> tasks w !! i = Some (TWatch sid) -> exists w', advances w w'.
Proof.
  intros Hi Hn Ht. pose proof (Forall_lookup_1 _ _ _ _ (i_tasks w Hi) Ht) as Hlt. cbn in Hlt.
  apply lookup_lt_is_Some in Hlt as [s Hl].
  destruct (done s) eqn:Hd.
  - eapply (advance w i); [done|cbn; unfold watch_done; rewrite Hl; cbn; rewrite Hd; reflexivity|done|cbn; lia].
  - destruct (i_stopped w Hi sid s Hl) as [?|[?|Hh]]; [congruence..|]. by eapply advance_holder.
Qed.

Lemma running_task ts : (0 < running ts)%nat -> exists i t, ts !! i = Some t /\ counted t = 1%nat.
Proof.
  unfold running. induction ts as [|t ts IH]; cbn; [lia|]. intros H. destruct (counted t) as [|n] eqn:E.
  - destruct IH as (i & t' & ? & ?); [lia|]. by exists (S i), t'.
  - exists 0%nat, t. split; [done|]. destruct t; cbn in *; lia.
Qed.

Lemma stop_progress w : inv w -> session w = None -> (0 < wg w)%nat -> exists w', advances w w'.
Proof.
  intros Hi Hn Hw. rewrite (i_wg w Hi) in Hw. apply running_task in Hw as (i & t & Ht & Hc).
  destruct t; cbn in Hc; try lia.
  - pose proof (Forall_lookup_1 _ _ _ _ (i_tasks w Hi) Ht) as Hlt. cbn in Hlt.
    apply lookup_lt_is_Some in Hlt as [s Hl]. destruct (cancelled s) eqn:Hcs.
    + eapply (advance w i); [done|cbn; unfold link_returns; rewrite Hl; cbn; rewrite Hcs; reflexivity|done|cbn; lia].
    + destruct (i_watched w Hi sid s Hl) as [?|Hwt]; [congruence|].
      apply list_elem_of_omap in Hwt as (t & Ht' & Hwt). destruct t; cbn in Hwt; try discriminate Hwt. injection Hwt as ->.
      apply list_elem_of_lookup in Ht' as [j Hj]. by eapply advance_watch.
  - by eapply advance_watch.
  - eapply (advance w i); [done|reflexivity|done|cbn; lia].
Qed.

Lemma stop_completes n : forall w, inv w -> session w = None -> (total w <= n)%nat ->
  exists ls w', Forall (fun l => exists i, l = LTask i Go) ls /\ run w ls = Some w' /\
    session w' = None /\ wg w' = 0%nat.
Proof.
  induction n as [|n IH]; intros w Hi Hn Hle; (destruct (decide (wg w = 0%nat)) as [H0|H0];
    [exists [], w; by repeat split|]); destruct (stop_progress w Hi Hn ltac:(lia)) as (w1 & i & Hs & Hn1 & Ht).
  - lia.
  - destruct (IH w1) as (ls & w' & Hls & Hr & ?); [by eapply web_step_inv|done|lia|].
    exists (LTask i Go :: ls), w'. split; [constructor; eauto|]. split; [|done]. cbn [run]. by rewrite Hs.
Qed.
End invariant.

(** * Correctness *)

(** C14. Whatever requests come and however they interleave: there is at most
    one current session, not stopped; every earlier one has been stopped or a
    stop is about to close it, and none is closed twice; the wait group counts
    the goroutines that run, so [Stop] returns only when they have returned; a
    page shows the data of a session that was started, whose host was
    registered under a token for the key shown, on a port in range; and once
    the registar is configured no handler dereferences a nil URL. *)
Theorem web_sessions (cfg : @sharedConfig URL Cert) (w : Server) (Hr : reachable cfg w) :
  (forall sid s, sessions w !! sid = Some s ->
     done s = true \/ session w = Some sid \/ sid ∈ holders (tasks w)) /\
  (forall sid, session w = Some sid \/ sid ∈ holders (tasks w) ->
     exists s, sessions w !! sid = Some s /\ done s = false) /\
  (NoDup (holders (tasks w)) /\ (forall sid, session w = Some sid -> sid ∉ holders (tasks w))) /\
  (TPanicked CloseOfClosed ∉ tasks w) /\
  wg w = running (tasks w) /\
  (forall code addr, TDone (RenderHostRunning code addr) ∈ tasks w ->
     1 <= addr <= 65535 /\ exists sid s secret, sessions w !! sid = Some s /\ info_InviteCode (info s) = code /\
       reg_token (registered s) = NewToken code secret) /\
  (RegistarURL cfg <> None -> TPanicked NilURL ∉ tasks w).
Proof.
  pose proof (web_reachable_inv cfg w Hr) as Hi. destruct Hi as [H1 H2 H3 H4 H5 H6 H7 H8 H9].
  rewrite Forall_forall in H9. split_and!; [done| |done| | |done| |].
  - intros sid [H|H]; [by apply H3|by apply H2].
  - intros sid Hs Hh. by apply H2 in Hh as [].
  - intros H. by apply H9 in H.
  - intros code addr H. apply H9 in H. destruct (H eq_refl) as (sid & s & Hs & Hk & Hc & Ha).
    pose proof (Forall_lookup_1 _ _ _ _ H6 Hs) as Hok. unfold session_ok in Hok. rewrite Hk in Hok.
    destruct Hok as [? [secret ?]]. subst. split; [done|]. by exists sid, s, secret.
  - intros Hu H. by apply H9 in H.
Qed.

(** Once no session is current, the goroutines of all sessions can end
    without any answer from outside, whatever the interleaving so far: the wait
    of [Stop] is not forever. *)
Lemma stop_terminates (cfg : @sharedConfig URL Cert) (w : Server)
    (Hr : reachable cfg w) (Hn : session w = None) :
  exists ls w', Forall (fun l => exists i, l = LTask i Go) ls /\ run w ls = Some w' /\
    session w' = None /\ wg w' = 0%nat /\
    (forall i, tasks w' !! i = Some TWait -> exists w'', step w' (LTask i Go) = Some w'').
Proof.
  destruct (stop_completes cfg (total w) w (web_reachable_inv cfg w Hr) Hn (le_n _)) as (ls & w' & ? & ? & ? & Hw).
  exists ls, w'. split_and!; try done. intros i Hi. cbn. rewrite Hi. cbn. rewrite decide_True by done. by eexists.
Qed.

Lemma web_run_reachable (cfg : @sharedConfig URL Cert) ls : forall w w',
  reachable cfg w -> run w ls = Some w' -> reachable cfg w'.
Proof.
  induction ls as [|l ls IH]; intros w w' Hr; cbn; [by intros [= <-]|].
  destruct (step w l) as [w1|] eqn:E; [cbn|done]. apply IH. eapply star_trans; [exact Hr|].
  apply star_one. by exists l.
Qed.

Lemma web_reach_observed {A} (f : Server -> A) (cfg : @sharedConfig URL Cert) ls x :
  f <$> run (New cfg) ls = Some x -> exists w, run (New cfg) ls = Some w /\ reachable cfg w /\ f w = x.
Proof.
  intros H. destruct (run (New cfg) ls) as [w|] eqn:E; [|done]. injection H as <-.
  exists w. split_and!; try done. eapply web_run_reachable; [|exact E]. apply star_refl.
Qed.
End web.

(** * Schedules *)

(** A text is its own URL, and its first four bytes the scheme. *)
Definition demo_step := step (URL := list Z) (Cert := unit) Some (take 4) (fun _ => None) (fun _ => None) id.
Definition demo_run := run (URL := list Z) (Cert := unit) Some (take 4) (fun _ => None) (fun _ => None) id.
Definition demo_reachable := reachable (URL := list Z) (Cert := unit) Some (take 4) (fun _ => None) (fun _ => None) id.

Definition demo_form (fields : list (string * string)) : form_request :=
  mkForm None NoFile (fun k => bytes_of_string (default "" (list_to_map (M := gmap string string) fields !! k))).

Definition demo_setup : request := PostSetup (demo_form [("registar-url", "http://star.example"); ("mode", "host")]%string).
Definition demo_host : request :=
  PostHost (Ok [1; 2; 3; 4; 5]) (demo_form [("game-port", "custom"); ("custom-game-port", "24642")]%string).

(** The setup, a host session, and its log. *)
Definition start_host : list label :=
  [LArrive demo_setup; LTask 0 Go; LTask 0 Go; LTask 0 Go; LArrive demo_host; LTask 1 (Forward (Ok ""%string))].

(** The page is asked for while the session is being stopped. *)
Definition page_during_stop : list label :=
  start_host ++ [LArrive GetHost; LTask 4 Go; LArrive PostHostStop; LTask 5 Go; LTask 4 Go].

(** A session starts between the two halves of the stop of another. *)
Definition start_during_stop : list label :=
  start_host ++ [LArrive PostHostStop; LTask 4 Go; LTask 4 Go; LTask 4 Go;
                 LArrive demo_host; LTask 5 (Forward (Ok ""%string))].

Definition is_none {A} (o : option A) : bool := match o with None => true | Some _ => false end.

Lemma demo_observed {A} (f : Server -> A) ls x :
  f <$> demo_run (New zero_shared) ls = Some x ->
  exists w, demo_run (New zero_shared) ls = Some w /\ demo_reachable zero_shared w /\ f w = x.
Proof. apply web_reach_observed. Qed.

(** C34. Once no session is current, the goroutines of all sessions can end
    without any answer from outside, whatever the interleaving so far: the wait
    of [Stop] is not forever.  Three things the locking does not exclude.  A
    page asked for while a stop takes the session makes [redirectToSession]
    dereference nil.  A start before any setup dereferences the nil registar
    URL.  A session that starts before the stop of its predecessor resets the
    log loses its first lines. *)
Theorem web_stop_and_hazards {URL Cert : Type} (url_Parse : list Z -> option URL) (url_Scheme : URL -> list Z)
    (pem_Decode : list Z -> option (list Z * list Z)) (ParseCertificate : list Z -> option Cert) (upper : Z -> Z)
    (cfg : sharedConfig) (w : Server)
    (Hr : reachable url_Parse url_Scheme pem_Decode ParseCertificate upper cfg w) (Hn : session w = None) :
  (exists ls w', Forall (fun l => exists i, l = LTask i Go) ls /\
    run url_Parse url_Scheme pem_Decode ParseCertificate upper w ls = Some w' /\
    session w' = None /\ wg w' = 0%nat /\
    (forall i, tasks w' !! i = Some TWait ->
       exists w'', step url_Parse url_Scheme pem_Decode ParseCertificate upper w' (LTask i Go) = Some w'')) /\
  (exists w, demo_run (New zero_shared) page_during_stop = Some w /\
     tasks w !! 4%nat = Some (TPanicked NilSession) /\ session w = None /\ RegistarURL (shared w) <> None) /\
  (exists w, demo_run (New zero_shared) [LArrive demo_host; LTask 0 (Forward (Ok ""%string))] = Some w /\
     tasks w !! 0%nat = Some (TPanicked NilURL)) /\
  (exists w w', demo_run (New zero_shared) start_during_stop = Some w /\ session w = Some 1%nat /\
     demo_step w (LTask 4 Go) = Some w' /\ session w' = Some 1%nat /\ resets w' = S (resets w) /\
     done <$> sessions w' !! 1%nat = Some false).
Proof.
  split; [by apply (stop_terminates _ _ _ _ _ cfg)|]. clear. split_and!.
  - destruct (demo_observed (fun w => (tasks w !! 4%nat, session w, is_none (RegistarURL (shared w)))) page_during_stop
      (Some (TPanicked NilSession), None, false)) as (w & Hw & _ & E); [vm_compute; reflexivity|].
    exists w. injection E as E1 E2 E3. split_and!; try done. intros H. by rewrite H in E3.
  - destruct (demo_observed (fun w => tasks w !! 0%nat) [LArrive demo_host; LTask 0 (Forward (Ok ""%string))]
      (Some (TPanicked NilURL))) as (w & Hw & _ & E); [vm_compute; reflexivity|]. by exists w.
  - destruct (demo_observed (fun w => (session w, resets w,
        (fun w' => (session w', resets w', done <$> sessions w' !! 1%nat)) <$> demo_step w (LTask 4 Go)))
      start_during_stop (Some 1%nat, 0%nat, Some (Some 1%nat, 1%nat, Some false))) as (w & Hw & _ & E);
      [vm_compute; reflexivity|].
    cbv beta in E. destruct (demo_step w (LTask 4 Go)) as [w'|] eqn:Hs; [|done].
    injection E as E1 E2 E3 E4 E5. exists w, w'. split_and!; try done. by rewrite E2, E4.
Qed.

Lemma web_sessions_witness :
  exists w, demo_reachable zero_shared w /\ session w = Some 0%nat /\
    (TPanicked CloseOfClosed ∉ tasks w) /\ wg w = running (tasks w).
Proof.
  destruct (demo_observed session start_host (Some 0%nat)) as (w & _ & Hr & E); [vm_compute; reflexivity|].
  exists w. split; [exact Hr|]. split; [exact E|].
  destruct (web_sessions _ _ _ _ _ zero_shared w Hr) as (_ & _ & _ & H1 & H2 & _). split; [exact H1|exact H2].
Defined.

Lemma web_stop_and_hazards_witness :
  exists w, demo_reachable zero_shared w /\ wg w = 2%nat /\ session w = None /\
    exists ls w', Forall (fun l => exists i, l = LTask i Go) ls /\ demo_run w ls = Some w' /\
      session w' = None /\ wg w' = 0%nat /\
      (forall i, tasks w' !! i = Some TWait -> exists w'', demo_step w' (LTask i Go) = Some w'').
Proof.
  destruct (demo_observed (fun w => (session w, wg w)) (start_host ++ [LArrive StopServer; LTask 4 Go]) (None, 2%nat))
    as (w & _ & Hr & E); [vm_compute; reflexivity|]. injection E as E1 E2.
  exists w. split; [exact Hr|]. split; [exact E2|]. split; [exact E1|].
  exact (proj1 (web_stop_and_hazards _ _ _ _ _ zero_shared w Hr E1)).
Defined.
