(* ===== verification/Forwarder.v ===== *)
(** The forwarder: [internal/forwarder/link.go], [host.go] and [peer.go].

    A link copies datagrams between a UDP socket and a datagram connection with
    two goroutines under one error group.  [Host] links every peer that comes;
    [Peer] links one game connection after the other and joins again when the
    game has been silent for too long. *)
From S2P Require Import Prelude Errors.
Local Open Scope Z_scope.

(** * The link *)

(** A datagram is the list of its bytes. *)
Abbreviation datagram := (list Z).

(** [const defaultUDPIdleTimeout], in milliseconds. *)
Definition defaultUDPIdleTimeout : Z := 10000.

Definition errLinkIdleTimeout_name : string := "forwarder.errLinkIdleTimeout".
Definition errLinkIdleTimeout : goerror := Sentinel errLinkIdleTimeout_name.

(** [type linkConfig struct] *)
Record linkConfig := mkLinkConfig { UDPIdleTimeout : Z }.

(** [buf := make([]byte, 1500)] *)
Definition buf_len : nat := 1500.
#[local] Arguments buf_len : simpl never.

(** The goroutine that reads UDP: at the top of the loop of [read], in
    [conn.Read], in [SendDatagram]. *)
Inductive reader := RTop | RRead | RSend (dg : datagram) | REnd.

(** The goroutine that writes UDP: in [ReceiveDatagram], in [Write]. *)
Inductive writer := WReceive | WWrite (dg : datagram) | WEnd.

(** The state of a call of [link].  [ctx_done] is the error of the group's
    context; [from_udp], [sent], [from_conn] and [written] record the traffic. *)
Record link := mkLink {
  lc : linkConfig;
  now : Z;
  lastRead : Z;
  ctx_done : option goerror;
  rd : reader;
  wr : writer;
  group_err : option goerror;             (* the first error of the group *)
  from_udp : list datagram;
  sent : list datagram;
  from_conn : list datagram;
  written : list datagram;
}.

(** The start of [link]. *)
Definition new_link (c : linkConfig) (t : Z) (ctx : option goerror) : link :=
  mkLink c t t ctx RTop WReceive None [] [] [] [].

Definition Canceled : goerror := Sentinel context_Canceled.

(** [ctx.Err()] of the group's context, which ends with the caller's or is
    cancelled with the first error, whatever comes first. *)
Definition ctx_Err (l : link) : option goerror := ctx_done l.
#[local] Arguments ctx_Err : simpl never.

Definition cancel (ctx : option goerror) (e : goerror) : option goerror :=
  match ctx with Some e0 => Some e0 | None => Some e end.

(** A goroutine returns an error: the group keeps the first. *)
Definition fail_group (l : link) (e : goerror) : option goerror :=
  match group_err l with Some e0 => Some e0 | None => Some e end.

Definition set_reader (l : link) (r : reader) : link :=
  mkLink (lc l) (now l) (lastRead l) (ctx_done l) r (wr l) (group_err l) (from_udp l) (sent l) (from_conn l) (written l).

Definition end_reader (l : link) (e : goerror) : link :=
  mkLink (lc l) (now l) (lastRead l) (cancel (ctx_done l) Canceled) REnd (wr l) (fail_group l e)
    (from_udp l) (sent l) (from_conn l) (written l).

Definition set_writer (l : link) (r : writer) : link :=
  mkLink (lc l) (now l) (lastRead l) (ctx_done l) (rd l) r (group_err l) (from_udp l) (sent l) (from_conn l) (written l).

Definition end_writer (l : link) (e : goerror) : link :=
  mkLink (lc l) (now l) (lastRead l) (cancel (ctx_done l) Canceled) (rd l) WEnd (fail_group l e)
    (from_udp l) (sent l) (from_conn l) (written l).

(** What a call on a socket or connection gives: an error, a datagram, or no
    error. *)
Inductive answer := Fails (e : goerror) | Gives (dg : datagram) | Succeeds.

(** A step of the reading goroutine, [linkConfig.read] inlined: a packet longer
    than the buffer is cut, a deadline error starts the loop again, and after a
    send the next call of [read] takes the time anew. *)
Definition reader_step (l : link) (a : answer) : option link :=
  match rd l, a with
  | RTop, _ =>
      match ctx_Err l with
      | Some e => Some (end_reader l (Wrapped "read from udp conn" e))
      | None =>
          if (0 <? UDPIdleTimeout (lc l)) && (UDPIdleTimeout (lc l) <? now l - lastRead l)
          then Some (end_reader l (Wrapped "read from udp conn" errLinkIdleTimeout))
          else Some (set_reader l RRead)
      end
  | RRead, Fails e =>
      if Is e os_ErrDeadlineExceeded then Some (set_reader l RTop)
      else Some (end_reader l (Wrapped "read from udp conn" e))
  | RRead, Gives dg =>
      Some (mkLink (lc l) (now l) (lastRead l) (ctx_done l) (RSend (take buf_len dg)) (wr l) (group_err l)
              (from_udp l ++ [take buf_len dg]) (sent l) (from_conn l) (written l))
  | RSend dg, Fails e => Some (end_reader l (Wrapped "send datagram" e))
  | RSend dg, Succeeds =>
      Some (mkLink (lc l) (now l) (now l) (ctx_done l) RTop (wr l) (group_err l)
              (from_udp l) (sent l ++ [dg]) (from_conn l) (written l))
  | _, _ => None
  end.

(** A step of the writing goroutine. *)
Definition writer_step (l : link) (a : answer) : option link :=
  match wr l, a with
  | WReceive, Fails e => Some (end_writer l (Wrapped "receive datagram" e))
  | WReceive, Gives dg =>
      Some (mkLink (lc l) (now l) (lastRead l) (ctx_done l) (rd l) (WWrite dg) (group_err l)
              (from_udp l) (sent l) (from_conn l ++ [dg]) (written l))
  | WWrite dg, Fails e => Some (end_writer l (Wrapped "write datagram" e))
  | WWrite dg, Succeeds =>
      Some (mkLink (lc l) (now l) (lastRead l) (ctx_done l) (rd l) WReceive (group_err l)
              (from_udp l) (sent l) (from_conn l) (written l ++ [dg]))
  | _, _ => None
  end.

(** Steps: either goroutine, time passing, and the end of the caller's context. *)
Inductive label := LReader (a : answer) | LWriter (a : answer) | LTick (d : nat) | LCancel (e : goerror).

Definition link_step (l : link) (x : label) : option link :=
  match x with
  | LReader a => reader_step l a
  | LWriter a => writer_step l a
  | LTick d =>
      Some (mkLink (lc l) (now l + Z.of_nat d) (lastRead l) (ctx_done l) (rd l) (wr l) (group_err l)
              (from_udp l) (sent l) (from_conn l) (written l))
  | LCancel e =>
      Some (mkLink (lc l) (now l) (lastRead l)
              (cancel (ctx_done l) e) (rd l) (wr l) (group_err l)
              (from_udp l) (sent l) (from_conn l) (written l))
  end.

(** [eg.Wait()]: both goroutines have returned; the first error. *)
Definition link_Wait (l : link) : option (option goerror) :=
  match rd l, wr l with REnd, WEnd => Some (group_err l) | _, _ => None end.

(** An error that comes from outside: [errLinkIdleTimeout] is not exported. *)
Definition outside (e : goerror) : Prop := Is e errLinkIdleTimeout_name = false.

Definition label_ok (x : label) : Prop :=
  match x with
  | LReader (Fails e) | LWriter (Fails e) | LCancel e => outside e
  | _ => True
  end.

Definition link_steps (l l' : link) : Prop := exists x, label_ok x /\ link_step l x = Some l'.

Definition link_reachable (c : linkConfig) (l : link) : Prop :=
  exists t ctx, match ctx with Some e => outside e | None => True end /\ star link_steps (new_link c t ctx) l.

Fixpoint run_link (l : link) (xs : list label) : option link :=
  match xs with [] => Some l | x :: xs => l' ← link_step l x; run_link l' xs end.

(** * Host *)

Definition ErrHosterClosed_name : string := "registar.ErrHosterClosed".

(** [Host.AcceptAndLink] for what [Accept] returns in turn: the peers it starts
    a goroutine for, and the error it returns; [None] while it waits. *)
Fixpoint Host_AcceptAndLink (script : list (result goerror nat)) : option (list nat * option goerror) :=
  match script with
  | [] => None
  | Err e :: _ =>
      Some ([], if Is e ErrHosterClosed_name then None else Some (Wrapped "accept peer connection" e))
  | Ok c :: script => '(cs, e) ← Host_AcceptAndLink script; Some (c :: cs, e)
  end.

(** Calls on sockets and connections. *)
Inductive call := Link (game conn : nat) | CloseGame (game : nat) | CloseConn (conn : nat) | HandleError (e : goerror).

(** [linkWithHost]: the error of [DialUDP], else the game socket and the error
    of the link. *)
Definition linkWithHost (conn : nat) (dial : result goerror nat) (link_err : goerror) : list call * goerror :=
  match dial with
  | Err e => ([], Wrapped "dial game UDP" e)
  | Ok g => ([Link g conn; CloseGame g], Wrapped "link with game UDP" link_err)
  end.

(** The goroutine of a peer: its calls in order, the deferred ones last. *)
Definition host_goroutine (conn : nat) (dial : result goerror nat) (link_err : goerror) : list call :=
  let '(calls, err) := linkWithHost conn dial link_err in
  calls ++
  (if Is err quic_ErrTransportClosed then []
   else if Is err context_Canceled then [] else [HandleError err]) ++ [CloseConn conn].

(** * Peer *)

Definition ErrClosedListener_name : string := "udp.ErrClosedListener".

(** The idle timeout [Join] gives a peer's links. *)
Definition peer_timeout (configured : Z) : Z :=
  if decide (configured = 0) then defaultUDPIdleTimeout else configured.

(** A round of [Peer.AcceptAndLink]: the error of [Accept] and whether the
    context is done, or a game connection, the error of its link, and what
    [Join] returns if it is called. *)
Inductive round := AcceptFails (e : goerror) (ctx_done : bool) | Accepted (game : nat) (link_err : option goerror) (join : result goerror nat).

(** [Peer.AcceptAndLink], with [hostConn] the current host connection: the calls
    it makes and its result; [None] while it waits. *)
Fixpoint Peer_AcceptAndLink (hostConn : nat) (script : list round) : option (list call * option goerror) :=
  match script with
  | [] => None
  | AcceptFails e done :: _ =>
      Some ([], Some (if Is e ErrClosedListener_name && done then Canceled
                      else Wrapped "accept incoming game connection" e))
  | Accepted g None _ :: script =>
      '(cs, r) ← Peer_AcceptAndLink hostConn script; Some (Link g hostConn :: cs, r)
  | Accepted g (Some err) join :: script =>
      if Is err errLinkIdleTimeout_name then
        match join with
        | Err e => Some ([Link g hostConn; CloseGame g], Some (Wrapped "join host" e))
        | Ok h => '(cs, r) ← Peer_AcceptAndLink h script; Some (Link g hostConn :: CloseGame g :: cs, r)
        end
      else if Is err quic_ErrTransportClosed then Some ([Link g hostConn; CloseGame g], None)
      else Some ([Link g hostConn; CloseGame g; CloseConn hostConn], Some (Wrapped "link with game" err))
  end.

(** * Invariant of the link *)

(** The datagram a goroutine holds, and those a failed call has lost. *)
Definition in_transit (got put : list datagram) (holding : option datagram) (ended : bool) : Prop :=
  exists rest, got = put ++ rest /\
    match holding with
    | Some dg => rest = [dg]
    | None => if ended then (length rest <= 1)%nat else rest = []
    end.

Definition reader_holds (r : reader) : option datagram := match r with RSend dg => Some dg | _ => None end.
Definition reader_ended (r : reader) : bool := match r with REnd => true | _ => false end.
Definition writer_holds (r : writer) : option datagram := match r with WWrite dg => Some dg | _ => None end.
Definition writer_ended (r : writer) : bool := match r with WEnd => true | _ => false end.

Definition is_idle (l : link) : Prop :=
  exists e, group_err l = Some e /\ Is e errLinkIdleTimeout_name = true.

Record link_inv (c : linkConfig) (l : link) : Prop := {
  li_lc : lc l = c;
  li_time : lastRead l <= now l;
  li_ctx : match ctx_done l with Some e => outside e | None => True end;
  li_reader : in_transit (from_udp l) (sent l) (reader_holds (rd l)) (reader_ended (rd l));
  li_writer : in_transit (from_conn l) (written l) (writer_holds (wr l)) (writer_ended (wr l));
  li_cancelled : group_err l <> None -> ctx_done l <> None;
  li_failed : rd l = REnd \/ wr l = WEnd <-> group_err l <> None;
  li_idle : is_idle l -> rd l = REnd /\ from_udp l = sent l /\
              0 < UDPIdleTimeout c < now l - lastRead l;
  li_size : Forall (fun dg => length dg <= buf_len)%nat (from_udp l);
}.

Lemma new_link_inv c t ctx :
  match ctx with Some e => outside e | None => True end -> link_inv c (new_link c t ctx).
Proof.
  intros H. constructor; cbn; try done; try lia.
  - by exists [].
  - by exists [].
  - split; [intros []; done|done].
  - by intros (e & ? & _).
Qed.

Lemma in_transit_take got put dg : in_transit got put None false -> in_transit (got ++ [dg]) put (Some dg) false.
Proof. intros (rest & -> & ->). exists [dg]. by rewrite app_nil_r. Qed.

Lemma in_transit_put got put dg : in_transit got put (Some dg) false -> in_transit got (put ++ [dg]) None false.
Proof. intros (rest & -> & ->). exists []. by rewrite app_nil_r. Qed.

Lemma in_transit_end got put h : in_transit got put h false -> in_transit got put None true.
Proof. intros (rest & -> & H). exists rest. split; [done|]. destruct h; subst; cbn; lia. Qed.

Lemma in_transit_le got put h b : in_transit got put h b -> exists rest, got = put ++ rest /\ (length rest <= 1)%nat.
Proof. intros (rest & E & H). exists rest. split; [done|]. destruct h; [|destruct b]; subst; cbn; lia. Qed.

Lemma cancel_Some ctx e : cancel ctx e <> None.
Proof. by destruct ctx. Qed.

Lemma cancel_outside ctx e :
  match ctx with Some e => outside e | None => True end -> outside e ->
  match cancel ctx e with Some e => outside e | None => True end.
Proof. by destruct ctx. Qed.

(** A goroutine fails with an error from outside, or with the idle timeout at
    the top of the loop. *)
Lemma end_reader_inv c l e :
  link_inv c l -> rd l <> REnd ->
  (outside e \/ rd l = RTop /\ group_err l = None /\ 0 < UDPIdleTimeout c < now l - lastRead l) ->
  link_inv c (end_reader l (Wrapped "read from udp conn" e)) /\ link_inv c (end_reader l (Wrapped "send datagram" e)).
Proof.
  intros [H1 H2 H3 H4 H5 H9 H6 H7 H8] Hn He.
  assert (reader_ended (rd l) = false) as Hf by by destruct (rd l).
  assert (forall m, is_idle (end_reader l (Wrapped m e)) ->
    REnd = REnd /\ from_udp l = sent l /\ 0 < UDPIdleTimeout c < now l - lastRead l) as Hi.
  { intros m (e' & Hg & Hi). cbn in Hg. unfold fail_group in Hg. destruct (group_err l) as [e0|] eqn:Eg.
    - injection Hg as ->. assert (is_idle l) as Hl by (by exists e'). by apply H7 in Hl as [? _].
    - injection Hg as <-. cbn in Hi. destruct He as [He|(Hr & _ & Ht)]; [unfold outside in He; congruence|].
      rewrite Hr in H4. destruct H4 as (rest & -> & ->). split; [done|]. by rewrite app_nil_r. }
  assert (forall m, fail_group l (Wrapped m e) <> None) as Hg by (unfold fail_group; intros m; by destruct (group_err l)).
  split; constructor; cbn; try done; try (rewrite Hf in H4; by eapply in_transit_end);
    try (by split; [intros _; apply Hg|by left]); try (intros Hx; by apply (Hi _ Hx));
    try (intros _; apply cancel_Some); by apply cancel_outside.
Qed.

Lemma end_writer_inv c l m e :
  link_inv c l -> wr l <> WEnd -> outside e -> link_inv c (end_writer l (Wrapped m e)).
Proof.
  intros [H1 H2 H3 H4 H5 H9 H6 H7 H8] Hn He.
  assert (writer_ended (wr l) = false) as Hf by by destruct (wr l).
  assert (fail_group l (Wrapped m e) <> None) as Hg by (unfold fail_group; by destruct (group_err l)).
  constructor; cbn; try done.
  - by apply cancel_outside.
  - rewrite Hf in H5. by eapply in_transit_end.
  - intros _. apply cancel_Some.
  - split; [done|by right].
  - intros (e' & Hx & Hi). cbn in Hx. unfold fail_group in Hx. destruct (group_err l) eqn:Eg.
    + apply H7. exists e'. by rewrite Eg.
    + injection Hx as <-. cbn in Hi. unfold outside in He. congruence.
Qed.

Lemma reader_inv c l a l' :
  link_inv c l -> label_ok (LReader a) -> reader_step l a = Some l' -> link_inv c l'.
Proof.
  intros Hi Ha. pose proof Hi as [H1 H2 H3 H4 H5 H9 H6 H7 H8]. unfold reader_step.
  destruct (rd l) as [| |dg|] eqn:Hr; [| | |done].
  - unfold ctx_Err. destruct (ctx_done l) as [e|] eqn:Hc.
    { intros [= <-]. apply end_reader_inv; [done|by rewrite Hr|by left]. }
    assert (group_err l = None) as Hg by (destruct (group_err l) as [x|] eqn:Ex; [exfalso; apply H9; congruence|done]).
    destruct ((0 <? _) && _) eqn:Ht; intros [= <-].
    + apply end_reader_inv; [done|by rewrite Hr|]. right. rewrite H1 in Ht. split_and!; try done; lia.
    + constructor; cbn; rewrite ?Hc, ?Hg; try done.
      * rewrite Hg in H6. split; [intros [?|Hx]; [done|]|done]. apply (proj1 H6). by right.
      * intros (e & ? & _). cbn in *. congruence.
  - destruct a as [e|dg|]; [|intros [= <-]|done].
    + destruct (Is e os_ErrDeadlineExceeded); intros [= <-].
      * constructor; cbn; try done. { rewrite <- H6. naive_solver. }
        intros Hx. by apply H7 in Hx as [? _].
      * apply end_reader_inv; [done|by rewrite Hr|by left].
    + constructor; cbn; try done.
      * by apply in_transit_take.
      * rewrite <- H6. naive_solver.
      * intros Hx. by apply H7 in Hx as [? _].
      * apply Forall_app. split; [done|]. apply Forall_singleton. rewrite length_take. lia.
  - destruct a as [e| |]; [|done|]; intros [= <-].
    + apply end_reader_inv; [done|by rewrite Hr|by left].
    + constructor; cbn; try done; try lia.
      * by apply in_transit_put.
      * rewrite <- H6. naive_solver.
      * intros Hx. by apply H7 in Hx as [? _].
Qed.

Lemma writer_inv c l a l' :
  link_inv c l -> label_ok (LWriter a) -> writer_step l a = Some l' -> link_inv c l'.
Proof.
  intros Hi Ha. pose proof Hi as [H1 H2 H3 H4 H5 H9 H6 H7 H8]. unfold writer_step.
  destruct (wr l) as [|dg|] eqn:Hr; [| |done]; (destruct a as [e|dg'|]; try done); intros [= <-].
  - by apply end_writer_inv; rewrite ?Hr.
  - constructor; cbn; try done; [by apply in_transit_take|]. rewrite <- H6. naive_solver.
  - by apply end_writer_inv; rewrite ?Hr.
  - constructor; cbn; try done; [by apply in_transit_put|]. rewrite <- H6. naive_solver.
Qed.

Lemma link_step_inv c l x l' : link_inv c l -> label_ok x -> link_step l x = Some l' -> link_inv c l'.
Proof.
  intros Hi Hx. destruct x as [a|a|d|e]; cbn [link_step].
  - by apply reader_inv.
  - by apply writer_inv.
  - intros [= <-]. destruct Hi. constructor; cbn; try done; [lia|].
    intros Hid. destruct (li_idle0 Hid) as (? & ? & ?). split_and!; try done; lia.
  - intros [= <-]. destruct Hi. constructor; cbn; try done; [by apply cancel_outside|intros _; apply cancel_Some].
Qed.

Lemma link_reachable_inv c l : link_reachable c l -> link_inv c l.
Proof.
  intros (t & ctx & Hc & Hs). eapply (star_invariant link_steps (link_inv c)); [|exact Hs|by apply new_link_inv].
  intros x y Hx (lab & Hok & Hl). by eapply link_step_inv.
Qed.

(** * Correctness *)

(** Two steps end the reading goroutine once the context is done, without a
    packet: the read ends by its deadline. *)
Lemma reader_ends l : ctx_Err l <> None ->
  exists xs l', run_link l xs = Some l' /\ (length xs <= 2)%nat /\ Forall label_ok xs /\
    rd l' = REnd /\ wr l' = wr l /\ ctx_Err l' <> None.
Proof.
  intros Hc. destruct (ctx_Err l) as [e|] eqn:He; [|done].
  assert (forall m e, ctx_Err (end_reader l (Wrapped m e)) <> None) as Hend.
  { intros m e'. apply cancel_Some. }
  destruct (rd l) as [| |dg|] eqn:Hr.
  - exists [LReader Succeeds]. cbn. unfold reader_step. rewrite Hr, He. cbn. eexists. split; [done|].
    split_and!; first [apply Hend|done|lia|by repeat constructor].
  - exists [LReader (Fails (Sentinel os_ErrDeadlineExceeded)); LReader Succeeds]. cbn. unfold reader_step at 2.
    rewrite Hr. cbn. unfold reader_step. cbn. change (ctx_Err (set_reader l RTop)) with (ctx_Err l). rewrite He. cbn.
    eexists. split; [done|]. split_and!; first [apply Hend|done|lia|by repeat constructor].
  - exists [LReader (Fails (Sentinel quic_ErrTransportClosed))]. cbn. unfold reader_step. rewrite Hr. cbn.
    eexists. split; [done|]. split_and!; first [apply Hend|done|lia|by repeat constructor].
  - exists [], l. cbn. split_and!; first [done|lia|by rewrite He].
Qed.

Lemma writer_ends l : ctx_Err l <> None ->
  exists xs l', run_link l xs = Some l' /\ (length xs <= 1)%nat /\ Forall label_ok xs /\
    wr l' = WEnd /\ rd l' = rd l.
Proof.
  intros Hc. destruct (wr l) as [|dg|] eqn:Hr.
  - exists [LWriter (Fails Canceled)]. cbn. unfold writer_step. rewrite Hr. cbn. eexists. split; [done|].
    split_and!; first [done|by repeat constructor].
  - exists [LWriter (Fails Canceled)]. cbn. unfold writer_step. rewrite Hr. cbn. eexists. split; [done|].
    split_and!; first [done|by repeat constructor].
  - exists [], l. split_and!; try done. cbn. lia.
Qed.

Lemma run_link_app l xs ys : run_link l (xs ++ ys) = l' ← run_link l xs; run_link l' ys.
Proof.
  revert l. induction xs as [|x xs IH]; intros l; [done|]. cbn. destruct (link_step l x); [cbn; apply IH|done].
Qed.

(** A game that stays silent: the read in progress ends by its deadline and the
    next look at the clock ends the link. *)
Lemma silence_ends c l (d : nat) a :
  link_inv c l -> rd l = RRead -> ctx_Err l = None -> 0 < UDPIdleTimeout c < Z.of_nat d ->
  exists l', run_link l [LTick d; LReader (Fails (Sentinel os_ErrDeadlineExceeded)); LReader a] = Some l' /\ is_idle l'.
Proof.
  intros Hi Hr Hc Hd. pose proof (li_lc _ _ Hi) as Hlc. pose proof (li_time _ _ Hi) as Ht.
  cbn. unfold reader_step at 2. cbn. rewrite Hr. cbn. unfold reader_step. cbn.
  match goal with |- context [ctx_Err ?x] => change (ctx_Err x) with (ctx_Err l) end. rewrite Hc.
  replace (_ && _) with true by (rewrite Hlc; lia). eexists. split; [done|].
  exists (Wrapped "read from udp conn" errLinkIdleTimeout). split; [|reflexivity]. cbn. unfold fail_group. cbn.
  destruct (group_err l) as [e|] eqn:Eg; [|done]. exfalso. apply (li_cancelled _ _ Hi); [by rewrite Eg|exact Hc].
Qed.


Lemma run_link_star xs : forall l l', Forall label_ok xs -> run_link l xs = Some l' -> star link_steps l l'.
Proof.
  induction xs as [|x xs IH]; intros l l' Hok; cbn; [intros [= <-]; apply star_refl|].
  apply Forall_cons in Hok as [Hx Hok]. destruct (link_step l x) as [l1|] eqn:E; [cbn|done]. intros H.
  eapply star_step; [by exists x|by apply IH].
Qed.

Definition demo_link : list label :=
  [LReader Succeeds; LReader (Gives [1; 2]); LWriter (Gives [3]); LReader Succeeds; LWriter Succeeds;
   LReader Succeeds; LTick (Z.to_nat 10001); LReader (Fails (Sentinel os_ErrDeadlineExceeded)); LReader Succeeds].

(** ** Connections *)

Definition linked_game (x : call) : option nat := match x with Link g _ => Some g | _ => None end.
Definition linked_conn (x : call) : option nat := match x with Link _ h => Some h | _ => None end.
Definition closed_game (x : call) : option nat := match x with CloseGame g => Some g | _ => None end.
Definition closed_conn (x : call) : option nat := match x with CloseConn h => Some h | _ => None end.

(** A round whose link fails, as every link does. *)
Definition round_ok (r : round) : Prop := match r with Accepted _ e _ => e <> None | _ => True end.

Lemma peer_accounts script : forall h cs r,
  Forall round_ok script -> Peer_AcceptAndLink h script = Some (cs, r) ->
  omap closed_game cs = omap linked_game cs /\
  (omap linked_conn cs = [] \/ head (omap linked_conn cs) = Some h) /\
  (omap closed_conn cs = [] \/ exists c, omap closed_conn cs = [c] /\ last (omap linked_conn cs) = Some c).
Proof.
  induction script as [|[e b|g [err|] j] script IH]; intros h cs r Hok; cbn; [done| | |].
  - intros [= <- <-]. cbn. auto.
  - apply Forall_cons in Hok as [_ Hok]. destruct (Is err errLinkIdleTimeout_name).
    + destruct j as [h'|e]; [|intros [= <- <-]; cbn; auto].
      destruct (Peer_AcceptAndLink h' script) as [[cs' r']|] eqn:E; [cbn|done]. intros [= <- <-].
      destruct (IH h' cs' r' Hok E) as (Hg & Hh & Hc). cbn. rewrite Hg. split; [done|]. split; [by right|].
      destruct Hc as [->|(c & -> & Hl)]; [by left|]. right. exists c. split; [done|].
      destruct (omap linked_conn cs'); [done|]. exact Hl.
    + destruct (Is err quic_ErrTransportClosed); intros [= <- <-]; cbn;
        (split_and!; [done|by right|]; first [by left|right; by exists h]).
  - apply Forall_cons in Hok as [[] _]. done.
Qed.

Lemma host_accepts script : forall cs e,
  Host_AcceptAndLink script = Some (cs, e) ->
  exists err rest, script = (Ok <$> cs) ++ Err err :: rest /\ (e = None <-> Is err ErrHosterClosed_name = true).
Proof.
  induction script as [|[c|err] script IH]; intros cs e; cbn; [done| |].
  - destruct (Host_AcceptAndLink script) as [[cs' e']|]; [cbn|done]. intros [= <- <-].
    destruct (IH cs' e' eq_refl) as (err & rest & -> & H). by exists err, rest.
  - intros [= <- <-]. exists err, script. split; [done|]. by destruct (Is err ErrHosterClosed_name).
Qed.

(** ** The component *)

(** With what host and peer link, close and report. *)
Lemma forwarder_accounts :
  (forall script cs e, Host_AcceptAndLink script = Some (cs, e) ->
     exists err rest, script = (Ok <$> cs) ++ Err err :: rest /\ (e = None <-> Is err ErrHosterClosed_name = true)) /\
  (forall conn dial err calls, host_goroutine conn dial err = calls ->
     omap closed_game calls = omap linked_game calls /\ omap closed_conn calls = [conn] /\
     last calls = Some (CloseConn conn) /\
     (forall g, dial = Ok g -> (exists e, HandleError e ∈ calls) <->
        Is err quic_ErrTransportClosed = false /\ Is err context_Canceled = false)) /\
  (forall h script cs r, Forall round_ok script -> Peer_AcceptAndLink h script = Some (cs, r) ->
     omap closed_game cs = omap linked_game cs /\
     (omap closed_conn cs = [] \/ exists c, omap closed_conn cs = [c] /\ last (omap linked_conn cs) = Some c)) /\
  (exists script r, Forall round_ok script /\
     Peer_AcceptAndLink 7 script = Some ([Link 1 7; CloseGame 1; Link 2 8; CloseGame 2; CloseConn 8], r)).
Proof.
  split_and!.
  - exact host_accepts.
  - intros conn dial err calls <-. unfold host_goroutine, linkWithHost.
    destruct dial as [g|e]; cbn; destruct (Is _ quic_ErrTransportClosed), (Is _ context_Canceled); cbn;
      split_and!; try done; intros g' [= <-]; split; try naive_solver; try set_solver.
  - intros h script cs r Hok H. destruct (peer_accounts script h cs r Hok H) as (? & _ & ?). done.
  - exists [Accepted 1 (Some errLinkIdleTimeout) (Ok 8%nat); Accepted 2 (Some (OtherError "x")) (Ok 9%nat)], (Some (Wrapped "link with game" (OtherError "x"))).
    split; [by repeat constructor|reflexivity].
Qed.

(** C16. A link carries each direction in order, without loss or duplicate
    while it runs and losing at most the datagram of the call that failed, cut
    to the size of the buffer on the way from the game.  It ends with the idle
    timeout only if one is set and more time than that has passed since the
    last packet of the game, all of which were sent; a game that stays silent
    for that long ends it.  When the wait of the group returns there is an
    error, and once the group or the caller's context has failed both
    goroutines end within three steps, without another packet.

    The host links every peer it accepts until [Accept] fails, and returns
    no error exactly when the hoster was closed; a peer's goroutine closes the
    game socket it opened and then the peer's connection, and reports its error
    unless the transport was closed or the context cancelled.  The peer links
    the game connections it accepts one after the other and closes each; it
    closes at most one host connection, the last it linked with: those it
    replaces after an idle timeout stay open. *)
Theorem link_correct (c : linkConfig) (l : link) (Hr : link_reachable c l) :
  (exists rest, from_udp l = sent l ++ rest /\ (length rest <= 1)%nat) /\
  (exists rest, from_conn l = written l ++ rest /\ (length rest <= 1)%nat) /\
  Forall (fun dg => length dg <= buf_len)%nat (from_udp l) /\
  (is_idle l -> from_udp l = sent l /\ 0 < UDPIdleTimeout c < now l - lastRead l) /\
  (forall d a, rd l = RRead -> ctx_Err l = None -> 0 < UDPIdleTimeout c < Z.of_nat d ->
     exists l', run_link l [LTick d; LReader (Fails (Sentinel os_ErrDeadlineExceeded)); LReader a] = Some l' /\ is_idle l') /\
  (forall r, link_Wait l = Some r -> r <> None) /\
  (ctx_Err l <> None -> exists xs l' r, (length xs <= 3)%nat /\ Forall label_ok xs /\
     run_link l xs = Some l' /\ link_Wait l' = Some r) /\
  (forall script cs e, Host_AcceptAndLink script = Some (cs, e) ->
     exists err rest, script = (Ok <$> cs) ++ Err err :: rest /\ (e = None <-> Is err ErrHosterClosed_name = true)) /\
  (forall conn dial err calls, host_goroutine conn dial err = calls ->
     omap closed_game calls = omap linked_game calls /\ omap closed_conn calls = [conn] /\
     last calls = Some (CloseConn conn) /\
     (forall g, dial = Ok g -> (exists e, HandleError e ∈ calls) <->
        Is err quic_ErrTransportClosed = false /\ Is err context_Canceled = false)) /\
  (forall h script cs r, Forall round_ok script -> Peer_AcceptAndLink h script = Some (cs, r) ->
     omap closed_game cs = omap linked_game cs /\
     (omap closed_conn cs = [] \/ exists c, omap closed_conn cs = [c] /\ last (omap linked_conn cs) = Some c)) /\
  (exists script r, Forall round_ok script /\
     Peer_AcceptAndLink 7 script = Some ([Link 1 7; CloseGame 1; Link 2 8; CloseGame 2; CloseConn 8], r)).
Proof.
  pose proof (link_reachable_inv c l Hr) as Hi. pose proof Hi as [H1 H2 H3 H4 H5 H9 H6 H7 H8].
  split_and!; try apply forwarder_accounts; try done.
  - by eapply in_transit_le.
  - by eapply in_transit_le.
  - intros Hx. by apply H7 in Hx as [_ ?].
  - intros d a. by apply silence_ends.
  - intros r Hw. unfold link_Wait in Hw. destruct (rd l), (wr l); try discriminate Hw. injection Hw as <-.
    apply H6. by left.
  - intros Hc. destruct (reader_ends l Hc) as (xs & l1 & Hx & Hlx & Hox & Hr1 & _ & Hc1).
    destruct (writer_ends l1 Hc1) as (ys & l2 & Hy & Hly & Hoy & Hw2 & Hr2).
    exists (xs ++ ys), l2, (group_err l2). rewrite length_app, run_link_app, Hx. cbn. split_and!; [lia| |done|].
    + by apply Forall_app.
    + unfold link_Wait. by rewrite Hr2, Hr1, Hw2.
Qed.

Lemma link_correct_witness :
  exists l, link_reachable (mkLinkConfig (peer_timeout 0)) l /\ is_idle l /\ sent l = [[1; 2]] /\ written l = [[3]] /\
    0 < UDPIdleTimeout (mkLinkConfig (peer_timeout 0)) < now l - lastRead l.
Proof.
  destruct (run_link (new_link (mkLinkConfig (peer_timeout 0)) 0 None) demo_link) as [l|] eqn:E; [|discriminate E].
  assert (link_reachable (mkLinkConfig (peer_timeout 0)) l) as Hr.
  { exists 0, None. split; [exact I|]. eapply run_link_star; [|exact E]. repeat constructor. }
  assert (is_idle l) as Hi by (vm_compute in E; injection E as <-; eexists; split; reflexivity).
  exists l. split; [exact Hr|]. split; [exact Hi|].
  split; [vm_compute in E; injection E as <-; reflexivity|].
  split; [vm_compute in E; injection E as <-; reflexivity|].
  destruct (link_correct _ _ Hr) as (_ & _ & _ & H & _). apply H. exact Hi.
Defined.
