(* ===== verification/Admin.v ===== *)
(** The admin page of the registar: [internal/registar/admin/admin.go].

    A scraper samples the bytes relayed into a ring; the bandwidth handler
    takes the position, the count and the slice under the lock and copies the
    buckets after it has released it, from the array the scraper writes.  A
    bucket is two words, each of which is read and written at once; their order
    is the compiler's.  A rate is a float of the library: [bps] is what a
    difference of bytes becomes. *)
From S2P Require Import Prelude Ring Sha256.
Local Open Scope Z_scope.

(** [const bwWindow], in nanoseconds. *)
Definition bwWindow : Z := 24 * 3600 * 10 ^ 9.

Section admin.
Context {B : Type}.
Variable bps : Z -> B.
Variable no_rate : B.

(** [type bwBucket struct] *)
Record bwBucket := mkBucket { T : Z; BPS : B }.

(** The bandwidth fields of [type Admin struct]. *)
Record bandwidth := mkBandwidth {
  bwRing : list bwBucket;
  bwHead : nat;
  bwCount : nat;
  bwLast : Z;
}.

(** [NewAdmin]: the size of the ring is the quotient of the window and the
    interval. *)
Definition ring_size (scrapeInterval : Z) : nat := Z.to_nat (bwWindow / scrapeInterval).

Definition new_bandwidth (scrapeInterval : Z) : bandwidth :=
  mkBandwidth (replicate (ring_size scrapeInterval) (mkBucket 0 no_rate)) 0 0 0.

(** A tick of [runBandwidthScraper] at [t], with [current] bytes relayed. *)
Definition scrape (a : bandwidth) (t current : Z) : outcome bandwidth :=
  let size := length (bwRing a) in
  let delta := u64 (current - bwLast a) in
  ring ← go_set (bwRing a) (bwHead a) (mkBucket t (bps delta));
  head ← go_mod (bwHead a + 1) size;
  Ret (mkBandwidth ring head (if decide (bwCount a < size)%nat then bwCount a + 1 else bwCount a)%nat current).

(** The same tick word by word: what is left to do after the first word of the
    bucket has been written, which is [T] if [T_first]. *)
Record pending := mkPending { p_T : Z; p_delta : Z }.

Definition scrape_first (T_first : bool) (a : bandwidth) (t current : Z) : outcome (bandwidth * pending) :=
  let delta := u64 (current - bwLast a) in
  old ← go_get (bwRing a) (bwHead a);
  ring ← go_set (bwRing a) (bwHead a) (if T_first then mkBucket t (BPS old) else mkBucket (T old) (bps delta));
  Ret (mkBandwidth ring (bwHead a) (bwCount a) current, mkPending t delta).

Definition scrape_rest (a : bandwidth) (p : pending) : outcome bandwidth :=
  let size := length (bwRing a) in
  ring ← go_set (bwRing a) (bwHead a) (mkBucket (p_T p) (bps (p_delta p)));
  head ← go_mod (bwHead a + 1) size;
  Ret (mkBandwidth ring head (if decide (bwCount a < size)%nat then bwCount a + 1 else bwCount a)%nat (bwLast a)).

Fixpoint scrapes (a : bandwidth) (l : list (Z * Z)) : outcome bandwidth :=
  match l with [] => Ret a | (t, c) :: l => a' ← scrape a t c; scrapes a' l end.

(** [handleBandwidth] under way: what it has read under the lock, the buckets
    it has copied, and the word of the next one it has read. *)
Inductive word := ReadT (t : Z) | ReadBPS (b : B).
Record reading := mkReading { r_start : nat; r_count : nat; r_size : nat; buckets : list bwBucket; half : option word }.

(** Its critical section and the division for [start]. *)
Definition begin_read (a : bandwidth) : outcome reading :=
  let size := length (bwRing a) in
  start ← go_mod (bwHead a + size - bwCount a) size;
  Ret (mkReading start (bwCount a) size [] None).

(** One iteration of its loop, from the array as it is then: the first word of
    the bucket, and the other one. *)
Definition read_first (T_first : bool) (a : bandwidth) (r : reading) : outcome reading :=
  match half r with
  | Some _ => Ret r
  | None =>
      if decide (length (buckets r) < r_count r)%nat then
        i ← go_mod (r_start r + length (buckets r)) (r_size r);
        b ← go_get (bwRing a) i;
        Ret (mkReading (r_start r) (r_count r) (r_size r) (buckets r) (Some (if T_first then ReadT (T b) else ReadBPS (BPS b))))
      else Ret r
  end.

Definition read_rest (a : bandwidth) (r : reading) : outcome reading :=
  match half r with
  | None => Ret r
  | Some w =>
      i ← go_mod (r_start r + length (buckets r)) (r_size r);
      b ← go_get (bwRing a) i;
      Ret (mkReading (r_start r) (r_count r) (r_size r)
             (buckets r ++ [match w with ReadT t => mkBucket t (BPS b) | ReadBPS x => mkBucket (T b) x end]) None)
  end.

(** The loop, with the scraper in between.  The scraper is one goroutine: it
    does not begin a tick before it has ended the last one. *)
Inductive event := TickFirst (T_first : bool) (t current : Z) | TickRest | ReadFirst (T_first : bool) | ReadRest.

Fixpoint handle (a : bandwidth) (p : option pending) (r : reading) (evs : list event)
    : outcome (bandwidth * option pending * reading) :=
  match evs with
  | [] => Ret (a, p, r)
  | TickFirst o t c :: evs =>
      match p with
      | Some _ => handle a p r evs
      | None => '(a', p') ← scrape_first o a t c; handle a' (Some p') r evs
      end
  | TickRest :: evs =>
      match p with None => handle a p r evs | Some p' => a' ← scrape_rest a p'; handle a' None r evs end
  | ReadFirst o :: evs => r' ← read_first o a r; handle a p r' evs
  | ReadRest :: evs => r' ← read_rest a r; handle a p r' evs
  end.

(** Schedules in which neither a tick nor the copy of a bucket is interrupted. *)
Inductive whole := Tick (o : bool) (t current : Z) | Copy (o : bool).

Definition words (e : whole) : list event :=
  match e with Tick o t c => [TickFirst o t c; TickRest] | Copy o => [ReadFirst o; ReadRest] end.

(** [basicAuth], for the password of the request if it has one. *)
Inductive reply := Unauthorized | Served.

Definition basicAuth (secret : list Z) (password : option (list Z)) : reply :=
  if decide (secret = []) then Served
  else match password with
       | None => Unauthorized
       | Some p => if hmac_Equal p secret then Served else Unauthorized
       end.

Lemma basicAuth_Served secret password : basicAuth secret password = Served <-> secret = [] \/ password = Some secret.
Proof.
  unfold basicAuth. case_decide as Hn; [naive_solver|]. destruct password as [p|]; [|naive_solver].
  pose proof (hmac_Equal_spec p secret) as Hsp. destruct (hmac_Equal p secret); naive_solver.
Qed.

(** * The samples *)

(** The buckets of a list of ticks: each rate is that of the bytes relayed
    since the tick before. *)
Fixpoint samples (last : Z) (l : list (Z * Z)) : list bwBucket :=
  match l with [] => [] | (t, c) :: l => mkBucket t (bps (u64 (c - last))) :: samples c l end.

Fixpoint ticks (evs : list whole) : list (Z * Z) :=
  match evs with [] => [] | Tick _ t c :: evs => (t, c) :: ticks evs | Copy _ :: evs => ticks evs end.

Fixpoint copies (evs : list whole) : nat :=
  match evs with [] => 0 | Tick _ _ _ :: evs => copies evs | Copy _ :: evs => S (copies evs) end.

(** The ticks that have begun in a schedule. *)
Fixpoint begun (busy : bool) (evs : list event) : list (Z * Z) :=
  match evs with
  | [] => []
  | TickFirst _ t c :: evs => if busy then begun busy evs else (t, c) :: begun true evs
  | TickRest :: evs => begun false evs
  | _ :: evs => begun busy evs
  end.

Definition last_bytes (last : Z) (l : list (Z * Z)) : Z := foldl (fun _ x => snd x) last l.

Lemma samples_app last l l' : samples last (l ++ l') = samples last l ++ samples (last_bytes last l) l'.
Proof. revert last. induction l as [|[t c] l IH]; intros last; [done|]. cbn. by rewrite IH. Qed.

Lemma length_samples last l : length (samples last l) = length l.
Proof. revert last. induction l as [|[t c] l IH]; intros last; cbn; [done|by rewrite IH]. Qed.

(** The ring holds the last samples. *)
Record bw_wf (size : nat) (a : bandwidth) (sc : list (Z * Z)) : Prop := {
  bw_size : length (bwRing a) = size;
  bw_holds : holds_last (bwRing a) (bwHead a) (bwCount a) (samples 0 sc);
  bw_bytes : bwLast a = last_bytes 0 sc;
}.

Lemma new_bw_wf interval : (0 < ring_size interval)%nat -> bw_wf (ring_size interval) (new_bandwidth interval) [].
Proof.
  intros H. constructor; cbn; [apply length_replicate| |done]. apply holds_last_nil. by destruct (ring_size interval); [lia|].
Qed.

Lemma scrape_wf size a sc t c :
  bw_wf size a sc -> exists a', scrape a t c = Ret a' /\ bw_wf size a' (sc ++ [(t, c)]) /\
    bwRing a' = <[bwHead a := mkBucket t (bps (u64 (c - bwLast a)))]> (bwRing a) /\ bwLast a' = c.
Proof.
  intros [H1 H2 H3]. pose proof (hl_pos _ _ _ _ H2). unfold scrape. rewrite go_set_lt by lia. cbn [mbind outcome_bind].
  rewrite go_mod_pos by lia. cbn [mbind outcome_bind]. eexists. split; [done|]. split; [|done].
  constructor; cbn [bwRing bwHead bwCount bwLast]; [by rewrite length_insert| |unfold last_bytes; by rewrite foldl_app].
  rewrite samples_app, <- H3. by apply holds_last_push.
Qed.

Lemma scrapes_wf size l : forall a sc, bw_wf size a sc ->
  exists a', scrapes a l = Ret a' /\ bw_wf size a' (sc ++ l).
Proof.
  induction l as [|[t c] l IH]; intros a sc Ha; [exists a; by rewrite app_nil_r|]. cbn.
  destruct (scrape_wf size a sc t c Ha) as (a1 & -> & H1 & _). cbn.
  destruct (IH a1 _ H1) as (a' & -> & H'). exists a'. by rewrite <- (assoc_L (++)) in H'.
Qed.

(** The reading is in range of the ring it was begun on. *)
Record reading_of (a0 : bandwidth) (r : reading) : Prop := {
  ro_size : r_size r = length (bwRing a0);
  ro_start : r_start r = ((bwHead a0 + length (bwRing a0) - bwCount a0) mod length (bwRing a0))%nat;
  ro_count : r_count r = bwCount a0;
}.

Lemma begin_read_ok size a sc : bw_wf size a sc ->
  exists r, begin_read a = Ret r /\ reading_of a r /\ buckets r = [] /\ half r = None.
Proof.
  intros [H1 H2 H3]. pose proof (hl_pos _ _ _ _ H2). unfold begin_read. rewrite go_mod_pos by lia.
  cbn. eexists. split; [done|]. by repeat split.
Qed.

(** The slot of an entry holds that entry of the last samples. *)
Lemma slot_sample size a sc r i :
  bw_wf size a sc -> reading_of a r -> (i < r_count r)%nat ->
  bwRing a !! ((r_start r + i) mod r_size r)%nat = lastn size (samples 0 sc) !! i /\
  is_Some (lastn size (samples 0 sc) !! i).
Proof.
  intros [H1 [P1 P2 P3] H3] [R1 R2 R3] Hi. rewrite R3 in Hi. rewrite R1, R2.
  rewrite Nat.Div0.add_mod_idemp_l.
  assert (bwRing a !! ((bwHead a + length (bwRing a) - bwCount a + i) mod length (bwRing a))%nat
    = lastn size (samples 0 sc) !! i) as E.
  { rewrite <- H1, <- P3. rewrite window_full_lookup by lia. unfold slot. do 2 f_equal. lia. }
  split; [done|]. rewrite <- E. apply lookup_lt_is_Some, Nat.mod_upper_bound. lia.
Qed.

(** ** Whole ticks and whole copies *)

(** A bucket that is copied in one go. *)
Definition copy_one (a : bandwidth) (r : reading) : outcome reading :=
  if decide (length (buckets r) < r_count r)%nat then
    i ← go_mod (r_start r + length (buckets r)) (r_size r);
    b ← go_get (bwRing a) i;
    Ret (mkReading (r_start r) (r_count r) (r_size r) (buckets r ++ [b]) None)
  else Ret r.

Lemma scrape_words o a t c : (bwHead a < length (bwRing a))%nat ->
  exists a1 p1, scrape_first o a t c = Ret (a1, p1) /\ scrape_rest a1 p1 = scrape a t c.
Proof.
  intros Hlt. destruct (lookup_lt_is_Some_2 _ _ Hlt) as [old Hold]. unfold scrape_first.
  rewrite (go_get_Some _ _ _ Hold). cbn [mbind outcome_bind]. rewrite go_set_lt by done. cbn [mbind outcome_bind].
  eexists _, _. split; [done|]. unfold scrape_rest, scrape. cbn [bwRing bwHead bwCount bwLast p_T p_delta].
  rewrite go_set_lt by by rewrite length_insert. rewrite go_set_lt by done. by rewrite list_insert_insert_eq, length_insert.
Qed.

Lemma copy_words o a r r' : half r = None -> copy_one a r = Ret r' ->
  exists r1, read_first o a r = Ret r1 /\ read_rest a r1 = Ret r' /\ half r' = None.
Proof.
  intros Hh. unfold copy_one, read_first, read_rest. rewrite Hh. case_decide as Hd.
  - destruct (go_mod _ _) as [i|] eqn:Ei; cbn [mbind outcome_bind]; [|done].
    destruct (go_get (bwRing a) i) as [b|] eqn:Eb; cbn [mbind outcome_bind]; [|done]. intros [= <-].
    eexists. split; [done|]. cbn [half r_start r_size r_count buckets]. rewrite Ei. cbn [mbind outcome_bind]. rewrite Eb. cbn.
    destruct b, o; done.
  - intros [= <-]. exists r. rewrite Hh. by repeat split.
Qed.

(** The array as the scraper has changed it since the reading was begun. *)
Record changed (a0 : bandwidth) (new : list bwBucket) (a : bandwidth) : Prop := {
  ch_length : length (bwRing a) = length (bwRing a0);
  ch_slot : forall j b, bwRing a !! j = Some b -> bwRing a0 !! j = Some b \/ b ∈ new;
}.

Definition copied (full new done : list bwBucket) : Prop :=
  forall i b, done !! i = Some b -> full !! i = Some b \/ b ∈ new.

Lemma copy_ok size a0 sc0 a r new :
  bw_wf size a0 sc0 -> reading_of a0 r -> changed a0 new a ->
  copied (lastn size (samples 0 sc0)) new (buckets r) ->
  exists r', copy_one a r = Ret r' /\ reading_of a0 r' /\
    copied (lastn size (samples 0 sc0)) new (buckets r') /\
    length (buckets r') = (if decide (length (buckets r) < r_count r) then S (length (buckets r)) else length (buckets r))%nat.
Proof.
  intros Ha Hr [C1 C2] Hc. unfold copy_one. case_decide as Hd; [|by exists r].
  destruct (slot_sample size a0 sc0 r _ Ha Hr Hd) as [Hs Hsome].
  pose proof (ro_size _ _ Hr) as Hsz. pose proof (hl_pos _ _ _ _ (bw_holds _ _ _ Ha)).
  rewrite go_mod_pos by lia. cbn.
  assert (is_Some (bwRing a !! ((r_start r + length (buckets r)) mod r_size r)%nat)) as [b Hb].
  { apply lookup_lt_is_Some. rewrite C1, <- Hsz. apply Nat.mod_upper_bound. lia. }
  rewrite (go_get_Some _ _ _ Hb). cbn. eexists. split; [done|]. split; [by destruct Hr; constructor|]. cbn. split.
  - intros i x Hx. apply lookup_app_Some in Hx as [Hx|[Hge Hx]]; [by apply Hc|].
    apply list_lookup_singleton_Some in Hx as [Hi <-]. replace i with (length (buckets r)) by lia.
    apply C2 in Hb as [Hb|?]; [|by right]. left. congruence.
  - rewrite length_app. cbn. lia.
Qed.

Lemma handle_whole size a0 sc0 evs : forall a r sc new,
  bw_wf size a0 sc0 -> bw_wf size a sc -> reading_of a0 r -> half r = None -> changed a0 new a ->
  copied (lastn size (samples 0 sc0)) new (buckets r) ->
  exists a' r', handle a None r (flat_map words evs) = Ret (a', None, r') /\
    copied (lastn size (samples 0 sc0)) (new ++ samples (last_bytes 0 sc) (ticks evs)) (buckets r') /\
    (length (buckets r) <= r_count r -> length (buckets r') = Nat.min (r_count r) (length (buckets r) + copies evs))%nat.
Proof.
  induction evs as [|[o t c|o] evs IH]; intros a r sc new Ha0 Ha Hr Hn Hch Hc; cbn [flat_map words app handle ticks samples copies].
  - exists a, r. rewrite app_nil_r. split_and!; [done..|]. lia.
  - destruct (scrape_wf size a sc t c Ha) as (a1 & Hs & H1 & Hring & Hlast).
    destruct (scrape_words o a t c) as (a2 & p2 & E1 & E2); [apply (hl_pos _ _ _ _ (bw_holds _ _ _ Ha))|].
    rewrite E1. cbn [mbind outcome_bind]. rewrite E2, Hs. cbn [mbind outcome_bind].
    destruct (IH a1 r _ (new ++ [mkBucket t (bps (u64 (c - last_bytes 0 sc)))]) Ha0 H1 Hr Hn) as (a' & r' & -> & Hc' & Hl).
    + destruct Hch as [C1 C2]. constructor; rewrite Hring; [by rewrite length_insert|].
      intros j b [(_ & <- & _)|[_ Hj]]%list_lookup_insert_Some.
      * right. rewrite (bw_bytes _ _ _ Ha). set_solver.
      * apply C2 in Hj as [?|?]; [by left|]. right. set_solver.
    + intros i b Hi. apply Hc in Hi as [?|?]; [by left|]. right. set_solver.
    + exists a', r'. split; [done|]. split; [|done].
      rewrite <- (assoc_L (++)) in Hc'. cbn in Hc'. unfold last_bytes in Hc' at 2. by rewrite foldl_app in Hc'.
  - destruct (copy_ok size a0 sc0 a r new Ha0 Hr Hch Hc) as (r1 & Hcp & Hr1 & Hc1 & Hl1).
    destruct (copy_words o a r r1 Hn Hcp) as (r2 & E1 & E2 & Hn1).
    rewrite E1. cbn [mbind outcome_bind]. rewrite E2. cbn [mbind outcome_bind].
    destruct (IH a r1 sc new Ha0 Ha Hr1 Hn1 Hch Hc1) as (a' & r' & -> & Hc' & Hl).
    exists a', r'. split; [done|]. split; [done|]. intros Hle.
    rewrite (ro_count _ _ Hr1), <- (ro_count _ _ Hr) in Hl. case_decide; rewrite Hl; lia.
Qed.

(** ** Word by word *)

(** A bucket each word of which is that of a bucket with [P]. *)
Definition mixed (P : bwBucket -> Prop) (b : bwBucket) : Prop :=
  exists b0 b1, P b0 /\ P b1 /\ T b = T b0 /\ BPS b = BPS b1.

Lemma mixed_own (P : bwBucket -> Prop) b : P b -> mixed P b.
Proof. intros H. by exists b, b. Qed.

Lemma mixed_impl (P Q : bwBucket -> Prop) b : (forall x, P x -> Q x) -> mixed P b -> mixed Q b.
Proof. intros HPQ (b0 & b1 & H0 & H1 & ? & ?). exists b0, b1. auto. Qed.

(** What a word read is the word of. *)
Definition word_of (P : bwBucket -> Prop) (w : word) : Prop :=
  match w with ReadT t => exists b, P b /\ T b = t | ReadBPS x => exists b, P b /\ BPS b = x end.

(** What slot [j] may hold, and what the copy of entry [i] may. *)
Definition in_slot (a0 : bandwidth) (new : list bwBucket) (j : nat) (b : bwBucket) : Prop := bwRing a0 !! j = Some b \/ b ∈ new.
Definition in_entry (full new : list bwBucket) (i : nat) (b : bwBucket) : Prop := full !! i = Some b \/ b ∈ new.

Record racing (a0 : bandwidth) (new : list bwBucket) (last : Z) (a : bandwidth) (p : option pending) : Prop := {
  rc_length : length (bwRing a) = length (bwRing a0);
  rc_head : (bwHead a < length (bwRing a0))%nat;
  rc_last : bwLast a = last;
  rc_slot : forall j b, bwRing a !! j = Some b -> mixed (in_slot a0 new j) b;
  rc_pending : forall q, p = Some q -> mkBucket (p_T q) (bps (p_delta q)) ∈ new;
}.

Lemma scrape_first_racing a0 new last a o t c : racing a0 new last a None ->
  exists a' q, scrape_first o a t c = Ret (a', q) /\
    racing a0 (new ++ [mkBucket t (bps (u64 (c - last)))]) c a' (Some q).
Proof.
  intros [R1 R2 R3 R4 R5]. unfold scrape_first. assert (bwHead a < length (bwRing a))%nat as Hlt by lia.
  destruct (lookup_lt_is_Some_2 _ _ Hlt) as [old Hold]. rewrite (go_get_Some _ _ _ Hold). cbn [mbind outcome_bind].
  rewrite go_set_lt by done. cbn [mbind outcome_bind]. eexists _, _. split; [done|].
  set (nw := mkBucket t (bps (u64 (c - last)))).
  assert (forall j b, mixed (in_slot a0 new j) b -> mixed (in_slot a0 (new ++ [nw]) j) b) as Hm.
  { intros j b. apply mixed_impl. unfold in_slot. set_solver. }
  assert (forall j, in_slot a0 (new ++ [nw]) j nw) as Hnw by (intros j; right; set_solver).
  constructor; cbn [bwRing bwHead bwLast]; [by rewrite length_insert|done|done| |].
  - intros j b [(<- & <- & _)|[_ Hj]]%list_lookup_insert_Some; [|by apply Hm, R4].
    destruct (Hm _ _ (R4 _ _ Hold)) as (b0 & b1 & H0 & H1 & E0 & E1). destruct o; cbn.
    + by exists nw, b1.
    + exists b0, nw. rewrite R3. done.
  - intros q [= <-]. cbn. rewrite R3. set_solver.
Qed.

Lemma scrape_rest_racing a0 new last a q : racing a0 new last a (Some q) ->
  exists a', scrape_rest a q = Ret a' /\ racing a0 new last a' None.
Proof.
  intros [R1 R2 R3 R4 R5]. unfold scrape_rest. rewrite go_set_lt by lia. cbn [mbind outcome_bind].
  rewrite go_mod_pos by lia. cbn [mbind outcome_bind]. eexists. split; [done|].
  constructor; cbn [bwRing bwHead bwLast]; [by rewrite length_insert|rewrite R1; apply Nat.mod_upper_bound; lia|done| |done].
  intros j b [(<- & <- & _)|[_ Hj]]%list_lookup_insert_Some; [|by apply R4]. apply mixed_own. right. by apply R5.
Qed.

(** The copies, and the word in hand. *)
Record copying (a0 : bandwidth) (full new : list bwBucket) (r : reading) : Prop := {
  cp_of : reading_of a0 r;
  cp_done : forall i b, buckets r !! i = Some b -> mixed (in_entry full new i) b;
  cp_half : forall w, half r = Some w -> word_of (in_entry full new (length (buckets r))) w /\ (length (buckets r) < r_count r)%nat;
  cp_count : (length (buckets r) <= r_count r)%nat;
}.

Lemma copying_more a0 full new new' r : copying a0 full new r -> copying a0 full (new ++ new') r.
Proof.
  intros [C1 C2 C3 C4]. assert (forall i b, in_entry full new i b -> in_entry full (new ++ new') i b) as Hm
    by (unfold in_entry; set_solver).
  constructor; [done| | |done].
  - intros i b Hb. eapply mixed_impl; [apply Hm|by apply C2].
  - intros w Hw. destruct (C3 w Hw) as [H ?]. split; [|done]. destruct w; destruct H as (b0 & Hb & Hx); exists b0; auto.
Qed.

(** The slot of the next entry. *)
Lemma next_slot size a0 sc0 new last a p r :
  bw_wf size a0 sc0 -> racing a0 new last a p -> copying a0 (lastn size (samples 0 sc0)) new r -> (length (buckets r) < r_count r)%nat ->
  exists i b, go_mod (r_start r + length (buckets r)) (r_size r) = Ret i /\ go_get (bwRing a) i = Ret b /\
    mixed (in_entry (lastn size (samples 0 sc0)) new (length (buckets r))) b.
Proof.
  intros Ha [R1 R2 R3 R4 R5] [C1 C2 C3 C4] Hlt. destruct (slot_sample size a0 sc0 r _ Ha C1 Hlt) as [Hs Hsome].
  rewrite (ro_size _ _ C1) in *. rewrite go_mod_pos by lia.
  assert (is_Some (bwRing a !! ((r_start r + length (buckets r)) mod length (bwRing a0))%nat)) as [b Hb].
  { apply lookup_lt_is_Some. rewrite R1. apply Nat.mod_upper_bound. lia. }
  eexists _, b. split; [done|]. split; [by apply go_get_Some|]. eapply mixed_impl; [|by apply R4].
  intros x [Hx|Hx]; [left; congruence|by right].
Qed.

Lemma read_first_copying size a0 sc0 new last a p r o :
  bw_wf size a0 sc0 -> racing a0 new last a p -> copying a0 (lastn size (samples 0 sc0)) new r ->
  exists r', read_first o a r = Ret r' /\ copying a0 (lastn size (samples 0 sc0)) new r'.
Proof.
  intros Ha Hr Hc. unfold read_first. destruct (half r) as [w|] eqn:Eh; [by exists r|]. case_decide as Hd; [|by exists r].
  destruct (next_slot _ _ _ _ _ _ _ _ Ha Hr Hc Hd) as (i & b & -> & Hb & (b0 & b1 & H0 & H1 & E0 & E1)).
  cbn [mbind outcome_bind]. rewrite Hb. cbn. eexists. split; [done|]. destruct Hc as [[] C2 C3 C4]. constructor; cbn; try done.
  intros w [= <-]. split; [|done]. destruct o; cbn; [by exists b0|by exists b1].
Qed.

Lemma read_rest_copying size a0 sc0 new last a p r :
  bw_wf size a0 sc0 -> racing a0 new last a p -> copying a0 (lastn size (samples 0 sc0)) new r ->
  exists r', read_rest a r = Ret r' /\ copying a0 (lastn size (samples 0 sc0)) new r'.
Proof.
  intros Ha Hr Hc. unfold read_rest. destruct (half r) as [w|] eqn:Eh; [|by exists r].
  destruct (cp_half _ _ _ _ Hc w Eh) as [Hw Hd].
  destruct (next_slot _ _ _ _ _ _ _ _ Ha Hr Hc Hd) as (i & b & -> & Hb & (b0 & b1 & H0 & H1 & E0 & E1)).
  cbn [mbind outcome_bind]. rewrite Hb. cbn [mbind outcome_bind]. eexists. split; [done|].
  destruct Hc as [[] C2 C3 C4]. constructor; cbn [buckets half r_count]; [done| |done|rewrite length_app; cbn; lia].
  intros j x [Hx|[Hge Hx]]%lookup_app_Some; [by apply C2|]. apply list_lookup_singleton_Some in Hx as [Hj <-].
  replace j with (length (buckets r)) by lia. destruct w as [t|y]; destruct Hw as (b2 & H2 & <-).
  - by exists b2, b1.
  - by exists b0, b2.
Qed.

Lemma handle_words size a0 sc0 evs : forall a p r new last,
  bw_wf size a0 sc0 -> racing a0 new last a p -> copying a0 (lastn size (samples 0 sc0)) new r ->
  exists a' p' r', handle a p r evs = Ret (a', p', r') /\
    copying a0 (lastn size (samples 0 sc0)) (new ++ samples last (begun (bool_decide (is_Some p)) evs)) r'.
Proof.
  induction evs as [|e evs IH]; intros a p r new last Ha Hr Hc; [exists a, p, r; cbn; by rewrite app_nil_r|].
  destruct e as [o t c| |o|]; cbn [handle begun].
  - destruct p as [q|]; [rewrite bool_decide_true by (by eexists); apply (IH a (Some q)); done|].
    rewrite bool_decide_false by (by intros []). cbn [samples].
    destruct (scrape_first_racing _ _ _ _ o t c Hr) as (a' & q & -> & Hr'). cbn [mbind outcome_bind].
    destruct (IH a' (Some q) r _ _ Ha Hr' (copying_more _ _ _ _ _ Hc)) as (a2 & p2 & r2 & -> & Hc2).
    rewrite bool_decide_true in Hc2 by (by eexists). rewrite <- (assoc_L (++)) in Hc2. by exists a2, p2, r2.
  - destruct p as [q|]; [|apply (IH a None); done].
    destruct (scrape_rest_racing _ _ _ _ _ Hr) as (a' & -> & Hr'). cbn [mbind outcome_bind]. by apply (IH a' None).
  - destruct (read_first_copying _ _ _ _ _ _ _ _ o Ha Hr Hc) as (r' & -> & Hc'). cbn [mbind outcome_bind]. by apply IH.
  - destruct (read_rest_copying _ _ _ _ _ _ _ _ Ha Hr Hc) as (r' & -> & Hc'). cbn [mbind outcome_bind]. by apply IH.
Qed.

Lemma copied_exact full done : copied full [] done -> done = take (length done) full.
Proof.
  intros H. apply list_eq. intros i. destruct (done !! i) as [b|] eqn:E.
  - rewrite lookup_take_lt by by eapply lookup_lt_Some. destruct (H i b E) as [?|?]; [done|set_solver].
  - rewrite lookup_take_ge; [done|]. by apply lookup_ge_None.
Qed.

(** C38. With a sampling interval of at most a day neither the scraper nor the
    bandwidth handler panics, however their accesses to the words of the buckets
    interleave.  Each word the handler returns is that word of the sample of its
    place among the last ones, oldest first, or of a sample whose tick has begun
    since the handler released the lock; the two words of a bucket need not be
    of one sample, and a bucket that was never sampled is possible.  When
    neither a tick nor the copy of a bucket is interrupted, each bucket is such
    a sample, and there are as many as samples, up to the size of the ring;
    without a tick in between they are exactly the last samples.  A new sample
    can so come first.  With a longer interval the first tick panics.  The
    handler is reached without a secret, or with a request that has the secret
    as its password. *)
Theorem admin_bandwidth (interval : Z) (Hi : 0 < interval <= bwWindow) (sc : list (Z * Z)) (secret : list Z)
    (password : option (list Z)) :
  (exists a r, scrapes (new_bandwidth interval) sc = Ret a /\ begin_read a = Ret r /\
     (forall evs, exists a' p r', handle a None r evs = Ret (a', p, r') /\
        (length (buckets r') <= Nat.min (length sc) (ring_size interval))%nat /\
        forall i b, buckets r' !! i = Some b ->
          mixed (fun x => lastn (ring_size interval) (samples 0 sc) !! i = Some x \/ x ∈ drop (length sc) (samples 0 (sc ++ begun false evs))) b) /\
     (forall evs, exists a' r', handle a None r (flat_map words evs) = Ret (a', None, r') /\
        length (buckets r') = Nat.min (Nat.min (length sc) (ring_size interval)) (copies evs) /\
        (forall i b, buckets r' !! i = Some b ->
           lastn (ring_size interval) (samples 0 sc) !! i = Some b \/ b ∈ drop (length sc) (samples 0 (sc ++ ticks evs))) /\
        (ticks evs = [] -> buckets r' = take (length (buckets r')) (lastn (ring_size interval) (samples 0 sc))))) /\
  (exists a r a' r', scrapes (new_bandwidth (bwWindow / 2)) [(1, 10); (2, 30)] = Ret a /\ begin_read a = Ret r /\
     handle a None r (flat_map words [Tick true 3 60; Copy true; Copy true]) = Ret (a', None, r') /\ map T (buckets r') = [3; 2]) /\
  (exists a r a' r', scrapes (new_bandwidth (bwWindow / 2)) [(1, 10); (2, 30)] = Ret a /\ begin_read a = Ret r /\
     handle a None r [ReadFirst true; TickFirst true 3 60; TickRest; ReadRest] = Ret (a', None, r') /\
     buckets r' = [mkBucket 1 (bps 30)] /\ samples 0 [(1, 10); (2, 30); (3, 60)] = [mkBucket 1 (bps 10); mkBucket 2 (bps 20); mkBucket 3 (bps 30)]) /\
  (forall t c, scrape (new_bandwidth (bwWindow + interval)) t c = Panic) /\
  (basicAuth secret password = Served <-> secret = [] \/ password = Some secret).
Proof.
  split_and!.
  - assert (0 < ring_size interval)%nat as Hs.
    { unfold ring_size. assert (0 < bwWindow / interval) by (apply Z.div_str_pos; lia). lia. }
    destruct (scrapes_wf _ sc _ _ (new_bw_wf interval Hs)) as (a & Hsc & Ha). cbn [app] in Ha.
    destruct (begin_read_ok _ a sc Ha) as (r & Hbr & Hr & Hb & Hn). exists a, r. split; [done|]. split; [done|].
    pose proof (hl_count _ _ _ _ (bw_holds _ _ _ Ha)) as Hcount.
    rewrite length_samples, (bw_size _ _ _ Ha) in Hcount. pose proof (ro_count _ _ Hr) as Hrc. split.
    + intros evs. destruct (handle_words _ a sc evs a None r [] (last_bytes 0 sc) Ha) as (a' & p & r' & Hh & [C1 C2 C3 C4]).
      { constructor; [done|by apply (hl_pos _ _ _ _ (bw_holds _ _ _ Ha))|apply (bw_bytes _ _ _ Ha)| |done].
        intros j b Hj. apply mixed_own. by left. }
      { constructor; [done|by rewrite Hb|by rewrite Hn|rewrite Hb; cbn; lia]. }
      exists a', p, r'. split; [done|]. split; [rewrite (ro_count _ _ C1) in C4; lia|]. intros i b Hib.
      rewrite samples_app, drop_app_length' by (symmetry; apply length_samples). by apply C2.
    + intros evs. destruct (handle_whole _ a sc evs a r sc [] Ha Ha Hr Hn) as (a' & r' & Hh & Hc & Hl).
      { constructor; [done|by left]. }
      { intros i b. by rewrite Hb. }
      exists a', r'. rewrite Hb in Hl. cbn in Hl, Hc.
      rewrite samples_app, drop_app_length' by (symmetry; apply length_samples).
      split_and!; [done|rewrite Hl by lia; lia|done|]. intros Ht. rewrite Ht in Hc. by apply copied_exact.
  - do 4 eexists. repeat (split; [vm_compute; reflexivity|]). vm_compute. reflexivity.
  - do 4 eexists. repeat (split; [vm_compute; reflexivity|]). vm_compute. reflexivity.
  - intros t c. unfold scrape, new_bandwidth. cbn [bwRing].
    assert (ring_size (bwWindow + interval) = 0%nat) as ->; [|done].
    unfold ring_size. rewrite Z.div_small by lia. done.
  - apply basicAuth_Served.
Qed.
End admin.

Lemma admin_bandwidth_witness :
  0 < 5 * 10 ^ 9 <= bwWindow /\
  (basicAuth [115] (Some [115]) = Served <-> [115] = [] \/ Some [115] = Some [115]).
Proof.
  assert (0 < 5 * 10 ^ 9 <= bwWindow) as H by (unfold bwWindow; lia). split; [exact H|].
  exact (proj2 (proj2 (proj2 (proj2 (admin_bandwidth (B := Z) id 0 (5 * 10 ^ 9) H [] [115] (Some [115])))))).
Defined.
