(* ===== verification/Dial.v ===== *)
(** The connections of a client to the registar: [connect], [NewJoiner],
    [NewHoster] and both [Close] of [internal/registar/client.go], with
    [Register], [Join] and [Close] of [internal/forwarder] (host.go, peer.go).

    The operating system keeps the open UDP sockets with their ports; a QUIC
    transport is named by its socket, and the game listener is one of [Udp].
    Whether closing a transport closes the socket it was given is a parameter:
    quic-go closes only sockets it has made itself.  The garbage collector may
    close a socket that nothing refers to any more, as the finalizer of package
    [net] does: neither an open transport, whose goroutine reads from it, nor a
    host or peer that the program still holds. *)
From S2P Require Import Prelude Netip Errors Control CA Client Http.
Local Open Scope Z_scope.

(** * The address dialled *)

(** [splitHostPort] of [net/url], on the host of a URL. *)
Definition valid_port (s : str) : bool := forallb (fun c => (48 <=? c) && (c <=? 57)) s.

Definition unbracket (host : str) : str :=
  match host with
  | c :: rest => if (c =? lbrack) && bool_decide (last host = Some rbrack) then take (length rest - 1) rest else host
  | [] => host
  end.

Definition url_splitHostPort (hostPort : str) : str * str :=
  match last_index_byte colon hostPort with
  | Some i => if valid_port (drop (S i) hostPort) then (unbracket (take i hostPort), drop (S i) hostPort)
              else (unbracket hostPort, [])
  | None => (unbracket hostPort, [])
  end.

Definition Hostname (host : str) : str := (url_splitHostPort host).1.
Definition Port (host : str) : str := (url_splitHostPort host).2.

(** [connect]: the address it resolves. *)
Definition dial_address (host : str) : str :=
  if decide (Port host = []) then JoinHostPort (Hostname host) (bytes_of_string "https") else host.

(** The keep-alive period of [connect], in nanoseconds. *)
Definition keep_alive (period : Z) : Z := if period <=? 0 then 10 * 10 ^ 9 else period.

(** * Sockets *)

(** The open sockets with their ports, and the transports that are not closed. *)
Record world := mkWorld { sockets : gmap nat Z; next : nat; transports : gset nat }.

Definition EADDRINUSE : goerror := OtherError "address already in use".

(** [net.ListenUDP] on a port, or if it is zero on [free]. *)
Definition ListenUDP (w : world) (port free : Z) : world * result goerror nat :=
  let p := if port =? 0 then free else port in
  if bool_decide (p ∈ (map_to_list (sockets w)).*2) then (w, Err EADDRINUSE)
  else (mkWorld (<[next w := p]> (sockets w)) (S (next w)) (transports w), Ok (next w)).

(** [&quic.Transport{Conn: udpConn}] *)
Definition NewTransport (w : world) (s : nat) : world := mkWorld (sockets w) (next w) ({[s]} ∪ transports w).

Section dial.
Variable closes_conn : bool.                              (* whether Transport.Close closes Conn *)
Variable ResolveUDPAddr : str -> result goerror AddrPort.

(** [quic.Transport.Close] *)
Definition Transport_Close (w : world) (s : nat) : world :=
  mkWorld (if closes_conn then delete s (sockets w) else sockets w) (next w) (transports w ∖ {[s]}).

(** What the system answers while a client connects: a free port, the local
    port of the QUIC connection it dials, and the local address it finds. *)
Record answers := mkAnswers { an_free : Z; an_dial : result goerror Z; an_local : result goerror Addr }.

(** [getLocalAddr] *)
Definition getLocalAddr (an : answers) : result goerror Addr := wrap_err "dial UDP" (an_local an).

(** [ClientConfig.connect]: the transport and the private address. *)
Definition connect (w : world) (port : Z) (host : str) (an : answers) : world * result goerror (nat * AddrPort) :=
  match wrap_err "resolve UDP address" (ResolveUDPAddr (dial_address host)) with
  | Err err => (w, Err err)
  | Ok _ =>
      let '(w, r) := ListenUDP w port (an_free an) in
      match wrap_err "listen UDP" r with
      | Err err => (w, Err err)
      | Ok s =>
          let w := NewTransport w s in
          match wrap_err "dial QUIC" (an_dial an) with
          | Err err => (Transport_Close w s, Err err)
          | Ok localPort =>
              match wrap_err "get local address" (getLocalAddr an) with
              | Err err => (Transport_Close w s, Err err)
              | Ok localIP => (w, Ok (s, AddrPortFrom localIP localPort))
              end
          end
      end
  end.

(** [type Joiner struct], as far as it is closed, and [type Hoster struct] with
    its transport. *)
Record Joiner := mkJoiner { j_transport : nat; j_privateAddr : AddrPort }.
Record hoster := mkHosterOf { h_transport : nat; h_state : Hoster }.

(** [ClientConfig.NewJoiner] *)
Definition NewJoiner (w : world) (port : Z) (host : str) (an : answers) : world * result goerror Joiner :=
  let '(w, r) := connect w port host an in
  match r with Err err => (w, Err err) | Ok (s, private) => (w, Ok (mkJoiner s private)) end.

(** [ClientConfig.NewHoster] *)
Definition NewHoster (w : world) (port : Z) (host : str) (an : answers) (s : register_script) (serve_err : goerror)
    : world * result goerror hoster :=
  let '(w, r) := connect w port host an in
  match r with
  | Err err => (w, Err err)
  | Ok (t, _) =>
      match Client.NewHoster s serve_err with
      | Err err => (Transport_Close w t, Err err)
      | Ok h => (w, Ok (mkHosterOf t h))
      end
  end.

(** [Joiner.Close] and [Hoster.Close] *)
Definition Joiner_Close (w : world) (j : Joiner) : world := Transport_Close w (j_transport j).

Definition Hoster_Close (w : world) (h : hoster) : outcome (world * hoster * option goerror) :=
  let w := Transport_Close w (h_transport h) in
  '(h', err) ← Client.Hoster_Close (h_state h);
  Ret (w, mkHosterOf (h_transport h) h', err).

(** * The forwarder *)

(** [HostConfig.Register] *)
Definition HostConfig_Register (w : world) (port : Z) (host : str) (an : answers) (s : register_script) (serve_err : goerror)
    : world * result goerror hoster :=
  let '(w, r) := NewHoster w port host an s serve_err in (w, wrap_err "create hoster" r).

(** [type Peer struct]: its joiner, the connection to the host, and the game
    listener. *)
Record Peer := mkPeer { p_joiner : Joiner; p_hostConn : option nat; p_listener : nat }.

(** [PeerConfig.Join]; [listen] is what [Listen] of [Udp] returns. *)
Definition PeerConfig_Join (w : world) (port : Z) (host : str) (an : answers) (s : register_script) (ev : join_event)
    (listen : result goerror nat) : world * result goerror Peer :=
  let '(w, r) := NewJoiner w port host an in
  match wrap_err "create joiner" r with
  | Err err => (w, Err err)
  | Ok joiner =>
      match Join s ev with
      | (_, Some err) => (Joiner_Close w joiner, Err (Wrapped "join host" err))
      | (hostConn, None) =>
          match wrap_err "listen UDP" listen with
          | Err err => (Joiner_Close w joiner, Err err)
          | Ok g => (w, Ok (mkPeer joiner hostConn g))
          end
      end
  end.

(** [Host.Close] and [Peer.Close]; [lerr] and [terr] are the errors of closing the
    listener and the transport. *)
Definition Host_Close (w : world) (h : hoster) : outcome (world * hoster * option goerror) :=
  '(w, h', err) ← Hoster_Close w h; Ret (w, h', errors_Join [err]).

Definition Peer_Close (w : world) (p : Peer) (lerr terr : option goerror) : world * option goerror :=
  (Joiner_Close w (p_joiner p), errors_Join [lerr; terr]).

(** * A program of clients *)

(** The hosts and the peers that were made, by their transports; a closed host
    stays, with its channel closed.  [held] are those that the program still
    refers to, closed or not. *)
Record clients := mkClients { net : world; hosts : gmap nat hoster; peers : gmap nat Peer; held : gset nat }.

Definition no_clients : clients := mkClients (mkWorld ∅ 0 ∅) ∅ ∅ ∅.

(** The finalizer of a UDP connection. *)
Definition finalize (w : world) (s : nat) : world := mkWorld (delete s (sockets w)) (next w) (transports w).

Inductive op :=
| OpRegister (port : Z) (host : str) (an : answers) (s : register_script) (serve_err : goerror)
| OpJoin (port : Z) (host : str) (an : answers) (s : register_script) (ev : join_event) (listen : result goerror nat)
| OpCloseHost (t : nat)
| OpClosePeer (t : nat) (lerr terr : option goerror)
| OpDrop (t : nat)       (* the program lets go of a host or a peer *)
| OpCollect (t : nat).   (* the garbage collector finds a socket *)

Definition do_op (c : clients) (o : op) : option (outcome clients) :=
  match o with
  | OpRegister port host an s serve_err =>
      let '(w, r) := HostConfig_Register (net c) port host an s serve_err in
      Some (Ret (match r with
                 | Ok h => mkClients w (<[h_transport h := h]> (hosts c)) (peers c) ({[h_transport h]} ∪ held c)
                 | Err _ => mkClients w (hosts c) (peers c) (held c)
                 end))
  | OpJoin port host an s ev listen =>
      let '(w, r) := PeerConfig_Join (net c) port host an s ev listen in
      Some (Ret (match r with
                 | Ok p => mkClients w (hosts c) (<[j_transport (p_joiner p) := p]> (peers c)) ({[j_transport (p_joiner p)]} ∪ held c)
                 | Err _ => mkClients w (hosts c) (peers c) (held c)
                 end))
  | OpCloseHost t =>
      if decide (t ∈ held c) then
        h ← hosts c !! t;
        Some ('(w, h', _) ← Host_Close (net c) h; Ret (mkClients w (<[t := h']> (hosts c)) (peers c) (held c)))
      else None
  | OpClosePeer t lerr terr =>
      if decide (t ∈ held c) then
        p ← peers c !! t;
        Some (Ret (mkClients (Peer_Close (net c) p lerr terr).1 (hosts c) (delete t (peers c)) (held c)))
      else None
  | OpDrop t => Some (Ret (mkClients (net c) (hosts c) (peers c) (held c ∖ {[t]})))
  | OpCollect t =>
      if decide (t ∈ held c \/ t ∈ transports (net c)) then None
      else Some (Ret (mkClients (finalize (net c) t) (hosts c) (peers c) (held c)))
  end.

(** The operations that return, one after the other. *)
Definition op_step (c c' : clients) : Prop := exists o, do_op c o = Some (Ret c').
Definition made (c : clients) : Prop := star op_step no_clients c.

(** Those that do not let go of [t]. *)
Definition op_step_holding (t : nat) (c c' : clients) : Prop := exists o, o <> OpDrop t /\ do_op c o = Some (Ret c').

(** * Invariant *)

(** A transport is open exactly for a client that has not been closed. *)
Definition live (c : clients) (t : nat) : Prop :=
  (exists h, hosts c !! t = Some h /\ done (h_state h) = false) \/ is_Some (peers c !! t).

Record net_wf (c : clients) : Prop := {
  nw_live : forall t, t ∈ transports (net c) <-> live c t;
  nw_host : forall t h, hosts c !! t = Some h -> h_transport h = t /\ peers c !! t = None /\ (t < next (net c))%nat;
  nw_peer : forall t p, peers c !! t = Some p -> j_transport (p_joiner p) = t /\ (t < next (net c))%nat;
  nw_old : forall t, is_Some (sockets (net c) !! t) -> (t < next (net c))%nat;
  nw_closed : closes_conn = true -> forall t, is_Some (sockets (net c) !! t) <-> t ∈ transports (net c);
  nw_leaked : closes_conn = false -> forall t, t ∈ transports (net c) \/ t ∈ held c -> is_Some (sockets (net c) !! t);
  nw_ports : forall t t' p, sockets (net c) !! t = Some p -> sockets (net c) !! t' = Some p -> t = t';
  nw_held : forall t, t ∈ held c -> (t < next (net c))%nat;
}.

(** What [connect] does to the system: nothing without a socket; a new socket
    whose transport it has closed; or a new client. *)
Definition attempt (w : world) (port : Z) (p : Z) : world :=
  mkWorld (<[next w := p]> (sockets w)) (S (next w)) ({[next w]} ∪ transports w).

(** A port that no socket has. *)
Definition unused (w : world) (p : Z) : Prop := forall t, sockets w !! t <> Some p.

Lemma ListenUDP_cases w port free w' r : ListenUDP w port free = (w', r) ->
  let p := if port =? 0 then free else port in
  (unused w p /\ w' = mkWorld (<[next w := p]> (sockets w)) (S (next w)) (transports w) /\ r = Ok (next w)) \/
  (~ unused w p /\ w' = w /\ r = Err EADDRINUSE).
Proof.
  intros H p. unfold ListenUDP in H. fold p in H.
  assert (p ∈ (map_to_list (sockets w)).*2 <-> ~ unused w p) as Hp.
  { rewrite list_elem_of_fmap. split.
    - intros ([t q] & -> & Hin%elem_of_map_to_list) Hn. by apply (Hn t).
    - intros Hn. destruct (decide (p ∈ (map_to_list (sockets w)).*2)) as [Hin|Hin]; [by apply list_elem_of_fmap in Hin|].
      exfalso. apply Hn. intros t Ht. apply Hin, list_elem_of_fmap. exists (t, p). split; [done|by apply elem_of_map_to_list]. }
  case_bool_decide as Hb; injection H as <- <-; [right; by rewrite <- Hp|left]. split; [|done].
  intros t Ht. apply Hb, Hp. intros Hn. by apply (Hn t).
Qed.

Lemma connect_cases w port host an w' r : connect w port host an = (w', r) ->
  (w' = w /\ exists e, r = Err e) \/
  (exists p, unused w p /\ w' = Transport_Close (attempt w port p) (next w) /\ exists e, r = Err e) \/
  (exists p ip q, unused w p /\ w' = attempt w port p /\ an_dial an = Ok q /\ an_local an = Ok ip /\ r = Ok (next w, AddrPortFrom ip q)).
Proof.
  unfold connect, getLocalAddr. destruct (ResolveUDPAddr _) as [a|e]; cbn; [|intros [= <- <-]; left; eauto].
  destruct (ListenUDP w port (an_free an)) as [w1 r1] eqn:El. apply ListenUDP_cases in El as [(Hu & -> & ->)|(_ & -> & ->)]; cbn;
    [|intros [= <- <-]; left; eauto].
  destruct (an_dial an) as [q|e]; cbn; [|intros [= <- <-]; right; left; eexists; split; [exact Hu|split; [reflexivity|eauto]]].
  destruct (an_local an) as [ip|e]; cbn; intros [= <- <-]; right; [right|left].
  - eexists _, _, _. split; [exact Hu|split; [reflexivity|done]].
  - eexists. split; [exact Hu|split; [reflexivity|eauto]].
Qed.

Lemma Register_cases w port host an s se w' r : HostConfig_Register w port host an s se = (w', r) ->
  (w' = w /\ exists e, r = Err e) \/
  (exists p, unused w p /\ w' = Transport_Close (attempt w port p) (next w) /\ exists e, r = Err e) \/
  (exists p h, unused w p /\ w' = attempt w port p /\ r = Ok h /\ h_transport h = next w /\ done (h_state h) = false).
Proof.
  unfold HostConfig_Register, NewHoster. destruct (connect w port host an) as [w1 r1] eqn:E.
  apply connect_cases in E as [(-> & e & ->)|[(p & Hu & -> & e & ->)|(p & ip & q & Hu & -> & _ & _ & ->)]].
  - intros [= <- <-]. left. split; [done|]. by eexists.
  - intros [= <- <-]. right; left. exists p. split; [done|split; [done|by eexists]].
  - unfold Client.NewHoster. destruct (register s) as [certs|e]; cbn.
    + intros [= <- <-]. right; right. by eexists p, _.
    + intros Hc. right; left. exists p.
      destruct (isHostAlreadyRegisteredError e); injection Hc as <- <-; (split; [done|split; [done|by eexists]]).
Qed.

Lemma Join_cases w port host an s ev li w' r : PeerConfig_Join w port host an s ev li = (w', r) ->
  (w' = w /\ exists e, r = Err e) \/
  (exists p, unused w p /\ w' = Transport_Close (attempt w port p) (next w) /\ exists e, r = Err e) \/
  (exists p pr, unused w p /\ w' = attempt w port p /\ r = Ok pr /\ j_transport (p_joiner pr) = next w).
Proof.
  unfold PeerConfig_Join, NewJoiner. destruct (connect w port host an) as [w1 r1] eqn:E.
  apply connect_cases in E as [(-> & e & ->)|[(p & Hu & -> & e & ->)|(p & ip & q & Hu & -> & _ & _ & ->)]]; cbn.
  - intros [= <- <-]. left. split; [done|]. by eexists.
  - intros [= <- <-]. right; left. exists p. split; [done|split; [done|by eexists]].
  - destruct (Join s ev) as [hc [e|]].
    + intros [= <- <-]. right; left. exists p. split; [done|split; [done|by eexists]].
    + destruct li as [g|e]; cbn; intros [= <- <-]; right; [right|left].
      * by eexists p, _.
      * exists p. split; [done|split; [done|by eexists]].
Qed.

(** The sockets after closing a transport. *)
Lemma Transport_Close_sockets w s t :
  is_Some (sockets (Transport_Close w s) !! t) <-> is_Some (sockets w !! t) /\ (closes_conn = true -> t <> s).
Proof.
  unfold Transport_Close. cbn. destruct closes_conn.
  - destruct (decide (t = s)) as [->|Hne]; [rewrite lookup_delete_eq|rewrite lookup_delete_ne by done].
    + split; [by intros []|intros [_ H]; by destruct H].
    + naive_solver.
  - naive_solver.
Qed.

Lemma attempt_sockets w port p t :
  is_Some (sockets (attempt w port p) !! t) <-> t = next w \/ is_Some (sockets w !! t).
Proof.
  unfold attempt. cbn. destruct (decide (t = next w)) as [->|Hne].
  - rewrite lookup_insert_eq. split; [by left|]. intros _. by eexists.
  - rewrite lookup_insert_ne by done. naive_solver.
Qed.

(** The ports of the sockets stay different. *)
Lemma attempt_ports w port p : (forall t t' q, sockets w !! t = Some q -> sockets w !! t' = Some q -> t = t') -> unused w p ->
  forall t t' q, sockets (attempt w port p) !! t = Some q -> sockets (attempt w port p) !! t' = Some q -> t = t'.
Proof.
  intros Hw Hu t t' q Ht Ht'. cbn in Ht, Ht'.
  apply lookup_insert_Some in Ht as [[<- <-]|[_ Ht]], Ht' as [[<- E]|[_ Ht']]; try done.
  - by apply Hu in Ht'.
  - subst q. by apply Hu in Ht.
  - by apply (Hw t t' q).
Qed.

Lemma subset_ports w w' : (forall t q, sockets w' !! t = Some q -> sockets w !! t = Some q) ->
  (forall t t' q, sockets w !! t = Some q -> sockets w !! t' = Some q -> t = t') ->
  forall t t' q, sockets w' !! t = Some q -> sockets w' !! t' = Some q -> t = t'.
Proof. intros Hs Hw t t' q ?%Hs ?%Hs. by apply (Hw t t' q). Qed.

Lemma Transport_Close_subset w s t q : sockets (Transport_Close w s) !! t = Some q -> sockets w !! t = Some q.
Proof. cbn. destruct closes_conn; [|done]. intros H. by apply lookup_delete_Some in H as [_ ?]. Qed.

(** An attempt that has failed. *)
Lemma failed_wf c port p : net_wf c -> unused (net c) p ->
  net_wf (mkClients (Transport_Close (attempt (net c) port p) (next (net c))) (hosts c) (peers c) (held c)).
Proof.
  intros [N1 N2 N3 N4 N5 N6 N7 N8] Hu.
  assert (forall t, live c t -> (t < next (net c))%nat) as Hlive.
  { intros t [(h & Hh & _)|[pr Hp]]; [by destruct (N2 _ _ Hh) as (_ & _ & ?)|by destruct (N3 _ _ Hp)]. }
  constructor; cbn [net hosts peers held].
  - intros t. cbn [Transport_Close attempt transports]. rewrite elem_of_difference, elem_of_union, elem_of_singleton, N1. unfold live in *; cbn in *.
    split; [naive_solver|]. intros Hl. split; [by right|]. intros ->. apply Hlive in Hl. lia.
  - intros t h Hh. destruct (N2 t h Hh) as (? & ? & ?). split_and!; [done|done|cbn; lia].
  - intros t pr Hp. destruct (N3 t pr Hp) as (? & ?). split; [done|cbn; lia].
  - intros t. rewrite Transport_Close_sockets, attempt_sockets. cbn. intros [[->|Hs%N4] _]; lia.
  - intros Hc t. cbn [Transport_Close attempt transports]. rewrite elem_of_difference, elem_of_union, elem_of_singleton.
    rewrite Transport_Close_sockets, attempt_sockets, (N5 Hc). naive_solver.
  - intros Hc t Ht. rewrite Transport_Close_sockets, attempt_sockets. split; [|congruence].
    destruct (decide (t = next (net c))); [by left|]. right. apply (N6 Hc). cbn in Ht. set_solver.
  - eapply subset_ports; [apply Transport_Close_subset|by apply attempt_ports].
  - intros t Ht%N8. cbn. lia.
Qed.

(** A new client. *)
Lemma client_wf c port p hs ps : net_wf c -> unused (net c) p ->
  (forall t, hs !! t = hosts c !! t \/ t = next (net c) /\ exists h, hs !! t = Some h /\ h_transport h = t) ->
  (forall t, ps !! t = peers c !! t \/ t = next (net c) /\ exists pr, ps !! t = Some pr /\ j_transport (p_joiner pr) = t) ->
  ((exists h, hs !! next (net c) = Some h /\ done (h_state h) = false) /\ ps = peers c \/
   is_Some (ps !! next (net c)) /\ hs = hosts c) ->
  net_wf (mkClients (attempt (net c) port p) hs ps ({[next (net c)]} ∪ held c)).
Proof.
  intros [N1 N2 N3 N4 N5 N6 N7 N8] Hu Hh Hp Hnew.
  assert (hosts c !! next (net c) = None) as Hfh
    by (destruct (hosts c !! next (net c)) as [h|] eqn:E; [apply N2 in E; lia|done]).
  assert (peers c !! next (net c) = None) as Hfp
    by (destruct (peers c !! next (net c)) as [h|] eqn:E; [apply N3 in E; lia|done]).
  assert (forall t, t <> next (net c) -> hs !! t = hosts c !! t /\ ps !! t = peers c !! t) as Hold.
  { intros t Hne. destruct (Hh t) as [->|[-> _]]; [|done]. by destruct (Hp t) as [->|[-> _]]. }
  constructor; cbn [net hosts peers held].
  - intros t. cbn. rewrite elem_of_union, elem_of_singleton, N1. unfold live; cbn.
    destruct (decide (t = next (net c))) as [->|Hne].
    + split; [|by left]. intros _. destruct Hnew as [[? _]|[? _]]; [by left|by right].
    + destruct (Hold t Hne) as [-> ->]. naive_solver.
  - intros t h Ht. destruct (decide (t = next (net c))) as [->|Hne].
    + destruct (Hh (next (net c))) as [E|(_ & h' & E & Hth)]; [congruence|].
      assert (h' = h) as -> by congruence. split_and!; [done| |cbn; lia].
      destruct Hnew as [[_ ->]|[_ ->]]; [done|congruence].
    + destruct (Hold t Hne) as [E1 E2]. rewrite E1 in Ht. rewrite E2. destruct (N2 t h Ht) as (? & ? & ?). split_and!; [done|done|cbn; lia].
  - intros t pr Ht. destruct (decide (t = next (net c))) as [->|Hne].
    + destruct (Hp (next (net c))) as [E|(_ & p' & E & Hth)]; [congruence|].
      assert (p' = pr) as -> by congruence. split; [done|cbn; lia].
    + destruct (Hold t Hne) as [E1 E2]. rewrite E2 in Ht. destruct (N3 t pr Ht) as (? & ?). split; [done|cbn; lia].
  - intros t. rewrite attempt_sockets. intros [->|Hs%N4]; cbn; lia.
  - intros Hc t. rewrite attempt_sockets, (N5 Hc). cbn. set_solver.
  - intros Hc t Ht. rewrite attempt_sockets. cbn in Ht.
    destruct (decide (t = next (net c))); [by left|]. right. apply (N6 Hc). set_solver.
  - by apply attempt_ports.
  - intros t [->%elem_of_singleton|Ht%N8]%elem_of_union; cbn; lia.
Qed.

(** Closing a client. *)
Lemma close_wf c t hs ps : net_wf c -> (t < next (net c))%nat ->
  (forall t', t' <> t -> hs !! t' = hosts c !! t' /\ ps !! t' = peers c !! t') ->
  (forall h, hs !! t = Some h -> h_transport h = t /\ done (h_state h) = true) -> ps !! t = None ->
  net_wf (mkClients (Transport_Close (net c) t) hs ps (held c)).
Proof.
  intros [N1 N2 N3 N4 N5 N6 N7 N8] Hlt Hold Hh Hp. constructor; cbn [net hosts peers held].
  - intros t'. cbn. rewrite elem_of_difference, elem_of_singleton, N1. unfold live; cbn.
    destruct (decide (t' = t)) as [->|Hne]; [|destruct (Hold t' Hne) as [-> ->]; naive_solver].
    split; [naive_solver|]. intros [(h & E & Hd)|Hs]; [|rewrite Hp in Hs; by destruct Hs].
    apply Hh in E as [_ E]. congruence.
  - intros t' h E. cbn. destruct (decide (t' = t)) as [->|Hne].
    + split_and!; [by apply Hh|done|done].
    + destruct (Hold t' Hne) as [E1 E2]. rewrite E1 in E. rewrite E2. by apply N2.
  - intros t' pr E. cbn. destruct (decide (t' = t)) as [->|Hne]; [congruence|].
    destruct (Hold t' Hne) as [_ E2]. rewrite E2 in E. by apply N3.
  - intros t'. rewrite Transport_Close_sockets. intros [Hs%N4 _]. exact Hs.
  - intros Hc t'. rewrite Transport_Close_sockets, (N5 Hc). cbn. set_solver.
  - intros Hc t' Ht. rewrite Transport_Close_sockets. split; [|congruence]. apply (N6 Hc). cbn in Ht. set_solver.
  - eapply subset_ports; [apply Transport_Close_subset|done].
  - exact N8.
Qed.

(** The program lets go of a client, and the collector closes a socket. *)
Lemma drop_wf c t : net_wf c -> net_wf (mkClients (net c) (hosts c) (peers c) (held c ∖ {[t]})).
Proof.
  intros [N1 N2 N3 N4 N5 N6 N7 N8]. constructor; cbn [net hosts peers held]; try done.
  - intros Hc t' Ht. apply (N6 Hc). set_solver.
  - intros t' Ht. apply N8. set_solver.
Qed.

Lemma collect_wf c t : net_wf c -> t ∉ held c -> t ∉ transports (net c) ->
  net_wf (mkClients (finalize (net c) t) (hosts c) (peers c) (held c)).
Proof.
  intros [N1 N2 N3 N4 N5 N6 N7 N8] Hh Ht. assert (forall t', t' <> t -> sockets (finalize (net c) t) !! t' = sockets (net c) !! t') as Hne
    by (intros t' Hne; cbn; by rewrite lookup_delete_ne).
  assert (sockets (finalize (net c) t) !! t = None) as Heq by apply lookup_delete_eq.
  constructor; cbn [net hosts peers held]; try done.
  - intros t' Hs. apply N4. destruct (decide (t' = t)) as [->|Hd]; [rewrite Heq in Hs; by destruct Hs|by rewrite Hne in Hs].
  - intros Hc t'. destruct (decide (t' = t)) as [->|Hd]; [|rewrite Hne by done; by apply N5].
    rewrite Heq. split; [by intros []|done].
  - intros Hc t' Hin. rewrite Hne; [by apply N6|]. intros ->. cbn in Hin. tauto.
  - eapply subset_ports; [|exact N7]. intros t' q. destruct (decide (t' = t)) as [->|Hd]; [by rewrite Heq|by rewrite Hne].
Qed.

Lemma op_step_wf c c' : net_wf c -> op_step c c' -> net_wf c'.
Proof.
  intros Hw [o Ho]. destruct o as [port host an s se|port host an s ev li|t|t le te|t|t]; cbn [do_op] in Ho.
  - destruct (HostConfig_Register _ _ _ _ _ _) as [w r] eqn:E. injection Ho as <-.
    apply Register_cases in E as [(-> & e & ->)|[(p & Hu & -> & e & ->)|(p & h & Hu & -> & -> & Ht & Hd)]].
    + by destruct c.
    + by apply failed_wf.
    + rewrite Ht. apply client_wf; [done|done| |by left|].
      * intros t. destruct (decide (t = next (net c))) as [->|]; [right|left; by rewrite lookup_insert_ne].
        split; [done|]. exists h. by rewrite lookup_insert_eq.
      * left. split; [|done]. exists h. by rewrite lookup_insert_eq.
  - destruct (PeerConfig_Join _ _ _ _ _ _ _) as [w r] eqn:E. injection Ho as <-.
    apply Join_cases in E as [(-> & e & ->)|[(p & Hu & -> & e & ->)|(p & pr & Hu & -> & -> & Ht)]].
    + by destruct c.
    + by apply failed_wf.
    + rewrite Ht. apply client_wf; [done|done|by left| |].
      * intros t. destruct (decide (t = next (net c))) as [->|]; [right|left; by rewrite lookup_insert_ne].
        split; [done|]. exists pr. by rewrite lookup_insert_eq.
      * right. split; [|done]. rewrite lookup_insert_eq. by eexists.
  - case_decide; [|done]. destruct (hosts c !! t) as [h|] eqn:Hh; [|done]. cbn in Ho. unfold Host_Close, Hoster_Close, Client.Hoster_Close in Ho.
    destruct (nw_host _ Hw t h Hh) as (Ht & Hp & Hlt).
    destruct (done (h_state h)); [done|]. cbn in Ho.
    assert (exists h', c' = mkClients (Transport_Close (net c) t) (<[t := mkHosterOf t h']> (hosts c)) (peers c) (held c) /\ done h' = true)
      as (h' & -> & Hd').
    { destruct (eg (h_state h)) as [e|]; [destruct (isLocalHTTP3CloseError e)|]; cbn in Ho; injection Ho as <-;
        rewrite Ht; by eexists. }
    apply close_wf; [done|done| | |done].
    + intros t' Hne. by rewrite lookup_insert_ne.
    + intros x. rewrite lookup_insert_eq. by intros [= <-].
  - case_decide; [|done]. destruct (peers c !! t) as [pr|] eqn:Hp; [|done]. cbn in Ho. injection Ho as <-.
    destruct (nw_peer _ Hw t pr Hp) as (Ht & Hlt).
    unfold Peer_Close, Joiner_Close. cbn [fst]. rewrite Ht. apply close_wf; [done|done| | |apply lookup_delete_eq].
    + intros t' Hne. by rewrite lookup_delete_ne.
    + intros h Hh. destruct (nw_host _ Hw t h Hh) as (_ & Hn & _). congruence.
  - injection Ho as <-. by apply drop_wf.
  - case_decide as Hd; [done|]. injection Ho as <-. apply collect_wf; tauto.
Qed.

Lemma made_wf c : made c -> net_wf c.
Proof.
  intros Hm. eapply (star_invariant op_step net_wf); [|exact Hm|]; [intros x y Hx Hy; by eapply op_step_wf|].
  constructor; cbn.
  - intros t. unfold live. cbn. rewrite !lookup_empty. split; [set_solver|]. intros [(h & [=] & _)|[x [=]]].
  - intros t h. by rewrite lookup_empty.
  - intros t p. by rewrite lookup_empty.
  - intros t. rewrite lookup_empty. by intros [].
  - intros _ t. rewrite lookup_empty. split; [by intros []|set_solver].
  - intros _ t. set_solver.
  - intros t t' p. by rewrite lookup_empty.
  - intros t. set_solver.
Qed.

(** What an operation other than [OpDrop t] does to a socket that the program
    still holds: nothing, when closing a transport does not close it. *)
Lemma held_stays c c' t p : closes_conn = false -> net_wf c -> op_step_holding t c c' -> t ∈ held c ->
  sockets (net c) !! t = Some p -> t ∈ held c' /\ sockets (net c') !! t = Some p.
Proof.
  intros Hcl Hw (o & Hne & Ho) Hh Ht.
  assert (forall port q, sockets (attempt (net c) port q) !! t = Some p) as Ha.
  { intros port q. cbn. rewrite lookup_insert_ne; [done|]. intros <-. pose proof (nw_held _ Hw _ Hh). lia. }
  assert (forall w s, sockets (Transport_Close w s) = sockets w) as Hc by (intros w s; cbn; by rewrite Hcl).
  destruct o as [port host an s se|port host an s ev li|t'|t' le te|t'|t']; cbn [do_op] in Ho.
  - destruct (HostConfig_Register _ _ _ _ _ _) as [w r] eqn:E. injection Ho as <-.
    apply Register_cases in E as [(-> & e & ->)|[(q & _ & -> & e & ->)|(q & h & _ & -> & -> & _)]]; cbn [net held]; rewrite ?Hc; set_solver.
  - destruct (PeerConfig_Join _ _ _ _ _ _ _) as [w r] eqn:E. injection Ho as <-.
    apply Join_cases in E as [(-> & e & ->)|[(q & _ & -> & e & ->)|(q & h & _ & -> & -> & _)]]; cbn [net held]; rewrite ?Hc; set_solver.
  - case_decide; [|done]. destruct (hosts c !! t') as [h|]; [|done]. cbn in Ho. unfold Host_Close, Hoster_Close, Client.Hoster_Close in Ho.
    destruct (done (h_state h)); [done|]. cbn in Ho.
    destruct (eg (h_state h)) as [e|]; [destruct (isLocalHTTP3CloseError e)|]; cbn in Ho; injection Ho as <-; cbn [net held]; by rewrite Hc.
  - case_decide; [|done]. destruct (peers c !! t') as [pr|]; [|done]. cbn in Ho. injection Ho as <-. unfold Peer_Close, Joiner_Close.
    cbn [net held fst]. by rewrite Hc.
  - injection Ho as <-. cbn [net held]. split; [|done]. assert (t' <> t) by congruence. set_solver.
  - case_decide as Hd; [done|]. injection Ho as <-. cbn [net held]. split; [done|]. cbn. rewrite lookup_delete_ne; [done|]. intros ->. tauto.
Qed.

Lemma socket_stays c c' t p : closes_conn = false -> made c -> star (op_step_holding t) c c' -> t ∈ held c ->
  sockets (net c) !! t = Some p -> sockets (net c') !! t = Some p.
Proof.
  intros Hcl Hm Hs Hh Ht. cut (net_wf c' /\ t ∈ held c' /\ sockets (net c') !! t = Some p); [by intros (_ & _ & ?)|].
  eapply (star_invariant (op_step_holding t) (fun c => net_wf c /\ t ∈ held c /\ sockets (net c) !! t = Some p)); [|exact Hs|].
  - clear -Hcl. intros c c' (Hw & Hh & Ht) Hs. split; [|by eapply held_stays].
    destruct Hs as (o & _ & Ho). eapply op_step_wf; [exact Hw|by exists o].
  - split; [by apply made_wf|done].
Qed.

(** A port in use. *)
Lemma connect_in_use w port host an t : sockets w !! t = Some port -> port <> 0 -> is_ok (ResolveUDPAddr (dial_address host)) = true ->
  connect w port host an = (w, Err (Wrapped "listen UDP" EADDRINUSE)).
Proof.
  intros Ht Hp Hr. unfold connect, ListenUDP. destruct (ResolveUDPAddr (dial_address host)) as [a|]; [|done]. cbn.
  rewrite (proj2 (Z.eqb_neq port 0)) by done. rewrite bool_decide_true; [done|].
  apply list_elem_of_fmap. exists (t, port). split; [done|]. by apply elem_of_map_to_list.
Qed.
End dial.

(** * The address *)

Definition https : str := bytes_of_string "https".
Definition digits (s : str) : Prop := valid_port s = true.

(** The host part of a URL as it is dialled: a name, or an IPv6 address in
    brackets. *)
Definition bracketed (h : str) : str := [lbrack] ++ h ++ [rbrack].

Definition url_host (h text : str) : Prop :=
  (plain h /\ h <> [] /\ text = h) \/ (colon ∈ h /\ (lbrack ∉ h) /\ (rbrack ∉ h) /\ text = bracketed h).

Lemma digits_no_colon ds : digits ds -> colon ∉ ds.
Proof.
  unfold digits, valid_port. rewrite forallb_forall. intros Hd Hin%list_elem_of_In%Hd. unfold colon in Hin. lia.
Qed.

Lemma unbracket_text h text : url_host h text -> unbracket text = h.
Proof.
  intros [((_ & Hl & Hr) & Hne & ->)|(Hc & Hl & Hr & ->)].
  - destruct h as [|c h]; [done|]. cbn [unbracket]. rewrite (proj2 (Z.eqb_neq c lbrack)) by set_solver. done.
  - unfold bracketed. cbn [app unbracket]. rewrite Z.eqb_refl. cbn [andb].
    rewrite bool_decide_true.
    + rewrite length_app. cbn [length]. replace (length h + 1 - 1)%nat with (length h) by lia. apply take_app_length.
    + change (lbrack :: h ++ [rbrack]) with ((lbrack :: h) ++ [rbrack]). apply last_snoc.
Qed.

(** Without a port there is none. *)
Lemma url_split_name h text : url_host h text -> url_splitHostPort text = (h, []).
Proof.
  intros Hu. pose proof (unbracket_text _ _ Hu) as Hb. unfold url_splitHostPort.
  destruct Hu as [((Hc & Hl & Hr) & Hne & ->)|(Hc & Hl & Hr & ->)].
  - rewrite last_index_None by done. by rewrite Hb.
  - apply list_elem_of_split_r in Hc as (a & b & -> & Hnb). unfold bracketed in *.
    replace ([lbrack] ++ (a ++ colon :: b) ++ [rbrack]) with ((lbrack :: a) ++ colon :: (b ++ [rbrack])) in *
      by (cbn; by rewrite <- (assoc_L (++))).
    rewrite last_index_app.
    + rewrite drop_app_ge by lia. replace (S (length (lbrack :: a)) - length (lbrack :: a))%nat with 1%nat by lia.
      cbn [drop]. rewrite drop_0. assert (valid_port (b ++ [rbrack]) = false) as ->; [|by rewrite Hb].
      unfold valid_port. rewrite forallb_app. cbn. apply andb_false_r.
    + rewrite elem_of_app, list_elem_of_singleton. unfold colon, rbrack in *. intros [?|?]; [done|lia].
Qed.

Lemma url_split_port h text ds : url_host h text -> digits ds -> url_splitHostPort (text ++ colon :: ds) = (h, ds).
Proof.
  intros Hu Hd. unfold url_splitHostPort. rewrite last_index_app by by apply digits_no_colon.
  rewrite drop_app_ge by lia. replace (S (length text) - length text)%nat with 1%nat by lia. cbn [drop].
  rewrite drop_0, Hd, take_app_length. by rewrite (unbracket_text h text).
Qed.

Lemma JoinHostPort_text h text port : url_host h text -> JoinHostPort h port = text ++ colon :: port.
Proof.
  unfold JoinHostPort, contains. intros [((Hc & _) & _ & ->)|(Hc & _ & _ & ->)].
  - by rewrite (proj2 (index_byte_None colon h) Hc).
  - destruct (index_byte colon h) eqn:E; [|by apply index_byte_None in E]. unfold bracketed. cbn.
    by rewrite <- (assoc_L (++)).
Qed.

(** The address resolved has the port of the URL, or [https]. *)
Lemma dial_address_text h text ds : url_host h text -> digits ds ->
  dial_address text = text ++ colon :: https /\
  dial_address (text ++ colon :: ds) = text ++ colon :: (if decide (ds = []) then https else ds).
Proof.
  intros Hu Hd. unfold dial_address, Port, Hostname. rewrite (url_split_name h text Hu), (url_split_port h text ds Hu Hd).
  cbn [fst snd]. rewrite decide_True by done. split; [by apply JoinHostPort_text|].
  destruct (decide (ds = [])); [by apply JoinHostPort_text|done].
Qed.

(** * Property *)

(** C36. The transports and the sockets of any hosts and peers that are made and
    closed one after the other, with whatever errors.  A transport is open
    exactly while its host or peer has not been closed: every error path closes
    it.  If closing a transport closed the socket, the same would hold of the
    sockets.  As it does not, only the garbage collector closes one: the port of
    a client that has been closed is refused to every later [Register] and
    [Join] for as long as the program refers to that client, and that of a
    client it has let go of, or of an attempt that failed, until the collector
    has found the socket, after which it can be listened on again.  The address
    dialled is that of the URL, with its port or [https]; the private address
    registered is the local address with the local port of the QUIC
    connection. *)
Theorem client_sockets (closes_conn : bool) (ResolveUDPAddr : str -> result goerror AddrPort) (c : clients)
    (Hm : made closes_conn ResolveUDPAddr c) :
  let refused c port := forall host an s serve_err ev listen, is_ok (ResolveUDPAddr (dial_address host)) = true ->
    HostConfig_Register closes_conn ResolveUDPAddr (net c) port host an s serve_err
      = (net c, Err (Wrapped "create hoster" (Wrapped "listen UDP" EADDRINUSE))) /\
    PeerConfig_Join closes_conn ResolveUDPAddr (net c) port host an s ev listen
      = (net c, Err (Wrapped "create joiner" (Wrapped "listen UDP" EADDRINUSE))) in
  (forall t, t ∈ transports (net c) <-> live c t) /\
  (closes_conn = true -> forall t, is_Some (sockets (net c) !! t) <-> live c t) /\
  (closes_conn = false ->
     (forall t, t ∈ transports (net c) \/ t ∈ held c -> is_Some (sockets (net c) !! t)) /\
     (forall t port, sockets (net c) !! t = Some port -> port <> 0 -> t ∈ held c ->
        forall c', star (op_step_holding closes_conn ResolveUDPAddr t) c c' -> refused c' port)) /\
  (forall t port, sockets (net c) !! t = Some port -> port <> 0 -> t ∉ held c -> t ∉ transports (net c) ->
     refused c port /\ exists c', do_op closes_conn ResolveUDPAddr c (OpCollect t) = Some (Ret c') /\
       sockets (net c') !! t = None /\ forall free, exists w s, ListenUDP (net c') port free = (w, Ok s)) /\
  (forall h text ds, url_host h text -> digits ds ->
     dial_address text = text ++ colon :: https /\
     dial_address (text ++ colon :: ds) = text ++ colon :: (if decide (ds = []) then https else ds)) /\
  (forall port host an w j, NewJoiner closes_conn ResolveUDPAddr (net c) port host an = (w, Ok j) ->
     exists ip p, an_local an = Ok ip /\ an_dial an = Ok p /\ j_privateAddr j = AddrPortFrom ip p).
Proof.
  intros refused. pose proof (made_wf _ _ _ Hm) as [N1 N2 N3 N4 N5 N6 N7 N8].
  assert (forall c t port, sockets (net c) !! t = Some port -> port <> 0 -> refused c port) as Href.
  { intros c0 t port Ht Hp host an s se ev li Hr.
    pose proof (connect_in_use closes_conn ResolveUDPAddr (net c0) port host an t Ht Hp Hr) as E.
    unfold HostConfig_Register, PeerConfig_Join, NewHoster, NewJoiner. by rewrite E. }
  split_and!.
  - exact N1.
  - intros Hc t. by rewrite (N5 Hc), N1.
  - intros Hc. split; [by apply N6|]. intros t port Ht Hp Hh c' Hs. apply (Href c' t); [|done].
    exact (socket_stays _ _ c c' t port Hc Hm Hs Hh Ht).
  - intros t port Ht Hp Hh Htr. split; [by apply (Href c t)|]. eexists. split; [cbn; rewrite decide_False by tauto; reflexivity|].
    cbn [net]. split; [apply lookup_delete_eq|]. intros free.
    destruct (ListenUDP (finalize (net c) t) port free) as [w r] eqn:El. apply ListenUDP_cases in El.
    rewrite (proj2 (Z.eqb_neq port 0)) in El by done. destruct El as [(_ & -> & ->)|(Hu & _)]; [by eexists _, _|].
    exfalso. apply Hu. intros t' Ht'. cbn in Ht'. apply lookup_delete_Some in Ht' as [Hne Ht']. by apply Hne, (N7 t t' port).
  - intros h text ds. apply dial_address_text.
  - intros port host an w j. unfold NewJoiner. destruct (connect _ _ _ _ _ _) as [w1 r1] eqn:E.
    apply connect_cases in E as [(-> & e & ->)|[(p & Hu & -> & e & ->)|(p & ip & q & Hu & -> & Hq & Hip & ->)]]; [done..|].
    intros [= <- <-]. by exists ip, q.
Qed.

(** * Witness *)

Definition demo_answers : answers := mkAnswers 40000 (Ok 7000) (Ok (Addr4 [10; 0; 0; 9])).
Definition demo_resolve (_ : str) : result goerror AddrPort := Ok AddrPort_zero.
Definition demo_script : register_script := accepted_script (Ok (200, [])) (Ok (root_cert demo_root, root_cert demo_root)).
Definition demo_host : str := bytes_of_string "star.example".

(** A host on port 7000 that was closed: the next one is refused, until the
    program has let go of the first and its socket has been collected. *)
Lemma client_sockets_witness :
  exists c, made false demo_resolve c /\ transports (net c) = ∅ /\
    HostConfig_Register false demo_resolve (net c) 7000 demo_host demo_answers demo_script ErrHosterClosed
    = (net c, Err (Wrapped "create hoster" (Wrapped "listen UDP" EADDRINUSE))) /\
    exists c1 c2, do_op false demo_resolve c (OpDrop 0) = Some (Ret c1) /\ do_op false demo_resolve c1 (OpCollect 0) = Some (Ret c2) /\
      sockets (net c2) !! 0%nat = None.
Proof.
  pose (o1 := OpRegister 7000 demo_host demo_answers demo_script (HTTP3Error false errCodeClientClosed)).
  assert (exists c1 c c2, do_op false demo_resolve no_clients o1 = Some (Ret c1) /\
    do_op false demo_resolve c1 (OpCloseHost 0) = Some (Ret c) /\ sockets (net c) !! 0%nat = Some 7000 /\ transports (net c) = ∅ /\ 0%nat ∈ held c /\
    do_op false demo_resolve c (OpDrop 0) = Some (Ret c2) /\ sockets (net c2) !! 0%nat = Some 7000 /\ transports (net c2) = ∅ /\ held c2 = ∅)
    as (c1 & c & c2 & E1 & E2 & Es & Et & Eh & E3 & Es2 & Et2 & Eh2).
  { eexists _, _, _. split; [reflexivity|]. split; [reflexivity|]. split; [reflexivity|]. split; [reflexivity|].
    split; [apply (bool_decide_unpack _); reflexivity|]. repeat (split; [reflexivity|]). reflexivity. }
  assert (made false demo_resolve c) as Hm.
  { eapply star_step; [by exists o1|]. apply star_one. by exists (OpCloseHost 0). }
  assert (made false demo_resolve c2) as Hm2.
  { eapply star_step; [by exists o1|]. eapply star_step; [by exists (OpCloseHost 0)|]. apply star_one. by exists (OpDrop 0). }
  exists c. split; [exact Hm|]. split; [exact Et|]. split.
  - exact (proj1 (proj2 (proj1 (proj2 (proj2 (client_sockets false demo_resolve c Hm))) eq_refl)
      0%nat 7000 Es ltac:(discriminate) Eh c (star_refl _ c) demo_host demo_answers demo_script ErrHosterClosed (JoinConn 0) (Ok 0%nat) eq_refl)).
  - destruct (proj2 (proj1 (proj2 (proj2 (proj2 (client_sockets false demo_resolve c2 Hm2)))) 0%nat 7000 Es2 ltac:(discriminate)
      ltac:(rewrite Eh2; set_solver) ltac:(rewrite Et2; set_solver))) as (c3 & E4 & Hn & _).
    exists c2, c3. split; [exact E3|]. split; [exact E4|exact Hn].
Defined.
