(* ===== verification/AddrText.v ===== *)
(** The texts of net/netip addresses that the program prints: [Addr.String] and
    [AddrPort.String], with the compression of zeros of IPv6. *)
From S2P Require Import Prelude Text Netip Http.
Local Open Scope Z_scope.

(** [Addr.v6u16]: the eight groups of an address. *)
Fixpoint groups (ip : list Z) : list Z :=
  match ip with a :: b :: ip => (a * 256 + b) :: groups ip | _ => [] end.

(** [appendHex]: no leading zeros. *)
Definition hex_text (x : Z) : str :=
  let digit s := enc_char hex_digits (Z.land (Z.shiftr x s) 15) in
  (if 4096 <=? x then [digit 12] else []) ++ (if 256 <=? x then [digit 8] else []) ++
  (if 16 <=? x then [digit 4] else []) ++ [digit 0].

(** [appendTo4] *)
Definition text4 (ip : list Z) : str :=
  match ip with [] => [] | b :: ip => Itoa b ++ flat_map (fun b => 46 :: Itoa b) ip end.

(** How many groups from the first one are zero. *)
Fixpoint zero_run (gs : list Z) : nat :=
  match gs with g :: gs => if g =? 0 then S (zero_run gs) else 0%nat | [] => 0%nat end.

(** The first loop of [appendTo6]: the first of the longest runs of at least two
    zero groups, as its start and its end. *)
Definition longest_zeros (gs : list Z) : nat * nat :=
  foldl (fun '(s, e) i =>
           let l := zero_run (drop i gs) in
           if (2 <=? l)%nat && (e - s <? l)%nat then (i, (i + l)%nat) else (s, e))
    (255, 255)%nat (seq 0 8).

(** Its second loop from index [i], of at most [n] iterations. *)
Fixpoint print_groups (gs : list Z) (zs ze : nat) (n i : nat) : str :=
  match n with
  | O => []
  | S n =>
      if (i =? zs)%nat then
        [colon; colon] ++
        (if (8 <=? ze)%nat then [] else hex_text (nth ze gs 0) ++ print_groups gs zs ze n (S ze))
      else if (8 <=? i)%nat then []
      else (if (0 <? i)%nat then [colon] else []) ++ hex_text (nth i gs 0) ++ print_groups gs zs ze n (S i)
  end.

Definition text6 (ip : list Z) : str :=
  let gs := groups ip in
  let '(zs, ze) := longest_zeros gs in print_groups gs zs ze 8 0.

Definition zone_text (zone : list Z) : str := if decide (zone = []) then [] else 37 :: zone.

(** [Addr.Is4In6] *)
Definition Is4In6 (ip : list Z) : bool := bool_decide (take 12 ip = replicate 10 0 ++ [255; 255]).

(** [AddrPort.String] *)
Definition AddrPort_String (p : AddrPort) : str :=
  match ap_addr p with
  | AddrZero => bytes_of_string "invalid AddrPort"
  | Addr4 ip => text4 ip ++ [colon] ++ Itoa (ap_port p)
  | Addr6 ip zone =>
      [lbrack] ++ (if Is4In6 ip then bytes_of_string "::ffff:" ++ text4 (drop 12 ip) else text6 ip)
        ++ zone_text zone ++ [rbrack; colon] ++ Itoa (ap_port p)
  end.

Example text_v4 : AddrPort_String (AddrPortFrom (Addr4 [10; 0; 200; 1]) 8080) = bytes_of_string "10.0.200.1:8080".
Proof. reflexivity. Qed.
Example text_v6 : AddrPort_String (AddrPortFrom (Addr6 ([32; 1; 13; 184] ++ replicate 10 0 ++ [1; 10]) (bytes_of_string "eth0")) 443)
  = bytes_of_string "[2001:db8::10a%eth0]:443".
Proof. reflexivity. Qed.
Example text_v6_zero : AddrPort_String (AddrPortFrom (Addr6 (replicate 16 0) []) 1) = bytes_of_string "[::]:1".
Proof. reflexivity. Qed.
Example text_v6_mapped : AddrPort_String (AddrPortFrom (Addr6 (replicate 10 0 ++ [255; 255; 10; 0; 0; 1]) []) 1)
  = bytes_of_string "[::ffff:10.0.0.1]:1".
Proof. reflexivity. Qed.
Example text_v6_runs : AddrPort_String (AddrPortFrom (Addr6 [0; 0; 0; 0; 0; 1; 0; 0; 0; 0; 0; 0; 0; 2; 0; 0] []) 1)
  = bytes_of_string "[0:0:1::2:0]:1".
Proof. reflexivity. Qed.

(** * Printed characters *)

(** A character of one line. *)
Definition printed (c : Z) : Prop := 32 <= c <= 126.

(** Constants are checked by evaluation. *)
Lemma printed_const (s : str) : forallb (fun c => (32 <=? c) && (c <=? 126)) s = true -> Forall printed s.
Proof.
  rewrite forallb_forall, Forall_forall. intros Hs c Hc%list_elem_of_In%Hs. unfold printed. lia.
Qed.

Lemma printed_digit v : printed (enc_char hex_digits (Z.land v 15)).
Proof.
  assert (Forall printed hex_digits) as Hd by by apply printed_const.
  change 15 with (Z.ones 4). rewrite (Z.land_ones v 4) by lia. pose proof (Z.mod_pos_bound v (2 ^ 4) ltac:(lia)) as Hv.
  unfold enc_char. rewrite Forall_forall in Hd. apply Hd. apply list_elem_of_In, nth_In.
  change (length hex_digits) with 16%nat. lia.
Qed.

Lemma printed_Itoa n : 0 <= n -> Forall printed (Itoa n).
Proof.
  intros Hn. eapply Forall_impl; [apply (Itoa_spec n Hn)|]. unfold printed. cbn. lia.
Qed.

Lemma printed_hex_text x : Forall printed (hex_text x).
Proof.
  unfold hex_text. repeat apply Forall_app_2; try case_match; auto using printed_digit.
Qed.

Lemma printed_colon : printed colon.
Proof. unfold printed, colon. lia. Qed.

Lemma printed_text4 ip : bytes_ok ip -> Forall printed (text4 ip).
Proof.
  unfold bytes_ok, is_byte. destruct ip as [|b ip]; [done|]. intros [Hb Hip]%Forall_cons. cbn.
  apply Forall_app_2; [apply printed_Itoa; lia|]. induction Hip as [|c ip Hc Hip IH]; [done|]. cbn.
  apply Forall_cons. split; [unfold printed; lia|]. apply Forall_app_2; [apply printed_Itoa; lia|done].
Qed.

Lemma printed_groups gs zs ze n : forall i, Forall printed (print_groups gs zs ze n i).
Proof.
  assert (Forall printed [colon]) as H1 by (constructor; [apply printed_colon|done]).
  assert (Forall printed [colon; colon]) as H2 by (constructor; [apply printed_colon|done]).
  induction n as [|n IH]; intros i; [done|]. cbn [print_groups].
  destruct (i =? zs)%nat; [apply Forall_app_2; [done|]; case_match; [done|]|case_match; [done|]];
    repeat (apply printed_hex_text || apply Forall_app_2); auto. by destruct (0 <? i)%nat.
Qed.

(** An address whose zone is on one line prints on one line. *)
Lemma printed_AddrPort_String p :
  AddrPort_wf p -> match ap_addr p with AddrZero => True | Addr4 ip => bytes_ok ip | Addr6 ip z => bytes_ok ip /\ Forall printed z end ->
  Forall printed (AddrPort_String p).
Proof.
  intros [_ Hport] Hp. assert (Forall printed (Itoa (ap_port p))) as Hi by (apply printed_Itoa; lia).
  unfold AddrPort_String. destruct (ap_addr p) as [|ip|ip z].
  - by apply printed_const.
  - apply Forall_app_2; [by apply printed_text4|]. cbn. auto using printed_colon.
  - destruct Hp as [Hip Hz]. repeat apply Forall_app_2.
    + constructor; [unfold printed, lbrack; lia|done].
    + case_match; [apply Forall_app_2|unfold text6; case_match; apply printed_groups].
      * by apply printed_const.
      * apply printed_text4. by apply Forall_drop.
    + unfold zone_text. case_match; [done|]. constructor; [unfold printed; lia|done].
    + repeat constructor; unfold printed, rbrack, colon; lia.
    + done.
Qed.
