(* ===== verification/Events.v ===== *)
(** The hosts and the events of the admin page: the callbacks [NewAdmin] sets,
    [broadcast], [handleEvents], [handleStats] and [Stop] of
    [internal/registar/admin/admin.go], behind the registar server of [Registar].

    A callback has two critical sections, one on [hostsMu] of the page and one on
    [subsMu]; a request to [/events] is a handler with a program counter.
    Subscriber channels are named by numbers and live in a heap. *)
From S2P Require Import Prelude Text Auth Netip Errors Control CA Registar Http AddrText.

(** * Messages *)

Inductive callback :=
| HostConnected (k : Key) (a : AddrPair)
| HostDisconnected (k : Key)
| PeerConnected (k : Key) (a : AddrPair).

Definition addrs_text (a : AddrPair) : str :=
  bytes_of_string " public=" ++ AddrPort_String (Public a) ++ bytes_of_string " private=" ++ AddrPort_String (Private a).

(** What a callback broadcasts. *)
Definition message (cb : callback) : str :=
  match cb with
  | HostConnected k a => bytes_of_string "host connected key=" ++ Key_String k ++ addrs_text a
  | HostDisconnected k => bytes_of_string "host disconnected key=" ++ Key_String k
  | PeerConnected k a => bytes_of_string "peer connected key=" ++ Key_String k ++ addrs_text a
  end.

(** The text of an event on the wire. *)
Definition frame (msg : str) : str := bytes_of_string "data: " ++ msg ++ [10; 10]%Z.

(** * The page *)

(** A subscriber channel. *)
Record channel := mkChan { ch_buf : list str; ch_closed : bool }.

Definition chan_size : nat := 10.

(** Where a request to [/events] is: before its first flush, before it
    subscribes, in its loop, in its deferred function, or returned. *)
Inductive pc := Flushing | Subscribing | Selecting (ch : nat) | Leaving (ch : nat) | Returned.

(** A request: [h_out] are the messages written, [h_since] how many messages had
    been broadcast when it subscribed. *)
Record handler := mkHandler { h_pc : pc; h_gone : bool; h_out : list str; h_since : nat; h_status : Z }.

(** A callback under way: before its section on the hosts, or before its
    broadcast; [held] tells that the caller holds the server's [hostsMu]. *)
Inductive calling := OnHosts (cb : callback) | OnSubs (cb : callback).

(** [type Admin struct], without the bandwidth ring, and what surrounds it: the
    requests, the callbacks under way, and all messages broadcast. *)
Record Admin := mkAdmin {
  activeHosts : gmap Key AddrPair;
  subscribers : gset nat;
  chans : gmap nat channel;
  next : nat;
  handlers : list handler;
  calls : list calling;
  stopped : bool;
  scraping : bool;
  sent : list str;
}.

(** [NewAdmin] *)
Definition NewAdmin : Admin := mkAdmin ∅ ∅ ∅ 0 [] [] false true [].

Definition set_hosts (a : Admin) (h : gmap Key AddrPair) : Admin :=
  mkAdmin h (subscribers a) (chans a) (next a) (handlers a) (calls a) (stopped a) (scraping a) (sent a).
Definition set_calls (a : Admin) (c : list calling) : Admin :=
  mkAdmin (activeHosts a) (subscribers a) (chans a) (next a) (handlers a) c (stopped a) (scraping a) (sent a).
Definition set_handlers (a : Admin) (h : list handler) : Admin :=
  mkAdmin (activeHosts a) (subscribers a) (chans a) (next a) h (calls a) (stopped a) (scraping a) (sent a).
Definition set_subs (a : Admin) (s : gset nat) (c : gmap nat channel) (n : nat) (m : list str) : Admin :=
  mkAdmin (activeHosts a) s c n (handlers a) (calls a) (stopped a) (scraping a) m.
Definition set_stopped (a : Admin) (s r : bool) : Admin :=
  mkAdmin (activeHosts a) (subscribers a) (chans a) (next a) (handlers a) (calls a) s r (sent a).

(** The first section of a callback: [PeerConnected] has none. *)
Definition on_hosts (cb : callback) (h : gmap Key AddrPair) : gmap Key AddrPair :=
  match cb with
  | HostConnected k a => <[k := a]> h
  | HostDisconnected k => delete k h
  | PeerConnected _ _ => h
  end.

(** [select { case ch <- msg: default: }]: a send on a closed channel panics. *)
Definition try_send (c : channel) (msg : str) : outcome channel :=
  if ch_closed c then Panic
  else if decide (length (ch_buf c) < chan_size) then Ret (mkChan (ch_buf c ++ [msg]) false)
  else Ret c.

(** The loop of [broadcast] over the subscribers, in some order. *)
Fixpoint send_all (cs : gmap nat channel) (subs : list nat) (msg : str) : outcome (gmap nat channel) :=
  match subs with
  | [] => Ret cs
  | s :: subs =>
      c ← or_panic (cs !! s);
      c' ← try_send c msg;
      send_all (<[s := c']> cs) subs msg
  end.

Definition broadcast (a : Admin) (msg : str) : outcome Admin :=
  cs ← send_all (chans a) (elements (subscribers a)) msg;
  Ret (set_subs a (subscribers a) cs (next a) (sent a ++ [msg])).

(** [close(ch)] *)
Definition close_chan (cs : gmap nat channel) (s : nat) : outcome (gmap nat channel) :=
  c ← or_panic (cs !! s);
  if ch_closed c then Panic else Ret (<[s := mkChan (ch_buf c) true]> cs).

(** A section of callback [i]. *)
Definition call_step (a : Admin) (i : nat) : option (outcome Admin) :=
  c ← calls a !! i;
  Some match c with
       | OnHosts cb => Ret (set_calls (set_hosts a (on_hosts cb (activeHosts a))) (<[i := OnSubs cb]> (calls a)))
       | OnSubs cb => a' ← broadcast a (message cb); Ret (set_calls a' (delete i (calls a)))
       end.

(** What the handler's step is told: whether the flush succeeds, and which ready
    case of the select is taken. *)
Inductive answer := FlushOk | FlushFails | TakeMessage | TakeGone | TakeStopped | Next.

Definition set_pc (h : handler) (p : pc) : handler := mkHandler p (h_gone h) (h_out h) (h_since h) (h_status h).

(** [handleEvents] *)
Definition handleEvents (a : Admin) (h : handler) (x : answer) : option (outcome (Admin * handler)) :=
  match h_pc h, x with
  | Flushing, FlushOk => Some (Ret (a, set_pc h Subscribing))
  | Flushing, FlushFails => Some (Ret (a, mkHandler Returned (h_gone h) (h_out h) (h_since h) 500))
  | Subscribing, Next =>
      let ch := next a in
      Some (Ret (set_subs a ({[ch]} ∪ subscribers a) (<[ch := mkChan [] false]> (chans a)) (S ch) (sent a),
                 mkHandler (Selecting ch) (h_gone h) (h_out h) (length (sent a)) (h_status h)))
  | Selecting ch, TakeMessage =>
      match chans a !! ch with
      | None => Some Panic
      | Some c =>
          match ch_buf c with
          | msg :: rest =>
              Some (Ret (set_subs a (subscribers a) (<[ch := mkChan rest (ch_closed c)]> (chans a)) (next a) (sent a),
                         mkHandler (Selecting ch) (h_gone h) (h_out h ++ [msg]) (h_since h) (h_status h)))
          | [] => if ch_closed c then Some (Ret (a, set_pc h (Leaving ch))) else None
          end
      end
  | Selecting ch, TakeGone => if h_gone h then Some (Ret (a, set_pc h (Leaving ch))) else None
  | Selecting ch, TakeStopped => if stopped a then Some (Ret (a, set_pc h (Leaving ch))) else None
  | Leaving ch, Next =>
      Some (cs ← close_chan (chans a) ch;
            Ret (set_subs a (subscribers a ∖ {[ch]}) cs (next a) (sent a), set_pc h Returned))
  | _, _ => None
  end.

Inductive label :=
| LCall (i : nat)                      (* a section of a callback *)
| LRequest                             (* GET /events *)
| LHandler (i : nat) (x : answer)
| LGone (i : nat)                      (* the context of request i ends *)
| LStop                                (* Stop: close(a.stopped) *)
| LScraper.                            (* the scraper sees stopped *)

Definition step (a : Admin) (l : label) : option (outcome Admin) :=
  match l with
  | LCall i => call_step a i
  | LRequest => Some (Ret (set_handlers a (handlers a ++ [mkHandler Flushing false [] 0 200])))
  | LHandler i x =>
      h ← handlers a !! i;
      r ← handleEvents a h x;
      Some ('(a', h') ← r; Ret (set_handlers a' (<[i := h']> (handlers a))))
  | LGone i =>
      h ← handlers a !! i;
      Some (Ret (set_handlers a (<[i := mkHandler (h_pc h) true (h_out h) (h_since h) (h_status h)]> (handlers a))))
  | LStop => Some (if stopped a then Panic else Ret (set_stopped a true (scraping a)))
  | LScraper => if stopped a && scraping a then Some (Ret (set_stopped a true false)) else None
  end.

(** [Stop] returns when the scraper has: after [close], and once it has ended. *)
Definition Stop_returned (a : Admin) : bool := stopped a && negb (scraping a).

(** ** Statistics *)

(** [type hostInfo struct] *)
Record hostInfo := mkHostInfo { hi_Key : str; hi_Public : str; hi_Private : str }.

(** [type statsResponse struct] *)
Record statsResponse := mkStatsResponse {
  sr_RegisteredConns : nat;
  sr_WaitingRelays : nat;
  sr_BytesRelayed : Z;
  sr_P2PConns : Z;
  sr_RelayConns : Z;
  sr_ActiveHosts : list hostInfo;
}.

Definition host_info (p : Key * AddrPair) : hostInfo :=
  mkHostInfo (Key_String p.1) (AddrPort_String (Public p.2)) (AddrPort_String (Private p.2)).

(** [handleStats], from what [Stats] returned and the hosts it read afterwards,
    in some order. *)
Definition handleStats (stats : Stats) (bytesRelayed : Z) (a : Admin) : statsResponse :=
  mkStatsResponse (RegisteredConns stats) (WaitingRelays stats) bytesRelayed (P2PConns stats) (RelayConns stats)
    (map host_info (map_to_list (activeHosts a))).

(** * Reading an event stream *)

(** The lines of a stream, which end with LF, CR or CR LF; [after_cr] tells that
    the last character was a CR. *)
Fixpoint stream_lines (after_cr : bool) (line : str) (s : str) : list str :=
  match s with
  | [] => []
  | c :: s =>
      if (c =? 10)%Z then (if after_cr then stream_lines false [] s else line :: stream_lines false [] s)
      else if (c =? 13)%Z then line :: stream_lines true [] s
      else stream_lines false (line ++ [c]) s
  end.

(** The value of a data line: after its colon one space is dropped. *)
Definition data_line (line : str) : option str :=
  if decide (take 5 line = bytes_of_string "data:") then
    match drop 5 line with 32%Z :: v => Some v | v => Some v end
  else None.

(** The events of a list of lines: an empty line dispatches the data lines
    before it, joined by LF. *)
Fixpoint read_lines (data : option str) (ls : list str) : list str :=
  match ls with
  | [] => []
  | [] :: ls => match data with Some d => d :: read_lines None ls | None => read_lines None ls end
  | line :: ls =>
      match data_line line with
      | Some v => read_lines (Some (match data with Some d => d ++ [10]%Z ++ v | None => v end)) ls
      | None => read_lines data ls
      end
  end.

Definition read_events (s : str) : list str := read_lines None (stream_lines false [] s).

(** A character that does not end a line. *)
Definition unbroken (c : Z) : Prop := c <> 10%Z /\ c <> 13%Z.

Lemma printed_unbroken line : Forall printed line -> Forall unbroken line.
Proof. intros Hp. eapply Forall_impl; [exact Hp|]. unfold printed, unbroken. cbn. lia. Qed.

Lemma stream_lines_unbroken line : forall acc s, Forall unbroken line ->
  stream_lines false acc (line ++ 10%Z :: s) = (acc ++ line) :: stream_lines false [] s.
Proof.
  induction line as [|c line IH]; intros acc s Hp; cbn [app stream_lines]; [by rewrite app_nil_r|].
  apply Forall_cons in Hp as [Hc Hp]. unfold unbroken in Hc.
  destruct (c =? 10)%Z eqn:E1; [lia|]. destruct (c =? 13)%Z eqn:E2; [lia|].
  rewrite IH by done. by rewrite <- (assoc_L (++)).
Qed.

(** A frame, and what follows an event with its blank line. *)
Lemma read_frame_app m rest : Forall unbroken m ->
  read_events (frame m ++ rest) = m :: read_events rest.
Proof.
  intros Hm. unfold read_events, frame. rewrite <- !(assoc_L (++)). change ([10; 10]%Z ++ rest) with (10%Z :: 10%Z :: rest).
  rewrite (assoc_L (++) (bytes_of_string "data: ")), stream_lines_unbroken.
  2: { apply Forall_app_2; [by apply printed_unbroken, printed_const|done]. }
  cbn [app]. change (stream_lines false [] (10%Z :: rest)) with ([] :: stream_lines false [] rest).
  change (bytes_of_string "data: ") with [100; 97; 116; 97; 58; 32]%Z. cbn [app read_lines].
  unfold data_line. cbn [take drop]. by rewrite decide_True by reflexivity.
Qed.

Lemma read_blank rest : read_events (10%Z :: rest) = read_events rest.
Proof. done. Qed.

(** Messages on one line are read as they were sent. *)
Lemma read_frames msgs : Forall (Forall printed) msgs -> read_events (flat_map frame msgs) = msgs.
Proof.
  induction 1 as [|m msgs Hm Hms IH]; [done|]. cbn [flat_map]. rewrite read_frame_app by by apply printed_unbroken. by rewrite IH.
Qed.

(** * Invariant *)

(** The channel a request will close. *)
Definition owned (h : handler) : option nat :=
  match h_pc h with Selecting ch | Leaving ch => Some ch | _ => None end.

(** What a request has written, with what waits in its channel, of the messages
    since it subscribed. *)
Definition delivered (a : Admin) (h : handler) : Prop :=
  match h_pc h with
  | Flushing | Subscribing => h_out h = []
  | Selecting ch | Leaving ch =>
      exists c, chans a !! ch = Some c /\ (length (ch_buf c) <= chan_size)%nat /\ (h_since h <= length (sent a))%nat /\
        h_out h ++ ch_buf c `sublist_of` drop (h_since h) (sent a) /\
        (h_out h ++ ch_buf c = drop (h_since h) (sent a) \/ (chan_size < length (drop (h_since h) (sent a)))%nat)
  | Returned => h_out h `sublist_of` drop (h_since h) (sent a)
  end.

Record ev_wf (a : Admin) : Prop := {
  ew_open : forall s, s ∈ subscribers a -> (s < next a)%nat /\ exists c, chans a !! s = Some c /\ ch_closed c = false;
  ew_owner : forall i h ch, handlers a !! i = Some h -> owned h = Some ch -> ch ∈ subscribers a;
  ew_inj : forall i j h h' ch, handlers a !! i = Some h -> handlers a !! j = Some h' ->
    owned h = Some ch -> owned h' = Some ch -> i = j;
  ew_data : forall i h, handlers a !! i = Some h -> delivered a h;
}.

(** A channel after a message. *)
Definition pushed (msg : str) (c : channel) : channel :=
  if decide (length (ch_buf c) < chan_size)%nat then mkChan (ch_buf c ++ [msg]) false else c.

Lemma send_all_spec msg subs : forall cs, NoDup subs ->
  (forall s, s ∈ subs -> exists c, cs !! s = Some c /\ ch_closed c = false) ->
  exists cs', send_all cs subs msg = Ret cs' /\
    forall s, cs' !! s = if decide (s ∈ subs) then pushed msg <$> cs !! s else cs !! s.
Proof.
  induction subs as [|s subs IH]; intros cs Hnd Ho; [exists cs; split; [done|]; intros s; by rewrite decide_False by set_solver|].
  apply NoDup_cons in Hnd as [Hs Hnd]. destruct (Ho s) as (c & Hc & Hcl); [by left|].
  cbn. rewrite Hc. cbn. unfold try_send. rewrite Hcl.
  assert ((if decide (length (ch_buf c) < chan_size)%nat then Ret (mkChan (ch_buf c ++ [msg]) false) else Ret c) = Ret (pushed msg c)) as ->
    by (unfold pushed; by case_decide).
  cbn. destruct (IH (<[s := pushed msg c]> cs)) as (cs' & -> & H'); [done| |].
  - intros s' Hs'. rewrite lookup_insert_ne by (intros ->; done). apply Ho. by right.
  - exists cs'. split; [done|]. intros s'. rewrite H'. destruct (decide (s' = s)) as [->|Hne].
    + rewrite decide_False, decide_True by (done || by left). by rewrite lookup_insert_eq, Hc.
    + rewrite lookup_insert_ne by done. destruct (decide (s' ∈ subs)).
      * by rewrite decide_True by (by right).
      * rewrite decide_False; [done|]. intros [->|?]%elem_of_cons; done.
Qed.

Lemma sublist_snoc {X} (l k : list X) x : l `sublist_of` k -> l `sublist_of` k ++ [x].
Proof. intros Hl. by apply sublist_inserts_r. Qed.

Lemma broadcast_wf a msg : ev_wf a ->
  exists a', broadcast a msg = Ret a' /\ ev_wf a' /\ sent a' = sent a ++ [msg] /\ activeHosts a' = activeHosts a /\
    calls a' = calls a /\ stopped a' = stopped a.
Proof.
  intros [W1 W2 W3 W4]. unfold broadcast.
  destruct (send_all_spec msg (elements (subscribers a)) (chans a)) as (cs & -> & Hcs).
  { apply NoDup_elements. }
  { intros s Hs%elem_of_elements. by apply W1. }
  cbn. eexists. split; [done|]. split; [|done]. constructor; cbn; [|done|done|].
  - intros s Hs. destruct (W1 s Hs) as (Hn & c & Hc & Hcl). split; [done|]. rewrite Hcs.
    rewrite decide_True by by apply elem_of_elements. rewrite Hc. exists (pushed msg c). split; [done|].
    unfold pushed. by case_decide.
  - intros i h Hh. specialize (W4 i h Hh). specialize (W2 i h).
    unfold delivered, owned in *. cbn. destruct (h_pc h) as [| |ch|ch|]; try done.
    3: { destruct (decide (h_since h <= length (sent a))%nat).
         - rewrite drop_app_le by done. by apply sublist_snoc.
         - rewrite drop_ge in W4 by lia. apply sublist_nil_r in W4 as ->. apply sublist_nil_l. }
    all: destruct W4 as (c & Hc & Hl & Hsince & Hsub & Hall); specialize (W2 ch Hh eq_refl).
    all: exists (pushed msg c); rewrite Hcs, decide_True, Hc by by apply elem_of_elements.
    all: split; [done|]; rewrite drop_app_le, length_app by done; cbn [length].
    all: unfold pushed; case_decide as Hfull; cbn [ch_buf]; rewrite ?length_app; cbn [length].
    all: split_and!; [lia|lia|..].
    all: rewrite ?(assoc_L (++)); try (by apply sublist_app); try by apply sublist_snoc.
    all: try (destruct Hall as [->|Hall]; [left; done|right; rewrite ?length_app; cbn; lia]).
    all: right; destruct Hall as [Heq|Hall]; [|rewrite ?length_app; cbn; lia].
    all: apply (f_equal length) in Heq; rewrite length_app in Heq; rewrite ?length_app; cbn; lia.
Qed.

(** Replacing a request by one that owns no more, with its own data in order. *)
Lemma ev_wf_set (a a1 : Admin) i h h' :
  ev_wf a -> handlers a !! i = Some h -> sent a1 = sent a ->
  (forall s, s ∈ subscribers a1 -> (s < next a1)%nat /\ exists c, chans a1 !! s = Some c /\ ch_closed c = false) ->
  (forall ch, owned h' = Some ch -> ch ∈ subscribers a1 /\ (owned h = Some ch \/ forall j k, handlers a !! j = Some k -> owned k <> Some ch)) ->
  (forall j k ch, j <> i -> handlers a !! j = Some k -> owned k = Some ch -> ch ∈ subscribers a1 /\ chans a1 !! ch = chans a !! ch) ->
  delivered a1 h' ->
  ev_wf (set_handlers a1 (<[i := h']> (handlers a))).
Proof.
  intros [W1 W2 W3 W4] Hi Hsent H1 H2 H3 Hd. constructor; cbn; [done|..].
  - intros j k ch [(-> & <- & _)|[Hne Hj]]%list_lookup_insert_Some Ho; [by apply H2|by eapply H3].
  - intros j1 j2 k1 k2 ch [(-> & <- & _)|[Hn1 Hj1]]%list_lookup_insert_Some [(-> & <- & _)|[Hn2 Hj2]]%list_lookup_insert_Some O1 O2.
    + done.
    + destruct (H2 _ O1) as [_ [Ho|Ho]]; [by eapply W3|by destruct (Ho _ _ Hj2 O2)].
    + destruct (H2 _ O2) as [_ [Ho|Ho]]; [by eapply W3|by destruct (Ho _ _ Hj1 O1)].
    + by eapply W3.
  - intros j k [(-> & <- & _)|[Hne Hj]]%list_lookup_insert_Some; [exact Hd|].
    specialize (W4 j k Hj). specialize (H3 j k). unfold delivered, owned in *. cbn. rewrite Hsent.
    destruct (h_pc k) as [| |ch|ch|]; try done; destruct (H3 ch) as [_ ->]; done.
Qed.

(** A request that only moves on. *)
Lemma ev_wf_move a i h h' : ev_wf a -> handlers a !! i = Some h ->
  (owned h' = None \/ owned h' = owned h) -> delivered a h' -> ev_wf (set_handlers a (<[i := h']> (handlers a))).
Proof.
  intros Hw Hi Ho Hd. apply (ev_wf_set a a i h h'); try done.
  - apply Hw.
  - intros ch Hc. destruct Ho as [Ho|Ho]; [congruence|]. rewrite Ho in Hc. split; [by eapply ew_owner|by left].
  - intros j k ch _ Hj Hc. split; [by eapply ew_owner|done].
Qed.

Lemma handleEvents_wf a i h x r : ev_wf a -> handlers a !! i = Some h -> handleEvents a h x = Some r ->
  exists a' h', r = Ret (a', h') /\ ev_wf (set_handlers a' (<[i := h']> (handlers a))) /\
    activeHosts a' = activeHosts a /\ calls a' = calls a /\ stopped a' = stopped a /\ sent a' = sent a.
Proof.
  intros Hw Hi. pose proof (ew_data _ Hw _ _ Hi) as Hd. unfold handleEvents.
  assert (forall ch, owned h = Some ch -> exists c, chans a !! ch = Some c /\ ch_closed c = false) as Hown.
  { intros ch Hc. by apply (ew_open _ Hw), (ew_owner _ Hw i h). }
  unfold delivered in Hd. destruct (h_pc h) as [| |ch|ch|] eqn:Hp, x; try done.
  - intros [= <-]. eexists _, _. split; [done|]. split; [|done]. eapply ev_wf_move; [done|done|by left|done].
  - intros [= <-]. eexists _, _. split; [done|]. split; [|done]. eapply ev_wf_move; [done|done|by left|].
    unfold delivered. cbn. rewrite Hd. apply sublist_nil_l.
  - intros [= <-]. eexists _, _. split; [done|]. split; [|done].
    assert (forall j k ch, handlers a !! j = Some k -> owned k = Some ch -> ch <> next a) as Hfresh.
    { intros j k ch Hj Hc ->. destruct (ew_open _ Hw (next a)) as [? _]; [by eapply ew_owner|lia]. }
    eapply (ev_wf_set a); [done|done|done|..]; cbn.
    + intros s [->%elem_of_singleton|Hs]%elem_of_union.
      * split; [lia|]. eexists. by rewrite lookup_insert_eq.
      * destruct (ew_open _ Hw s Hs) as (Hn & c & Hc & Hcl). split; [lia|]. rewrite lookup_insert_ne by lia. by exists c.
    + intros ch [= <-]. split; [set_solver|]. right. intros j k Hj Hc. by apply (Hfresh j k _ Hj Hc).
    + intros j k ch _ Hj Hc. split; [apply elem_of_union_r; by eapply ew_owner|].
      rewrite lookup_insert_ne; [done|]. intros E. by apply (Hfresh j k ch Hj Hc).
    + unfold delivered. cbn. rewrite lookup_insert_eq. eexists. split; [done|]. cbn. rewrite Hd, drop_all.
      split_and!; [lia|lia|done|by left].
  - destruct Hd as (c & Hc & Hl & Hs & Hsub & Hall). rewrite Hc.
    destruct (Hown ch) as (c0 & Hc0 & Hcl); [by unfold owned; rewrite Hp|]. rewrite Hc in Hc0. injection Hc0 as <-.
    destruct (ch_buf c) as [|msg rest] eqn:Hbuf; [by rewrite Hcl|].
    intros [= <-]. eexists _, _. split; [done|]. split; [|done]. eapply (ev_wf_set a); [done|done|done|..]; cbn.
    + intros s Hss. destruct (ew_open _ Hw s Hss) as (Hn & c1 & Hc1 & Hcl1). split; [done|].
      destruct (decide (s = ch)) as [->|Hne]; [rewrite lookup_insert_eq; by eexists|].
      rewrite lookup_insert_ne by done. by exists c1.
    + intros ch' [= <-]. split; [|left; by unfold owned; rewrite Hp].
      apply (ew_owner _ Hw i h); [done|by unfold owned; rewrite Hp].
    + intros j k ch' Hne Hj Hk. split; [by eapply ew_owner|]. rewrite lookup_insert_ne; [done|]. intros <-.
      apply Hne. eapply (ew_inj _ Hw); [done|done|done|by unfold owned; rewrite Hp].
    + unfold delivered. cbn. rewrite lookup_insert_eq. eexists. split; [done|]. cbn in *.
      rewrite <- (assoc_L (++)). cbn. split_and!; [lia|done|done|done].
  - destruct (h_gone h); [|done]. intros [= <-]. eexists _, _. split; [done|]. split; [|done].
    eapply ev_wf_move; [done|done|right; by unfold owned; rewrite Hp|]. unfold delivered. by cbn.
  - destruct (stopped a) eqn:Hst; [|done]. intros [= <-]. eexists _, _. split; [done|]. split; [|by rewrite ?Hst].
    eapply ev_wf_move; [done|done|right; by unfold owned; rewrite Hp|]. unfold delivered. by cbn.
  - destruct Hd as (c & Hc & Hl & Hs & Hsub & Hall).
    destruct (Hown ch) as (c0 & Hc0 & Hcl); [by unfold owned; rewrite Hp|]. rewrite Hc in Hc0. injection Hc0 as <-.
    unfold close_chan. rewrite Hc. cbn. rewrite Hcl. cbn. intros [= <-]. eexists _, _. split; [done|]. split; [|done].
    assert (forall j k ch', j <> i -> handlers a !! j = Some k -> owned k = Some ch' -> ch' <> ch) as Hother.
    { intros j k ch' Hne Hj Hk ->. apply Hne. eapply (ew_inj _ Hw); [done|done|done|by unfold owned; rewrite Hp]. }
    eapply (ev_wf_set a); [done|done|done|..]; cbn.
    + intros s [Hss Hne]%elem_of_difference. destruct (ew_open _ Hw s Hss) as (Hn & c1 & Hc1 & Hcl1). split; [done|].
      rewrite lookup_insert_ne by set_solver. by exists c1.
    + done.
    + intros j k ch' Hne Hj Hk. pose proof (Hother _ _ _ Hne Hj Hk) as Hn. split.
      * apply elem_of_difference. split; [by eapply ew_owner|set_solver].
      * by rewrite lookup_insert_ne.
    + unfold delivered. cbn. etrans; [|exact Hsub]. by apply sublist_inserts_r.
Qed.

(** The hosts, the callbacks and [stopped] do not matter to the invariant. *)
Lemma ev_wf_frame a a' : ev_wf a -> subscribers a' = subscribers a -> chans a' = chans a -> next a' = next a ->
  handlers a' = handlers a -> sent a' = sent a -> ev_wf a'.
Proof.
  intros [W1 W2 W3 W4] E1 E2 E3 E4 E5. constructor; unfold delivered in *; rewrite ?E1, ?E2, ?E3, ?E4, ?E5; done.
Qed.

(** The only panic is a second [Stop]. *)
Lemma ev_wf_step a l r : ev_wf a -> step a l = Some r ->
  (r = Panic /\ l = LStop /\ stopped a = true) \/ (exists a', r = Ret a' /\ ev_wf a').
Proof.
  intros Hw. destruct l as [i| |i x|i| |]; cbn [step].
  - unfold call_step. destruct (calls a !! i) as [c|]; [|done]. cbn. intros [= <-]. right. destruct c as [cb|cb].
    + eexists. split; [done|]. by eapply ev_wf_frame.
    + destruct (broadcast_wf a (message cb) Hw) as (a' & -> & Hw' & _). cbn. eexists. split; [done|].
      by eapply ev_wf_frame.
  - intros [= <-]. right. eexists. split; [done|]. destruct Hw as [W1 W2 W3 W4]. constructor; cbn.
    + done.
    + intros i h ch [Hi|[_ Hi]]%lookup_app_Some Ho; [by eapply W2|].
      by apply list_lookup_singleton_Some in Hi as [_ <-].
    + intros i j h h' ch [Hi|[_ Hi]]%lookup_app_Some [Hj|[_ Hj]]%lookup_app_Some Ho Ho';
        try (by apply list_lookup_singleton_Some in Hi as [_ <-]);
        try (by apply list_lookup_singleton_Some in Hj as [_ <-]). by eapply W3.
    + intros i h [Hi|[_ Hi]]%lookup_app_Some; [by apply (W4 i)|].
      by apply list_lookup_singleton_Some in Hi as [_ <-].
  - destruct (handlers a !! i) as [h|] eqn:Hi; [|done]. cbn. destruct (handleEvents a h x) as [r'|] eqn:Hr; [|done].
    cbn. intros [= <-]. right. destruct (handleEvents_wf _ _ _ _ _ Hw Hi Hr) as (a' & h' & -> & Hw' & _). by eexists.
  - destruct (handlers a !! i) as [h|] eqn:Hi; [|done]. cbn. intros [= <-]. right. eexists. split; [done|].
    eapply ev_wf_move; [done|done|by right|]. by apply (ew_data _ Hw i h).
  - intros [= <-]. destruct (stopped a) eqn:Hs; [by left|]. right. eexists. split; [done|]. by eapply ev_wf_frame.
  - destruct (stopped a && scraping a); [|done]. intros [= <-]. right. eexists. split; [done|]. by eapply ev_wf_frame.
Qed.

Lemma NewAdmin_wf : ev_wf NewAdmin.
Proof. constructor; cbn; set_solver. Qed.

(** * The page behind the server *)

Section site.
Context {A D : Type} `{SessionAuthorityLaws A D}.

Record site := mkSite { srv : @Server A; adm : Admin }.

(** The callbacks the server calls in a step: the events it has added. *)
Definition new_events (w w' : @Server A) : list event := take (length (log w') - length (log w)) (log w').

Definition callback_of (e : event) : option callback :=
  match e with
  | EvHostConnected k a => Some (HostConnected k a)
  | EvHostDisconnected k _ => Some (HostDisconnected k)
  | EvPeerConnected k a => Some (PeerConnected k a)
  | _ => None
  end.

(** [HostDisconnected] is called with the server's [hostsMu] held. *)
Definition holds_hostsMu (c : calling) : bool :=
  match c with OnHosts (HostDisconnected _) | OnSubs (HostDisconnected _) => true | _ => false end.

(** The steps of the server that lock [hostsMu]. *)
Definition locks_hostsMu (w : @Server A) (l : Registar.label (D := D)) : bool :=
  match l with
  | LTask i _ => match tasks w !! i with Some (THost _ _ _) | Some (TPeer _ _ _) => true | _ => false end
  | LAfter i => match afters w !! i with Some (AfterHost _ _ _) => true | _ => false end
  | LClose => true
  | _ => false
  end.

Inductive site_step : site -> site -> Prop :=
| site_server w w' a l :
    Registar.step w l = Some (Ret w') ->
    (locks_hostsMu w l = true -> existsb holds_hostsMu (calls a) = false) ->
    site_step (mkSite w a) (mkSite w' (set_calls a (calls a ++ map OnHosts (omap callback_of (new_events w w')))))
| site_admin w a a' l : step a l = Some (Ret a') -> site_step (mkSite w a) (mkSite w a').

Definition site_start (auth : A) : site := mkSite (NewServer auth) NewAdmin.
Definition site_reachable (auth : A) (s : site) : Prop := star site_step (site_start auth) s.

(** A host whose registration has not been announced yet. *)
Definition announcing (s : site) (k : Key) : Prop :=
  (exists str a, THostAfter str k a ∈ tasks (srv s)) \/ (exists a, THostCallback k a ∈ tasks (srv s)) \/
  (exists a, OnHosts (HostConnected k a) ∈ calls (adm s)).

Record site_wf (s : site) : Prop := {
  sw_events : ev_wf (adm s);
  sw_listed : forall k h, Registar.hosts (srv s) !! k = Some h -> is_Some (activeHosts (adm s) !! k) \/ announcing s k;
  sw_gone : forall k, OnHosts (HostDisconnected k) ∈ calls (adm s) -> Registar.hosts (srv s) !! k = None;
}.

Lemma new_events_app (w w' : @Server A) ev : log w' = ev ++ log w -> new_events w w' = ev.
Proof.
  intros E. unfold new_events. rewrite E, length_app. replace (length ev + length (log w) - length (log w))%nat with (length ev) by lia.
  by rewrite take_app_length.
Qed.

(** What a step of the server does to the hosts and to their announcements. *)
Record hosts_step (w w' : @Server A) (l : Registar.label (D := D)) (ev : list event) : Prop := {
  hs_log : log w' = ev ++ log w;
  hs_hosts : forall k h, Registar.hosts w' !! k = Some h ->
    (exists h0, Registar.hosts w !! k = Some h0) \/
    (locks_hostsMu w l = true /\ exists str a, THostAfter str k a ∈ tasks w');
  hs_after : forall str k a, THostAfter str k a ∈ tasks w ->
    THostAfter str k a ∈ tasks w' \/ THostCallback k a ∈ tasks w';
  hs_callback : forall k a, THostCallback k a ∈ tasks w -> THostCallback k a ∈ tasks w' \/ EvHostConnected k a ∈ ev;
  hs_gone : forall k a, EvHostDisconnected k a ∈ ev -> Registar.hosts w' !! k = None;
}.

(** A step of task [i], whose continuation is [t']. *)
Lemma hosts_step_task (w w1 : @Server A) i c t t' ev : tasks w !! i = Some t ->
  log w1 = ev ++ log w ->
  (forall k h, Registar.hosts w1 !! k = Some h -> (exists h0, Registar.hosts w !! k = Some h0) \/
     (locks_hostsMu w (LTask i c) = true /\ exists str a, t' = Some (THostAfter str k a))) ->
  (forall str k a, t = THostAfter str k a -> t' = Some (THostCallback k a)) ->
  (forall k a, t = THostCallback k a -> EvHostConnected k a ∈ ev) ->
  (forall k a, (EvHostDisconnected k a ∉ ev)) ->
  hosts_step w (set_tasks w1 (tasks_after (tasks w) i t')) (LTask i c) ev.
Proof.
  intros Ht Hl Hh Ha Hc He.
  assert (forall x, t' = Some x -> x ∈ tasks_after (tasks w) i t') as Hnew by (intros x ->; by eapply tasks_after_new).
  constructor; cbn; [done|..].
  - intros k h [?|(Hlk & str & a & E)]%Hh; [by left|]. right. split; [done|]. exists str, a. by apply Hnew.
  - intros str k a Hin. destruct (tasks_after_old w i t t' _ Ht Hin) as [E|?]; [|by left].
    right. apply Hnew. by eapply Ha.
  - intros k a Hin. destruct (tasks_after_old w i t t' _ Ht Hin) as [E|?]; [|by left]. right. by apply Hc.
  - intros k a Hin. by apply He in Hin.
Qed.

(** A step that keeps the tasks and removes at most hosts. *)
Lemma hosts_step_shrink (w w' : @Server A) l ev : log w' = ev ++ log w ->
  (forall k h, Registar.hosts w' !! k = Some h -> Registar.hosts w !! k = Some h) ->
  (forall t, t ∈ tasks w -> t ∈ tasks w') ->
  (forall k a, EvHostDisconnected k a ∈ ev -> Registar.hosts w' !! k = None) -> hosts_step w w' l ev.
Proof.
  intros Hl Hh Ht He. constructor; [done|..|done]; [|by left; apply Ht..].
  intros k h Hk. left. exists h. by apply Hh.
Qed.

(** A step of a task that adds the events [ev]. *)
Ltac task_hosts Ht i ev :=
  eexists ev; eapply (hosts_step_task _ _ i _ _ _ _ Ht);
    [reflexivity|cbn; rewrite ?Ht; try setoid_rewrite lookup_insert_Some; naive_solver|naive_solver
    |intros ? ? ?; simplify_eq; by left|intros ? ?; rewrite ?elem_of_cons, elem_of_nil; naive_solver].

Lemma server_step_hosts (w w' : @Server A) l : Registar.step w l = Some (Ret w') ->
  exists ev, hosts_step w w' l ev.
Proof.
  intros Hs. label_cases l Hs.
  all: try (first [task_hosts Ht i (@nil event)|task_hosts Ht i open_constr:([_ : event])
    |task_hosts Ht i open_constr:([_ : event; _])]; fail).
  all: try (exists []; apply hosts_step_shrink; [done|done|cbn; set_solver|set_solver]; fail).
  - eexists [_]. apply hosts_step_shrink; [reflexivity| |done|].
    + cbn. by intros k' h [_ Hk]%lookup_delete_Some.
    + intros k' a' [= -> _]%list_elem_of_singleton. cbn. apply lookup_delete_eq.
  - exists []. destruct (Close_spec w) as (E0 & E1 & _ & _ & _ & E5 & _).
    apply hosts_step_shrink; [done| |by rewrite E1|set_solver]. intros k h. by rewrite E0, lookup_empty.
Qed.

(** Callbacks under way, when one of them moves on. *)
Lemma calls_after (l : list calling) i c x : l !! i = Some c -> x ∈ l ->
  x = c \/ (forall c', x ∈ <[i := c']> l) /\ x ∈ delete i l.
Proof.
  intros Hi Hx. destruct (lookup_split l i c Hi) as (l1 & l2 & -> & Hins & Hdel).
  apply elem_of_app in Hx as [Hx|[->|Hx]%elem_of_cons]; [right|by left|right].
  all: split; [intros c'; rewrite Hins|rewrite Hdel]; set_solver.
Qed.

Lemma calls_before (l : list calling) i c x : l !! i = Some c ->
  x ∈ delete i l \/ (exists cb, x ∈ <[i := OnSubs cb]> l /\ forall cb', x <> OnSubs cb') -> x ∈ l.
Proof.
  intros Hi. destruct (lookup_split l i c Hi) as (l1 & l2 & -> & Hins & ->).
  intros [Hx|(cb & Hx & Hn)]; [set_solver|]. rewrite Hins in Hx.
  apply elem_of_app in Hx as [Hx|[->|Hx]%elem_of_cons]; [set_solver|by destruct (Hn cb)|set_solver].
Qed.

Lemma site_wf_call w a i cb : site_wf (mkSite w a) -> calls a !! i = Some (OnHosts cb) ->
  site_wf (mkSite w (set_calls (set_hosts a (on_hosts cb (activeHosts a))) (<[i := OnSubs cb]> (calls a)))).
Proof.
  intros [W1 W2 W3] Hi. constructor; cbn in *; [by eapply ev_wf_frame|..].
  - intros k h Hk. unfold announcing in *. cbn in *.
    assert (is_Some (activeHosts a !! k) -> is_Some (on_hosts cb (activeHosts a) !! k)) as Hkeep.
    { intros Hs. destruct cb as [k' a'|k'|]; cbn; [|rewrite lookup_delete_ne|done].
      - destruct (decide (k = k')) as [->|]; [rewrite lookup_insert_eq|rewrite lookup_insert_ne]; done.
      - done.
      - intros ->. rewrite W3 in Hk; [done|]. by eapply list_elem_of_lookup_2. }
    destruct (W2 k h Hk) as [Hs|[Hs|[Hs|[a' Hs]]]]; [left; by apply Hkeep|right; by left|right; right; by left|].
    destruct (calls_after _ _ _ _ Hi Hs) as [[= <-]|[Hin _]].
    + left. cbn. rewrite lookup_insert_eq. by eexists.
    + right; right; right. by exists a'.
  - intros k Hin. apply W3. eapply calls_before; [done|]. right. by exists cb.
Qed.

Lemma site_wf_step s s' : site_wf s -> site_step s s' -> site_wf s'.
Proof.
  intros Hw Hs. destruct Hs as [w w' a l Hs Hlock|w a a' l Hs].
  - destruct (server_step_hosts _ _ _ Hs) as [ev [Hl Hh Ha Hc Hg]]. rewrite (new_events_app _ _ _ Hl).
    destruct Hw as [W1 W2 W3]. cbn in *. constructor; cbn; [by eapply ev_wf_frame|..].
    + intros k h Hk. unfold announcing in *. cbn in *. apply Hh in Hk as [[h0 Hk]|[_ Hk]]; [|right; by left].
      destruct (W2 k h0 Hk) as [?|[(str & ad & Hin)|[(ad & Hin)|[ad Hin]]]]; [by left|right..].
      * destruct (Ha _ _ _ Hin); [left; by exists str, ad|right; left; by exists ad].
      * destruct (Hc _ _ Hin) as [?|He]; [right; left; by eexists|]. right; right. exists ad.
        apply elem_of_app. right. apply list_elem_of_fmap. exists (HostConnected k ad). split; [done|].
        apply list_elem_of_omap. by exists (EvHostConnected k ad).
      * right; right. exists ad. apply elem_of_app. by left.
    + intros k [Hin|Hin]%elem_of_app.
      * destruct (Registar.hosts w' !! k) as [h|] eqn:Hk; [|done]. apply Hh in Hk as [[h0 Hk]|[Hlk _]].
        -- by rewrite W3 in Hk.
        -- specialize (Hlock Hlk). exfalso. apply not_true_iff_false in Hlock. apply Hlock.
           apply existsb_exists. exists (OnHosts (HostDisconnected k)). split; [by apply list_elem_of_In|done].
      * apply list_elem_of_fmap in Hin as (cb & [= <-] & Hin). apply list_elem_of_omap in Hin as (e & He & Hcb).
        destruct e; try discriminate Hcb. injection Hcb as ->. by eapply Hg.
  - destruct (ev_wf_step a l _ (sw_events _ Hw) Hs) as [([=] & _)|(a1 & [= <-] & Hw')].
    assert (calls a' = calls a -> activeHosts a' = activeHosts a -> site_wf (mkSite w a')) as Hsame.
    { intros E1 E2. destruct Hw as [W1 W2 W3]. constructor; unfold announcing in *; cbn in *; rewrite ?E1, ?E2; done. }
    destruct l as [i| |i x|i| |]; cbn [step] in Hs.
    + unfold call_step in Hs. destruct (calls a !! i) as [c|] eqn:Hi; [|done]. cbn in Hs. destruct c as [cb|cb].
      * injection Hs as <-. by apply site_wf_call.
      * destruct (broadcast_wf a (message cb) (sw_events _ Hw)) as (a2 & Hb & _ & _ & E2 & E3 & _).
        rewrite Hb in Hs. cbn in Hs. injection Hs as <-. destruct Hw as [W1 W2 W3].
        constructor; unfold announcing in *; cbn in *; rewrite ?E2, ?E3; [done|..].
        -- intros k h Hk. destruct (W2 k h Hk) as [?|[?|[?|[ad Hin]]]]; [by left|right; by left|right; right; by left|].
           destruct (calls_after _ _ _ _ Hi Hin) as [[=]|[_ ?]]. right; right; right. by exists ad.
        -- intros k Hin. apply W3. eapply calls_before; [done|by left].
    + injection Hs as <-. by apply Hsame.
    + destruct (handlers a !! i) as [h|] eqn:Hi; [|done]. cbn in Hs. destruct (handleEvents a h x) as [r|] eqn:Hr; [|done].
      destruct (handleEvents_wf _ _ _ _ _ (sw_events _ Hw) Hi Hr) as (a2 & h2 & -> & _ & E1 & E2 & _).
      cbn in Hs. injection Hs as <-. by apply Hsame.
    + destruct (handlers a !! i); [|done]. cbn in Hs. injection Hs as <-. by apply Hsame.
    + destruct (stopped a); [done|]. injection Hs as <-. by apply Hsame.
    + destruct (stopped a && scraping a); [|done]. injection Hs as <-. by apply Hsame.
Qed.

Lemma site_reachable_wf auth s : site_reachable auth s -> site_wf s.
Proof.
  intros Hr. eapply (star_invariant site_step site_wf); [|exact Hr|].
  - intros x y Hx Hy. by eapply site_wf_step.
  - constructor; cbn; [apply NewAdmin_wf|intros *; by rewrite lookup_empty|intros *; set_solver].
Qed.

(** Running a schedule of the server's and the page's labels. *)
Definition site_do (s : site) (x : Registar.label (D := D) + label) : option site :=
  match x with
  | inl l =>
      if locks_hostsMu (srv s) l && existsb holds_hostsMu (calls (adm s)) then None
      else match Registar.step (srv s) l with
           | Some (Ret w') => Some (mkSite w' (set_calls (adm s) (calls (adm s) ++ map OnHosts (omap callback_of (new_events (srv s) w')))))
           | _ => None
           end
  | inr l => match step (adm s) l with Some (Ret a') => Some (mkSite (srv s) a') | _ => None end
  end.

Fixpoint site_run (s : site) (xs : list (Registar.label (D := D) + label)) : option site :=
  match xs with [] => Some s | x :: xs => s' ← site_do s x; site_run s' xs end.

Lemma site_run_star s xs s' : site_run s xs = Some s' -> star site_step s s'.
Proof.
  revert s. induction xs as [|x xs IH]; intros s; cbn; [intros [= ->]; constructor|].
  destruct (site_do s x) as [s1|] eqn:E; [|done]. cbn. intros Hr. eapply star_step; [|by apply IH].
  destruct s as [w a], x as [l|l]; cbn in E.
  - destruct (locks_hostsMu w l && _) eqn:Hlk; [done|]. destruct (Registar.step w l) as [[w'|]|] eqn:Hs; try done.
    injection E as <-. eapply site_server; [done|]. intros Hl. by rewrite Hl in Hlk.
  - destruct (step a l) as [[a'|]|] eqn:Hs; try done. injection E as <-. by eapply site_admin.
Qed.
End site.

(** * Messages on one line *)

(** A key prints on one line. *)
Lemma Key_String_printed k : Key_wf k -> Forall printed (Key_String k).
Proof.
  intros Hk. assert (Forall printed encoding) as He by by apply printed_const.
  assert (Forall printed (encode_key k)) as Hp.
  { rewrite Forall_forall in He |- *. intros c Hc. destruct (encode_key_values k Hk) as (vs & E & Hvs & _).
    rewrite E in Hc. apply list_elem_of_fmap in Hc as (v & -> & Hv). rewrite Forall_forall in Hvs. apply He.
    apply enc_five_in; [apply encoding_NoDup|apply encoding_length|by apply Hvs]. }
  unfold Key_String, MarshalText. cbn zeta. apply Forall_app_2; [by apply Forall_take|].
  apply Forall_app_2; [by constructor|by apply Forall_drop].
Qed.

(** An address without control characters in its zone. *)
Definition one_line (p : AddrPort) : Prop :=
  AddrPort_wf p /\ match ap_addr p with AddrZero => True | Addr4 ip => bytes_ok ip | Addr6 ip z => bytes_ok ip /\ Forall printed z end.

Definition plain_callback (cb : callback) : Prop :=
  match cb with
  | HostConnected k a | PeerConnected k a => Key_wf k /\ one_line (Public a) /\ one_line (Private a)
  | HostDisconnected k => Key_wf k
  end.

Lemma message_printed cb : plain_callback cb -> Forall printed (message cb).
Proof.
  assert (forall a, one_line (Public a) -> one_line (Private a) -> Forall printed (addrs_text a)) as Ha.
  { intros a [H1 H2] [H3 H4]. unfold addrs_text. repeat apply Forall_app_2; try by apply printed_AddrPort_String.
    all: by apply printed_const. }
  destruct cb as [k a|k|k a]; cbn [plain_callback message]; [intros (Hk & H1 & H2)|intros Hk|intros (Hk & H1 & H2)].
  all: apply Forall_app_2; [by apply printed_const|].
  2: by apply Key_String_printed.
  all: apply Forall_app_2; [by apply Key_String_printed|by apply Ha].
Qed.

(** * Property *)

(** A key and an address whose zone forges an event. *)
Definition forged_key : Key := [7; 7; 7; 7; 7]%Z.
Definition forging_addr : AddrPort :=
  AddrPortFrom (Addr6 ([254; 128]%Z ++ replicate 13 0%Z ++ [1]%Z)
    (bytes_of_string "x" ++ [10; 10]%Z ++ bytes_of_string "data: " ++ message (HostDisconnected forged_key) ++ [10]%Z)) 80.

(** What is printed of it before the line break. *)
Definition forging_start : str := bytes_of_string "[fe80::1%x".

Lemma forging_text : AddrPort_String forging_addr = forging_start ++ [10; 10]%Z ++ bytes_of_string "data: " ++
  message (HostDisconnected forged_key) ++ [10]%Z ++ bytes_of_string "]:80".
Proof. reflexivity. Qed.

(** A line of data, and one that is no field. *)
Lemma data_line_data m : data_line (bytes_of_string "data: " ++ m) = Some m.
Proof. reflexivity. Qed.

Lemma forged_events k a : Key_wf k -> one_line a ->
  exists first, read_events (frame (message (HostConnected k (mkAddrPair a forging_addr)))) = [first; message (HostDisconnected forged_key)].
Proof.
  intros Hk [Ha1 Ha2]. cbn [message]. unfold addrs_text. cbn [Public Private]. rewrite forging_text.
  set (m := message (HostDisconnected forged_key)).
  set (first := bytes_of_string "host connected key=" ++ Key_String k ++ bytes_of_string " public=" ++ AddrPort_String a ++
    bytes_of_string " private=" ++ forging_start).
  exists first. assert (Forall printed first) as Hf.
  { repeat (apply Forall_app_2; [first [by apply printed_const|by apply Key_String_printed|by apply printed_AddrPort_String]|]).
    by apply printed_const. }
  assert (Forall printed m) as Hm by by apply printed_const.
  assert (Forall printed (bytes_of_string "data: ")) as Hdata by by apply printed_const.
  unfold read_events, frame.
  transitivity (read_lines None (stream_lines false [] ((bytes_of_string "data: " ++ first) ++ 10%Z :: 10%Z ::
    (bytes_of_string "data: " ++ m) ++ 10%Z :: bytes_of_string "]:80" ++ [10; 10]%Z))).
  { unfold first. rewrite <- !(assoc_L (++)). reflexivity. }
  rewrite stream_lines_unbroken by by apply printed_unbroken, Forall_app_2. cbn [app].
  change (stream_lines false [] (10%Z :: ?x)) with ([] :: stream_lines false [] x).
  rewrite stream_lines_unbroken by by apply printed_unbroken, Forall_app_2.
  rewrite stream_lines_unbroken by by apply printed_unbroken, printed_const.
  generalize first. reflexivity.
Qed.

(** The schedule of a host that disconnects before its callback. *)
Definition hasty_site : list (Registar.label (D := draw * draw) + label) :=
  map inl (register_all 1 true 5 ++ [LStreamEnds 1; LAfter 0]) ++ [inr (LCall 0); inr (LCall 0)]
  ++ map inl (go 1) ++ [inr (LCall 0); inr (LCall 0)].

(** That host stays listed when everything has come to rest. *)
Lemma hasty_host_stays :
  exists s1, site_reachable (D := draw * draw) demo_authority s1 /\ Registar.hosts (srv s1) = ∅ /\ tasks (srv s1) = [] /\
    calls (adm s1) = [] /\ is_Some (activeHosts (adm s1) !! demo_key).
Proof.
  destruct (site_run (site_start demo_authority) hasty_site) as [s1|] eqn:E; [|vm_compute in E; discriminate E].
  exists s1. split; [by eapply site_run_star|].
  assert ((size (Registar.hosts (srv s1)), tasks (srv s1), calls (adm s1), is_ok (match activeHosts (adm s1) !! demo_key with Some a => Ok a | None => Err () end))
    = (0%nat, [], [], true)) as Eo.
  { transitivity (from_option (fun s1 => (size (Registar.hosts (srv s1)), tasks (srv s1), calls (adm s1), is_ok (match activeHosts (adm s1) !! demo_key with Some a => Ok a | None => Err () end)))
      (0%nat, [], [], true) (site_run (site_start demo_authority) hasty_site)); [by rewrite E|]. vm_compute. reflexivity. }
  injection Eo as E1%map_size_empty_inv E2 E3 E4. split_and!; [done..|]. by destruct (activeHosts (adm s1) !! demo_key).
Qed.

(** After [Stop] a request leaves its loop and returns. *)
Lemma stopped_returns (a : Admin) i h ch : ev_wf a -> handlers a !! i = Some h -> h_pc h = Selecting ch -> stopped a = true ->
  exists a1 a2 h', step a (LHandler i TakeStopped) = Some (Ret a1) /\ step a1 (LHandler i Next) = Some (Ret a2) /\
    handlers a2 !! i = Some h' /\ h_pc h' = Returned.
Proof.
  intros W1 Hi Hp Hs.
  assert (step a (LHandler i TakeStopped) = Some (Ret (set_handlers a (<[i := set_pc h (Leaving ch)]> (handlers a))))) as E1.
  { cbn. rewrite Hi. cbn. unfold handleEvents. by rewrite Hp, Hs. }
  destruct (ev_wf_step _ _ _ W1 E1) as [([=] & _)|(a1 & [= <-] & Hw1)].
  set (a1 := set_handlers a (<[i := set_pc h (Leaving ch)]> (handlers a))) in *.
  assert (handlers a1 !! i = Some (set_pc h (Leaving ch))) as Hi1.
  { cbn. apply list_lookup_insert_eq. by eapply lookup_lt_Some. }
  destruct (ew_open _ Hw1 ch) as (_ & c & Hc & Hcl); [by apply (ew_owner _ Hw1 i _ _ Hi1)|].
  eexists a1, _, _. split; [exact E1|]. split; [|split].
  + cbn [step]. rewrite Hi1. cbn. unfold close_chan. unfold a1 in Hc. cbn in Hc. rewrite Hc. cbn. rewrite Hcl. reflexivity.
  + cbn. apply list_lookup_insert_eq. rewrite length_insert. by eapply lookup_lt_Some.
  + done.
Qed.

(** C25. The hosts and the events of the admin page, in every state of the server
    with its callbacks.  Every host of the server is listed or about to be
    announced; a host that leaves before its [HostConnected] stays listed when
    all has come to rest.  The statistics list each active host once.  A request to [/events] gets a subsequence, in order,
    of the messages broadcast since it subscribed, and all of them while there
    have been at most ten; on the wire the events it reads are these messages,
    as long as the addresses in them are on one line.  The zone of a host's
    private address is not checked: with one it makes every reader see an event
    of its choice.  The only panic is a second [Stop], and after the first one
    every request can return. *)
Theorem admin_events {A D : Type} `{SessionAuthorityLaws A D} (auth : A) (s : site) (Hr : site_reachable auth s) :
  (forall k h, Registar.hosts (srv s) !! k = Some h -> is_Some (activeHosts (adm s) !! k) \/ announcing s k) /\
  (exists s1, site_reachable (D := draw * draw) demo_authority s1 /\ Registar.hosts (srv s1) = ∅ /\ tasks (srv s1) = [] /\
     calls (adm s1) = [] /\ is_Some (activeHosts (adm s1) !! demo_key)) /\
  (forall stats bytes, let listed := sr_ActiveHosts (handleStats stats bytes (adm s)) in
     length listed = size (activeHosts (adm s)) /\
     forall x, x ∈ listed <-> exists k a, activeHosts (adm s) !! k = Some a /\ x = host_info (k, a)) /\
  (forall i h, handlers (adm s) !! i = Some h ->
     h_out h `sublist_of` drop (h_since h) (sent (adm s)) /\
     (forall ch, owned h = Some ch -> exists c, chans (adm s) !! ch = Some c /\ (length (ch_buf c) <= chan_size)%nat /\
        ((length (drop (h_since h) (sent (adm s))) <= chan_size)%nat -> h_out h ++ ch_buf c = drop (h_since h) (sent (adm s)))) /\
     (Forall (fun m => exists cb, m = message cb /\ plain_callback cb) (sent (adm s)) ->
        read_events (flat_map frame (h_out h)) = h_out h)) /\
  (forall k a, let cb := HostConnected k (mkAddrPair a forging_addr) in Key_wf k -> one_line a ->
     exists first, read_events (frame (message cb)) = [first; message (HostDisconnected forged_key)]) /\
  (forall l, step (adm s) l = Some Panic <-> l = LStop /\ stopped (adm s) = true) /\
  (forall i h ch, handlers (adm s) !! i = Some h -> h_pc h = Selecting ch -> stopped (adm s) = true ->
     exists a1 a2 h', step (adm s) (LHandler i TakeStopped) = Some (Ret a1) /\ step a1 (LHandler i Next) = Some (Ret a2) /\
       handlers a2 !! i = Some h' /\ h_pc h' = Returned).
Proof.
  destruct (site_reachable_wf _ _ Hr) as [W1 W2 W3]. split_and!.
  - exact W2.
  - exact hasty_host_stays.
  - intros stats bytes listed. unfold listed. cbn. split; [by rewrite length_map, length_map_to_list|]. intros x. split.
    + intros ([k a] & -> & Hin)%list_elem_of_fmap. apply elem_of_map_to_list in Hin. by exists k, a.
    + intros (k & a & Hk & ->). apply list_elem_of_fmap. exists (k, a). split; [done|]. by apply elem_of_map_to_list.
  - intros i h Hi. pose proof (ew_data _ W1 _ _ Hi) as Hd.
    assert (h_out h `sublist_of` drop (h_since h) (sent (adm s))) as Hsub.
    { unfold delivered in Hd. destruct (h_pc h); try (rewrite Hd; apply sublist_nil_l); try done.
      all: destruct Hd as (c & _ & _ & _ & Hsub & _); etrans; [|exact Hsub]; by apply sublist_inserts_r. }
    split_and!; [done| |].
    + intros ch Ho. unfold delivered, owned in *.
      assert (exists c, chans (adm s) !! ch = Some c /\ (length (ch_buf c) <= chan_size)%nat /\ (h_since h <= length (sent (adm s)))%nat /\
        h_out h ++ ch_buf c `sublist_of` drop (h_since h) (sent (adm s)) /\
        (h_out h ++ ch_buf c = drop (h_since h) (sent (adm s)) \/ (chan_size < length (drop (h_since h) (sent (adm s))))%nat)) as (c & Hc & Hl & _ & _ & Hall).
      { destruct (h_pc h); try done; by injection Ho as ->. }
      exists c. split_and!; [done|done|]. intros Hle. destruct Hall; [done|lia].
    + intros Hp. apply read_frames. assert (Forall (Forall printed) (sent (adm s))) as Hpr.
      { eapply Forall_impl; [exact Hp|]. intros m (cb & -> & Hcb). by apply message_printed. }
      rewrite Forall_forall in Hpr |- *. intros m Hm. apply Hpr.
      eapply (elem_of_sublist _ _ _ Hm). etrans; [exact Hsub|]. apply sublist_drop.
  - intros k a cb Hk Ha. by apply forged_events.
  - intros l. split; [|intros [-> Hs]; cbn; by rewrite Hs].
    intros Hl. by destruct (ev_wf_step _ _ _ W1 Hl) as [(_ & ? & ?)|(a' & [=] & _)].
  - intros i h ch. by apply stopped_returns.
Qed.

(** * Witness *)

(** A request to [/events] that has read two messages. *)
Definition watched_site : list (Registar.label (D := draw * draw) + label) :=
  [inr LRequest; inr (LHandler 0 FlushOk); inr (LHandler 0 Next)] ++ hasty_site ++
  [inr (LHandler 0 TakeMessage); inr (LHandler 0 TakeMessage)].

Lemma admin_events_witness :
  exists s h, site_reachable (D := draw * draw) demo_authority s /\ handlers (adm s) !! 0 = Some h /\
    h_out h = [message (HostDisconnected demo_key);
               message (HostConnected demo_key (mkAddrPair (demo_addr 1) (demo_addr 1)))] /\
    h_out h `sublist_of` drop (h_since h) (sent (adm s)).
Proof.
  pose (f := fun s : site (A := Authority) => h_out <$> handlers (adm s) !! 0).
  assert (f <$> site_run (site_start demo_authority) watched_site
    = Some (Some [message (HostDisconnected demo_key); message (HostConnected demo_key (mkAddrPair (demo_addr 1) (demo_addr 1)))])) as E
    by (vm_compute; reflexivity).
  destruct (site_run (site_start demo_authority) watched_site) as [s|] eqn:Es; [|discriminate E].
  unfold f in E. cbn [fmap option_fmap option_map] in E. destruct (handlers (adm s) !! 0) as [h|] eqn:Eh; [|discriminate E].
  injection E as Eo. pose proof (site_run_star _ _ _ Es) as Hr.
  exists s, h. split; [exact Hr|]. split; [exact Eh|]. split; [exact Eo|].
  exact (proj1 (proj1 (proj2 (proj2 (proj2 (admin_events demo_authority s Hr)))) 0 h Eh)).
Defined.
