(* ===== verification/RateLimit.v ===== *)
(** The rate limiter: [RateLimit] of [internal/platform/httpplatform/middleware.go],
    over the expiring map of [TTLMap].

    The token bucket is [golang.org/x/time/rate], which is not in the
    repository: its operations are the class [TokenBucket].  A limiter is an
    object shared by the requests of one address, so the map holds pointers
    into a store.  A request reads the clock in [GetOrSet], in [Reserve], in
    [Delay] and in [Cancel]; [clk i] is its [i]-th reading. *)
From S2P Require Import Prelude TTLMap Http.
Local Open Scope Z_scope.

(** Two's complement: [time.Duration] is an [int64]. *)
Definition s64 (z : Z) : Z := (z + 2 ^ 63) mod 2 ^ 64 - 2 ^ 63.

(** [rate.InfDuration] *)
Definition InfDuration : Z := 2 ^ 63 - 1.

(** The operations of [rate.Limiter] and [rate.Reservation] the middleware
    calls, at the time they read: [Reserve] is [ReserveN(now, 1)]. *)
Class TokenBucket (L R : Type) := {
  NewLimiter : Z -> Z -> L;           (* rate.NewLimiter(rate.Every(every), burst) *)
  Reserve : Z -> L -> L * R;
  DelayFrom : R -> Z -> Z;
  CancelAt : R -> Z -> L -> L;
}.

Section ratelimit.
Context {IP L R : Type} `{Countable IP} `{TokenBucket L R}.

(** The state the middleware closes over, and the store of limiters. *)
Record RateLimit := mkRateLimit {
  every : Z;
  burst : Z;
  ipLimiterMap : TTLMap (K := IP) (V := nat);
  limiters : gmap nat L;
  fresh : nat;
}.

(** The [ttl] of [RateLimit] *)
Definition limiter_ttl (every burst : Z) : Z :=
  if 1 <? burst then s64 (burst * every) else every.

(** [RateLimit]: what it makes before it returns the middleware. *)
Definition NewRateLimit (every burst : Z) : RateLimit :=
  mkRateLimit every burst (NewTTLMap (limiter_ttl every burst)) ∅ 0.

(** Whether the limiter lets a request through: it has no delay, or the
    delay it had. *)
Inductive verdict := Admit | Delayed (delay : Z).

(** [limiter.Reserve] up to the cancellation, at three readings of the clock. *)
Definition ask (l : L) (t1 t2 t3 : Z) : verdict * L :=
  let '(l, reservation) := Reserve t1 l in
  let delay := DelayFrom reservation t2 in
  if 0 <? delay then (Delayed delay, CancelAt reservation t3 l) else (Admit, l).

(** The response to a request that has to wait; [ceil_seconds] is
    [int(math.Ceil(delay.Seconds()))]. *)
Definition too_many (ceil_seconds : Z -> Z) (w : ResponseWriter) (delay : Z) : ResponseWriter :=
  let w := if delay <? InfDuration
           then header_Set w "Retry-After" (Itoa (ceil_seconds delay)) else w in
  http_Error w (bytes_of_string "rate limit exceeded") 429.

(** The closure given to [GetOrSet], when it was [called]: a limiter in a fresh
    cell of the store. *)
Definition with_new (s : RateLimit) (called : bool) : gmap nat L * nat :=
  if called then (<[fresh s := NewLimiter (every s) (burst s)]> (limiters s), S (fresh s))
  else (limiters s, fresh s).

(** The handler [RateLimit] returns, for a request of the address [ip]. *)
Definition serve (clk : nat -> Z) (s : RateLimit) (ip : IP) : outcome (verdict * RateLimit) :=
  '(p, called, m, i) ← GetOrSet clk (ipLimiterMap s) 0 ip (fresh s);
  let '(limiters1, fresh1) := with_new s called in
  l ← or_panic (limiters1 !! p);
  let '(v, l') := ask l (clk i) (clk (S i)) (clk (S (S i))) in
  Ret (v, mkRateLimit (every s) (burst s) m (<[p := l']> limiters1) fresh1).

(** The middleware, in a state that holds the limiters ([get], [put]) and a
    clock. *)
Definition RateLimit_handler {S} (ceil_seconds : Z -> Z) (get : S -> RateLimit) (put : RateLimit -> S -> S)
    (clk : S -> nat -> Z) (requestIP : Request -> IP) : Middleware S := fun next w r s =>
  '(v, rl) ← serve (clk s) (get s) (requestIP r);
  match v with
  | Admit => next w r (put rl s)
  | Delayed d => answer (too_many ceil_seconds w d) (put rl s)
  end.

(** Requests one after the other, each with its own clock. *)
Fixpoint serves (s : RateLimit) (rs : list ((nat -> Z) * IP)) : outcome (list verdict * RateLimit) :=
  match rs with
  | [] => Ret ([], s)
  | (clk, ip) :: rs =>
      '(v, s) ← serve clk s ip;
      '(vs, s) ← serves s rs;
      Ret (v :: vs, s)
  end.

(** * Specification: a limiter for every address, never forgotten *)

(** A request that takes no time. *)
Definition ask_at (l : L) (t : Z) : verdict * L := ask l t t t.

(** A limiter after requests at [ts], and its answers to requests at [us]. *)
Definition after (l : L) (ts : list Z) : L := foldl (fun l t => (ask_at l t).2) l ts.
Fixpoint answers (l : L) (us : list Z) : list verdict :=
  match us with [] => [] | u :: us => (ask_at l u).1 :: answers (ask_at l u).2 us end.

Fixpoint spec_serves (every burst : Z) (ls : IP -> L) (rs : list (Z * IP)) : list verdict :=
  match rs with
  | [] => []
  | (t, ip) :: rs =>
      let '(v, l) := ask_at (ls ip) t in
      v :: spec_serves every burst (fun ip' => if decide (ip' = ip) then l else ls ip') rs
  end.

(** Times that do not go back, from [t] on. *)
Fixpoint from (t : Z) (us : list Z) : Prop :=
  match us with [] => True | u :: us => t <= u /\ from u us end.

(** What the middleware needs of a bucket: one that no request has touched
    for the time it takes to fill answers as a new one does. *)
Class Refills (every burst : Z) := {
  refills : forall t0 ts t us, from t0 (ts ++ [t]) -> from (t + Z.max 0 (burst * every)) us ->
    0 <= t0 ->
    answers (after (NewLimiter every burst) (ts ++ [t])) us = answers (NewLimiter every burst) us;
}.

(** From [T] on two limiters give the same answers. *)
Definition same (T : Z) (l l' : L) : Prop := forall us, from T us -> answers l us = answers l' us.

Lemma from_mono t t' us : t <= t' -> from t' us -> from t us.
Proof. destruct us; [done|]. cbn. intuition lia. Qed.

Lemma same_mono T T' l l' : T <= T' -> same T l l' -> same T' l l'.
Proof. intros HT Hs us Hus. apply Hs. by eapply from_mono. Qed.

Lemma same_ask T l l' t :
  same T l l' -> T <= t -> (ask_at l t).1 = (ask_at l' t).1 /\ same t (ask_at l t).2 (ask_at l' t).2.
Proof.
  intros Hs Ht. split.
  - specialize (Hs [t]). cbn in Hs. by injection (Hs (conj Ht I)).
  - intros us Hus. specialize (Hs (t :: us)). cbn in Hs. by injection (Hs (conj Ht Hus)).
Qed.

(** A limiter that requests have used, the last of them at [t]. *)
Definition used (ev bu : Z) (l : L) (t : Z) : Prop :=
  exists t0 ts, 0 <= t0 /\ from t0 (ts ++ [t]) /\ l = after (NewLimiter ev bu) (ts ++ [t]).

Lemma from_snoc t0 ts t u : from t0 (ts ++ [t]) -> t <= u -> from t0 ((ts ++ [t]) ++ [u]).
Proof.
  revert t0. induction ts as [|x ts IH]; intros t0; cbn; [intuition lia|].
  intros [Hx Hf] Hu. split; [done|by apply IH].
Qed.

Lemma used_new ev bu t : 0 <= t -> used ev bu (ask_at (NewLimiter ev bu) t).2 t.
Proof. intros Ht. exists t, []. cbn. split_and!; [done|lia|done|done]. Qed.

Lemma used_ask ev bu l t u : used ev bu l t -> t <= u -> used ev bu (ask_at l u).2 u.
Proof.
  intros (t0 & ts & Hge & Hf & ->) Hu. exists t0, (ts ++ [t]). split_and!; [done|by apply from_snoc|].
  unfold after. by rewrite (foldl_app _ (ts ++ [t]) [u]).
Qed.

Lemma used_idle ev bu `{Refills ev bu} l t T :
  used ev bu l t -> t + Z.max 0 (bu * ev) <= T -> same T (NewLimiter ev bu) l.
Proof.
  intros (t0 & ts & Hge & Hf & ->) HT us Hus. symmetry. apply (refills t0); [done| |done].
  by eapply from_mono.
Qed.

Lemma limiter_ttl_refills ev bu : 0 <= ev -> bu * ev < 2 ^ 63 -> Z.max 0 (bu * ev) <= limiter_ttl ev bu.
Proof.
  intros He Hb. unfold limiter_ttl. destruct (1 <? bu) eqn:E; [apply Z.ltb_lt in E|apply Z.ltb_ge in E; nia].
  unfold s64. rewrite Z.mod_small by nia. nia.
Qed.

(** * The simulation *)

(** The state of the middleware at [T], and the limiters of the specification:
    a stored limiter answers as the one of its address, and an address without
    one has a limiter that answers as a new one. *)
Record sim (ev bu T : Z) (s : RateLimit) (ls : IP -> L) : Prop := {
  sim_wf : wf T (ipLimiterMap s);
  sim_start : 0 <= T;
  sim_params : every s = ev /\ burst s = bu /\ ttl (ipLimiterMap s) = limiter_ttl ev bu;
  sim_used : forall ip, ls ip = NewLimiter ev bu \/ exists t, t <= T /\ used ev bu (ls ip) t;
  sim_entry : forall ip p t, lookup_entry (ipLimiterMap s) ip = Some (p, t) ->
    (p < fresh s)%nat /\ used ev bu (ls ip) t /\
    exists l, limiters s !! p = Some l /\ same T l (ls ip);
  sim_missing : forall ip, lookup_entry (ipLimiterMap s) ip = None -> same T (NewLimiter ev bu) (ls ip);
  sim_inj : forall ip ip' p t t', lookup_entry (ipLimiterMap s) ip = Some (p, t) ->
    lookup_entry (ipLimiterMap s) ip' = Some (p, t') -> ip = ip';
}.

Lemma NewRateLimit_sim ev bu : sim ev bu 0 (NewRateLimit ev bu) (fun _ => NewLimiter ev bu).
Proof.
  constructor; cbn; try done; [apply NewTTLMap_wf|by left].
Qed.

(** An expired entry belongs to an address whose limiter is full again. *)
Lemma sim_expired ev bu `{Refills ev bu} T T' s ls ip p t :
  0 <= ev -> bu * ev < 2 ^ 63 -> sim ev bu T s ls ->
  lookup_entry (ipLimiterMap s) ip = Some (p, t) -> ttl (ipLimiterMap s) <= T' - t ->
  same T' (NewLimiter ev bu) (ls ip).
Proof.
  intros He Hb Hs Hl Ht. destruct (sim_entry _ _ _ _ _ Hs ip p t Hl) as (_ & Hu & _).
  eapply used_idle; [done..|]. pose proof (limiter_ttl_refills ev bu He Hb).
  destruct (sim_params _ _ _ _ _ Hs) as (_ & _ & E). lia.
Qed.

(** The specification's limiters after a request. *)
Definition asked (ls : IP -> L) (ip : IP) (t : Z) : IP -> L :=
  fun ip' => if decide (ip' = ip) then (ask_at (ls ip) t).2 else ls ip'.

(** The limiter found or made answers as the specification's, and the other
    stored limiters are where they were. *)
Lemma limiter_found ev bu `{Refills ev bu} T s ls ip t p called m i :
  0 <= ev -> bu * ev < 2 ^ 63 -> sim ev bu T s ls -> T <= t ->
  got_or_set (fun _ => t) (ipLimiterMap s) 0 ip (fresh s) p called m i ->
  (exists l, (with_new s called).1 !! p = Some l /\ same t l (ls ip)) /\
  (p < (with_new s called).2)%nat /\ (fresh s <= (with_new s called).2)%nat /\
  (forall ip' p' t', ip' <> ip -> lookup_entry (ipLimiterMap s) ip' = Some (p', t') ->
     p' <> p /\ (with_new s called).1 !! p' = limiters s !! p').
Proof.
  intros He Hb Hs HT G. pose proof (gs_value _ _ _ _ _ _ _ _ _ G) as Hv.
  destruct (sim_params _ _ _ _ _ Hs) as (E1 & E2 & E3). destruct called; cbn.
  - destruct Hv as [-> Hexp]. rewrite E1, E2, lookup_insert_eq. split_and!; [|lia|lia|].
    + eexists. split; [done|]. destruct (lookup_entry (ipLimiterMap s) ip) as [[w t1]|] eqn:El.
      * by apply (sim_expired ev bu T t s ls ip w t1), (Hexp w).
      * apply (same_mono T); [done|]. by apply (sim_missing _ _ _ _ _ Hs).
    + intros ip' p' t' Hne Hl. destruct (sim_entry _ _ _ _ _ Hs _ _ _ Hl) as [Hp _].
      split; [lia|]. apply lookup_insert_ne. lia.
  - destruct Hv as (t1 & El & _). destruct (sim_entry _ _ _ _ _ Hs _ _ _ El) as (Hp & _ & l & Hl & Hsame).
    split_and!; [|done|done|].
    + exists l. split; [done|]. by apply (same_mono T).
    + intros ip' p' t' Hne Hl'. split; [|done]. intros ->. by destruct (Hne (sim_inj _ _ _ _ _ Hs _ _ _ _ _ Hl' El)).
Qed.

Lemma used_asked ev bu T s ls ip t : sim ev bu T s ls -> T <= t -> used ev bu (ask_at (ls ip) t).2 t.
Proof.
  intros Hs HT. pose proof (sim_start _ _ _ _ _ Hs). destruct (sim_used _ _ _ _ _ Hs ip) as [-> | (t1 & Ht1 & Hu)].
  - apply used_new. lia.
  - apply (used_ask _ _ _ t1); [done|lia].
Qed.

(** A request that takes no time gets the answer of the specification. *)
Lemma serve_sim ev bu `{Refills ev bu} T s ls ip t :
  0 <= ev -> bu * ev < 2 ^ 63 -> sim ev bu T s ls -> T <= t ->
  exists s', serve (fun _ => t) s ip = Ret ((ask_at (ls ip) t).1, s') /\ sim ev bu t s' (asked ls ip t).
Proof.
  intros He Hb Hs HT. unfold serve.
  destruct (GetOrSet_spec (fun _ => t) T (ipLimiterMap s) 0 ip (fresh s)) as (p & called & m & i & -> & G);
    [unfold monotone; lia|by eapply sim_wf|done|]. cbn [mbind outcome_bind].
  destruct (limiter_found ev bu T s ls ip t p called m i He Hb Hs HT G) as ((l & Hl & Hsame) & Hp & Hfr & Hoth).
  destruct (with_new s called) as [ls1 fr1]. cbn [fst snd] in *. rewrite Hl. cbn [or_panic mbind outcome_bind].
  change (ask l t t t) with (ask_at l t). destruct (same_ask t l (ls ip) t Hsame) as [Hv Hl']; [done|].
  destruct (ask_at l t) as [v l'] eqn:Ea. cbn [fst snd] in Hv, Hl'. subst v. eexists. split; [done|].
  destruct (sim_params _ _ _ _ _ Hs) as (E1 & E2 & E3).
  pose proof (gs_others _ _ _ _ _ _ _ _ _ G) as Ho. destruct (gs_entry _ _ _ _ _ _ _ _ _ G) as (j & _ & Hme).
  assert (forall ip' p' t', ip' <> ip -> lookup_entry m ip' = Some (p', t') ->
    lookup_entry (ipLimiterMap s) ip' = Some (p', t') /\ p' <> p /\ ls1 !! p' = limiters s !! p') as Hold.
  { intros ip' p' t' Hne Hin. destruct (proj1 (Ho ip' Hne) _ _ Hin) as [Hin' _]. split; [done|]. by eapply Hoth. }
  constructor; cbn [ipLimiterMap every burst limiters fresh].
  - by apply (gs_wf _ _ _ _ _ _ _ _ _ G).
  - pose proof (sim_start _ _ _ _ _ Hs). lia.
  - by rewrite (gs_ttl _ _ _ _ _ _ _ _ _ G).
  - intros ip'. unfold asked. case_decide; [right; exists t; split; [done|by eapply used_asked]|].
    destruct (sim_used _ _ _ _ _ Hs ip') as [?|(t1 & ? & ?)]; [by left|]. right. exists t1. split; [lia|done].
  - intros ip' p' t' Hin. unfold asked. case_decide as Hd.
    + subst ip'. rewrite Hme in Hin. injection Hin as <- <-. split_and!; [done|by eapply used_asked|].
      exists l'. by rewrite lookup_insert_eq.
    + destruct (Hold _ _ _ Hd Hin) as (Hin' & Hne & Hlk).
      destruct (sim_entry _ _ _ _ _ Hs _ _ _ Hin') as (? & ? & l1 & ? & ?). split_and!; [lia|done|].
      exists l1. rewrite lookup_insert_ne, Hlk by done. split; [done|]. by apply (same_mono T).
  - intros ip' Hn. unfold asked. case_decide as Hd; [subst ip'; congruence|].
    destruct (lookup_entry (ipLimiterMap s) ip') as [[w t1]|] eqn:El.
    + by apply (sim_expired ev bu T t s ls ip' w t1), (proj2 (Ho ip' Hd) w).
    + apply (same_mono T); [done|]. by apply (sim_missing _ _ _ _ _ Hs).
  - intros ip1 ip2 p' t1 t2 Hi1 Hi2. destruct (decide (ip1 = ip)) as [->|Hd1], (decide (ip2 = ip)) as [->|Hd2].
    + done.
    + rewrite Hme in Hi1. injection Hi1 as <- <-. by destruct (Hold _ _ _ Hd2 Hi2) as (_ & ? & _).
    + rewrite Hme in Hi2. injection Hi2 as <- <-. by destruct (Hold _ _ _ Hd1 Hi1) as (_ & ? & _).
    + eapply (sim_inj _ _ _ _ _ Hs); [by apply Hold|by apply Hold].
Qed.

(** Requests that take no time, as the middleware sees them. *)
Definition instant (rs : list (Z * IP)) : list ((nat -> Z) * IP) :=
  (fun '(t, ip) => ((fun _ => t) : nat -> Z, ip)) <$> rs.

Lemma serves_sim ev bu `{Refills ev bu} rs : 0 <= ev -> bu * ev < 2 ^ 63 ->
  forall T s ls, sim ev bu T s ls -> from T (rs.*1) ->
  exists s' T' ls', serves s (instant rs) = Ret (spec_serves ev bu ls rs, s') /\ sim ev bu T' s' ls' /\
    (forall u, from T (rs.*1 ++ [u]) -> T' <= u) /\
    (forall rs2, spec_serves ev bu ls (rs ++ rs2) = spec_serves ev bu ls rs ++ spec_serves ev bu ls' rs2) /\
    (forall rs2, serves s (instant (rs ++ rs2))
       = '(vs, s2) ← serves s' (instant rs2); Ret (spec_serves ev bu ls rs ++ vs, s2)).
Proof.
  intros He Hb. induction rs as [|[t ip] rs IH]; intros T s ls Hs Hf.
  { exists s, T, ls. split_and!; try done; [by intros u [? _]|].
    intros rs2. cbn [app spec_serves]. by destruct (serves s (instant rs2)) as [[vs s2]|]. }
  assert (forall l, instant ((t, ip) :: l) = (((fun _ => t) : nat -> Z, ip) :: instant l)) as Ei by done.
  destruct Hf as [Ht Hf]. destruct (serve_sim ev bu T s ls ip t He Hb Hs Ht) as (s1 & E1 & Hs1).
  destruct (IH t s1 _ Hs1 Hf) as (s' & T' & ls' & E & Hs' & Hu & Hsp & Hse).
  exists s', T', ls'. cbn [app spec_serves]. rewrite !Ei. cbn [serves]. rewrite E1. cbn [mbind outcome_bind].
  rewrite E. cbn [mbind outcome_bind]. unfold asked in *. destruct (ask_at (ls ip) t) as [v l].
  split_and!; [done|done|by intros u [_ ?]; apply Hu| |]; intros rs2.
  - by rewrite Hsp.
  - rewrite Ei. cbn [serves]. rewrite E1. cbn [mbind outcome_bind]. rewrite Hse.
    by destruct (serves s' (instant rs2)) as [[vs s2]|].
Qed.
End ratelimit.

(** * A token bucket in whole numbers *)

(** The credit is counted in nanoseconds, [b_every] for a token; [None] is the
    zero time a new limiter was last used at. *)
Record bucket := mkTokens { b_every : Z; b_burst : Z; credit : Z; b_last : option Z }.
Inductive reservation := NotOK | ActAt (t : Z).

Definition capacity (l : bucket) : Z := b_burst l * b_every l.
Definition advance (l : bucket) (t : Z) : Z :=
  match b_last l with None => capacity l | Some t0 => Z.min (capacity l) (credit l + (t - t0)) end.

#[export] Instance token_bucket : TokenBucket bucket reservation := {
  NewLimiter ev bu := mkTokens ev bu 0 None;
  Reserve t l :=
    if b_burst l <? 1 then (l, NotOK)
    else let c := advance l t - b_every l in
         (mkTokens (b_every l) (b_burst l) c (Some t), ActAt (t + Z.max 0 (- c)));
  DelayFrom r t := match r with NotOK => InfDuration | ActAt a => Z.max 0 (a - t) end;
  CancelAt r t l := match r with
    | NotOK => l
    | ActAt a => if a <? t then l
                 else mkTokens (b_every l) (b_burst l) (Z.min (capacity l) (advance l t + b_every l)) (Some t)
    end;
}.

(** Between requests the bucket owes nothing. *)
Record bucket_ok (ev bu t : Z) (l : bucket) : Prop := {
  bo_params : b_every l = ev /\ b_burst l = bu;
  bo_credit : match b_last l with None => True | Some t0 => t0 <= t /\ 0 <= credit l end;
}.

Lemma ask_at_small bu ev l t : b_every l = ev -> b_burst l = bu -> bu < 1 -> ask_at l t = (Delayed InfDuration, l).
Proof. intros E1 E2 Hb. unfold ask_at, ask. cbn. rewrite E2. by rewrite (proj2 (Z.ltb_lt bu 1)). Qed.

Lemma bucket_ask ev bu t u l : 0 <= ev -> bucket_ok ev bu t l -> t <= u -> bucket_ok ev bu u (ask_at l u).2.
Proof.
  intros He [[E1 E2] Hc] Hu. destruct (decide (bu < 1)) as [Hb|Hb].
  - rewrite (ask_at_small bu ev) by done. constructor; [done|]. cbn. destruct (b_last l); [lia|done].
  - unfold ask_at, ask. cbn. rewrite E2, (proj2 (Z.ltb_ge bu 1)) by lia.
    assert (0 <= advance l u <= bu * ev) as Ha.
    { unfold advance, capacity. rewrite E1, E2. destruct (b_last l); nia. }
    rewrite E1. set (c := advance l u - ev) in *.
    destruct (0 <? Z.max 0 (u + Z.max 0 (- c) - u)) eqn:Ed; cbn.
    + apply Z.ltb_lt in Ed. rewrite (proj2 (Z.ltb_ge _ _)) by lia. cbn. constructor; [done|].
      cbn. unfold advance, capacity; cbn. split; [lia|]. replace (u - u) with 0 by lia. nia.
    + apply Z.ltb_ge in Ed. constructor; [done|]. cbn. lia.
Qed.

Lemma bucket_after ev bu ts : 0 <= ev -> forall t l, bucket_ok ev bu t l -> from t ts ->
  bucket_ok ev bu (default t (last ts)) (after l ts).
Proof.
  intros He. induction ts as [|u ts IH]; intros t l Hl Hf; [done|]. destruct Hf as [Hu Hf]. cbn [after foldl].
  assert (default t (last (u :: ts)) = default u (last ts)) as -> by (rewrite last_cons; by destruct (last ts)).
  apply IH; [|done]. by eapply bucket_ask.
Qed.

Lemma answers_small ev bu l us : b_every l = ev -> b_burst l = bu -> bu < 1 ->
  answers l us = (fun _ => Delayed InfDuration) <$> us.
Proof.
  intros E1 E2 Hb. induction us as [|u us IH]; [done|]. cbn [answers].
  rewrite (ask_at_small bu ev) by done. cbn [fst snd]. by rewrite IH.
Qed.

Lemma bucket_refills ev bu : 0 <= ev -> Refills (L := bucket) ev bu.
Proof.
  intros He. constructor. intros t0 ts t us Hf Hus H0.
  pose proof (bucket_after ev bu (ts ++ [t]) He t0 (NewLimiter ev bu)) as Hok.
  rewrite last_snoc in Hok. cbn [default] in Hok. destruct Hok as [[E1 E2] Hc]; [done|done|].
  set (l := after _ (ts ++ [t])) in *.
  destruct (decide (bu < 1)) as [Hb|Hb]; [by rewrite !(answers_small ev bu)|].
  destruct us as [|u us]; [done|]. destruct Hus as [Hu _].
  assert (advance l u = bu * ev) as Ha.
  { unfold advance, capacity. rewrite E1, E2. assert (0 <= bu * ev) by nia.
    destruct (b_last l) as [t1|]; [unfold id in Hc; lia|done]. }
  assert (ask_at l u = ask_at (NewLimiter ev bu) u) as E.
  { unfold ask_at, ask. cbn. rewrite E1, E2, Ha, (proj2 (Z.ltb_ge bu 1)) by lia.
    by change (capacity (mkTokens ev bu 0 None)) with (bu * ev). }
  cbn [answers]. by rewrite E.
Qed.

Lemma too_many_status ceil_seconds w d : w_status w = None -> w_status (too_many ceil_seconds w d) = Some 429.
Proof. intros Hw. unfold too_many, http_Error. by destruct (d <? InfDuration); cbn; rewrite Hw. Qed.

(** * Correctness *)

(** C19. The rate limiter is equivalent to one limiter for every address that is
    never forgotten: for requests that take no time and come in order, with a
    bucket that is full once it has been idle for [burst * every], every
    request gets the verdict the specification gives it, without a panic, and
    the handler runs exactly on [Admit]; a request that has to wait gets a 429
    whose [Retry-After] is absent only for an infinite delay.  It holds for the
    bucket of tokens.  A request that is slow between [GetOrSet] and [Reserve]
    breaks it: with one token every 100 the address that took its token at 50
    gets another at 100, because its limiter has been forgotten. *)
Theorem limiter_refines {IP L R : Type} `{Countable IP} `{TokenBucket L R}
    (ceil_seconds : Z -> Z) (ev bu : Z) `{!Refills (L := L) ev bu} (rs : list (Z * IP)) (t : Z) (ip : IP)
    (Hev : 0 <= ev) (Hbu : bu * ev < 2 ^ 63) (Hrs : from 0 ((rs ++ [(t, ip)]).*1)) :
  (exists s s' v, serves (NewRateLimit ev bu) (instant rs)
     = Ret (spec_serves ev bu (fun _ => NewLimiter ev bu) rs, s) /\
   serves (NewRateLimit ev bu) (instant (rs ++ [(t, ip)]))
     = Ret (spec_serves ev bu (fun _ => NewLimiter ev bu) (rs ++ [(t, ip)]), s') /\
   last (spec_serves ev bu (fun _ => NewLimiter ev bu) (rs ++ [(t, ip)])) = Some v /\
   forall next w r, RateLimit_handler ceil_seconds id (fun s _ => s) (fun _ _ => t) (fun _ => ip) next w r s
     = match v with Admit => next w r s' | Delayed d => answer (too_many ceil_seconds w d) s' end) /\
  (forall w d, w_status w = None -> w_status (too_many ceil_seconds w d) = Some 429 /\
     (d < InfDuration -> w_header (too_many ceil_seconds w d) !! "Retry-After"%string = Some [Itoa (ceil_seconds d)])) /\
  Refills (L := bucket) ev bu /\
  (exists s, serves (L := bucket) (NewRateLimit 100 1)
     [((fun i => if decide (i = 0)%nat then 0 else 50), 7); ((fun _ => 100), 7)] = Ret ([Admit; Admit], s)) /\
  spec_serves (L := bucket) 100 1 (fun _ => NewLimiter 100 1) [(50, 7); (100, 7)] = [Admit; Delayed 50].
Proof.
  split_and!.
  - assert (forall l u T, from T (l ++ [u]) -> from T l) as Hfrom
      by (induction l; intros u T; cbn; naive_solver).
    rewrite fmap_app in Hrs.
    destruct (serves_sim ev bu rs Hev Hbu 0 _ _ (NewRateLimit_sim ev bu) (Hfrom _ _ _ Hrs))
      as (s & T & ls & E & Hs & Hu & Hsp & Hse).
    destruct (serve_sim ev bu T s ls ip t Hev Hbu Hs (Hu t Hrs)) as (s' & E' & _).
    exists s, s', (ask_at (ls ip) t).1. rewrite Hse, Hsp. cbn [instant fmap list_fmap serves spec_serves].
    rewrite E'. cbn [mbind outcome_bind]. destruct (ask_at (ls ip) t) as [v l]. split_and!; [done|done|by apply last_snoc|].
    intros next w r. unfold RateLimit_handler. cbn [id]. rewrite E'. by destruct v.
  - intros w d Hw. split; [by apply too_many_status|]. unfold too_many, http_Error. intros Hd. rewrite (proj2 (Z.ltb_lt _ _)) by done. cbn. by simplify_map_eq.
  - by apply bucket_refills.
  - eexists. vm_compute. reflexivity.
  - by vm_compute.
Qed.

Lemma limiter_refines_witness :
  Refills (L := bucket) 100 2 /\
  spec_serves (L := bucket) 100 2 (fun _ => NewLimiter 100 2) [(0, 7); (10, 7); (20, 7); (20, 8); (300, 7)]
  = [Admit; Admit; Delayed 80; Admit; Admit] /\
  exists s, serves (L := bucket) (NewRateLimit 100 2) (instant [(0, 7); (10, 7); (20, 7); (20, 8)])
    = Ret ([Admit; Admit; Delayed 80; Admit], s).
Proof.
  assert (Refills (L := bucket) 100 2) as Hr by (apply bucket_refills; lia).
  split; [exact Hr|]. split; [reflexivity|].
  destruct (limiter_refines (L := bucket) (fun d => d) 100 2 [(0, 7); (10, 7); (20, 7); (20, 8)] 300 7
    ltac:(lia) ltac:(reflexivity) ltac:(cbn; lia)) as ((s & s' & v & E & _) & _).
  exists s. exact E.
Defined.
