(* ===== verification/Config.v ===== *)
(** The configuration of the two commands: [cmd/registar/main.go]
    ([parseConfig]) and [cmd/star] (config.go, and main.go up to the calls of
    the forwarder), with [strings.TrimSpace] and the parser of package [flag].

    What [env.Parse] reads, the texts of URLs, integers and log levels, and the
    certificate files are parameters. *)
From S2P Require Import Prelude Text Sha256 Auth Forms Admin Http.
Local Open Scope Z_scope.

(** * strings.TrimSpace *)

(** [unicode.IsSpace] *)
Definition IsSpace (r : Z) : bool :=
  in_range 9 13 r || (r =? 32) || (r =? 133) || (r =? 160) || (r =? 5760) || in_range 8192 8202 r ||
  (r =? 8232) || (r =? 8233) || (r =? 8239) || (r =? 8287) || (r =? 12288).

(** [strings.TrimLeftFunc]; [skip] is what is left of the rune being dropped. *)
Fixpoint trim_left (skip : nat) (s : str) : str :=
  match skip, s with
  | _, [] => []
  | S skip, _ :: t => trim_left skip t
  | O, _ :: t => let '(r, w) := DecodeRune s in if IsSpace r then trim_left (w - 1) t else s
  end.

Definition RuneStart (b : Z) : bool := negb (Z.land b 192 =? 128).

(** How many bytes before the last one the last rune starts, of at most [n]. *)
Fixpoint start_before (n : nat) (before : str) : option nat :=
  match n, before with
  | S n, b :: before => if RuneStart b then Some 1%nat else S <$> start_before n before
  | _, _ => None
  end.

(** [utf8.DecodeLastRuneInString], on the reversed text. *)
Definition DecodeLastRune (rp : str) : Z * nat :=
  match rp with
  | [] => (RuneError, 0%nat)
  | c :: before =>
      if c <? RuneSelf then (c, 1%nat)
      else match start_before 3 before with
           | None => (RuneError, 1%nat)
           | Some k => let '(r, w) := DecodeRune (rev (take (S k) rp)) in
                       if decide (w = S k) then (r, w) else (RuneError, 1%nat)
           end
  end.

(** [strings.TrimRightFunc] on the reversed text. *)
Fixpoint trim_right (skip : nat) (rp : str) : str :=
  match skip, rp with
  | _, [] => []
  | S skip, _ :: t => trim_right skip t
  | O, _ :: t => let '(r, w) := DecodeLastRune rp in if IsSpace r then trim_right (w - 1) t else rp
  end.

Definition TrimSpace (s : str) : str := rev (trim_right 0 (rev (trim_left 0 s))).

Definition ascii (c : Z) : Prop := 0 <= c < 128.

Lemma DecodeRune_ascii c t : ascii c -> DecodeRune (c :: t) = (c, 1%nat).
Proof. intros [H0 H]. cbn. by rewrite (proj2 (Z.ltb_lt _ _)) by exact H. Qed.

Lemma DecodeLastRune_ascii c t : ascii c -> DecodeLastRune (c :: t) = (c, 1%nat).
Proof. intros [H0 H]. cbn. by rewrite (proj2 (Z.ltb_lt _ _)) by exact H. Qed.

Definition blank (c : Z) : Prop := ascii c /\ IsSpace c = true.
Definition visible (c : Z) : Prop := ascii c /\ IsSpace c = false.

(** Blanks around a text that begins and ends with a visible character. *)
Lemma TrimSpace_blanks ws ws' c s c' :
  Forall blank ws -> Forall blank ws' -> visible c -> visible c' ->
  TrimSpace (ws ++ (c :: s ++ [c']) ++ ws') = c :: s ++ [c'].
Proof.
  intros Hws Hws' [Hc Hcs] [Hc' Hcs']. unfold TrimSpace.
  assert (trim_left 0 (ws ++ (c :: s ++ [c']) ++ ws') = (c :: s ++ [c']) ++ ws') as ->.
  { induction Hws as [|w ws [Ha Hs] _ IH].
    - cbn [app trim_left]. by rewrite DecodeRune_ascii, Hcs.
    - cbn [app trim_left]. by rewrite DecodeRune_ascii, Hs. }
  rewrite rev_app_distr. assert (Forall blank (rev ws')) as Hr by (by apply Forall_rev).
  assert (rev (c :: s ++ [c']) = c' :: rev (c :: s)) as Er by (change (c :: s ++ [c']) with ((c :: s) ++ [c']); by rewrite rev_app_distr).
  assert (trim_right 0 (rev ws' ++ rev (c :: s ++ [c'])) = rev (c :: s ++ [c'])) as ->; [|apply rev_involutive].
  rewrite Er. clear Hws'. induction Hr as [|w l [Ha Hs] _ IH].
  - cbn [app trim_right]. by rewrite DecodeLastRune_ascii, Hcs'.
  - cbn [app trim_right]. by rewrite DecodeLastRune_ascii, Hs.
Qed.

Lemma TrimSpace_blank ws : Forall blank ws -> TrimSpace ws = [].
Proof.
  intros Hws. unfold TrimSpace. assert (trim_left 0 ws = []) as ->; [|done].
  induction Hws as [|w ws [Ha Hs] _ IH]; [done|]. cbn [trim_left]. by rewrite DecodeRune_ascii, Hs.
Qed.

(** * Package flag *)

(** What an argument is to [FlagSet.parseOne]. *)
Inductive argument :=
| NotFlag
| Terminator
| BadSyntax
| Named (name : str) (value : option str).

Definition minus : Z := 45.
Definition equals : Z := 61.

Fixpoint split_value (s : str) : str * option str :=
  match s with
  | [] => ([], None)
  | c :: s => if c =? equals then ([], Some s) else let '(n, v) := split_value s in (c :: n, v)
  end.

Definition classify (s : str) : argument :=
  match s with
  | a :: b :: t =>
      if negb (a =? minus) then NotFlag
      else if (b =? minus) && bool_decide (t = []) then Terminator
      else match (if b =? minus then t else b :: t) with
           | [] => BadSyntax
           | c :: rest =>
               if (c =? minus) || (c =? equals) then BadSyntax
               else let '(n, v) := split_value rest in Named (c :: n) v
           end
  | _ => NotFlag
  end.

(** [FlagSet.Parse] under [ExitOnError]: a flag is its name and its [Set], with
    [None] for an error. *)
Inductive parsed (C : Type) := Parsed (c : C) (args : list str) | Exit (code : Z).
Arguments Parsed {C}.
Arguments Exit {C}.

Definition flagset (C : Type) : Type := list (str * (str -> C -> option C)).

Fixpoint formal {C} (fs : flagset C) (name : str) : option (str -> C -> option C) :=
  match fs with
  | [] => None
  | (n, set) :: fs => if decide (n = name) then Some set else formal fs name
  end.

Fixpoint flag_Parse {C} (fs : flagset C) (c : C) (args : list str) : parsed C :=
  match args with
  | [] => Parsed c []
  | s :: rest =>
      match classify s with
      | NotFlag => Parsed c args
      | Terminator => Parsed c rest
      | BadSyntax => Exit 2
      | Named name value =>
          match formal fs name with
          | None => Exit (if decide (name ∈ [bytes_of_string "help"; bytes_of_string "h"]) then 0 else 2)
          | Some set =>
              match value, rest with
              | Some v, _ => match set v c with Some c => flag_Parse fs c rest | None => Exit 2 end
              | None, v :: rest => match set v c with Some c => flag_Parse fs c rest | None => Exit 2 end
              | None, [] => Exit 2
              end
          end
      end
  end.

(** A flag given as two arguments sets its value and parsing goes on. *)
Lemma flag_Parse_two {C} (fs : flagset C) c c' name set v args :
  formal fs name = Some set -> set v c = Some c' ->
  classify (minus :: name) = Named name None ->
  flag_Parse fs c ((minus :: name) :: v :: args) = flag_Parse fs c' args.
Proof. intros H1 H2 H3. cbn [flag_Parse]. by rewrite H3, H1, H2. Qed.

(** * cmd/registar: parseConfig *)

(** The fields of [type config struct] that the models use. *)
Record config := mkConfig {
  SecretFromFile : str;
  cSecret : str;
  RateLimitEvery : Z;
  RateLimitBurst : Z;
  AdvertiseHTTP3Port : Z;
  RedirectPort : Z;
  Domains : list str;
  AdminSecretFromFile : str;
  AdminSecret : str;
  ScrapeInterval : Z;
}.

(** [parseConfig], for what [env.Parse] stored; [None] is an [abort], which
    exits with 1. *)
Definition parseConfig (env : option config) : option config :=
  cfg ← env;
  let secretFile := TrimSpace (SecretFromFile cfg) in
  let secret := TrimSpace (cSecret cfg) in
  let secret := if decide (secretFile <> []) then secretFile else secret in
  let adminFile := TrimSpace (AdminSecretFromFile cfg) in
  let admin := TrimSpace (AdminSecret cfg) in
  if decide (adminFile = [] /\ admin = []) then None
  else
    let admin := if decide (adminFile <> []) then adminFile else admin in
    Some (mkConfig secretFile secret (RateLimitEvery cfg) (RateLimitBurst cfg) (AdvertiseHTTP3Port cfg)
            (RedirectPort cfg) (Domains cfg) adminFile admin (ScrapeInterval cfg)).

(** * cmd/star: config.go and main.go *)

(** What a [Parse] method gives: it exits, returns an error, or the
    configuration and the arguments that are left. *)
Inductive config_result (C : Type) := Exits (code : Z) | Failed (msg : string) | Configured (c : C) (args : list str).
Arguments Exits {C}.
Arguments Failed {C}.
Arguments Configured {C}.

Section star.
Context {URL Cert Level : Type}.
Variable upper : Z -> Z.
Variable url_Parse : str -> option URL.
Variable parse_int : str -> option Z.           (* strconv.ParseInt(s, 0, 64) *)
Variable parse_level : str -> option Level.     (* slog.Level.UnmarshalText *)
Variable level_info : Level.
Variable read_file : str -> option str.         (* os.ReadFile *)
Variable pem_Decode : str -> option (str * str).
Variable ParseCertificate : str -> option Cert.

(** [type commandConfig struct]; [Registar] is the pointer in its [textURL]. *)
Record commandConfig := mkCommand {
  Command : str;
  ccSecret : str;
  ccRegistar : option URL;
  ccPort : Z;
  CaCert : str;
  LogLevel : Level;
}.

Definition command_flags : flagset commandConfig := [
  (bytes_of_string "secret", fun v c =>
     Some (mkCommand (Command c) v (ccRegistar c) (ccPort c) (CaCert c) (LogLevel c)));
  (bytes_of_string "registar", fun v c =>
     u ← url_Parse v; Some (mkCommand (Command c) (ccSecret c) (Some u) (ccPort c) (CaCert c) (LogLevel c)));
  (bytes_of_string "port", fun v c =>
     p ← parse_int v; Some (mkCommand (Command c) (ccSecret c) (ccRegistar c) p (CaCert c) (LogLevel c)));
  (bytes_of_string "ca-cert", fun v c =>
     Some (mkCommand (Command c) (ccSecret c) (ccRegistar c) (ccPort c) v (LogLevel c)));
  (bytes_of_string "log-level", fun v c =>
     l ← parse_level v; Some (mkCommand (Command c) (ccSecret c) (ccRegistar c) (ccPort c) (CaCert c) l))].

(** [commandConfig.Parse] *)
Definition command_Parse (args : list str) : config_result commandConfig :=
  match flag_Parse command_flags (mkCommand [] [] None 0 [] level_info) args with
  | Exit n => Exits n
  | Parsed c [] => Failed "missing command"
  | Parsed c (cmd :: rest) =>
      match ccRegistar c with
      | None => Failed "missing registar URL"
      | Some _ => Configured (mkCommand cmd (ccSecret c) (ccRegistar c) (ccPort c) (CaCert c) (LogLevel c)) rest
      end
  end.

(** [flag.TextVar] with a key. *)
Definition set_key {C} (put : Key -> C -> C) (v : str) (c : C) : option C :=
  match UnmarshalText upper v with Ret (Ok k) => Some (put k c) | _ => None end.

Definition stardewPort : Z := 24642.

(** [hostConfig.Parse]; the record is that of the web form. *)
Definition host_flags : flagset hostConfig := [
  (bytes_of_string "port", fun v c => p ← parse_int v; Some (mkHost p (GameKey c)));
  (bytes_of_string "key", set_key (fun k c => mkHost (GamePort c) k))].

Definition host_Parse (rnd : result unit str) (args : list str) : outcome (config_result hostConfig) :=
  match flag_Parse host_flags (mkHost stardewPort zero_key) args with
  | Exit n => Ret (Exits n)
  | Parsed c args =>
      if decide (GameKey c = zero_key) then k ← NewKey rnd; Ret (Configured (mkHost (GamePort c) k) args)
      else Ret (Configured c args)
  end.

(** [peerConfig.Parse] *)
Definition peer_flags : flagset peerConfig := [
  (bytes_of_string "key", set_key (fun k c => mkPeer k (GameListenPort c)));
  (bytes_of_string "listen-port", fun v c => p ← parse_int v; Some (mkPeer (InviteCode c) p))].

Definition peer_Parse (args : list str) : config_result peerConfig :=
  match flag_Parse peer_flags (mkPeer zero_key 0) args with
  | Exit n => Exits n
  | Parsed c args => if decide (InviteCode c = zero_key) then Failed "missing game key" else Configured c args
  end.

(** [loadCACert] and [loadTLSConfig] *)
Definition loadCACert (path : str) : option Cert :=
  data ← read_file path; parseCACert pem_Decode ParseCertificate data.

Definition loadTLSConfig (path : str) : option (tls_Config (Cert := Cert)) :=
  if decide (path = []) then Some (mkTLS None [NextProtoH3])
  else c ← loadCACert path; Some (mkTLS (Some [c]) [NextProtoH3]).

(** What [main] goes on to do: the web server, or the forwarder with its
    configuration, the URL and the token, and what it prints. *)
Inductive action :=
| RunWeb
| RunHost (tls : tls_Config (Cert := Cert)) (listen : Z) (url : option URL) (token : Token) (invite : str) (gamePort : Z)
| RunPeer (tls : tls_Config (Cert := Cert)) (listen : Z) (url : option URL) (token : Token) (gameListenPort : Z)
| Exited (code : Z).

(** [runHost], up to [fwdCfg.Register] *)
Definition runHost (rnd : result unit str) (cfg : commandConfig) (hostCfg : hostConfig)
    (tls : tls_Config (Cert := Cert)) : outcome action :=
  gameKey ← (if decide (GameKey hostCfg = zero_key) then NewKey rnd else Ret (GameKey hostCfg));
  Ret (RunHost tls (ccPort cfg) (ccRegistar cfg) (NewToken gameKey (ccSecret cfg)) (Key_String gameKey) (GamePort hostCfg)).

(** [runPeer], up to [fwdCfg.Join] *)
Definition runPeer (cfg : commandConfig) (peerCfg : peerConfig) (tls : tls_Config (Cert := Cert)) : action :=
  RunPeer tls (ccPort cfg) (ccRegistar cfg) (NewToken (InviteCode peerCfg) (ccSecret cfg)) (GameListenPort peerCfg).

(** [main], on the arguments after the name of the program; [abort] exits
    with 2. *)
Definition main (rnd1 rnd2 : result unit str) (args : list str) : outcome action :=
  match args with
  | [] => Ret RunWeb
  | _ =>
      match command_Parse args with
      | Exits n => Ret (Exited n)
      | Failed _ => Ret (Exited 2)
      | Configured cfg rest =>
          match loadTLSConfig (CaCert cfg) with
          | None => Ret (Exited 2)
          | Some tls =>
              if decide (Command cfg = bytes_of_string "host") then
                r ← host_Parse rnd1 rest;
                match r with
                | Exits n => Ret (Exited n)
                | Failed _ => Ret (Exited 2)
                | Configured hostCfg _ => runHost rnd2 cfg hostCfg tls
                end
              else if decide (Command cfg = bytes_of_string "peer") then
                match peer_Parse rest with
                | Exits n => Ret (Exited n)
                | Failed _ => Ret (Exited 2)
                | Configured peerCfg _ => Ret (runPeer cfg peerCfg tls)
                end
              else Ret (Exited 2)
          end
      end
  end.
End star.

(** * Properties *)

(** An invariant of every [Set] is one of [Parse]. *)
Lemma flag_Parse_inv {C} (I : C -> Prop) (fs : flagset C) :
  Forall (fun f => forall v c c', I c -> f.2 v c = Some c' -> I c') fs ->
  forall args c c' rest, I c -> flag_Parse fs c args = Parsed c' rest -> I c'.
Proof.
  intros Hfs. assert (forall name set v c c', formal fs name = Some set -> I c -> set v c = Some c' -> I c') as Hset.
  { intros name set v c c' Hf. induction Hfs as [|[n f] fs Hn _ IH]; cbn in Hf; [done|].
    case_decide; [injection Hf as ->; by apply Hn|by apply IH]. }
  intros args. assert (exists n, (length args <= n)%nat) as [n Hn] by by eexists. revert args Hn.
  induction n as [|n IH]; intros args Hn c c' rest Hc; (destruct args as [|s args]; [by intros [= <- <-]|]);
    cbn [length] in Hn; [lia|].
  cbn [flag_Parse]. destruct (classify s) as [| | |name value]; try (by intros [= <- <-] || done).
  destruct (formal fs name) as [set|] eqn:Ef; [|done].
  destruct value as [v|]; [|destruct args as [|v args]; [done|]];
    (destruct (set v c) as [c1|] eqn:Es; [|done]; apply IH; [cbn in Hn; lia|by eapply Hset]).
Qed.

Lemma UnmarshalText_wf upper v k : UnmarshalText upper v = Ret (Ok k) -> Key_wf k.
Proof.
  intros H. destruct (decide (well_shaped v)) as [Hs|Hs].
  - rewrite UnmarshalText_shaped in H by done. by apply parse_normal_ok in H as [? _].
  - by rewrite UnmarshalText_unshaped in H.
Qed.

(** What the random source gives, when it gives anything. *)
Definition fills_key (rnd : result unit str) : Prop := forall b, rnd = Ok b -> length b = KeySize /\ bytes_ok b.

Lemma NewKey_wf rnd k : fills_key rnd -> NewKey rnd = Ret k -> Key_wf k.
Proof.
  intros Hr. destruct rnd as [b|]; [|done]. intros [= <-]. destruct (Hr b eq_refl) as [Hl Hb].
  unfold go_copy, zero_key. rewrite length_replicate, take_ge, drop_ge, app_nil_r by (rewrite ?length_replicate; lia). done.
Qed.

Lemma basicAuth_iff secret pw : secret <> [] -> basicAuth secret pw = Served <-> pw = Some secret.
Proof.
  intros Hs. unfold basicAuth. rewrite decide_False by done. destruct pw as [p|]; [|naive_solver].
  pose proof (hmac_Equal_spec p secret) as E. destruct (hmac_Equal p secret); naive_solver.
Qed.

(** The values [parseConfig] leaves in the fields of the secrets. *)
Lemma parseConfig_Some e cfg : parseConfig (Some e) = Some cfg ->
  cSecret cfg = (if decide (TrimSpace (SecretFromFile e) <> []) then TrimSpace (SecretFromFile e) else TrimSpace (cSecret e)) /\
  AdminSecret cfg = (if decide (TrimSpace (AdminSecretFromFile e) <> []) then TrimSpace (AdminSecretFromFile e)
                     else TrimSpace (AdminSecret e)) /\ AdminSecret cfg <> [].
Proof.
  unfold parseConfig. cbn [mbind option_bind]. destruct (decide (_ /\ _)) as [|Ha]; [done|]. intros [= <-].
  cbn [cSecret AdminSecret]. split_and!; [done|done|]. case_decide; [done|tauto].
Qed.

Section correctness.
Context {URL Cert Level : Type}.
Variable upper : Z -> Z.
Variable url_Parse : str -> option URL.
Variable parse_int : str -> option Z.
Variable parse_level : str -> option Level.
Variable level_info : Level.
Variable read_file : str -> option str.
Variable pem_Decode : str -> option (str * str).
Variable ParseCertificate : str -> option Cert.

Local Abbreviation main := (main upper url_Parse parse_int parse_level level_info read_file pem_Decode ParseCertificate).

(** The arguments of a user: server, shared secret, command, key. *)
Definition command_line (u secret command key : str) : list str :=
  [bytes_of_string "-registar"; u; bytes_of_string "-secret"; secret; command; bytes_of_string "-key"; key].

Lemma host_Parse_wf rnd args c rest : fills_key rnd ->
  host_Parse upper parse_int rnd args = Ret (Configured c rest) -> Key_wf (GameKey c).
Proof.
  intros Hr. unfold host_Parse. destruct (flag_Parse _ _ _) as [c1 a|] eqn:E; [|done].
  apply (flag_Parse_inv (fun c => Key_wf (GameKey c))) in E; [| |by split; [|by vm_compute; repeat constructor]].
  - case_decide; [|by intros [= <- <-]]. destruct (NewKey rnd) as [k|] eqn:Ek; [|done]. intros [= <- <-].
    by eapply NewKey_wf.
  - apply Forall_cons; split; [|apply Forall_cons; split; [|done]]; intros v c0 c' Hc; cbn.
    + destruct (parse_int v); [|done]. by intros [= <-].
    + unfold set_key. destruct (UnmarshalText upper v) as [[k|]|] eqn:Ek; try done. intros [= <-]. by eapply UnmarshalText_wf.
Qed.

Lemma peer_Parse_wf args c rest :
  peer_Parse upper parse_int args = Configured c rest -> Key_wf (InviteCode c) /\ InviteCode c <> zero_key.
Proof.
  unfold peer_Parse. destruct (flag_Parse _ _ _) as [c1 a|] eqn:E; [|done].
  apply (flag_Parse_inv (fun c => Key_wf (InviteCode c))) in E; [| |by split; [|by vm_compute; repeat constructor]].
  - case_decide; [done|]. by intros [= <- <-].
  - apply Forall_cons; split; [|apply Forall_cons; split; [|done]]; intros v c0 c' Hc; cbn.
    + unfold set_key. destruct (UnmarshalText upper v) as [[k|]|] eqn:Ek; try done. intros [= <-]. by eapply UnmarshalText_wf.
    + destruct (parse_int v); [|done]. by intros [= <-].
Qed.

Lemma command_Parse_line u secret command key url :
  url_Parse u = Some url -> classify command = NotFlag ->
  command_Parse url_Parse parse_int parse_level level_info (command_line u secret command key)
  = Configured (mkCommand command secret (Some url) 0 [] level_info) [bytes_of_string "-key"; key].
Proof.
  intros Hu Hc. unfold command_Parse, command_line.
  change (bytes_of_string "-registar") with (minus :: bytes_of_string "registar").
  change (bytes_of_string "-secret") with (minus :: bytes_of_string "secret").
  erewrite flag_Parse_two; [|reflexivity|cbn beta iota; rewrite Hu; reflexivity|reflexivity].
  erewrite flag_Parse_two; [|reflexivity|reflexivity|reflexivity].
  cbn [flag_Parse]. by rewrite Hc.
Qed.

(** A run of [main] that starts a forwarder has a URL and a token of a
    well-formed key under the secret of the command line. *)
Definition action_ok (act : action (URL := URL) (Cert := Cert)) : Prop :=
  match act with
  | RunHost _ _ url tok invite _ => is_Some url /\ exists k secret, Key_wf k /\ tok = NewToken k secret /\ invite = Key_String k
  | RunPeer _ _ url tok _ => is_Some url /\ exists k secret, Key_wf k /\ k <> zero_key /\ tok = NewToken k secret
  | _ => True
  end.

Lemma main_ok rnd1 rnd2 args act : fills_key rnd1 -> fills_key rnd2 -> main rnd1 rnd2 args = Ret act -> action_ok act.
Proof.
  intros H1 H2. unfold Config.main. destruct args as [|a args]; [by intros [= <-]|].
  destruct (command_Parse _ _ _ _ _) as [n|m|cfg rest] eqn:Ec; [by intros [= <-]..|].
  assert (is_Some (ccRegistar cfg)) as Hu.
  { unfold command_Parse in Ec. destruct (flag_Parse _ _ _) as [c0 [|cmd r]|]; try done.
    destruct (ccRegistar c0) as [u|] eqn:Er; [|done]. injection Ec as <- <-. by exists u. }
  destruct (loadTLSConfig _ _ _ _) as [tls|]; [|by intros [= <-]]. case_decide.
  - destruct (host_Parse _ _ _ _) as [[n|m|hc r]|] eqn:Eh; cbn [mbind outcome_bind]; [by intros [= <-]..| |done].
    apply host_Parse_wf in Eh; [|done]. unfold runHost. destruct (if decide _ then _ else _) as [k|] eqn:Ek; [|done].
    intros [= <-]. split; [done|]. exists k, (ccSecret cfg). split; [|done].
    case_decide; [by eapply NewKey_wf|congruence].
  - case_decide; [|by intros [= <-]]. destruct (peer_Parse _ _ _) as [n|m|pc r] eqn:Ep; [by intros [= <-]..|].
    apply peer_Parse_wf in Ep as [Hk Hz]. intros [= <-]. split; [done|]. by exists (InviteCode pc), (ccSecret cfg).
Qed.

Lemma main_line rnd1 rnd2 u secret command key url :
  url_Parse u = Some url -> classify command = NotFlag ->
  main rnd1 rnd2 (command_line u secret command key)
  = let cfg := mkCommand command secret (Some url) 0 [] level_info in
    let tls := mkTLS None [NextProtoH3] in
    if decide (command = bytes_of_string "host") then
      r ← host_Parse upper parse_int rnd1 [bytes_of_string "-key"; key];
      match r with
      | Exits n => Ret (Exited n)
      | Failed _ => Ret (Exited 2)
      | Configured hostCfg _ => runHost rnd2 cfg hostCfg tls
      end
    else if decide (command = bytes_of_string "peer") then
      match peer_Parse upper parse_int [bytes_of_string "-key"; key] with
      | Exits n => Ret (Exited n)
      | Failed _ => Ret (Exited 2)
      | Configured peerCfg _ => Ret (runPeer cfg peerCfg tls)
      end
    else Ret (Exited 2).
Proof.
  intros Hu Hc. unfold Config.main. cbn [command_line].
  fold (command_line u secret command key). rewrite (command_Parse_line _ _ _ _ url) by done.
  cbn [CaCert Command]. unfold loadTLSConfig. by rewrite decide_True.
Qed.

(** C21. Server and clients agree.  With the secret in the server's file or
    variable, blanks around it or not, and on the command line of a host and of
    a peer who types the invite code the host prints: the host registers and
    the peer joins with the same token, which the server admits as that key.
    The admin pages are served for the admin password alone, which is never
    empty.  Whatever the arguments, a forwarder is started only with a URL and
    with the token of a well-formed key; a peer is refused the zero key. *)
Theorem commands_agree (rnd1 rnd2 : result unit str) (e cfg : config) (ws ws' mid u : str) (c c' : Z)
    (url : URL) (k : Key) (Hr1 : fills_key rnd1) (Hr2 : fills_key rnd2)
    (Hcfg : parseConfig (Some e) = Some cfg)
    (Hws : Forall blank ws) (Hws' : Forall blank ws') (Hc : visible c) (Hc' : visible c')
    (Hsecret : SecretFromFile e = ws ++ (c :: mid ++ [c']) ++ ws' \/
               SecretFromFile e = ws /\ cSecret e = ws ++ (c :: mid ++ [c']) ++ ws')
    (Hu : url_Parse u = Some url) (Hk : Key_wf k) (Hz : k <> zero_key) :
  let secret := c :: mid ++ [c'] in
  let token := NewToken k secret in
  let tls := mkTLS None [NextProtoH3] in
  main rnd1 rnd2 (command_line u secret (bytes_of_string "host") (Key_String k))
    = Ret (RunHost tls 0 (Some url) token (Key_String k) stardewPort) /\
  main rnd1 rnd2 (command_line u secret (bytes_of_string "peer") (Key_String k))
    = Ret (RunPeer tls 0 (Some url) token 0) /\
  (forall error_text tokener r, tokener r = Token_String token ->
     check_token error_text (cSecret cfg) tokener r = Ok (ContextWithKey r k)) /\
  (forall pw, basicAuth (AdminSecret cfg) pw = Served <-> pw = Some (AdminSecret cfg) /\ AdminSecret cfg <> []) /\
  (forall args act, main rnd1 rnd2 args = Ret act -> action_ok act) /\
  main rnd1 rnd2 (command_line u secret (bytes_of_string "peer") (Key_String zero_key)) = Ret (Exited 2).
Proof.
  intros secret token tls. destruct (parseConfig_Some _ _ Hcfg) as (Es & Ea & Hna).
  assert (cSecret cfg = secret) as Hs.
  { rewrite Es. assert (TrimSpace (ws ++ secret ++ ws') = secret) as Et by exact (TrimSpace_blanks ws ws' c mid c' Hws Hws' Hc Hc').
    fold secret in Hsecret. destruct Hsecret as [-> | [-> ->]]; rewrite Et; [by rewrite decide_True by (unfold secret; discriminate)|].
    rewrite TrimSpace_blank by done. by rewrite decide_False by tauto. }
  assert (forall k, Key_wf k -> flag_Parse (peer_flags upper parse_int) (mkPeer zero_key 0) [bytes_of_string "-key"; Key_String k]
    = Parsed (mkPeer k 0) []) as Hpeer.
  { intros k' Hk'. change (bytes_of_string "-key") with (minus :: bytes_of_string "key").
    erewrite flag_Parse_two; [|reflexivity|cbn beta iota; unfold set_key; rewrite Key_String_parses by done; reflexivity|reflexivity]. done. }
  split_and!.
  - rewrite (main_line _ _ _ _ _ _ url) by done. rewrite decide_True by done. unfold host_Parse.
    change (bytes_of_string "-key") with (minus :: bytes_of_string "key").
    erewrite flag_Parse_two; [|reflexivity|cbn beta iota; unfold set_key; rewrite Key_String_parses by done; reflexivity|reflexivity].
    cbn [flag_Parse GameKey]. rewrite decide_False by done. cbn [mbind outcome_bind]. unfold runHost. cbn [GameKey].
    by rewrite decide_False.
  - rewrite (main_line _ _ _ _ _ _ url), decide_False, decide_True by done. unfold peer_Parse. rewrite Hpeer by done.
    cbn [InviteCode]. by rewrite decide_False.
  - intros error_text tokener r Ht. rewrite Hs. apply check_token_made; [done|]. rewrite Ht. by apply NewToken_parses.
  - intros pw. rewrite basicAuth_iff by done. tauto.
  - intros args act. by apply main_ok.
  - rewrite (main_line _ _ _ _ _ _ url), decide_False, decide_True by done. unfold peer_Parse.
    rewrite Hpeer by (split; [done|by vm_compute; repeat constructor]). cbn [InviteCode]. by rewrite decide_True.
Qed.
End correctness.

(** * Witness *)

Lemma commands_agree_witness :
  let secret := bytes_of_string "s3cret" in
  let k := [255; 0; 16; 32; 7] in
  main (URL := str) (Cert := unit) (Level := unit) id Some (fun _ => None) (fun _ => None) () (fun _ => None)
    (fun _ => None) (fun _ => None) (Err ()) (Err ())
    (command_line (bytes_of_string "https://star.example") secret (bytes_of_string "peer") (Key_String k))
  = Ret (RunPeer (mkTLS None [NextProtoH3]) 0 (Some (bytes_of_string "https://star.example")) (NewToken k secret) 0).
Proof.
  pose (e := mkConfig (bytes_of_string "s3cret" ++ [10]) [] 100 1 443 443 [] [] [112] 5).
  assert (Key_wf [255; 0; 16; 32; 7]) as Hk
    by (split; [reflexivity|unfold bytes_ok; repeat constructor; unfold is_byte; lia]).
  assert (forall c, ascii c -> IsSpace c = false -> visible c) as Hv by (intros c H1 H2; split; [exact H1|exact H2]).
  assert (fills_key (Err ())) as Hr by (intros b Hb; discriminate Hb).
  exact (proj1 (proj2 (commands_agree (URL := str) (Cert := unit) (Level := unit) id Some (fun _ => None) (fun _ => None) ()
    (fun _ => None) (fun _ => None) (fun _ => None) (Err ()) (Err ()) e _ [] [10] (bytes_of_string "3cre")
    (bytes_of_string "https://star.example") 115 116 (bytes_of_string "https://star.example") [255; 0; 16; 32; 7]
    Hr Hr eq_refl (List.Forall_nil _) ltac:(repeat constructor; unfold ascii; lia)
    ltac:(apply Hv; [unfold ascii; lia|reflexivity]) ltac:(apply Hv; [unfold ascii; lia|reflexivity])
    (or_introl eq_refl) eq_refl Hk ltac:(discriminate)))).
Defined.
