(* ===== verification/Hostname.v ===== *)
(** How [crypto/x509] compares the name of a server with those of a certificate:
    [Certificate.VerifyHostname] of the standard library, with [net.ParseIP].

    A certificate of this program has DNS names only, which [NewCert] of
    [internal/cert/cert.go] copies from the request. *)
From S2P Require Import Prelude Text Http.
Local Open Scope Z_scope.

Definition period : Z := 46.
Definition percent : Z := 37.

(** [strings.Split] at a byte. *)
Fixpoint split_at (c : Z) (s : str) : list str :=
  match s with
  | [] => [[]]
  | x :: s => if x =? c then [] :: split_at c s
              else match split_at c s with l :: ls => (x :: l) :: ls | [] => [[x]] end
  end.
Abbreviation labels := (split_at period).

(** * net.ParseIP *)

Definition is_digit (c : Z) : bool := in_range 48 57 c.
Definition is_hex (c : Z) : bool := is_digit c || in_range 65 70 c || in_range 97 102 c.

(** A field of an IPv4 address: no leading zero, at most 255. *)
Definition octet (s : str) : bool :=
  match s with
  | [] => false
  | [c] => is_digit c
  | c :: _ => forallb is_digit s && negb (c =? 48) && (length s <=? 3)%nat && (foldl (fun v d => 10 * v + (d - 48)) 0 s <=? 255)
  end.

(** [parseIPv4] *)
Definition is_ipv4 (s : str) : bool := let fs := labels s in (length fs =? 4)%nat && forallb octet fs.

(** The digits at the start of a text. *)
Fixpoint hex_run (s : str) : str * str :=
  match s with
  | [] => ([], [])
  | c :: s' => if is_hex c then let '(h, r) := hex_run s' in (c :: h, r) else ([], s)
  end.

(** The loop of [parseIPv6], with at most [n] groups to come: [i] bytes have been
    set, and there may have been an ellipsis; whether the text is an address. *)
Definition ends6 (i : nat) (ellipsis : bool) : bool := if (i <? 16)%nat then ellipsis else negb ellipsis.

Fixpoint groups6 (n : nat) (s : str) (i : nat) (ellipsis : bool) : bool :=
  match n with
  | O => bool_decide (s = []) && ends6 i ellipsis
  | S n =>
      let '(h, rest) := hex_run s in
      if (length h =? 0)%nat || (4 <? length h)%nat then false
      else
        match rest with
        | [] => ends6 (i + 2) ellipsis
        | c :: rest =>
            if c =? period then
              (ellipsis || (i =? 12)%nat) && (i + 4 <=? 16)%nat && is_ipv4 s && ends6 (i + 4) ellipsis
            else if negb (c =? colon) then false
            else
              match rest with
              | [] => false
              | c :: rest' =>
                  if c =? colon then
                    if ellipsis then false
                    else match rest' with [] => ends6 (i + 2) true | _ => groups6 n rest' (i + 2) true end
                  else groups6 n rest (i + 2) ellipsis
              end
        end
  end.

Definition is_ipv6 (s : str) : bool :=
  match s with
  | a :: b :: rest =>
      if (a =? colon) && (b =? colon) then match rest with [] => true | _ => groups6 8 rest 0 true end
      else groups6 8 s 0 false
  | _ => groups6 8 s 0 false
  end.

(** [net.ParseIP], as far as it tells an address from another text; an address
    with a zone is none. *)
Definition ParseIP (s : str) : bool :=
  match List.find (fun c => (c =? period) || (c =? colon) || (c =? percent)) s with
  | Some c => if c =? period then is_ipv4 s else if c =? colon then negb (existsb (Z.eqb percent) s) && is_ipv6 s else false
  | None => false
  end.

(** * x509 *)

Definition lower (c : Z) : Z := if in_range 65 90 c then c + 32 else c.
Definition toLowerCaseASCII (s : str) : str := map lower s.

(** [strings.TrimSuffix(s, ".")] *)
Definition trim_dot (s : str) : str := if bool_decide (last s = Some period) then take (length s - 1) s else s.

(** A label: what [validHostname] asks of its characters. *)
Definition host_char (c : Z) : bool := is_digit c || in_range 65 90 c || in_range 97 122 c || (c =? 95).
Definition valid_label (l : str) : bool :=
  match l with [] => false | c :: l => host_char c && forallb (fun c => host_char c || (c =? 45)) l end.

Definition star_label : str := [42].

(** [validHostname] *)
Definition validHostname (isPattern : bool) (host : str) : bool :=
  let host := if isPattern then host else trim_dot host in
  if decide (host = [] \/ host = star_label) then false
  else match labels host with
       | [] => false
       | l :: ls => (isPattern && bool_decide (l = star_label) || valid_label l) && forallb valid_label ls
       end.

(** [matchExactly] *)
Definition matchExactly (a b : str) : bool :=
  if decide (a = [] \/ a = [period] \/ b = [] \/ b = [period]) then false
  else bool_decide (toLowerCaseASCII a = toLowerCaseASCII b).

(** [matchHostnames] *)
Definition matchHostnames (pattern host : str) : bool :=
  let pattern := toLowerCaseASCII pattern in
  let host := toLowerCaseASCII (trim_dot host) in
  if decide (pattern = [] \/ host = []) then false
  else match labels pattern, labels host with
       | p :: ps, h :: hs => (bool_decide (p = star_label) || bool_decide (p = h)) && bool_decide (ps = hs)
       | _, _ => false
       end.

(** One name of a certificate. *)
Definition match_name (name san : str) : bool :=
  let name := toLowerCaseASCII name in
  if validHostname false name && validHostname true san then matchHostnames san name else matchExactly san name.

(** The brackets an address may be written in. *)
Definition candidateIP (h : str) : str :=
  if (3 <=? length h)%nat && bool_decide (head h = Some lbrack) && bool_decide (last h = Some rbrack)
  then take (length h - 2) (drop 1 h) else h.

(** [Certificate.VerifyHostname], of a certificate with these DNS names and no
    addresses. *)
Definition VerifyHostname (DNSNames : list str) (h : str) : bool :=
  if ParseIP (candidateIP h) then false else existsb (match_name h) DNSNames.

(** * Lemmas *)

Example ParseIP_texts : map (fun s => ParseIP (bytes_of_string s))
    ["127.0.0.1"; "256.0.0.1"; "01.2.3.4"; "1.2.3"; "::"; "::1"; "fe80::1%eth0"; "1:2:3:4:5:6:7:8"; "1:2:3:4:5:6:7::"; "1:2:3:4:5:6:7:8::";
     "::ffff:1.2.3.4"; "1:2:3:4:5:6:1.2.3.4"; "1:2:3:4:5:1.2.3.4"; "12345::"; "1::2::3"; ":1"; "1:"; "star.example"; "abcd"]%string
  = [true; false; false; false; true; true; false; true; true; false; true; true; false; false; false; false; false; false; false].
Proof. vm_compute. reflexivity. Qed.

Example VerifyHostname_texts :
  let verify names name := VerifyHostname (bytes_of_string <$> names) (bytes_of_string name) in
  map (verify ["star.example"; "*.Example.org"; "127.0.0.1"; "a*.org"])
    ["STAR.example"; "star.example."; "a.star.example"; "x.example.org"; "x.y.example.org"; "example.org"; "*.example.org"; "127.0.0.1";
     "[127.0.0.1]"; "a*.org"; "ab.org"; ""]%string
  = [true; true; false; true; false; false; true; false; false; true; false; false].
Proof. vm_compute. reflexivity. Qed.

(** ** Labels *)

Lemma split_at_cons c x s : split_at c (x :: s) = if x =? c then [] :: split_at c s
  else match split_at c s with l :: ls => (x :: l) :: ls | [] => [[x]] end.
Proof. done. Qed.

Lemma split_at_nonempty c s : exists l ls, split_at c s = l :: ls.
Proof.
  destruct s as [|x s]; [by eexists _, _|]. rewrite split_at_cons. destruct (x =? c); [by eexists _, _|].
  destruct (split_at c s); by eexists _, _.
Qed.

Lemma split_at_inj c s : forall s', split_at c s = split_at c s' -> s = s'.
Proof.
  induction s as [|x s IH]; intros [|y s']; rewrite ?split_at_cons; [done| | |].
  - destruct (y =? c); [|destruct (split_at_nonempty c s') as (l & ls & ->)]; [destruct (split_at_nonempty c s') as (l & ls & ->)|]; done.
  - destruct (x =? c); [|destruct (split_at_nonempty c s) as (l & ls & ->)]; [destruct (split_at_nonempty c s) as (l & ls & ->)|]; done.
  - destruct (Z.eqb_spec x c) as [->|Hx], (Z.eqb_spec y c) as [->|Hy].
    + intros [= E]. f_equal. by apply IH.
    + destruct (split_at_nonempty c s') as (l & ls & ->). done.
    + destruct (split_at_nonempty c s) as (l & ls & ->). done.
    + destruct (split_at_nonempty c s) as (l & ls & E1), (split_at_nonempty c s') as (l' & ls' & E2).
      rewrite E1, E2. intros [= -> -> ->]. f_equal. apply IH. by rewrite E1, E2.
Qed.

Lemma split_at_snoc c s : split_at c (s ++ [c]) = split_at c s ++ [[]].
Proof.
  induction s as [|x s IH]; cbn [app]; [cbn; by rewrite Z.eqb_refl|]. rewrite !split_at_cons, IH. destruct (x =? c); [done|].
  by destruct (split_at_nonempty c s) as (l & ls & ->).
Qed.

(** ** Lower case *)

Lemma lower_period c : (lower c =? period) = (c =? period).
Proof. unfold lower, in_range, period. destruct (_ && _) eqn:E; lia. Qed.

Lemma lower_idem c : lower (lower c) = lower c.
Proof.
  assert (forall x, lower x = if (65 <=? x) && (x <=? 90) then x + 32 else x) as H by done.
  rewrite !H. destruct ((65 <=? c) && (c <=? 90)) eqn:E; [|by rewrite E].
  destruct ((65 <=? c + 32) && (c + 32 <=? 90)) eqn:E2; lia.
Qed.

Lemma toLower_idem s : toLowerCaseASCII (toLowerCaseASCII s) = toLowerCaseASCII s.
Proof. unfold toLowerCaseASCII. rewrite map_map. apply map_ext. apply lower_idem. Qed.

Lemma labels_lower s : labels (toLowerCaseASCII s) = map toLowerCaseASCII (labels s).
Proof.
  induction s as [|x s IH]; [done|]. cbn [toLowerCaseASCII map]. rewrite !split_at_cons, lower_period. unfold toLowerCaseASCII in *. rewrite IH.
  destruct (x =? period); [done|]. by destruct (split_at_nonempty period s) as (l & ls & ->).
Qed.

Lemma host_char_lower c : host_char (lower c) = host_char c.
Proof.
  unfold lower. destruct (in_range 65 90 c) eqn:E; [|done]. unfold host_char, is_digit, in_range in *. lia.
Qed.

Lemma valid_label_lower l : valid_label (toLowerCaseASCII l) = valid_label l.
Proof.
  assert (forall x, (lower x =? 45) = (x =? 45)) as Hd.
  { intros x. unfold lower, in_range. destruct ((65 <=? x) && (x <=? 90)) eqn:E; lia. }
  destruct l as [|c l]; [done|]. cbn. rewrite host_char_lower. f_equal. induction l as [|x l IH]; [done|]. cbn.
  by rewrite IH, host_char_lower, Hd.
Qed.

Lemma star_lower l : toLowerCaseASCII l = star_label <-> l = star_label.
Proof.
  split; [|by intros ->]. unfold star_label. destruct l as [|c [|d l]]; [done| |done]. cbn. intros [= H]. f_equal.
  unfold lower, in_range in H. destruct ((65 <=? c) && (c <=? 90)) eqn:E; lia.
Qed.

(** ** A trailing dot *)

Lemma trim_dot_cases s : s = trim_dot s /\ last s <> Some period \/ s = trim_dot s ++ [period].
Proof.
  unfold trim_dot. case_bool_decide as H; [right|by left]. apply last_Some in H as (s' & ->).
  rewrite length_app. cbn. replace (length s' + 1 - 1)%nat with (length s') by lia. by rewrite take_app_length.
Qed.

Lemma trim_dot_snoc s : trim_dot (s ++ [period]) = s.
Proof.
  unfold trim_dot. rewrite last_snoc, bool_decide_true by done. rewrite length_app. cbn.
  replace (length s + 1 - 1)%nat with (length s) by lia. by rewrite take_app_length.
Qed.

Lemma toLower_app s s' : toLowerCaseASCII (s ++ s') = toLowerCaseASCII s ++ toLowerCaseASCII s'.
Proof. apply map_app. Qed.

Lemma trim_dot_lower s : trim_dot (toLowerCaseASCII s) = toLowerCaseASCII (trim_dot s).
Proof.
  destruct (trim_dot_cases s) as [[Hs Hl]|Hs].
  - rewrite <- Hs. unfold trim_dot. rewrite bool_decide_false; [done|]. intros H. apply Hl. revert H. clear.
    destruct s as [|c s] using rev_ind; [done|]. rewrite toLower_app. change (toLowerCaseASCII [c]) with [lower c]. rewrite !last_snoc.
    intros [= H]. f_equal. pose proof (lower_period c) as Hp. rewrite H, Z.eqb_refl in Hp. by apply eq_sym, Z.eqb_eq in Hp.
  - rewrite Hs at 1. rewrite toLower_app. change (toLowerCaseASCII [period]) with [period]. by rewrite trim_dot_snoc.
Qed.

Lemma validHostname_lower p s : validHostname p (toLowerCaseASCII s) = validHostname p s.
Proof.
  unfold validHostname. assert (forall s, (if decide (toLowerCaseASCII s = [] \/ toLowerCaseASCII s = star_label) then false
    else match labels (toLowerCaseASCII s) with [] => false
         | l :: ls => (p && bool_decide (l = star_label) || valid_label l) && forallb valid_label ls end)
    = if decide (s = [] \/ s = star_label) then false
      else match labels s with [] => false | l :: ls => (p && bool_decide (l = star_label) || valid_label l) && forallb valid_label ls end) as H.
  { clear. intros s. assert (toLowerCaseASCII s = [] \/ toLowerCaseASCII s = star_label <-> s = [] \/ s = star_label) as Hd.
    { rewrite star_lower. destruct s; [done|]. split; intros [?|?]; try discriminate; by right. }
    destruct (decide (s = [] \/ s = star_label)) as [E|E]; [by rewrite decide_True by by apply Hd|].
    rewrite decide_False by by rewrite Hd. rewrite labels_lower. destruct (split_at_nonempty period s) as (l & ls & ->). cbn [map].
    rewrite valid_label_lower, (bool_decide_ext _ _ (star_lower l)). f_equal. clear. induction ls as [|x ls IH]; [done|]. cbn.
    by rewrite valid_label_lower, IH. }
  destruct p; [apply H|]. rewrite trim_dot_lower. apply H.
Qed.

(** A valid pattern has no trailing dot. *)
Lemma pattern_no_dot s : validHostname true s = true -> trim_dot s = s.
Proof.
  destruct (trim_dot_cases s) as [[Hs _]|Hs]; [done|]. unfold validHostname. case_decide; [done|]. rewrite Hs at 1. rewrite split_at_snoc.
  destruct (split_at_nonempty period (trim_dot s)) as (l & ls & ->). cbn [app]. rewrite forallb_app. cbn. by rewrite !andb_false_r.
Qed.

(** ** Names that match *)

(** A name matches itself, in any case. *)
Lemma match_same name san : san <> [] -> san <> [period] -> toLowerCaseASCII name = toLowerCaseASCII san -> match_name name san = true.
Proof.
  intros H1 H2 E. assert (forall s, toLowerCaseASCII s = [] -> s = []) as Hn by by intros [].
  assert (forall s, toLowerCaseASCII s = [period] -> s = [period]) as Hp.
  { intros s Hs. destruct s as [|c [|]]; try done. injection Hs as Hc. pose proof (lower_period c) as Hl. rewrite Hc, Z.eqb_refl in Hl.
    by apply eq_sym, Z.eqb_eq in Hl as ->. }
  unfold match_name. rewrite E. destruct (validHostname false _ && validHostname true san) eqn:Ev.
  - apply andb_true_iff in Ev as [_ Ev]. rewrite <- validHostname_lower in Ev. unfold matchHostnames.
    rewrite (pattern_no_dot _ Ev), toLower_idem. rewrite decide_False by (intros [?%Hn|?%Hn]; done).
    destruct (split_at_nonempty period (toLowerCaseASCII san)) as (l & ls & ->). rewrite (bool_decide_true (l = l)), (bool_decide_true (ls = ls)) by done. by rewrite orb_true_r.
  - unfold matchExactly. rewrite decide_False by (intros [?|[?|[?%Hn|?%Hp]]]; done). rewrite toLower_idem. by apply bool_decide_eq_true.
Qed.

(** A name that matches is that name in another case or with a trailing dot, or
    all but its first label are those of a wildcard. *)
Lemma match_inv name san : match_name name san = true ->
  toLowerCaseASCII (trim_dot name) = toLowerCaseASCII san \/ toLowerCaseASCII name = toLowerCaseASCII san \/
  exists l ls, labels (toLowerCaseASCII san) = star_label :: ls /\ labels (toLowerCaseASCII (trim_dot name)) = l :: ls.
Proof.
  unfold match_name. destruct (_ && _).
  - unfold matchHostnames. rewrite trim_dot_lower, toLower_idem. case_decide as Hne; [done|].
    destruct (split_at_nonempty period (toLowerCaseASCII san)) as (p & ps & E1), (split_at_nonempty period (toLowerCaseASCII (trim_dot name))) as (h & hs & E2).
    rewrite E1, E2. intros Hb. apply andb_true_iff in Hb as [Hp Hs]. apply bool_decide_eq_true in Hs. subst hs.
    apply orb_true_iff in Hp as [Hp|Hp]; apply bool_decide_eq_true in Hp; subst p.
    + right. right. eauto.
    + left. apply (split_at_inj period). by rewrite E1, E2.
  - unfold matchExactly. case_decide; [done|]. rewrite toLower_idem. intros Heq%bool_decide_eq_true. by right; left.
Qed.

(** Exactly one label may stand for the star of a wildcard. *)
Lemma match_wildcard name san ls : validHostname true san = true -> validHostname false name = true ->
  labels (toLowerCaseASCII san) = star_label :: ls ->
  match_name name san = true <-> exists l, labels (toLowerCaseASCII (trim_dot name)) = l :: ls.
Proof.
  intros Hs Hn El. unfold match_name. rewrite validHostname_lower, Hs, Hn. cbn [andb]. unfold matchHostnames.
  rewrite trim_dot_lower, toLower_idem.
  rewrite decide_False.
  - rewrite El. destruct (split_at_nonempty period (toLowerCaseASCII (trim_dot name))) as (h & hs & ->).
    rewrite (bool_decide_true (star_label = star_label)) by done. cbn [orb andb]. rewrite bool_decide_eq_true. naive_solver.
  - unfold validHostname in Hn. destruct (decide (trim_dot name = [] \/ _)) as [|Hne]; [done|]. intros [Hx|Hx].
    + rewrite Hx in El. done.
    + apply Hne. left. by destruct (trim_dot name).
Qed.

(** ** Certificates *)

Definition dns_name (d : str) : Prop := ParseIP (candidateIP d) = false /\ d <> [] /\ d <> [period].

Lemma VerifyHostname_own names name d : d ∈ names -> dns_name name -> toLowerCaseASCII name = toLowerCaseASCII d -> VerifyHostname names name = true.
Proof.
  intros Hd (Hip & H1 & H2) E. unfold VerifyHostname. rewrite Hip. apply existsb_exists. exists d. split; [by apply list_elem_of_In|].
  apply match_same; [| |done].
  - intros ->. by destruct name.
  - intros ->. apply H2. destruct name as [|c [|]]; try done. injection E as E. pose proof (lower_period c) as Hl. rewrite E in Hl.
    by apply eq_sym, Z.eqb_eq in Hl as ->.
Qed.

Lemma VerifyHostname_ip names name : ParseIP (candidateIP name) = true -> VerifyHostname names name = false.
Proof. unfold VerifyHostname. by intros ->. Qed.

Lemma VerifyHostname_inv names name : VerifyHostname names name = true -> ParseIP (candidateIP name) = false /\
  exists d, d ∈ names /\
    (toLowerCaseASCII (trim_dot name) = toLowerCaseASCII d \/ toLowerCaseASCII name = toLowerCaseASCII d \/
     exists l ls, labels (toLowerCaseASCII d) = star_label :: ls /\ labels (toLowerCaseASCII (trim_dot name)) = l :: ls).
Proof.
  unfold VerifyHostname. destruct (ParseIP _); [done|]. intros (d & Hd & Hm)%existsb_exists. split; [done|]. exists d.
  split; [by apply list_elem_of_In|by apply match_inv].
Qed.
