(* ===== verification/Cert.v ===== *)
(** The self-signed certificate of the registar: [internal/cert] (ca.go,
    cert.go), [selfSigned] and [writeCACert] of [cmd/registar/main.go], and how
    a client that was given the file verifies the server.

    Certificates and keys are those of [CA], whose subject is the common name; DER and PEM are parameters, and so
    is [Time.AddDate(1, 0, 0)].  Of a request the fields [CA] keeps are copied. *)
From S2P Require Import Prelude Errors CA Http Forms Hostname.
From S2P Require Config Models.
Local Open Scope Z_scope.

Section cert.
Variable Raw : Certificate -> str.                      (* the DER of a certificate *)
Variable ParseCertificate : str -> option Certificate.  (* x509.ParseCertificate *)
Variable pem_Encode : str -> str -> str.                (* type, bytes *)
Variable pem_Decode : str -> option (str * str).
Variable AddYear : Z -> Z.

Definition parse (der : str) : result goerror Certificate :=
  match ParseCertificate der with Some c => Ok c | None => Err (OtherError "x509: malformed certificate") end.

(** [NewPrivateKey]; [k] is the key pair generated. *)
Definition NewPrivateKey (k : keyid) (d : draw) : result goerror keyid :=
  match d_key d with Ok _ => Ok k | Err e => Err e end.

(** [newSerialNumber] *)
Definition newSerialNumber (d : draw) : result goerror Z := CA.newSerialNumber d.

(** [NewCA] *)
Definition NewCA (k : keyid) (d : draw) : result goerror (Certificate * keyid) :=
  serialNumber ← wrap_err "generate serial number" (newSerialNumber d);
  privateKey ← wrap_err "generate private key" (NewPrivateKey k d);
  let template := mkCertificate serialNumber (d_now1 d) (AddYear (d_now2 d)) true true true true
                    "Star Root CA" [] privateKey privateKey in
  der ← wrap_err "create certificate" (CreateCertificate template template privateKey);
  cert ← wrap_err "parse certificate" (parse (Raw der));
  Ok (cert, privateKey).

(** [NewCert] *)
Definition NewCert (ca : Certificate) (caPrivateKey : keyid) (req : CertificateRequest) (d : draw) : result goerror str :=
  if negb (CheckSignature req) then Err (Wrapped "check signature" (OtherError "x509"))
  else
    serialNumber ← wrap_err "generate serial number" (newSerialNumber d);
    let template := mkCertificate serialNumber (d_now1 d) (d_now2 d + 3 * hour) false true true false
                      (csr_Subject req) (csr_DNSNames req) (csr_PublicKey req) (csr_PublicKey req) in
    certBytes ← wrap_err "create certificate" (CreateCertificate template ca caPrivateKey);
    Ok (Raw certBytes).

(** The results of the calls of the system and of the library that [selfSigned]
    only checks: [os.Create], the write of [pem.Encode],
    [x509.CreateCertificateRequest] and [x509.ParseCertificateRequest]. *)
Record io := mkIO {
  io_create : result goerror ();
  io_write : result goerror ();
  io_request : result goerror ();
  io_parse : result goerror ();
}.

(** [writeCACert]: what the file [ca.crt] holds, if it can be written. *)
Definition writeCACert (r : io) (cert : Certificate) : result goerror str :=
  _ ← wrap_err "create file" (io_create r);
  _ ← wrap_err "encode certificate" (io_write r);
  Ok (pem_Encode (bytes_of_string "CERTIFICATE") (Raw cert)).

(** The fields of the [tls.Config] that [selfSigned] returns. *)
Record server_tls := mkServerTLS { st_certificate : list str; st_key : keyid; st_protos : list string }.

(** [selfSigned], with the file it writes.  The request is signed with the key
    it is for; its subject has no common name.  [k1] and [k2] are the keys
    generated. *)
Definition selfSigned (domains : list string) (k1 k2 : keyid) (d1 d2 d3 : draw) (r : io)
    : result goerror (server_tls * str) :=
  '(ca, caPrivateKey) ← wrap_err "create CA" (NewCA k1 d1);
  file ← wrap_err "write CA certificate" (writeCACert r ca);
  srvPrivkey ← wrap_err "create server private key" (NewPrivateKey k2 d2);
  _ ← wrap_err "create certificate request" (io_request r);
  _ ← wrap_err "parse certificate request" (io_parse r);
  let req := mkCSR "" domains srvPrivkey true in
  srvCert ← wrap_err "create server cert" (NewCert ca caPrivateKey req d3);
  Ok (mkServerTLS [srvCert] srvPrivkey [NextProtoH3; "h2"; "http/1.1"]%string, file).

(** The verification of a server by [crypto/tls] with [RootCAs]: a chain to one
    of the roots, for server authentication, and the name asked for. *)
Definition VerifyServer (roots : list Certificate) (name : str) (rawCerts : list str) (now : Z) : bool :=
  match omap ParseCertificate rawCerts with
  | [] => false
  | leaf :: inter =>
      VerifyHostname (bytes_of_string <$> DNSNames leaf) name && ExtKeyUsageServerAuth leaf &&
      existsb (fun ca => chain_ok (length inter) ca inter leaf now) roots
  end.

(** What [x509] and [pem] document: parsing undoes encoding. *)
Class Encodings := {
  parse_raw : forall c, ParseCertificate (Raw c) = Some c;
  pem_decode_encode : forall t b, pem_Decode (pem_Encode t b) = Some (t, b);
  add_year : forall t, t + 365 * day <= AddYear t;
}.

Lemma NewCA_ok `{Encodings} k d ca priv : NewCA k d = Ok (ca, priv) ->
  priv = k /\ PublicKey ca = k /\ IsCA ca = true /\ KeyUsageCertSign ca = true /\
  NotBefore ca = d_now1 d /\ NotAfter ca = AddYear (d_now2 d).
Proof.
  unfold NewCA, NewPrivateKey, newSerialNumber, CreateCertificate, parse.
  destruct (CA.newSerialNumber d), (d_key d); cbn; try done. rewrite decide_True by done. cbn.
  rewrite parse_raw. cbn. by intros [= <- <-].
Qed.

Lemma issued_leaf `{Encodings} ca priv req d der : NewCert ca priv req d = Ok der ->
  exists c, der = Raw c /\ SignedBy c = priv /\ priv = PublicKey ca /\ DNSNames c = csr_DNSNames req /\
    ExtKeyUsageServerAuth c = true /\ NotBefore c = d_now1 d /\ NotAfter c = d_now2 d + 3 * hour /\
    PublicKey c = csr_PublicKey req.
Proof.
  unfold NewCert, CreateCertificate. destruct (CheckSignature req); cbn; [|done].
  destruct (newSerialNumber d); cbn; [|done]. case_decide as Hk; cbn; [|done]. intros [= <-].
  eexists. split; [done|]. by cbn.
Qed.

(** A leaf of one root. *)
Lemma VerifyServer_leaf `{Encodings} ca c name now : IsCA ca = true -> KeyUsageCertSign ca = true ->
  ExtKeyUsageServerAuth c = true ->
  VerifyServer [ca] name [Raw c] now
  = VerifyHostname (bytes_of_string <$> DNSNames c) name && (time_valid c now && bool_decide (SignedBy c = PublicKey ca) && time_valid ca now).
Proof.
  intros Hca Hu He. unfold VerifyServer. cbn. rewrite parse_raw. cbn. rewrite He. unfold issued_by.
  rewrite Hca, Hu, !andb_true_r, !orb_false_r. by rewrite (andb_assoc (time_valid c now)).
Qed.

(** What [selfSigned] presents and writes. *)
Lemma selfSigned_ok `{Encodings} domains k1 k2 d1 d2 d3 r srv file :
  selfSigned domains k1 k2 d1 d2 d3 r = Ok (srv, file) ->
  exists ca c, srv = mkServerTLS [Raw c] k2 [NextProtoH3; "h2"; "http/1.1"]%string /\
    file = pem_Encode (bytes_of_string "CERTIFICATE") (Raw ca) /\
    (PublicKey ca = k1 /\ IsCA ca = true /\ KeyUsageCertSign ca = true /\
     NotBefore ca = d_now1 d1 /\ NotAfter ca = AddYear (d_now2 d1)) /\
    SignedBy c = k1 /\ DNSNames c = domains /\ ExtKeyUsageServerAuth c = true /\
    NotBefore c = d_now1 d3 /\ NotAfter c = d_now2 d3 + 3 * hour.
Proof.
  unfold selfSigned, writeCACert, NewPrivateKey.
  destruct (NewCA k1 d1) as [[ca priv]|] eqn:Eca; [|done]. apply NewCA_ok in Eca as (-> & Hca).
  destruct (io_create r), (io_write r), (d_key d2), (io_request r), (io_parse r); try done.
  cbn [mbind result_bind wrap_err]. destruct (NewCert ca k1 _ d3) as [der|] eqn:Ec; [|done].
  apply issued_leaf in Ec as (c & -> & Hsb & _ & Hdns & He & Hcb & Hce & _).
  intros [= <- <-]. by exists ca, c.
Qed.

(** A server with a self-signed certificate and a client that was given the file
    it wrote. *)
Lemma selfsigned_client `{Encodings} (domains : list string) (k1 k2 : keyid) (d1 d2 d3 : draw)
    (r : io) (srv : server_tls) (file path : str) (read_file : str -> option str)
    (Hs : selfSigned domains k1 k2 d1 d2 d3 r = Ok (srv, file))
    (Hfile : read_file path = Some file) (Hpath : path <> [])
    (Hd1 : d_now1 d1 <= d_now1 d3) (Hd2 : d_now2 d3 <= d_now2 d1 + day) :
  exists ca, Config.loadTLSConfig read_file pem_Decode ParseCertificate path = Some (mkTLS (Some [ca]) [NextProtoH3]) /\
  st_key srv = k2 /\
  (forall name now, VerifyServer [ca] name (st_certificate srv) now
     = VerifyHostname (bytes_of_string <$> domains) name && (d_now1 d3 <=? now) && (now <=? d_now2 d3 + 3 * hour)) /\
  (forall c name now, SignedBy c <> k1 -> ExtKeyUsageServerAuth c = true -> VerifyServer [ca] name [Raw c] now = false).
Proof.
  apply selfSigned_ok in Hs as (ca & c & -> & -> & (Hk & Hca & Hu & Hnb & Hna) & Hsb & Hdns & He & Hcb & Hce).
  exists ca. split; [|split; [done|split]].
  - unfold Config.loadTLSConfig, Config.loadCACert, parseCACert. rewrite decide_False, Hfile by done. cbn [mbind option_bind].
    rewrite pem_decode_encode, decide_False by (intros Hn; exact (Hn eq_refl)). by rewrite parse_raw.
  - intros name now. cbn [st_certificate]. rewrite VerifyServer_leaf, Hdns, Hsb, Hk, (bool_decide_true (k1 = k1)) by done.
    destruct (VerifyHostname _ name); [rewrite !andb_true_l|done]. unfold time_valid. rewrite Hnb, Hna, Hcb, Hce, andb_true_r.
    destruct (d_now1 d3 <=? now) eqn:E1; [|done]. destruct (now <=? d_now2 d3 + 3 * hour) eqn:E2; [|done].
    apply Z.leb_le in E1, E2. pose proof (add_year (d_now2 d1)). unfold day, hour in *.
    rewrite andb_true_l. apply andb_true_iff. split; apply Z.leb_le; lia.
  - intros c' name now Hne He'. rewrite VerifyServer_leaf, Hk by done. rewrite (bool_decide_false (SignedBy c' = k1)) by done.
    by rewrite andb_false_r, andb_false_r.
Qed.
End cert.

(** Texts for which the laws hold. *)
#[export] Instance encodings1 : Encodings Models.number Models.unnumber Models.pem1 Models.unpem1 (fun t => t + 365 * day).
Proof. split; [apply Models.unnumber_number|apply Models.unpem1_pem1|intros; lia]. Qed.
