(* ===== verification/Pages.v ===== *)
(** The pages of the registar: [addHealthCheck] and [addAdmin] of
    [cmd/registar/main.go], [AdminRoutes] and [basicAuth] of
    [internal/registar/admin/admin.go], and [landing.go].

    They are the routes the two servers of the command share, as lists of
    patterns for the multiplexer of [Mux].  The handlers of the admin page go
    on concurrently ([Events], [Admin]), so reaching one is recorded as a call
    in the state; templates and static files come from parameters. *)
From S2P Require Import Prelude Text Http Mux.
From S2P Require Admin.
Local Open Scope Z_scope.

(** * Basic authentication *)

(** [base64.StdEncoding] by its URL variant: two characters differ. *)
Definition url_char (c : Z) : Z :=
  if c =? 43 then 45 else if c =? 47 then 95 else if (c =? 45) || (c =? 95) then 0 else c.
Definition std_char (c : Z) : Z := if c =? 45 then 43 else if c =? 95 then 47 else c.

Definition std_DecodeString (s : str) : option str :=
  match b64_decode (map url_char s) with Ok d => Some d | Err _ => None end.
Definition std_EncodeToString (s : str) : str := map std_char (b64_encode s).

Definition lower (c : Z) : Z := if in_range 65 90 c then c + 32 else c.

(** [Request.BasicAuth]: the user name and the password. *)
Definition BasicAuth (r : Request) : option (str * str) :=
  let auth := Header r "Authorization" in
  if decide (map lower (take 6 auth) = bytes_of_string "basic ") then
    c ← std_DecodeString (drop 6 auth);
    i ← index_byte colon c;
    Some (take i c, drop (S i) c)
  else None.

Lemma enc_char_url w : enc_char url_alphabet (Z.land w 63) ∈ url_alphabet.
Proof.
  unfold enc_char. apply list_elem_of_In, nth_In. rewrite land_63.
  pose proof (Z.mod_pos_bound w 64 ltac:(lia)). change (length url_alphabet) with 64%nat. lia.
Qed.

Lemma b64_encode_chars src : Forall (fun c => c ∈ url_alphabet \/ c = pad_char) (b64_encode src).
Proof.
  assert (forall a b c, Forall (fun c => c ∈ url_alphabet \/ c = pad_char) (b64_quad a b c)) as Hq.
  { intros a b c. unfold b64_quad. apply Forall_map, Forall_forall. intros w _. left. apply enc_char_url. }
  revert src. fix IH 1. intros [|a [|b [|c src]]]; cbn [b64_encode]; [constructor| | |].
  - apply Forall_app_2; [by apply Forall_take|]. by repeat (apply List.Forall_cons; [by right|]).
  - apply Forall_app_2; [by apply Forall_take|]. by repeat (apply List.Forall_cons; [by right|]).
  - apply Forall_app_2; [done|apply IH].
Qed.

Lemma std_decode_encode s : bytes_ok s -> std_DecodeString (std_EncodeToString s) = Some s.
Proof.
  intros Hs. unfold std_DecodeString, std_EncodeToString. rewrite map_map.
  assert (map (fun c => url_char (std_char c)) (b64_encode s) = b64_encode s) as ->; [|by rewrite b64_decode_encode].
  pose proof (b64_encode_chars s) as Hc. induction Hc as [|c l Hc Hl IH]; [done|]. cbn [map]. rewrite IH. f_equal.
  clear -Hc. assert (forall c, c ∈ url_alphabet -> url_char (std_char c) = c) as Ha.
  { apply Forall_forall. apply (bool_decide_unpack _). by vm_compute. }
  destruct Hc as [Hc| ->]; [by apply Ha|done].
Qed.

(** The header a client sends is read back, for a user name without colon. *)
Lemma BasicAuth_sent r user password : bytes_ok (user ++ colon :: password) -> colon ∉ user ->
  Header r "Authorization" = bytes_of_string "Basic " ++ std_EncodeToString (user ++ colon :: password) ->
  BasicAuth r = Some (user, password).
Proof.
  intros Hb Hu Hr. unfold BasicAuth. rewrite Hr. rewrite take_app_length', drop_app_length' by done.
  rewrite decide_True by done. rewrite std_decode_encode by done. cbn [mbind option_bind].
  rewrite index_byte_app by done. cbn [mbind option_bind]. rewrite take_app_length.
  rewrite drop_app_ge by lia. by replace (Datatypes.S (length user) - length user)%nat with 1%nat by lia.
Qed.

(** * The routes *)

(** The handlers of the admin page, and the data of the landing page. *)
Inductive admin_page := AdminIndex | AdminEvents | AdminStats | AdminBandwidth.

#[export] Instance admin_page_eq_dec : EqDecision admin_page.
Proof. solve_decision. Defined.

Section pages.
Context {S F : Type}.
Variable redirect : str -> str -> ResponseWriter -> ResponseWriter.
Variable gzip : str -> str.
Variable per_second : Z -> F.                               (* float64(time.Second) / float64(every) *)
Variable call_admin : admin_page -> nat -> S -> S.           (* with the ID of the request *)

(** [type landingData struct] *)
Record landingData := mkLanding { ServerURL : str; RateLimitPerSecond : F; RateLimitBurst : Z }.

(** The template, executed: what it writes, and the text of its error. *)
Variable landing_template : landingData -> str * option str.
(** [http.FileServer] of the embedded files. *)
Variable FileServer : ResponseWriter -> Request -> ResponseWriter.

(** [newLandingHandler] *)
Definition newLandingHandler (every burst : Z) : Handler S := fun w r =>
  let data := mkLanding (bytes_of_string "https://" ++ Host r) (per_second every) burst in
  let '(body, err) := landing_template data in
  let w := if decide (body = []) then w else Write w body in
  answer (match err with Some msg => http_Error w msg 500 | None => w end).

(** [Landing] *)
Definition Landing (every burst : Z) : Handler S :=
  ServeMux redirect [(mkPattern GET [Multi] [], newLandingHandler every burst)].

(** [basicAuth] *)
Definition basicAuth (secret : str) (next : Handler S) : Handler S := fun w r =>
  match Admin.basicAuth secret (snd <$> BasicAuth r) with
  | Admin.Served => next w r
  | Admin.Unauthorized =>
      answer (http_Error (header_Set w "WWW-Authenticate" (bytes_of_string "Basic realm=" ++ [34] ++ bytes_of_string "admin" ++ [34]))
                (bytes_of_string "Unauthorized") 401)
  end.

Definition admin_handler (p : admin_page) : Handler S := fun w r s => Ret (w, call_admin p (ID r) s).

(** [AdminRoutes] *)
Definition admin_routes (secret : str) : routes (A := Handler S) := [
  (mkPattern GET [Multi] [], basicAuth secret (admin_handler AdminIndex));
  (mkPattern GET [Lit (bytes_of_string "events")] [], basicAuth secret (admin_handler AdminEvents));
  (mkPattern GET [Lit (bytes_of_string "stats")] [], basicAuth secret (admin_handler AdminStats));
  (mkPattern GET [Lit (bytes_of_string "bandwidth")] [], basicAuth secret (admin_handler AdminBandwidth))].
Definition AdminRoutes (secret : str) : Handler S := ServeMux redirect (admin_routes secret).

(** [StaticHandler] *)
Definition StaticHandler : Handler S := fun w r => answer (FileServer w r).

(** The handler of [addHealthCheck] *)
Definition healthHandler : Handler S := fun w r =>
  let w := header_Set w "Cache-Control" (bytes_of_string "no-store") in
  let w := header_Set w "Content-Type" (bytes_of_string "text/plain; charset=utf-8") in
  answer (WriteHeader w 200).

Definition healthPattern : pattern := mkPattern GET [Lit (bytes_of_string "-"); Lit (bytes_of_string "health")] [].
Definition staticPattern : pattern := mkPattern GET [Lit (bytes_of_string "static"); Multi] [].
Definition adminPattern : pattern := mkPattern [] [Lit (bytes_of_string "-"); Lit (bytes_of_string "admin"); Multi] [].
Definition landingPattern : pattern := mkPattern [] [Multi] [].

(** [addHealthCheck] *)
Definition addHealthCheck (mux : routes (A := Handler S)) : routes :=
  mux ++ [(healthPattern, healthHandler)].

(** [addAdmin] *)
Definition addAdmin (mux : routes (A := Handler S)) (secret : str) (every burst : Z) : routes :=
  mux ++ [
    (staticPattern, StripPrefix (bytes_of_string "/static") (Gzip gzip (CacheStaticFiles StaticHandler)));
    (adminPattern, StripPrefix (bytes_of_string "/-/admin") (Gzip gzip (AdminRoutes secret)));
    (landingPattern, Gzip gzip (Landing every burst))].

(** The routes both servers have besides those of the registar. *)
Definition common_routes (mux : routes (A := Handler S)) (secret : str) (every burst : Z) : routes :=
  addAdmin (addHealthCheck mux) secret every burst.

(** * Who reaches the admin page *)

(** A request that [basicAuth] lets through. *)
Definition authorised (secret : str) (r : Request) : Prop := Admin.basicAuth secret (snd <$> BasicAuth r) = Admin.Served.

(** ** Which page a path is for *)

(** The page of the segments after the prefix. *)
Definition segment_page (segs : list str) : admin_page :=
  match segs with
  | [seg] => if decide (seg = bytes_of_string "events") then AdminEvents
             else if decide (seg = bytes_of_string "stats") then AdminStats
             else if decide (seg = bytes_of_string "bandwidth") then AdminBandwidth else AdminIndex
  | _ => AdminIndex
  end.

Definition page_segments (p : admin_page) : list segment :=
  match p with
  | AdminIndex => [Multi]
  | AdminEvents => [Lit (bytes_of_string "events")]
  | AdminStats => [Lit (bytes_of_string "stats")]
  | AdminBandwidth => [Lit (bytes_of_string "bandwidth")]
  end.

Definition admin_route (secret : str) (p : admin_page) : pattern * Handler S :=
  (mkPattern GET (page_segments p) [], basicAuth secret (admin_handler p)).

Lemma admin_tree secret : tree GET (admin_routes secret) =
  (fun p => (page_segments p, admin_route secret p)) <$> [AdminIndex; AdminEvents; AdminStats; AdminBandwidth].
Proof. reflexivity. Qed.

(** A node that is a leaf has no longer path. *)
Lemma matchPath_leaf {A} (a : A) seg segs ms : matchPath (seg :: segs) [([], a)] ms = None.
Proof.
  cbn [matchPath]. replace (findChild seg [([], a)]) with (@nil (list segment * A)) by (unfold findChild; by destruct (decide (seg = []))).
  change (child_wild [([], a)]) with (@nil (list segment * A)). rewrite !matchPath_nil. by case_decide.
Qed.

Lemma admin_match secret path : path_segs path <> [] ->
  match_at (admin_routes secret) GET path = Some (admin_route secret (segment_page (path_segs path)), []).
Proof.
  intros Hne. unfold match_at. rewrite admin_tree. destruct (path_segs path) as [|seg segs]; [done|]. clear Hne.
  cbn [matchPath fmap list_fmap]. set (n := [_; _; _; _]).
  assert (child_wild n = []) as -> by reflexivity. rewrite matchPath_nil.
  assert (multiChild n = Some (admin_route secret AdminIndex)) as -> by reflexivity.
  replace (if decide (seg = [slash]) then None else None) with (@None (pattern * Handler S * list str)) by by case_decide.
  assert (forall p, p <> AdminIndex -> page_segments p = [Lit seg] -> findChild seg n = [([], admin_route secret p)]) as Hp.
  { intros p Hp Hs. destruct p; [done|..]; injection Hs as <-; reflexivity. }
  destruct (decide (seg ∈ [bytes_of_string "events"; bytes_of_string "stats"; bytes_of_string "bandwidth"])) as [Hin|Hin].
  - assert (exists p, p <> AdminIndex /\ page_segments p = [Lit seg] /\ (segs = [] -> segment_page (seg :: segs) = p) /\
      (segs <> [] -> segment_page (seg :: segs) = AdminIndex)) as (p & H1 & H2 & H3 & H4).
    { apply elem_of_cons in Hin as [->|[->|[->|[]%not_elem_of_nil]%elem_of_cons]%elem_of_cons];
        [exists AdminEvents|exists AdminStats|exists AdminBandwidth]; (split; [done|split; [done|split; [by intros ->|by destruct segs]]]). }
    rewrite (Hp p H1 H2). destruct segs as [|seg2 segs]; [by rewrite H3|]. by rewrite matchPath_leaf, H4.
  - assert (findChild seg n = []) as ->.
    { unfold findChild. case_decide; [done|]. subst n. unfold child_lit. cbn.
      rewrite !decide_False by (intros <-; apply Hin; set_solver). done. }
    rewrite matchPath_nil. cbn [mbind option_bind]. do 2 f_equal.
    destruct segs; [|done]. cbn. rewrite !decide_False by (intros ->; apply Hin; set_solver). done.
Qed.

Lemma path_segs_app_slash q : (2 <= length (path_segs (slash :: q ++ [slash])))%nat.
Proof. rewrite length_path_segs, slashes_app, slashes_cons, decide_True by done. lia. Qed.

(** Under GET and HEAD every clean path is served, by the page it is for. *)
Lemma admin_find secret r q : Method r = GET \/ Method r = HEAD -> EscapedPath r = slash :: q ->
  cleanPath (EscapedPath r) = EscapedPath r ->
  exists p, findHandler (admin_routes secret) r
    = Serve p (basicAuth secret (admin_handler (segment_page (path_segs (EscapedPath r))))) [].
Proof.
  intros Hm Hq Hc. unfold findHandler. rewrite decide_False by (by destruct Hm as [-> | ->]). rewrite Hc.
  assert (forall path, path_segs path <> [] -> matchMethodAndPath (admin_routes secret) (Method r) path
    = Some (admin_route secret (segment_page (path_segs path)), [])) as Hmatch.
  { intros path Hne. unfold matchMethodAndPath. destruct Hm as [-> | ->]; [by rewrite admin_match|].
    unfold match_at at 1. change (tree HEAD (admin_routes secret)) with (@nil (list segment * (pattern * Handler S))).
    rewrite matchPath_nil. cbn [orelse]. rewrite decide_True by done. by rewrite admin_match. }
  assert (path_segs (EscapedPath r) <> []) as Hne.
  { intros E. apply (f_equal length) in E. by rewrite Hq, length_path_segs in E. }
  rewrite (Hmatch _ Hne). exists (mkPattern GET (page_segments (segment_page (path_segs (EscapedPath r)))) []).
  rewrite (decide_False (P := EscapedPath r <> EscapedPath r)) by (intros H; by apply H).
  destruct (negb (exactMatch _ _) && _ && _) eqn:E; [exfalso|done].
  apply andb_true_iff in E as [[_ E1]%andb_true_iff E2]. pose proof (path_segs_app_slash q) as Hlen.
  rewrite Hq in E2. change ((slash :: q) ++ [slash]) with (slash :: q ++ [slash]) in E2.
  rewrite Hmatch in E2 by (intros E; by rewrite E in Hlen; cbn in Hlen; lia).
  assert (segment_page (path_segs (slash :: q ++ [slash])) = AdminIndex) as Hp.
  { destruct (path_segs (slash :: q ++ [slash])) as [|a [|b l]]; cbn in Hlen; [lia|lia|done]. }
  rewrite Hp in E2. apply andb_true_iff in E2 as [_ E2]. apply Nat.eqb_eq in E2. change (1%nat = slashes (slash :: q ++ [slash])) in E2.
  rewrite length_path_segs in Hlen. rewrite slashes_cons, decide_True in E2 by done. lia.
Qed.
(** ** The admin page behind the multiplexer *)

Definition admin_prefix : str := bytes_of_string "/-/admin".

(** The page a request is for, when it is for one: GET or HEAD for a clean path
    below the prefix. *)
Definition admin_path (r : Request) : option admin_page :=
  if decide ((Method r = GET \/ Method r = HEAD) /\ cleanPath (EscapedPath r) = EscapedPath r) then
    if has_prefix (Path r) admin_prefix && has_prefix (EscapedPath r) (admin_prefix ++ [slash])
    then Some (segment_page (path_segs (drop (length admin_prefix) (EscapedPath r)))) else None
  else None.

Lemma has_prefix_app s p : has_prefix s p = true <-> exists t, s = p ++ t.
Proof.
  revert s. induction p as [|x p IH]; intros s; [split; [by exists s|by destruct s]|].
  destruct s as [|y s]; cbn [has_prefix]; [split; [done|by intros [t [=]]]|].
  rewrite andb_true_iff, Z.eqb_eq, IH. split.
  - intros [-> [t ->]]. by exists t.
  - intros [t [= -> ->]]. split; [done|by exists t].
Qed.

Ltac plain_part := first [reflexivity | by unfold proper; split_and! | unfold no_slash; apply (bool_decide_unpack _); vm_compute; exact I].

Lemma admin_segs q : path_segs (admin_prefix ++ slash :: q) = bytes_of_string "-" :: bytes_of_string "admin" :: path_segs (slash :: q).
Proof.
  change (admin_prefix ++ slash :: q) with (slash :: bytes_of_string "-" ++ slash :: (bytes_of_string "admin" ++ slash :: q)).
  rewrite path_segs_part by plain_part. f_equal.
  by rewrite path_segs_part by plain_part.
Qed.

Lemma admin_clean q : cleanPath (admin_prefix ++ slash :: q) = admin_prefix ++ slash :: q -> cleanPath (slash :: q) = slash :: q.
Proof.
  change (admin_prefix ++ slash :: q) with (slash :: bytes_of_string "-" ++ slash :: (bytes_of_string "admin" ++ slash :: q)).
  rewrite clean_part by plain_part.
  by rewrite clean_part by plain_part.
Qed.

Section below.
Variable mux : routes (A := Handler S).
Variable secret : str.
Variable every burst : Z.
(** The multiplexer has no other routes than those of the registar. *)
Hypothesis Hmux : Forall (fun x => p_method x.1 = POST) mux.

Local Abbreviation all := (mux ++ common_routes [] secret every burst).

Lemma all_cases p h : (p, h) ∈ all -> p_method p = POST \/ (p, h) ∈ common_routes [] secret every burst.
Proof. intros [Hin|Hin]%elem_of_app; [left|by right]. rewrite Forall_forall in Hmux. by apply Hmux in Hin. Qed.

Lemma tree_post m : m <> POST -> tree m mux = [].
Proof.
  intros Hm. apply elem_of_nil_inv. intros [ss [p h]] (Hin & Hm' & _)%elem_of_tree.
  rewrite Forall_forall in Hmux. specialize (Hmux _ Hin). cbn [fst] in Hmux. congruence.
Qed.

Definition admin_h : Handler S := StripPrefix admin_prefix (Gzip gzip (AdminRoutes secret)).

Lemma below_any q : match_at all [] (admin_prefix ++ slash :: q) = Some (adminPattern, admin_h, []).
Proof.
  unfold match_at. rewrite admin_segs. unfold tree. rewrite omap_app. fold (tree [] mux). rewrite tree_post by done.
  pose proof (length_path_segs q). destruct (path_segs (slash :: q)) as [|seg segs]; [done|].
  cbn [app]. set (n := omap _ _). cbn [matchPath].
  assert (findChild (bytes_of_string "-") n = [([Lit (bytes_of_string "admin"); Multi], (adminPattern, admin_h))]) as -> by reflexivity.
  set (n1 := [([Lit (bytes_of_string "admin"); Multi], (adminPattern, admin_h))]).
  assert (findChild (bytes_of_string "admin") n1 = [([Multi], (adminPattern, admin_h))]) as -> by reflexivity.
  set (n2 := [([Multi], (adminPattern, admin_h))]).
  assert (findChild seg n2 = []) as -> by (unfold findChild; by case_decide).
  assert (child_wild n2 = []) as -> by reflexivity. rewrite !matchPath_nil.
  assert (multiChild n2 = Some (adminPattern, admin_h)) as -> by reflexivity.
  by case_decide.
Qed.

Lemma below_get q : match_at all GET (admin_prefix ++ slash :: q) = None.
Proof.
  destruct (match_at all GET _) as [[[p h] vs]|] eqn:E; [|done]. exfalso.
  apply match_at_sound in E as (Hin & Hm & Hs). apply all_cases in Hin as [Hp|Hin]; [by rewrite Hm in Hp|].
  rewrite admin_segs in Hs. unfold common_routes, addAdmin, addHealthCheck in Hin. cbn [app] in Hin.
  repeat (apply elem_of_cons in Hin as [[= -> _]|Hin]; [cbn in Hs; repeat case_decide; try done; by destruct_and?|]).
  by apply not_elem_of_nil in Hin.
Qed.

Lemma below_match m q : m = GET \/ m = HEAD ->
  matchMethodAndPath all m (admin_prefix ++ slash :: q) = Some (adminPattern, admin_h, []).
Proof.
  intros Hm. unfold matchMethodAndPath. assert (match_at all HEAD (admin_prefix ++ slash :: q) = None) as Hh.
  { unfold match_at, tree. rewrite omap_app. fold (tree HEAD mux). rewrite tree_post by done. apply matchPath_nil. }
  destruct Hm as [-> | ->]; rewrite ?Hh, ?below_get; cbn [orelse]; case_decide; rewrite ?below_get; cbn [orelse]; by rewrite below_any.
Qed.

(** A request for a page reaches it, through the password check. *)
Lemma admin_served r p : admin_path r = Some p ->
  exists r1, Header r1 = Header r /\ ID r1 = ID r /\
    (forall w, ServeMux redirect all w r = Gzip gzip (AdminRoutes secret) w r1) /\
    forall w, AdminRoutes secret w r1 = basicAuth secret (admin_handler p) w r1.
Proof.
  unfold admin_path. case_decide as Hc; [|done]. destruct Hc as [Hm Hc]. destruct (_ && _) eqn:Hpre; [|done]. intros [= <-].
  apply andb_true_iff in Hpre as [Hp He]. apply has_prefix_app in He as [q He]. rewrite <- (assoc_L (++)) in He.
  cbn [app] in He. set (r1 := set_path r (drop (length admin_prefix) (Path r)) (drop (length admin_prefix) (EscapedPath r))).
  assert (EscapedPath r1 = slash :: q) as He1 by (subst r1; cbn [EscapedPath set_path]; by rewrite He, drop_app_length).
  assert (Method r <> CONNECT) as Hnc by (by destruct Hm as [-> | ->]).
  exists r1. split; [done|]. split; [done|]. split.
  - intros w. unfold ServeMux. rewrite decide_False by (by rewrite He). unfold findHandler. rewrite decide_False by done.
    rewrite Hc, He, below_match by done.
    rewrite (decide_False (P := admin_prefix ++ slash :: q <> admin_prefix ++ slash :: q)) by (intros H; by apply H).
    destruct (negb (exactMatch _ _) && _ && _) eqn:E; [exfalso|].
    + apply andb_true_iff in E as [_ E]. rewrite <- (assoc_L (++)) in E. cbn [app] in E. rewrite below_match in E by done.
      apply andb_true_iff in E as [_ E]. apply Nat.eqb_eq in E.
      change (3%nat = slashes (admin_prefix ++ slash :: q ++ [slash])) in E.
      rewrite slashes_app, slashes_cons, slashes_app in E. change (slashes admin_prefix) with 2%nat in E.
      change (slashes [slash]) with 1%nat in E. rewrite decide_True in E by done. lia.
    + cbn [foldl zip zip_with p_names adminPattern]. unfold admin_h, StripPrefix. rewrite Hp.
      rewrite (proj2 (has_prefix_app _ _)); [done|]. by exists (slash :: q).
  - intros w. unfold AdminRoutes, ServeMux. rewrite decide_False by (by rewrite He1).
    destruct (admin_find secret r1 q) as [pt Hf]; [done|done|rewrite He1; apply admin_clean; by rewrite <- He|].
    rewrite Hf. cbn [foldl]. do 3 f_equal.
Qed.

(** What the multiplexer does to the state, exactly. *)
Definition page_exact (r : Request) (s s' : S) : Prop :=
  s' = s \/ exists p, admin_path r = Some p /\ authorised secret r /\ s' = call_admin p (ID r) s.

Lemma cleanPath_rooted path : cleanPath path = path -> exists q, path = slash :: q.
Proof.
  intros Hc. destruct path as [|c q]; [by vm_compute in Hc|]. exists q. f_equal. destruct (decide (c = slash)) as [|Hne]; [done|].
  unfold cleanPath in Hc. rewrite (proj2 (Z.eqb_neq c slash)), path_Clean_rooted in Hc by done.
  destruct (_ && _); injection Hc; congruence.
Qed.

Lemma admin_h_exact r w s w' s' : clean r -> admin_h w r s = Ret (w', s') -> page_exact r s s'.
Proof.
  intros Hc Hh. unfold admin_h, StripPrefix in Hh. destruct (_ && _) eqn:Hpre; [|injection Hh as <- <-; by left].
  apply andb_true_iff in Hpre as [Hp He]. set (r1 := set_path r _ _) in Hh.
  assert (forall w1 w2, AdminRoutes secret w1 r1 s = Ret (w2, s') -> page_exact r s s') as Ha.
  { intros w1 w2. unfold AdminRoutes, ServeMux. case_decide as Hstar; [by intros [= <- <-]; left|].
    destruct (findHandler (admin_routes secret) r1) as [p h vals| | |] eqn:Ef; try by (intros [= <- <-]; left).
    pose proof Ef as Hsound. apply findHandler_sound in Hsound as (Hin & Hm & Hc1 & _).
    assert (p_method p = GET) as HG.
    { unfold admin_routes in Hin. by repeat (apply elem_of_cons in Hin as [[= -> _]|Hin]; [done|]); apply not_elem_of_nil in Hin. }
    assert (Method r = GET \/ Method r = HEAD) as Hmeth.
    { change (Method r1) with (Method r) in Hm. destruct Hm as [Hm|[[Hm _]|Hm]]; [left|by right|by rewrite HG in Hm]. by rewrite <- Hm, HG. }
    assert (Method r <> CONNECT) as Hnc by (by destruct Hmeth as [-> | ->]).
    destruct Hc1 as [Hc1|Hc1]; [done|]. destruct Hc as [Hc|Hc]; [done|]. destruct (cleanPath_rooted _ Hc1) as [q Hq].
    destruct (admin_find secret r1 q) as [pt Hf]; [done|done|done|]. rewrite Hf in Ef. injection Ef as <- <- <-. cbn [foldl].
    assert (admin_path r = Some (segment_page (path_segs (EscapedPath r1)))) as Hpath.
    { unfold admin_path. rewrite decide_True by done. rewrite Hp. cbn [andb]. rewrite (proj2 (has_prefix_app _ _)); [done|].
      apply has_prefix_app in He as [t Ht]. exists q. rewrite <- (assoc_L (++)). cbn [app].
      subst r1. cbn [EscapedPath set_path] in Hq. rewrite Ht, drop_app_length in Hq. by rewrite Ht, Hq. }
    unfold basicAuth, admin_handler. destruct (Admin.basicAuth _ _) eqn:Eb; [by intros [= <- <-]; left|].
    intros [= _ <-]. right. eexists. split; [exact Hpath|]. split; [exact Eb|done]. }
  unfold Gzip in Hh. destruct (negb _); [by eapply Ha|]. case_decide; [|by eapply Ha].
  destruct (AdminRoutes secret _ r1 s) as [[grw s1]|] eqn:E; [|done]. cbn in Hh. injection Hh as _ <-. by eapply Ha.
Qed.

#[local] Instance same_blind : Blind (fun (_ : Request) (s s' : S) => s' = s).
Proof. by constructor. Qed.

Lemma pages_exact p h vals r w s w' s' : findHandler all r = Serve p h vals -> (p, h) ∈ common_routes [] secret every burst ->
  h w (foldl (fun r nv => SetPathValue r nv.1 nv.2) r vals) s = Ret (w', s') -> page_exact r s s'.
Proof.
  intros Hf Hin Hh. apply findHandler_sound in Hf as (_ & _ & Hc & vs & _ & ->).
  unfold common_routes, addAdmin, addHealthCheck in Hin. cbn [app] in Hin.
  apply elem_of_cons in Hin as [[= -> ->]|Hin]; [by injection Hh as <- <-; left|].
  apply elem_of_cons in Hin as [[= -> ->]|Hin].
  { left. eapply (runs_StripPrefix (fun _ s s' => s' = s)); [|exact Hh]. apply runs_Gzip, runs_CacheStaticFiles, runs_answer; apply _. }
  apply elem_of_cons in Hin as [[= -> ->]|Hin]; [by eapply admin_h_exact|].
  apply list_elem_of_singleton in Hin as [= -> ->]. left.
  eapply (runs_Gzip (fun _ s s' => s' = s)); [|exact Hh]. apply runs_ServeMux; [apply _|].
  apply List.Forall_cons; [|constructor]. cbn [snd]. intros w1 r1 s1 w2 s2. unfold newLandingHandler.
  destruct (landing_template _). by intros [= _ <-].
Qed.
End below.
End pages.
