(* ===== verification/Router.v ===== *)
(** The way of a request to the registar: [NewRouter] of
    [internal/registar/server.go], with the pages of [Pages] on the same
    multiplexer, behind the middleware [main] of [cmd/registar/main.go] puts in
    front of it.

    The state of the handlers is that of the rate limiter, the request log and
    the calls of [Server.Register] and [Server.Relay] they make; a call is a
    label of the server's step relation in [Registar], which takes it as the
    arrival of a concurrent task. *)
From S2P Require Import Prelude Auth Netip Errors Control CA Registar Http Mux RateLimit Config Pages.
From S2P Require Models.
Local Open Scope Z_scope.

(** * Patterns *)

Definition headerToken : string := "Token".

(** The patterns of [NewRouter] *)
Definition hostPattern : pattern := mkPattern POST [Lit (bytes_of_string "host")] [].
Definition joinPattern : pattern := mkPattern POST [Lit (bytes_of_string "join")] [].
Definition relayPattern : pattern := mkPattern POST [Lit (bytes_of_string "relay"); Wild] ["sessionID"%string].

(** * The keys the server knows *)

Definition task_keys (t : task) : list Key :=
  match t with
  | TRegister q | TRegisterConn q _ | TConnAfter q _ | TStream q => [q_key q]
  | THost _ k _ | THostAfter _ k _ | THostCallback k _ => [k]
  | TPeer _ k _ | TPeerLock _ k _ _ | TPeerP2P _ k _ _ | TPeerRelay _ k _ _ => [k]
  | _ => []
  end.

Definition after_keys (a : Registar.after) : list Key := match a with AfterConn _ => [] | AfterHost _ k _ => [k] end.

Definition event_keys (e : event) : list Key :=
  match e with
  | EvRegistered q _ _ => [q_key q]
  | EvHostConnected k _ | EvHostDisconnected k _ | EvPeerConnected k _ => [k]
  | _ => []
  end.

Section keys.
Context {A D : Type} `{SessionAuthorityLaws A D}.

(** A key is in the table of hosts, in a task, in a callback or in the log. *)
Inductive mentions (w : @Server A) (k : Key) : Prop :=
| mentions_host h : hosts w !! k = Some h -> mentions w k
| mentions_task t : t ∈ tasks w -> k ∈ task_keys t -> mentions w k
| mentions_after a : a ∈ afters w -> k ∈ after_keys a -> mentions w k
| mentions_event e : e ∈ log w -> k ∈ event_keys e -> mentions w k.

(** A state that adds nothing but what has the key [k0]. *)
Lemma mentions_grow (w w1 : @Server A) (k : Key) (ks : list Key) :
  (forall h, hosts w1 !! k = Some h -> hosts w !! k = Some h \/ k ∈ ks) ->
  (forall t, t ∈ tasks w1 -> k ∈ task_keys t -> t ∈ tasks w \/ k ∈ ks) ->
  (forall a, a ∈ afters w1 -> k ∈ after_keys a -> a ∈ afters w \/ k ∈ ks) ->
  (forall e, e ∈ log w1 -> k ∈ event_keys e -> e ∈ log w \/ k ∈ ks) ->
  mentions w1 k -> mentions w k \/ k ∈ ks.
Proof.
  intros Hh Ht Ha He [h Hx|t Hx Hk|a Hx Hk|e Hx Hk].
  - destruct (Hh h Hx); [left; by eapply mentions_host|by right].
  - destruct (Ht t Hx Hk); [left; by eapply mentions_task|by right].
  - destruct (Ha a Hx Hk); [left; by eapply mentions_after|by right].
  - destruct (He e Hx Hk); [left; by eapply mentions_event|by right].
Qed.

Lemma mentions_of_task (w w1 : @Server A) i t t' (k : Key) :
  tasks w !! i = Some t ->
  (forall h, hosts w1 !! k = Some h -> hosts w !! k = Some h \/ k ∈ task_keys t) ->
  (forall x, t' = Some x -> k ∈ task_keys x -> k ∈ task_keys t) ->
  (forall a, a ∈ afters w1 -> k ∈ after_keys a -> a ∈ afters w \/ k ∈ task_keys t) ->
  (forall e, e ∈ log w1 -> k ∈ event_keys e -> e ∈ log w \/ k ∈ task_keys t) ->
  mentions (set_tasks w1 (tasks_after (tasks w) i t')) k -> mentions w k.
Proof.
  intros Hi Hh Ht Ha He Hm.
  eapply (mentions_grow w _ k (task_keys t)) in Hm as [|Hk]; [done| |done| |done|done].
  - eapply mentions_task; [by eapply list_elem_of_lookup_2|done].
  - intros x [Hx| ->]%tasks_after_inv Hk; [by left|right; by apply (Ht x)].
Qed.

(** What a step adds is at the head of a list. *)
Ltac old_or_key :=
  cbn; intros;
  repeat match goal with Hin : _ ∈ _ :: _ |- _ => apply elem_of_cons in Hin as [->|Hin] end;
  cbn in *; set_solver.

(** No step makes up a key: a key the server did not know is that of the
    registration that has just arrived. *)
Lemma mentions_step (w w' : @Server A) (l : label (D := D)) (k : Key) :
  step w l = Some (Ret w') -> mentions w' k ->
  mentions w k \/ exists q, l = LRegister q /\ k = q_key q.
Proof.
  intros Hs. label_cases l Hs.
  all: intros Hm.
  all: try (left; refine (mentions_of_task w _ i _ _ k Ht _ _ _ _ Hm); old_or_key; fail).
  all: try (assert (mentions w k \/ k ∈ []) as [|[]%not_elem_of_nil];
    [refine (mentions_grow w _ k [] _ _ _ _ Hm); old_or_key|by left]; fail).
  1,2: assert (mentions w k \/ k ∈ [q_key q]) as [| ->%list_elem_of_singleton];
    [refine (mentions_grow w _ k [q_key q] _ _ _ _ Hm); old_or_key|by left|right; by exists q].
  - left. refine (mentions_of_task w _ i _ _ k Ht _ _ _ _ Hm); [|old_or_key..].
    cbn. intros h [[<- _]|[_ Hh]]%lookup_insert_Some; [right; by left|by left].
  - left. assert (mentions w k \/ k ∈ []) as [|[]%not_elem_of_nil]; [|done].
    refine (mentions_grow w _ k [] _ _ _ _ Hm); [old_or_key..| |old_or_key].
    cbn. intros a Hd%list_elem_of_delete_inv _. by left.
  - left. apply list_elem_of_lookup_2 in Ha.
    assert (mentions w k \/ k ∈ [k0]) as [|Hk]; [|done|by eapply mentions_after].
    refine (mentions_grow w _ k [k0] _ _ _ _ Hm); [|old_or_key| |old_or_key]; cbn.
    + intros h [_ Hh]%lookup_delete_Some. by left.
    + intros a1 Hd%list_elem_of_delete_inv _. by left.
  - left. destruct (Close_spec w) as (E0 & E1 & E2 & _ & _ & E5 & _).
    assert (mentions w k \/ k ∈ []) as [|[]%not_elem_of_nil]; [|done].
    apply (mentions_grow w (Close w)); [rewrite E0|rewrite E1|rewrite E2|rewrite E5|done]; old_or_key.
Qed.
End keys.

(** * The response controller *)

(** The response writers of the program: that of HTTP/3 with its stream, those of
    [LogRequests] and [Gzip], which wrap another one, and any other. *)
Inductive writer :=
| HTTP3Writer (str : nat)
| StatusWriter (w : writer)
| GzipWriter (w : writer)
| OtherWriter.

(** [ResponseController.HTTPStream], by [Unwrap] *)
Fixpoint HTTPStream (w : writer) : option nat :=
  match w with
  | HTTP3Writer str => Some str
  | StatusWriter w | GzipWriter w => HTTPStream w
  | OtherWriter => None
  end.

(** * The handlers *)

Section router.
Context {D L R F : Type} `{TokenBucket L R}.
Local Abbreviation label := (@Registar.label D).

(** What a handler uses of the world: functions of the libraries, and what
    comes with a request, by its [ID]: the decoded body with the private
    address, the connection in its context with the remote address, and the
    response writer of the server, which [LogRequests] wraps. *)
Record outside := mkOutside {
  error_text : error -> str;                           (* err.Error() *)
  ceil_seconds : Z -> Z;                               (* math.Ceil(d.Seconds()) *)
  parse_addr : str -> option Addr;                     (* netip.ParseAddr *)
  url_String : str -> str -> str -> str -> str;        (* scheme, host, path, query *)
  redirect : str -> str -> ResponseWriter -> ResponseWriter;
  gzip : str -> str;
  per_second : Z -> F;
  landing_template : landingData (F := F) -> str * option str;
  FileServer : ResponseWriter -> Request -> ResponseWriter;
  req_body : nat -> option Models.RegisterRequest;
  req_conn : nat -> option (nat * AddrPort);
  req_writer : nat -> writer;
}.

(** The limiter, the log and the clock of one server, the calls of
    [Server.Register] and [Server.Relay], and those of the admin page with the
    [ID] of their request. *)
Record state := mkState {
  limits : RateLimit (IP := Addr) (L := L);
  rlog : list log_entry;
  clock : nat -> Z;
  calls : list label;
  pages : list (admin_page * nat);
}.

Variable x : outside.

(** A call of the server, or of a handler of the admin page: it goes on
    concurrently. *)
Definition call (l : label) (w : ResponseWriter) : state -> outcome (ResponseWriter * state) := fun s =>
  Ret (w, mkState (limits s) (rlog s) (clock s) (calls s ++ [l]) (pages s)).
Definition call_admin (p : admin_page) (id : nat) (s : state) : state :=
  mkState (limits s) (rlog s) (clock s) (calls s) (pages s ++ [(p, id)]).

(** The arguments of [Server.Register] and [Server.Relay] *)
Definition register_call (r : Request) (key : Key) (isHost : bool) : label :=
  LRegister (mkRegister key (Models.CSR <$> req_body x (ID r)) (default AddrPort_zero (Models.PrivateAddr <$> req_body x (ID r)))
    (fst <$> req_conn x (ID r)) (default AddrPort_zero (snd <$> req_conn x (ID r)))
    (HTTPStream (StatusWriter (req_writer x (ID r)))) isHost).
Definition relay_call (r : Request) (sessionID : str) : label :=
  LRelay (mkRelayRequest sessionID (fst <$> req_conn x (ID r)) (HTTPStream (StatusWriter (req_writer x (ID r))))).

(** [hostHandler], [joinHandler] and [relayHandler] of [NewRouter] *)
Definition hostHandler : Handler state := fun w r =>
  call (register_call r (default zero_key (KeyFromContext r)) true) w.
Definition joinHandler : Handler state := fun w r =>
  call (register_call r (default zero_key (KeyFromContext r)) false) w.
Definition relayHandler : Handler state := fun w r => call (relay_call r (PathValue r "sessionID")) w.

(** [NewRouter] *)
Definition NewRouter (secret : str) : routes (A := Handler state) :=
  let authMW := Authenticate (error_text x) secret (TokenFromHeader headerToken) in [
    (hostPattern, Wrap hostHandler [Some authMW]);
    (joinPattern, Wrap joinHandler [Some authMW]);
    (relayPattern, Wrap relayHandler [Some authMW])].

(** [addHealthCheck] and [addAdmin] of [main], on a multiplexer. *)
Definition with_pages (cfg : config) (mux : routes (A := Handler state)) : routes :=
  common_routes (redirect x) (gzip x) (per_second x) call_admin (landing_template x) (FileServer x)
    mux (AdminSecret cfg) (RateLimitEvery cfg) (Config.RateLimitBurst cfg).

(** [RateLimit] and [LogRequests] with the state of a server. *)
Definition limit_requests : Middleware state :=
  RateLimit_handler (ceil_seconds x) limits (fun rl s => mkState rl (rlog s) (clock s) (calls s) (pages s)) clock
    (RequestIP (parse_addr x)).
Definition log_requests : Middleware state :=
  LogRequests (fun e s => mkState (limits s) (rlog s ++ [e]) (clock s) (calls s) (pages s)).

(** The multiplexer of the HTTP/3 server, and its handler in [main]. *)
Definition registar_routes (cfg : config) : routes (A := Handler state) := with_pages cfg (NewRouter (cSecret cfg)).
Definition registar_handler (cfg : config) : Handler state :=
  Wrap (ServeMux (redirect x) (registar_routes cfg)) [
    Some limit_requests; Some log_requests; Some (AllowHosts (Domains cfg))].

(** * Which requests reach the server *)

(** A request that carries the token of [k] under [secret]. *)
Definition bears (secret : str) (r : Request) (k : Key) : Prop :=
  Key_wf k /\ ParseToken (TokenFromHeader headerToken r) = Ok (NewToken k secret).

(** A pattern of the router and a request: its method, a clean path, and the
    values of the wildcards. *)
Definition matches (p : pattern) (r : Request) : option (list (string * str)) :=
  if decide (Method r = p_method p /\ cleanPath (EscapedPath r) = EscapedPath r)
  then zip (p_names p) <$> seg_match (p_segments p) (path_segs (EscapedPath r)) else None.

(** The call a request with the key [k] makes. *)
Inductive routed (r : Request) (k : Key) : label -> Prop :=
| routed_host : matches hostPattern r = Some [] -> routed r k (register_call r k true)
| routed_join : matches joinPattern r = Some [] -> routed r k (register_call r k false)
| routed_relay sid : matches relayPattern r = Some [("sessionID"%string, sid)] -> routed r k (relay_call r sid).

(** The patterns of the router; no pattern matches. *)
Definition api : list pattern := [hostPattern; joinPattern; relayPattern].
Definition unrouted (r : Request) : Prop := forall p, p ∈ api -> matches p r = None.

Lemma matches_lit name r vals : matches (mkPattern POST [Lit name] []) r = Some vals -> vals = [].
Proof. unfold matches. case_decide; [|done]. cbn. by intros (vs & _ & ->)%fmap_Some. Qed.

Lemma matches_relay r vals : matches relayPattern r = Some vals -> exists sid, vals = [("sessionID"%string, sid)].
Proof.
  unfold matches. case_decide as Hc; [|done]. destruct Hc as [_ Hc]. intros (vs & Hm & ->)%fmap_Some.
  apply path_segs_nonempty in Hc. cbn [relayPattern p_segments p_names] in *.
  destruct (path_segs (EscapedPath r)) as [|a [|b segs]]; cbn [seg_match] in Hm; [done|by case_decide|].
  apply Forall_cons in Hc as [_ [Hb _]%Forall_cons]. destruct (decide (_ /\ _)); [|done]. case_decide; [done|].
  destruct segs; [|done]. cbn in Hm. rewrite decide_False in Hm by done. injection Hm as <-. by exists b.
Qed.

(** No two of the patterns match the same request. *)
Lemma patterns_disjoint r p p' vals vals' : p ∈ api -> p' ∈ api ->
  matches p r = Some vals -> matches p' r = Some vals' -> p = p'.
Proof.
  unfold api, matches. intros Hp Hp' H1 H2. case_decide as Hc1; [|done]. case_decide as Hc2; [|done].
  apply fmap_Some in H1 as (vs & Hm & _). apply fmap_Some in H2 as (vs' & Hm' & _).
  apply elem_of_cons in Hp as [->|[->|[->|[]%not_elem_of_nil]%elem_of_cons]%elem_of_cons];
    apply elem_of_cons in Hp' as [->|[->|[->|[]%not_elem_of_nil]%elem_of_cons]%elem_of_cons]; try done; exfalso;
    cbn in Hm, Hm'; destruct (path_segs (EscapedPath r)) as [|seg [|seg2 segs]]; cbn in Hm, Hm'; repeat case_decide; try done;
    destruct_and?; simplify_eq.
Qed.

Lemma routed_unique r k l l' : routed r k l -> routed r k l' -> l = l'.
Proof.
  intros H1 H2. destruct H1 as [Hm1|Hm1|sid Hm1], H2 as [Hm2|Hm2|sid' Hm2]; try done; try congruence;
    match type of Hm1 with matches ?p _ = _ => match type of Hm2 with matches ?p' _ = _ =>
      assert (p = p') by (eapply (patterns_disjoint r p p'); [unfold api; set_solver..|exact Hm1|exact Hm2]) end end; done.
Qed.

Lemma registar_routes_app cfg : registar_routes cfg = NewRouter (cSecret cfg) ++ with_pages cfg [].
Proof. unfold registar_routes, with_pages, common_routes, addAdmin, addHealthCheck. by rewrite <- !(assoc_L (++)). Qed.

Lemma NewRouter_post secret : Forall (fun y => p_method y.1 = POST) (NewRouter secret).
Proof. by repeat constructor. Qed.

Lemma with_pages_method cfg p h : (p, h) ∈ with_pages cfg [] -> p_method p <> POST.
Proof.
  unfold with_pages, common_routes, addAdmin, addHealthCheck. cbn [app].
  intros H1. repeat (apply elem_of_cons in H1 as [[= -> _]|H1]; [done|]). by apply not_elem_of_nil in H1.
Qed.

Definition auth (secret : str) : Middleware state := Authenticate (error_text x) secret (TokenFromHeader headerToken).

Lemma auth_key secret r k (next : Handler state) w0 : Key_wf k ->
  (bears secret r k \/ TokenFromHeader headerToken r = Token_String (NewToken k secret) ->
     auth secret next w0 r = next w0 (ContextWithKey r k)) /\
  ((forall k', ~ bears secret r k') ->
     exists msg, forall next' : Handler state, auth secret next' w0 r = answer (http_Error w0 msg 401)).
Proof.
  intros Hk. destruct (Authenticate_key (error_text x) secret (TokenFromHeader headerToken) next w0 r k Hk) as (H1 & H2 & H3).
  split; [intros [[_ Hb]|Ht]; [by apply H1|by apply H3]|]. intros Hn. apply H2. intros k' Hk' Hp. by apply (Hn k').
Qed.

(** What serves a request that a pattern of the router matches. *)
Lemma api_handler secret p h r vals : (p, h) ∈ NewRouter secret -> matches p r = Some vals ->
  p ∈ api /\ exists next, h = auth secret next /\ forall k, exists l, routed r k l /\
    forall w, next w (ContextWithKey (foldl (fun r nv => SetPathValue r nv.1 nv.2) r vals) k) = call l w.
Proof.
  unfold NewRouter. rewrite !wrap_cons. fold (auth secret). unfold api.
  intros [[= -> ->]|[[= -> ->]|[[= -> ->]|[]%not_elem_of_nil]%elem_of_cons]%elem_of_cons]%elem_of_cons Hm; (split; [set_solver|]).
  - apply matches_lit in Hm as Ev. subst vals. exists hostHandler. split; [done|]. intros k.
    exists (register_call r k true). split; [by constructor|done].
  - apply matches_lit in Hm as Ev. subst vals. exists joinHandler. split; [done|]. intros k.
    exists (register_call r k false). split; [by constructor|done].
  - apply matches_relay in Hm as Ev. destruct Ev as [sid ->]. exists relayHandler. split; [done|]. intros k.
    exists (relay_call r sid). split; [by constructor|done].
Qed.

Lemma api_found cfg r p vals : p ∈ api -> matches p r = Some vals ->
  exists h, findHandler (registar_routes cfg) r = Serve p h vals /\ (p, h) ∈ NewRouter (cSecret cfg).
Proof.
  intros Hp Hm. unfold matches in Hm. case_decide as Hc; [|done]. destruct Hc as [Hmeth Hc].
  apply fmap_Some in Hm as (vs & Hm & ->). assert (p_method p = POST) as HP.
  { unfold api in Hp. by apply elem_of_cons in Hp as [->|[->|[->|[]%not_elem_of_nil]%elem_of_cons]%elem_of_cons]. }
  assert (exists h, (p, h) ∈ registar_routes cfg) as [h Hin].
  { rewrite registar_routes_app. unfold api in Hp.
    apply elem_of_cons in Hp as [->|[->|[->|[]%not_elem_of_nil]%elem_of_cons]%elem_of_cons]; eexists; apply elem_of_app; left;
      unfold NewRouter; rewrite !elem_of_cons; eauto. }
  assert (forall p' h', (p', h') ∈ registar_routes cfg -> p_method p' = Method r -> (p', h') ∈ NewRouter (cSecret cfg)) as Hapi.
  { intros p' h' Hin' Hm'. rewrite registar_routes_app in Hin'. apply elem_of_app in Hin' as [|Hin']; [done|].
    apply with_pages_method in Hin'. congruence. }
  destruct (findHandler_method (registar_routes cfg) r p h vs) as (p' & h' & vs' & Hf & Hin' & Hm' & Hs'); [by right|done|done|done| |].
  { intros p' h' Hin' Hm'. pose proof (Hapi p' h' Hin' Hm') as Hx. unfold NewRouter in Hx.
    by apply elem_of_cons in Hx as [[= -> _]|[[= -> _]|[[= -> _]|[]%not_elem_of_nil]%elem_of_cons]%elem_of_cons]. }
  exists h'. assert (p' = p) as ->.
  { eapply (patterns_disjoint r p' p); [|done| |].
    - pose proof (Hapi p' h' Hin' Hm') as Hx. unfold NewRouter in Hx. unfold api.
      apply elem_of_cons in Hx as [[= -> _]|[[= -> _]|[[= -> _]|[]%not_elem_of_nil]%elem_of_cons]%elem_of_cons]; set_solver.
    - unfold matches. by rewrite decide_True, Hs'.
    - unfold matches. by rewrite decide_True, Hm. }
  rewrite Hm in Hs'. injection Hs' as <-. split; [done|by apply Hapi].
Qed.

Lemma routed_or_not r : unrouted r \/ exists p vals, p ∈ api /\ matches p r = Some vals.
Proof.
  unfold unrouted. destruct (matches hostPattern r) as [vals|] eqn:E1; [right; exists hostPattern, vals; split; [unfold api; set_solver|done]|].
  destruct (matches joinPattern r) as [vals|] eqn:E2; [right; exists joinPattern, vals; split; [unfold api; set_solver|done]|].
  destruct (matches relayPattern r) as [vals|] eqn:E3; [right; exists relayPattern, vals; split; [unfold api; set_solver|done]|].
  left. unfold api. by intros p [->|[->|[->|[]%not_elem_of_nil]%elem_of_cons]%elem_of_cons]%elem_of_cons.
Qed.

(** What the multiplexer of the server serves for a request of the router. *)
Lemma registar_mux_api cfg r p vals : p ∈ api -> matches p r = Some vals ->
  exists next, (forall w, ServeMux (redirect x) (registar_routes cfg) w r
      = auth (cSecret cfg) next w (foldl (fun r nv => SetPathValue r nv.1 nv.2) r vals)) /\
    forall k, exists l, routed r k l /\ forall w, next w (ContextWithKey (foldl (fun r nv => SetPathValue r nv.1 nv.2) r vals) k) = call l w.
Proof.
  intros Hp Hm. destruct (api_found cfg r p vals Hp Hm) as (h & Hf & Hin).
  destruct (api_handler _ _ _ _ _ Hin Hm) as (_ & next & -> & Hn). exists next. split; [|done].
  intros w. unfold ServeMux. rewrite decide_False, Hf; [done|]. unfold matches in Hm. case_decide as Hc; [|done].
  intros E. destruct Hc as [_ Hc]. by rewrite E in Hc.
Qed.


(** The multiplexer of the server refuses, makes the call the request is for,
    or serves a page. *)
Lemma registar_mux_cases cfg w r s w' s' :
  ServeMux (redirect x) (registar_routes cfg) w r s = Ret (w', s') ->
  (unrouted r /\ page_exact call_admin (AdminSecret cfg) r s s') \/
  (~ unrouted r /\ s' = s /\ exists msg, w' = http_Error w msg 401) \/
  (exists k l, bears (cSecret cfg) r k /\ routed r k l /\ call l w s = Ret (w', s')).
Proof.
  destruct (routed_or_not r) as [Hu|(p & vals & Hp & Hm)].
  - intros Hh. left. split; [done|]. unfold ServeMux in Hh. case_decide as Hs; [injection Hh as <- <-; by left|].
    destruct (findHandler (registar_routes cfg) r) as [p h vals| | |] eqn:E; try (injection Hh as <- <-; by left).
    pose proof E as E'. apply findHandler_sound in E' as (Hin & Hmeth & Hc & vs & Hsm & Hvals). rewrite registar_routes_app in Hin.
    apply elem_of_app in Hin as [Hin|Hin].
    + exfalso. assert (p ∈ api /\ p_method p = POST) as [Hp HP].
      { unfold NewRouter in Hin. unfold api.
        apply elem_of_cons in Hin as [[= -> _]|[[= -> _]|[[= -> _]|[]%not_elem_of_nil]%elem_of_cons]%elem_of_cons]; (split; [set_solver|done]). }
      assert (matches p r = None) as HN by by apply Hu. unfold matches in HN.
      destruct Hmeth as [Hmeth|[[_ Hmeth]|Hmeth]]; [|by rewrite HP in Hmeth..].
      destruct Hc as [Hc|Hc]; [by rewrite <- Hmeth, HP in Hc|]. by rewrite decide_True, Hsm in HN.
    + rewrite registar_routes_app in E. eapply pages_exact; [exact E|exact Hin|exact Hh].
  - destruct (registar_mux_api cfg r p vals Hp Hm) as (next & Hs & Hn). rewrite Hs. unfold auth, Authenticate.
    destruct (check_token _ _ _ _) as [r1|msg] eqn:E.
    + intros Hh. right. right. apply check_token_Ok in E as (k & Hk & Hpk & ->). destruct (Hn k) as (l & Hr & Hl).
      exists k, l. rewrite Hl in Hh. split; [|done]. split; [done|]. unfold TokenFromHeader in *. by rewrite (proj1 (SetPathValues vals r)) in Hpk.
    + intros [= <- <-]. right. left. split; [|split; [done|by exists msg]]. intros Hu. by rewrite (Hu p Hp) in Hm.
Qed.

(** A request with the token of a key on a path of the router makes its call. *)
Lemma registar_mux_makes cfg w r k l : bears (cSecret cfg) r k -> routed r k l ->
  ServeMux (redirect x) (registar_routes cfg) w r = call l w.
Proof.
  intros [Hk Hp] Hr. assert (exists p vals, p ∈ api /\ matches p r = Some vals) as (p & vals & Hin & Hm).
  { destruct Hr as [Hm|Hm|sid Hm]; eexists _, _; (split; [|exact Hm]); unfold api; set_solver. }
  destruct (registar_mux_api cfg r p vals Hin Hm) as (next & Hs & Hn). destruct (Hn k) as (l' & Hr' & Hl).
  rewrite (routed_unique r k l l' Hr Hr'), <- Hl, Hs. unfold auth. apply Authenticate_pass, check_token_made; [done|].
  unfold TokenFromHeader in *. by rewrite (proj1 (SetPathValues vals r)).
Qed.

(** The limiter and the host check in front of the router. *)
Lemma registar_handler_cases cfg w r s w' s' : registar_handler cfg w r s = Ret (w', s') ->
  calls s' = calls s \/
  exists rl k l, serve (clock s) (limits s) (RequestIP (parse_addr x) r) = Ret (Admit, rl) /\
    host_part (Host r) ∈ Domains cfg /\ bears (cSecret cfg) r k /\ routed r k l /\ calls s' = calls s ++ [l].
Proof.
  unfold registar_handler. rewrite !wrap_cons. change (Wrap ?h []) with h. unfold limit_requests, RateLimit_handler.
  destruct (serve _ _ _) as [[[|d] rl]|] eqn:Es; cbn [mbind outcome_bind]; [| |done].
  2: { intros [= <- <-]. by left. }
  unfold log_requests, LogRequests, AllowHosts. case_decide as Hd; cbn [answer mbind outcome_bind]; [|intros [= <- <-]; by left].
  destruct (ServeMux _ _ _ _ _) as [[rw s2]|] eqn:E; [|done]. cbn [mbind outcome_bind]. intros [= <- <-]. cbn [calls].
  apply registar_mux_cases in E as [[_ [->|(p & _ & _ & ->)]]|[(_ & -> & _)|(k & l & Hb & Hr & [= <- <-])]]; [by left..|].
  right. by exists rl, k, l.
Qed.

Lemma registar_handler_makes cfg w r s rl k l :
  serve (clock s) (limits s) (RequestIP (parse_addr x) r) = Ret (Admit, rl) ->
  host_part (Host r) ∈ Domains cfg -> bears (cSecret cfg) r k -> routed r k l ->
  exists w' s', registar_handler cfg w r s = Ret (w', s') /\ calls s' = calls s ++ [l].
Proof.
  intros Es Hd Hb Hr. unfold registar_handler. rewrite !wrap_cons. change (Wrap ?h []) with h.
  unfold limit_requests, RateLimit_handler. rewrite Es. cbn [mbind outcome_bind]. unfold log_requests, LogRequests, AllowHosts.
  rewrite decide_True, (registar_mux_makes _ _ _ k l) by done. eexists _, _. split; [done|]. done.
Qed.
End router.

(** * The server behind its handler *)

Section site.
Context {A D L R F : Type} `{SessionAuthorityLaws A D} `{TokenBucket L R}.
Variable x : outside (F := F).
Variable cfg : config.
Local Abbreviation state := (@state D L).
Local Abbreviation label := (@Registar.label D).
Local Abbreviation bears := (bears (cSecret cfg)).
Local Abbreviation routed := (@routed D F x).
Local Abbreviation register_call := (@register_call D F x).
Local Abbreviation handler := (registar_handler x cfg).

(** The state of the handlers, the server, and the requests handled so far. *)
Record site := mkSite { st : state; server : @Server A; seen : list Request }.

Definition is_arrival (l : label) : bool := match l with LRegister _ | LRelay _ => true | _ => false end.

(** A request is handled, by a clock of its own, and its calls arrive at the
    server; or the server makes a step. *)
Inductive site_step : site -> site -> Prop :=
| site_request v w r clk w' s' server' :
    handler w r (mkState (limits (st v)) (rlog (st v)) clk [] (pages (st v))) = Ret (w', s') ->
    run (server v) (calls s') = Some server' ->
    site_step v (mkSite s' server' (seen v ++ [r]))
| site_internal v l server' :
    is_arrival l = false -> step (server v) l = Some (Ret server') ->
    site_step v (mkSite (st v) server' (seen v)).

Definition site_start (a : A) (s : state) : site := mkSite s (NewServer a) [].

(** Where a key comes from. *)
Definition presented (v : site) (k : Key) : Prop :=
  exists r isHost, r ∈ seen v /\ bears r k /\ host_part (Host r) ∈ Domains cfg /\ routed r k (register_call r k isHost).

Lemma run_one w l w' : run w [l] = Some w' -> step w l = Some (Ret w').
Proof. cbn. destruct (step w l) as [[w1|]|]; [|done..]. by intros [= ->]. Qed.

Lemma site_typed a s v : star site_step (site_start a s) v ->
  reachable a (server v) /\ forall k, mentions (server v) k -> presented v k.
Proof.
  intros Hr. revert Hr. assert (forall v y, reachable a (server v) /\ (forall k, mentions (server v) k -> presented v k) ->
    site_step v y -> reachable a (server y) /\ forall k, mentions (server y) k -> presented y k) as Hstep.
  { clear v. intros v y [Hre Hk] Hs. assert (forall k, presented v k -> forall r s' w', presented (mkSite s' w' (seen v ++ [r])) k) as Hgrow.
    { intros k (r & b & Hin & Hp) r' s' w'. exists r, b. split; [apply elem_of_app; by left|done]. }
    destruct Hs as [v w r clk w' s' server' Hh Hrun|v l server' Hl Hs].
    - split; [by eapply star_trans; [exact Hre|by eapply run_star]|]. cbn [server].
      apply registar_handler_cases in Hh as [Ec|(rl & k & l & _ & Hd & Hb & Hrt & Ec)];
        cbn [calls app] in Ec; rewrite Ec in Hrun.
      + injection Hrun as <-. intros k Hm. by apply Hgrow, Hk.
      + apply run_one in Hrun. intros k' Hm. destruct (mentions_step _ _ _ _ Hrun Hm) as [Hm'|(q & -> & ->)]; [by apply Hgrow, Hk|].
        inversion Hrt as [Hm1 Hq|Hm1 Hq|sid Hm1 Hq]; subst; cbn [q_key].
        * exists r, true. split; [apply elem_of_app; right; by left|]. split; [done|]. split; [done|]. by constructor.
        * exists r, false. split; [apply elem_of_app; right; by left|]. split; [done|]. split; [done|]. by constructor.
    - split; [eapply star_trans; [exact Hre|apply star_one; by exists l]|]. cbn [server]. intros k Hm.
      destruct (mentions_step _ _ _ _ Hs Hm) as [Hm'|(q & -> & _)]; [|done].
      destruct (Hk k Hm') as (r & b & Hp). by exists r, b. }
  intros Hr. refine (star_invariant site_step (fun v => reachable a (server v) /\ forall k, mentions (server v) k -> presented v k)
    Hstep _ _ Hr _). split; [constructor|].
  intros k [h Hx|t Hx|e Hx|e Hx]; cbn in Hx; try by apply not_elem_of_nil in Hx. by rewrite lookup_empty in Hx.
Qed.

(** C2. One request through limiter, log, host check, router and token check:
    the server is called at most once, and exactly when the limiter admits the
    address, the host is served, the path is one of the router's under POST, and
    the header bears the token of a well-formed key under the configured secret;
    the call is then the one of the path, with that key.  Otherwise the answer
    is a 429, a 403 or a 401, in this order, or that of the pages, which share
    the multiplexer.  Of the token check itself: what is behind it runs with the
    key of the token, only then, and the printed token of a key is always
    admitted with the key. *)
Theorem registar_entry (w w' : ResponseWriter) (r : Request) (s s' : state)
    (Hw : w_status w = None) (Hh : handler w r s = Ret (w', s')) :
  (calls s' = calls s \/ exists l, calls s' = calls s ++ [l]) /\
  (forall l, calls s' = calls s ++ [l] <->
     exists rl k, serve (clock s) (limits s) (RequestIP (parse_addr x) r) = Ret (Admit, rl) /\
       host_part (Host r) ∈ Domains cfg /\ bears r k /\ routed r k l) /\
  (forall d rl, serve (clock s) (limits s) (RequestIP (parse_addr x) r) = Ret (Delayed d, rl) -> w_status w' = Some 429) /\
  (forall rl, serve (clock s) (limits s) (RequestIP (parse_addr x) r) = Ret (Admit, rl) ->
     (host_part (Host r) ∉ Domains cfg -> w_status w' = Some 403) /\
     (host_part (Host r) ∈ Domains cfg -> ~ unrouted r -> (forall k, ~ bears r k) -> w_status w' = Some 401)) /\
  (forall (k : Key) (next : Handler state) (w0 : ResponseWriter), Key_wf k ->
     (bears r k \/ TokenFromHeader headerToken r = Token_String (NewToken k (cSecret cfg)) ->
        auth x (cSecret cfg) next w0 r = next w0 (ContextWithKey r k)) /\
     ((forall k', ~ bears r k') ->
        exists msg, forall next' : Handler state, auth x (cSecret cfg) next' w0 r = answer (http_Error w0 msg 401))).
Proof.
  pose proof (registar_handler_cases _ _ _ _ _ _ _ Hh) as Hc.
  assert (forall l : label, calls s ++ [l] <> calls s) as Hne by (intros l E; by apply (f_equal length) in E; rewrite length_app in E; cbn in E; lia).
  split_and!.
  - destruct Hc as [?|(rl & k & l & _ & _ & _ & _ & ?)]; [by left|right; by exists l].
  - intros l. split.
    + intros E. destruct Hc as [E'|(rl & k & l' & ? & ? & ? & ? & E')]; rewrite E in E'; [by destruct (Hne l)|].
      apply app_inv_head in E'. injection E' as <-. by exists rl, k.
    + intros (rl & k & Es & Hd & Hb & Hr).
      destruct (registar_handler_makes x cfg w r s rl k l Es Hd Hb Hr) as (w1 & s1 & E & Ec).
      rewrite E in Hh. by injection Hh as <- <-.
  - intros d rl Es. unfold Router.registar_handler in Hh. rewrite !wrap_cons in Hh. change (Wrap ?h []) with h in Hh.
    unfold limit_requests, RateLimit_handler in Hh. rewrite Es in Hh. injection Hh as <- _. by apply too_many_status.
  - intros rl Es. unfold Router.registar_handler in Hh. rewrite !wrap_cons in Hh. change (Wrap ?h []) with h in Hh.
    unfold limit_requests, RateLimit_handler in Hh. rewrite Es in Hh. cbn [mbind outcome_bind] in Hh.
    unfold log_requests, LogRequests, AllowHosts in Hh. split.
    + intros Hd. rewrite decide_False in Hh by done. injection Hh as <- _. cbn. by rewrite Hw.
    + intros Hd Hu Hb. rewrite decide_True in Hh by done. destruct (ServeMux _ _ _ _ _) as [[rw s2]|] eqn:E; [|done].
      apply registar_mux_cases in E as [[? _]|[(_ & _ & msg & ->)|(k & l & ? & _)]]; [done| |by destruct (Hb k)].
      injection Hh as <- _. cbn. by rewrite Hw.
  - intros k next w0 Hk. by apply auth_key.
Qed.

(** C3. The keys of a running server are typed: in every state it reaches
    behind its handler, a key in the table of hosts, in a task, in a callback
    or in the log is well formed, and comes from a request that bore the token
    of that very key under the configured secret and named a host the server
    serves.  Every state reached so is one of the server's own step relation,
    for which its invariants are proved. *)
Theorem keys_typed (a : A) (s : state) (v : site) (Hr : star site_step (site_start a s) v) :
  reachable a (server v) /\ forall k, mentions (server v) k -> Key_wf k /\ presented v k.
Proof.
  destruct (site_typed a s v Hr) as [Hre Hk]. split; [done|]. intros k Hm.
  split; [|by apply Hk]. by destruct (Hk k Hm) as (r & b & _ & [? _] & _).
Qed.
End site.

(** * Witnesses *)

Definition demo_cfg : config := mkConfig [] (bytes_of_string "s3cret") 100 1 443 443 [bytes_of_string "star.example"] [] [112] 5.

(** POST /host with the token of the key 1 2 3 4 5. *)
Definition demo_post : Request :=
  mkRequest (bytes_of_string "star.example:443") (bytes_of_string "/host") [] 3
    (fun k => if String.eqb k headerToken then Token_String (NewToken [1; 2; 3; 4; 5] (bytes_of_string "s3cret")) else [])
    (fun _ => []) None (bytes_of_string "10.0.0.1:4000") POST (bytes_of_string "/host") 0%nat.

Definition demo_state : @state (draw * draw) bucket := mkState (NewRateLimit 100 1) [] (fun _ => 0) [] [].

(** A world with fixed texts, in which every request comes with the body and
    the connection of a registration. *)
Definition demo_outside : outside (F := unit) :=
  mkOutside (fun _ => []) id (fun _ => None) (fun _ _ _ _ => []) (fun _ _ w => WriteHeader w 307) id (fun _ => tt)
    (fun _ => ([], None)) (fun w _ => w) (fun _ => Some (Models.mkRequest (Some (demo_csr 1)) AddrPort_zero))
    (fun _ => Some (0%nat, AddrPort_zero)) (fun _ => HTTP3Writer 0).

Definition demo_handle : Handler (@state (draw * draw) bucket) := registar_handler demo_outside demo_cfg.

Lemma demo_call : (fun x => (calls x.2)) <$> (match demo_handle demo_writer demo_post demo_state with Ret x => Some x | Panic => None end)
  = Some [LRegister (mkRegister [1; 2; 3; 4; 5] (Some (Some (demo_csr 1))) AddrPort_zero (Some 0%nat) AddrPort_zero (Some 0%nat) true)].
Proof. vm_compute. reflexivity. Qed.

Lemma demo_handled : exists w' s', demo_handle demo_writer demo_post demo_state = Ret (w', s') /\
  calls s' = [LRegister (mkRegister [1; 2; 3; 4; 5] (Some (Some (demo_csr 1))) AddrPort_zero (Some 0%nat) AddrPort_zero (Some 0%nat) true)].
Proof.
  pose proof demo_call as Hc. destruct (demo_handle demo_writer demo_post demo_state) as [[w' s']|]; [|done].
  exists w', s'. split; [done|]. by injection Hc.
Qed.

Lemma registar_entry_witness :
  exists w' s' k, demo_handle demo_writer demo_post demo_state = Ret (w', s') /\ bears (bytes_of_string "s3cret") demo_post k.
Proof.
  destruct demo_handled as (w' & s' & Hh & Hc).
  pose proof (registar_entry demo_outside demo_cfg demo_writer w' demo_post demo_state s' eq_refl Hh) as Ht.
  destruct (proj1 (proj1 (proj2 Ht) _) Hc) as (rl & k & _ & _ & Hb & _).
  exists w', s', k. split; [exact Hh|exact Hb].
Defined.

Lemma keys_typed_witness :
  exists v, star (site_step demo_outside demo_cfg) (site_start demo_authority demo_state) v /\
  mentions (server v) [1; 2; 3; 4; 5] /\ Key_wf [1; 2; 3; 4; 5].
Proof.
  destruct demo_handled as (w' & s' & Hh & Hc).
  set (q := mkRegister [1; 2; 3; 4; 5] (Some (Some (demo_csr 1))) AddrPort_zero (Some 0%nat) AddrPort_zero (Some 0%nat) true) in *.
  pose (v := mkSite s' (set_tasks (set_world (NewServer demo_authority) ∅ ∅ ({[0%nat]} ∪ ∅)) [TRegister q]) ([] ++ [demo_post])).
  assert (star (site_step demo_outside demo_cfg) (site_start demo_authority demo_state) v) as Hs.
  { eapply star_step; [|apply star_refl].
    apply (site_request _ _ (site_start demo_authority demo_state) demo_writer demo_post (fun _ => 0) w' s').
    - exact Hh.
    - rewrite Hc. reflexivity. }
  assert (mentions (server v) [1; 2; 3; 4; 5]) as Hm by (apply (mentions_task _ _ (TRegister q)); by left).
  exists v. split; [exact Hs|]. split; [exact Hm|].
  exact (proj1 (proj2 (keys_typed demo_outside demo_cfg demo_authority demo_state v Hs) _ Hm)).
Defined.
