(* ===== verification/Pump.v ===== *)
(** The long-running parts of the registar server, [internal/registar/server.go]:
    [Server.relay], which copies datagrams between the two streams of a relayed
    session, and [Server.Serve] with [Server.ServeQUICConn], which accept
    connections and their streams.

    Answers of quic-go are given in the labels; goroutines of one error group
    are the parts of one state.  The group keeps the first error and cancels its
    context, which is derived from that of the server. *)
From S2P Require Import Prelude Errors.
From S2P Require Client.
Local Open Scope Z_scope.

Definition Canceled : goerror := Sentinel context_Canceled.

(** The first error stays. *)
Definition first_error (old : option goerror) (e : goerror) : option goerror :=
  match old with Some e0 => Some e0 | None => Some e end.

(** * relay *)

Abbreviation datagram := (list Z).

(** One goroutine of [relay]: in [ReceiveDatagram], in [SendDatagram], or
    returned; with what it has received and sent. *)
Inductive pc := Receiving | Sending (dg : datagram) | Returned.

Record copier := mkCopier { c_pc : pc; c_received : list datagram; c_sent : list datagram }.

(** A call of [relay], with the counter [relayBytes] of the server. *)
Record pump := mkPump {
  ab : copier;
  ba : copier;
  group_err : option goerror;
  ctx_err : option goerror;
  server_closed : bool;
  relayBytes : Z;
}.

Definition new_pump (closed : bool) (bytes : Z) : pump :=
  mkPump (mkCopier Receiving [] []) (mkCopier Receiving [] []) None
    (if closed then Some Canceled else None) closed bytes.

Inductive answer := Fails (e : goerror) | Gives (dg : datagram) | Succeeds.

(** An iteration of the loop of one goroutine, call by call: the copier, the
    error it returns with, and the bytes to count. *)
Definition copy_step (c : copier) (a : answer) : option (copier * option goerror * Z) :=
  match c_pc c, a with
  | Receiving, Fails e =>
      Some (mkCopier Returned (c_received c) (c_sent c), Some (Wrapped "read from stream" e), 0)
  | Receiving, Gives dg => Some (mkCopier (Sending dg) (c_received c ++ [dg]) (c_sent c), None, 0)
  | Sending dg, Fails e =>
      Some (mkCopier Returned (c_received c) (c_sent c), Some (Wrapped "send datagram" e), 0)
  | Sending dg, Succeeds =>
      Some (mkCopier Receiving (c_received c) (c_sent c ++ [dg]), None, Z.of_nat (length dg))
  | _, _ => None
  end.

(** Steps: a goroutine, [Server.Close], and another relay that counts. *)
Inductive pump_label := FromA (a : answer) | FromB (a : answer) | ServerCloses | OthersRelay (n : nat).

Definition returns (p : pump) (e : option goerror) : option goerror * option goerror :=
  match e with
  | None => (group_err p, ctx_err p)
  | Some e => (first_error (group_err p) e, first_error (ctx_err p) Canceled)
  end.

Definition pump_step (p : pump) (l : pump_label) : option pump :=
  match l with
  | FromA a =>
      '(c, e, n) ← copy_step (ab p) a;
      let '(ge, ce) := returns p e in
      Some (mkPump c (ba p) ge ce (server_closed p) (u64 (relayBytes p + n)))
  | FromB a =>
      '(c, e, n) ← copy_step (ba p) a;
      let '(ge, ce) := returns p e in
      Some (mkPump (ab p) c ge ce (server_closed p) (u64 (relayBytes p + n)))
  | ServerCloses =>
      Some (mkPump (ab p) (ba p) (group_err p) (first_error (ctx_err p) Canceled) true (relayBytes p))
  | OthersRelay n =>
      Some (mkPump (ab p) (ba p) (group_err p) (ctx_err p) (server_closed p) (u64 (relayBytes p + Z.of_nat n)))
  end.

Fixpoint pump_run (p : pump) (ls : list pump_label) : option pump :=
  match ls with [] => Some p | l :: ls => p' ← pump_step p l; pump_run p' ls end.

(** [eg.Wait] returns. *)
Definition is_returned (c : copier) : bool := match c_pc c with Returned => true | _ => false end.
Definition relay_returned (p : pump) : bool := is_returned (ab p) && is_returned (ba p).

(** Whether the goroutine of [Relay] reports the error of [relay]. *)
Definition relay_logged (p : pump) : bool :=
  match group_err p with
  | None => false
  | Some e => negb (Is e context_Canceled && server_closed p)
  end.

(** ** Invariant *)

Definition bytes_of (l : list datagram) : Z := Z.of_nat (sum_list_with length l).

Lemma bytes_of_app l l' : bytes_of (l ++ l') = bytes_of l + bytes_of l'.
Proof. unfold bytes_of. rewrite sum_list_with_app. lia. Qed.

(** What a goroutine has received is what it has sent, in order, and at most
    one datagram more: the one it holds, or the one it failed to send. *)
Record copier_ok (c : copier) : Prop := {
  co_order : exists rest, c_received c = c_sent c ++ rest /\
    match c_pc c with Receiving => rest = [] | Sending dg => rest = [dg] | Returned => (length rest <= 1)%nat end;
}.

Lemma copy_step_ok c a c' e n : copier_ok c -> copy_step c a = Some (c', e, n) ->
  copier_ok c' /\ bytes_of (c_sent c') = bytes_of (c_sent c) + n /\ 0 <= n /\
  (is_returned c' = true <-> is_Some e) /\ is_returned c = false.
Proof.
  intros [(rest & Hr & Hp)] Hs. unfold copy_step, is_returned in *. destruct c as [pc rc sn]. cbn in *.
  destruct pc as [|dg|], a as [e1|dg1|]; try discriminate Hs; injection Hs as <- <- <-; cbn.
  - split_and!; [|lia|lia|by split; [eexists|]|done]. constructor. exists []. subst rest. by split; [|cbn; lia].
  - split_and!; [|lia|lia|by split; [|intros [? ?]]|done]. constructor. exists [dg1]. subst rest. cbn. by rewrite Hr, app_nil_r.
  - split_and!; [|lia|lia|by split; [eexists|]|done]. constructor. exists rest. split; [done|]. subst rest. cbn. lia.
  - split_and!; [|rewrite bytes_of_app; unfold bytes_of; cbn; lia|lia|by split; [|intros [? ?]]|done].
    constructor. exists []. cbn. by rewrite Hr, Hp, app_nil_r.
Qed.

(** What the other relays of a schedule count. *)
Definition others_of (ls : list pump_label) : Z :=
  foldr (fun l n => (match l with OthersRelay m => Z.of_nat m | _ => 0 end) + n) 0 ls.

(** The counter was [b0] at the start, and [others] has been added since. *)
Record pump_ok (b0 others : Z) (p : pump) : Prop := {
  po_ab : copier_ok (ab p);
  po_ba : copier_ok (ba p);
  po_err : is_Some (group_err p) <-> is_returned (ab p) = true \/ is_returned (ba p) = true;
  po_ctx : is_Some (ctx_err p) <-> is_Some (group_err p) \/ server_closed p = true;
  po_bytes : relayBytes p = u64 (b0 + bytes_of (c_sent (ab p)) + bytes_of (c_sent (ba p)) + others);
}.

Lemma first_error_Some old e : is_Some (first_error old e).
Proof. destruct old; by eexists. Qed.

Lemma new_pump_ok closed b0 : pump_ok b0 0 (new_pump closed (u64 b0)).
Proof.
  constructor; cbn; try (by constructor; exists []).
  - split; [by intros [? ?]|naive_solver].
  - destruct closed; [split; [by right|by eexists]|]. split; [by intros [? ?]|intros [[? ?]|?]; done].
  - f_equal. unfold bytes_of. cbn. lia.
Qed.

(** A step of either goroutine: what it does to the group. *)
Lemma returns_ok p e ge ce : returns p e = (ge, ce) ->
  (is_Some (ctx_err p) <-> is_Some (group_err p) \/ server_closed p = true) ->
  (is_Some ge <-> is_Some (group_err p) \/ is_Some e) /\ (is_Some ce <-> is_Some ge \/ server_closed p = true) /\
  (is_Some (group_err p) -> ge = group_err p).
Proof.
  intros H Hc. destruct e as [e|]; injection H as <- <-.
  - assert (is_Some (Some e)) by by eexists. pose proof (first_error_Some (group_err p) e). pose proof (first_error_Some (ctx_err p) Canceled).
    split_and!; [tauto|tauto|]. unfold first_error. by intros [x ->].
  - split_and!; [|done|done]. split; [by left|intros [?|[? ?]]; done].
Qed.

Lemma pump_step_ok b0 oth p l p' : pump_ok b0 oth p -> pump_step p l = Some p' ->
  pump_ok b0 (others_of [l] + oth) p' /\ (is_Some (group_err p) -> group_err p' = group_err p).
Proof.
  intros [Ha Hb He Hc Hy] Hs. destruct l as [a|a| |n]; cbn in Hs.
  - destruct (copy_step (ab p) a) as [[[c e] n]|] eqn:Ec; [|done]. cbn in Hs.
    destruct (returns p e) as [ge ce] eqn:Er. injection Hs as <-.
    destruct (copy_step_ok _ _ _ _ _ Ha Ec) as (Hok & Hby & Hn & Hret & Hnr).
    destruct (returns_ok p e ge ce Er Hc) as (H1 & H2 & H3). split; [|done]. constructor; cbn; try done.
    + rewrite H1, He, Hret, Hnr. naive_solver.
    + rewrite Hy, Hby, u64_add_l. f_equal. unfold others_of. cbn. lia.
  - destruct (copy_step (ba p) a) as [[[c e] n]|] eqn:Ec; [|done]. cbn in Hs.
    destruct (returns p e) as [ge ce] eqn:Er. injection Hs as <-.
    destruct (copy_step_ok _ _ _ _ _ Hb Ec) as (Hok & Hby & Hn & Hret & Hnr).
    destruct (returns_ok p e ge ce Er Hc) as (H1 & H2 & H3). split; [|done]. constructor; cbn; try done.
    + rewrite H1, He, Hret, Hnr. naive_solver.
    + rewrite Hy, Hby, u64_add_l. f_equal. unfold others_of. cbn. lia.
  - injection Hs as <-. split; [|done]. constructor; cbn; try done.
    split; [by right|intros _; apply first_error_Some].
  - injection Hs as <-. split; [|done]. constructor; cbn; try done.
    rewrite Hy, u64_add_l. f_equal. unfold others_of. cbn. lia.
Qed.

Lemma pump_run_ok b0 ls : forall oth p p', pump_ok b0 oth p -> pump_run p ls = Some p' ->
  pump_ok b0 (others_of ls + oth) p' /\ (is_Some (group_err p) -> group_err p' = group_err p).
Proof.
  induction ls as [|l ls IH]; intros oth p p' Hp Hr; cbn in Hr; [by injection Hr as <-|].
  destruct (pump_step p l) as [p1|] eqn:Es; [|done]. cbn in Hr.
  destruct (pump_step_ok _ _ _ _ _ Hp Es) as [Hp1 H1]. destruct (IH _ _ _ Hp1 Hr) as [Hp' H2]. split.
  - replace (others_of (l :: ls) + oth) with (others_of ls + (others_of [l] + oth)) by (unfold others_of; cbn; lia). done.
  - intros Hs. rewrite H2, H1; [done..|]. by rewrite H1.
Qed.

(** The steps a goroutine needs to return once its context is done. *)
Definition wind_up (c : copier) : list answer :=
  match c_pc c with
  | Receiving => [Fails Canceled]
  | Sending _ => [Succeeds; Fails Canceled]
  | Returned => []
  end.

Lemma wind_up_ab p : exists p', pump_run p (FromA <$> wind_up (ab p)) = Some p' /\ is_returned (ab p') = true /\ ba p' = ba p.
Proof.
  unfold wind_up, is_returned. destruct p as [[pc rc sn] b ge ce cl n]. cbn.
  destruct pc as [|dg|]; cbn; eexists; (split; [reflexivity|done]).
Qed.

Lemma wind_up_ba p : exists p', pump_run p (FromB <$> wind_up (ba p)) = Some p' /\ is_returned (ba p') = true /\ ab p' = ab p.
Proof.
  unfold wind_up, is_returned. destruct p as [a [pc rc sn] ge ce cl n]. cbn.
  destruct pc as [|dg|]; cbn; eexists; (split; [reflexivity|done]).
Qed.

(** * Serve and ServeQUICConn *)

Definition errCodeAcceptStream : Z := 11259375.  (* 0xabcdef *)
Definition ErrServerClosed : goerror := Sentinel "http.ErrServerClosed".

(** [isRemoteClientClosed] *)
Definition isRemoteClientClosed (err : goerror) : bool :=
  match As as_ApplicationError err with
  | Some (remote, code) => (code =? Client.errCodeClientClosed) && remote
  | None => false
  end.

(** The loop of [Serve] over the results of [ln.Accept], each with whether
    [s.ctx] is done: the connections served, and the error it returns. *)
Fixpoint Serve_loop (accepts : list (result goerror nat * bool)) : list nat * option goerror :=
  match accepts with
  | [] => ([], None)
  | (Ok qconn, _) :: accepts => let '(conns, r) := Serve_loop accepts in (qconn :: conns, r)
  | (Err err, closed) :: _ => ([], Some (if closed : bool then ErrServerClosed else err))
  end.

(** A call of [ServeQUICConn]: its two accepting goroutines, the goroutines that
    handle streams, the streams handled, the first error of the group, and the
    code the connection has been closed with. *)
Record serving := mkServing {
  str_ended : option goerror;
  uni_ended : option goerror;
  handlers : list nat;
  handled : list nat;
  serve_err : option goerror;
  closed_with : option Z;
}.

Definition new_serving : serving := mkServing None None [] [] None None.

(** Steps: an answer of [AcceptStream] or [AcceptUniStream], a handler that
    returns, and the return of [eg.Wait] with the close that follows. *)
Inductive serving_label :=
| AcceptStream (r : result goerror nat)
| AcceptUniStream (r : result goerror nat)
| HandlerReturns (i : nat)
| WaitReturns.

(** The error an accepting goroutine returns. *)
Definition accept_error (old : option goerror) (msg : string) (err : goerror) : option goerror :=
  if isRemoteClientClosed err then old else first_error old (Wrapped msg err).

Definition is_none {A} (o : option A) : bool := match o with None => true | Some _ => false end.

Definition serving_step (s : serving) (l : serving_label) : option serving :=
  match l with
  | AcceptStream r =>
      match str_ended s, r with
      | Some _, _ => None
      | None, Ok str => Some (mkServing None (uni_ended s) (handlers s ++ [str]) (handled s) (serve_err s) (closed_with s))
      | None, Err err =>
          Some (mkServing (Some err) (uni_ended s) (handlers s) (handled s)
                  (accept_error (serve_err s) "accept stream" err) (closed_with s))
      end
  | AcceptUniStream r =>
      match uni_ended s, r with
      | Some _, _ => None
      | None, Ok str => Some (mkServing (str_ended s) None (handlers s ++ [str]) (handled s) (serve_err s) (closed_with s))
      | None, Err err =>
          Some (mkServing (str_ended s) (Some err) (handlers s) (handled s)
                  (accept_error (serve_err s) "accept unidirectional stream" err) (closed_with s))
      end
  | HandlerReturns i =>
      str ← handlers s !! i;
      Some (mkServing (str_ended s) (uni_ended s) (delete i (handlers s)) (handled s ++ [str]) (serve_err s) (closed_with s))
  | WaitReturns =>
      if is_none (str_ended s) || is_none (uni_ended s) || negb (bool_decide (handlers s = [])) ||
         negb (is_none (closed_with s)) then None
      else Some (mkServing (str_ended s) (uni_ended s) [] (handled s) (serve_err s)
                   (Some (match serve_err s with None => 0 | Some _ => errCodeAcceptStream end)))
  end.

Fixpoint serving_run (s : serving) (ls : list serving_label) : option serving :=
  match ls with [] => Some s | l :: ls => s' ← serving_step s l; serving_run s' ls end.

(** The streams accepted by a schedule. *)
Definition accepted (ls : list serving_label) : list nat :=
  omap (fun l => match l with AcceptStream (Ok s) | AcceptUniStream (Ok s) => Some s | _ => None end) ls.

(** A loop that has ended by a close of the client. *)
Definition ended_by_client (e : option goerror) : bool :=
  match e with Some err => isRemoteClientClosed err | None => true end.

Record serving_ok (acc : list nat) (s : serving) : Prop := {
  so_handled : acc ≡ₚ handlers s ++ handled s;
  so_err : serve_err s = None <-> ended_by_client (str_ended s) && ended_by_client (uni_ended s) = true;
  so_closed : forall code, closed_with s = Some code ->
    handlers s = [] /\ is_Some (str_ended s) /\ is_Some (uni_ended s) /\ (code = 0 <-> serve_err s = None);
}.

Lemma accept_error_None old msg err : accept_error old msg err = None <-> old = None /\ isRemoteClientClosed err = true.
Proof.
  unfold accept_error. destruct (isRemoteClientClosed err); [naive_solver|].
  split; [|naive_solver]. destruct old; done.
Qed.

Lemma serving_step_ok acc s l s' : serving_ok acc s -> serving_step s l = Some s' -> serving_ok (acc ++ accepted [l]) s'.
Proof.
  intros [Ha He Hc] Hs. destruct l as [[str|err]|[str|err]|i|]; cbn [serving_step accepted omap list_omap] in *.
  - destruct (str_ended s) eqn:E; [done|]. injection Hs as <-. constructor; cbn; [|by rewrite He|].
    + rewrite Ha. solve_Permutation.
    + intros code Hco. by destruct (Hc code Hco) as (_ & [? ?] & _).
  - destruct (str_ended s) eqn:E; [done|]. injection Hs as <-. rewrite app_nil_r. constructor; cbn; [done| |].
    + rewrite accept_error_None, He. cbn. destruct (isRemoteClientClosed err), (ended_by_client (uni_ended s)); naive_solver.
    + intros code Hco. by destruct (Hc code Hco) as (_ & [? ?] & _).
  - destruct (uni_ended s) eqn:E; [done|]. injection Hs as <-. constructor; cbn; [|by rewrite He|].
    + rewrite Ha. solve_Permutation.
    + intros code Hco. by destruct (Hc code Hco) as (_ & _ & [? ?] & _).
  - destruct (uni_ended s) eqn:E; [done|]. injection Hs as <-. rewrite app_nil_r. constructor; cbn; [done| |].
    + rewrite accept_error_None, He. cbn. destruct (isRemoteClientClosed err), (ended_by_client (str_ended s)); naive_solver.
    + intros code Hco. by destruct (Hc code Hco) as (_ & _ & [? ?] & _).
  - destruct (handlers s !! i) as [str|] eqn:E; [|done]. injection Hs as <-. rewrite app_nil_r. constructor; cbn; [|done|].
    + rewrite Ha. rewrite (delete_Permutation _ _ _ E) at 1. solve_Permutation.
    + intros code Hco. destruct (Hc code Hco) as (Hh & Hrest). by rewrite Hh in E.
  - destruct (str_ended s) as [e1|] eqn:E1, (uni_ended s) as [e2|] eqn:E2; cbn in Hs; try discriminate Hs.
    case_bool_decide as Hh; cbn in Hs; [|done]. destruct (closed_with s); [done|]. injection Hs as <-.
    rewrite app_nil_r. rewrite Hh in Ha. constructor; cbn; [done|done|]. intros code [= <-].
    split_and!; [done|by eexists|by eexists|]. by destruct (serve_err s).
Qed.

Lemma serving_run_ok ls : forall acc s s', serving_ok acc s -> serving_run s ls = Some s' -> serving_ok (acc ++ accepted ls) s'.
Proof.
  induction ls as [|l ls IH]; intros acc s s' Hs Hr; cbn [serving_run] in Hr.
  - injection Hr as <-. by rewrite app_nil_r.
  - destruct (serving_step s l) as [s1|] eqn:E; [|done]. cbn in Hr.
    pose proof (IH _ _ _ (serving_step_ok _ _ _ _ Hs E) Hr) as H. unfold accepted in *.
    change (l :: ls) with ([l] ++ ls). by rewrite omap_app, (assoc_L (++)).
Qed.

Lemma Serve_loop_spec accepts conns r : Serve_loop accepts = (conns, r) ->
  exists pre post, accepts = pre ++ post /\ pre.*1 = Ok <$> conns /\
    match r with
    | None => post = []
    | Some e => exists err closed rest, post = (Err err, closed) :: rest /\ e = if closed : bool then ErrServerClosed else err
    end.
Proof.
  revert conns r. induction accepts as [|[[c|err] closed] accepts IH]; intros conns r Hs; cbn in Hs.
  - injection Hs as <- <-. by exists [], [].
  - destruct (Serve_loop accepts) as [cs r'] eqn:E. injection Hs as <- <-.
    destruct (IH _ _ eq_refl) as (pre & post & -> & Hpre & Hpost). exists ((Ok c, closed) :: pre), post.
    split; [done|]. split; [cbn; by rewrite Hpre|done].
  - injection Hs as <- <-. exists [], ((Err err, closed) :: accepts). split; [done|]. split; [done|]. by exists err, closed, accepts.
Qed.

(** * Correctness *)

Lemma pump_run_app ls ls' p p' : pump_run p ls = Some p' -> pump_run p (ls ++ ls') = pump_run p' ls'.
Proof.
  revert p. induction ls as [|l ls IH]; intros p Hr; cbn in *; [by injection Hr as ->|].
  destruct (pump_step p l) as [p1|]; [|done]. by apply IH.
Qed.

Lemma wind_up_length c : (length (wind_up c) <= 2)%nat.
Proof. unfold wind_up. destruct (c_pc c); cbn; lia. Qed.

(** C11. The pump of a relayed session, under every schedule of its goroutines,
    the server and other relays.  In each direction what has been sent is what
    was received, in order, but for at most one datagram in hand or lost with
    an error; the counter of the server has grown by exactly the bytes sent and
    those of the other relays, modulo 2^64.  The group's first error is the one
    [relay] returns, and it is kept silent only when it is a cancellation and
    the server is closing.  Once the group's context is done, four steps that
    need nothing from the network but the cancelled receives end both
    goroutines. *)
Theorem relay_pump (b0 : Z) (closed : bool) (ls : list pump_label) (p : pump)
    (Hr : pump_run (new_pump closed (u64 b0)) ls = Some p) :
  (forall c, c = ab p \/ c = ba p -> exists rest, c_received c = c_sent c ++ rest /\ (length rest <= 1)%nat) /\
  relayBytes p = u64 (b0 + bytes_of (c_sent (ab p)) + bytes_of (c_sent (ba p)) + others_of ls) /\
  (relay_returned p = true -> exists e, group_err p = Some e /\
     (relay_logged p = false <-> Is e context_Canceled = true /\ server_closed p = true) /\
     forall ls' p', pump_run p ls' = Some p' -> group_err p' = Some e) /\
  (is_Some (ctx_err p) <-> is_returned (ab p) = true \/ is_returned (ba p) = true \/ server_closed p = true) /\
  (is_Some (ctx_err p) -> exists ls' p', pump_run p ls' = Some p' /\ (length ls' <= 4)%nat /\
     Forall (fun l => match l with FromA (Fails e) | FromB (Fails e) => e = Canceled | FromA Succeeds | FromB Succeeds => True
                      | _ => False end) ls' /\ relay_returned p' = true).
Proof.
  destruct (pump_run_ok b0 ls 0 _ _ (new_pump_ok closed b0) Hr) as [[Ha Hb He Hc Hy] _]. rewrite Z.add_0_r in Hy. split_and!.
  - assert (forall c, copier_ok c -> exists rest, c_received c = c_sent c ++ rest /\ (length rest <= 1)%nat) as Hc1.
    { intros c [(rest & E & Hp)]. exists rest. split; [done|]. destruct (c_pc c); [subst rest; cbn; lia..|done]. }
    intros c [-> | ->]; by apply Hc1.
  - done.
  - intros [Hra Hrb]%andb_true_iff. destruct (proj2 He (or_introl Hra)) as [e Ee]. exists e. split; [done|]. split.
    + unfold relay_logged. rewrite Ee. destruct (Is e context_Canceled), (server_closed p); cbn; naive_solver.
    + intros ls' p' Hr'. destruct (pump_run_ok b0 ls' (others_of ls) p p') as [_ H]; [by constructor; rewrite ?Z.add_0_r|done|].
      rewrite H; by rewrite Ee.
  - rewrite Hc, He. tauto.
  - intros _. destruct (wind_up_ab p) as (p1 & E1 & H1 & Hba). destruct (wind_up_ba p1) as (p2 & E2 & H2 & Hab).
    exists ((FromA <$> wind_up (ab p)) ++ (FromB <$> wind_up (ba p1))), p2. split_and!.
    + by rewrite (pump_run_app _ _ _ _ E1).
    + rewrite length_app, !length_fmap. pose proof (wind_up_length (ab p)). pose proof (wind_up_length (ba p1)). lia.
    + apply Forall_app. unfold wind_up. split; destruct (c_pc _); cbn; repeat constructor.
    + unfold relay_returned. by rewrite Hab, H1, H2.
Qed.

(** C12. Connections and their streams.  [Serve] serves the connections accepted
    before the first error, in order, and returns that error, or that the server
    is closed.  [ServeQUICConn] hands every stream it has accepted to one
    handler; it closes the connection once, after both accepting goroutines have
    returned and every handler has: with 0 when both ended because the client
    closed with its own code, with the other code otherwise, a server that
    closes included.  A handler that does not return keeps the connection open,
    whatever else happens. *)
Theorem connections_served (accepts : list (result goerror nat * bool)) (ls : list serving_label) (s : serving)
    (Hr : serving_run new_serving ls = Some s) :
  (forall conns r, Serve_loop accepts = (conns, r) -> exists pre post, accepts = pre ++ post /\ pre.*1 = Ok <$> conns /\
    match r with
    | None => post = []
    | Some e => exists err closed rest, post = (Err err, closed) :: rest /\ e = if closed : bool then ErrServerClosed else err
    end) /\
  accepted ls ≡ₚ handlers s ++ handled s /\
  (forall code, closed_with s = Some code -> accepted ls ≡ₚ handled s /\
     exists e1 e2, str_ended s = Some e1 /\ uni_ended s = Some e2 /\
       (code = 0 <-> isRemoteClientClosed e1 = true /\ isRemoteClientClosed e2 = true)) /\
  (handlers s <> [] -> closed_with s = None /\ serving_step s WaitReturns = None) /\
  isRemoteClientClosed (Wrapped "accept" Canceled) = false.
Proof.
  assert (serving_ok [] new_serving) as H0 by by constructor.
  destruct (serving_run_ok ls _ _ _ H0 Hr) as [Ha He Hc]. cbn [app] in Ha. split_and!; [apply Serve_loop_spec|done| | |done].
  - intros code Hco. destruct (Hc code Hco) as (Hh & [e1 E1] & [e2 E2] & H). rewrite Hh in Ha. split; [done|].
    exists e1, e2. rewrite H, He, E1, E2. cbn. by rewrite andb_true_iff.
  - intros Hh. split.
    + destruct (closed_with s) as [code|] eqn:E; [|done]. by destruct (Hc code eq_refl) as (? & _).
    + unfold serving_step. rewrite (bool_decide_false _ Hh). by destruct (str_ended s), (uni_ended s).
Qed.

(** * Witnesses *)

Definition demo_relay : list pump_label :=
  [FromA (Gives [1; 2; 3]); FromB (Gives [4]); FromA Succeeds; OthersRelay 10; FromB (Fails (OtherError "gone"))].

Lemma relay_pump_witness :
  exists p ls' p', pump_run (new_pump false (u64 5)) demo_relay = Some p /\ relayBytes p = 18 /\
    pump_run p ls' = Some p' /\ relay_returned p' = true.
Proof.
  destruct (pump_run (new_pump false (u64 5)) demo_relay) as [p|] eqn:E; [|discriminate E].
  pose proof (relay_pump 5 false demo_relay p E) as (_ & Hb & _ & _ & Hend).
  injection E as <-. destruct (Hend (ex_intro _ _ eq_refl)) as (ls' & p' & Hr & _ & _ & Hret).
  eexists _, ls', p'. split; [reflexivity|]. split; [exact Hb|]. split; [exact Hr|exact Hret].
Defined.

Definition demo_conn : list serving_label :=
  [AcceptUniStream (Ok 2%nat); AcceptStream (Ok 0%nat); HandlerReturns 1;
   AcceptStream (Err (ApplicationError true 4099)); AcceptUniStream (Err (ApplicationError true 4099)); HandlerReturns 0; WaitReturns].

Lemma connections_served_witness :
  exists s, serving_run new_serving demo_conn = Some s /\ closed_with s = Some 0 /\ accepted demo_conn ≡ₚ handled s.
Proof.
  destruct (serving_run new_serving demo_conn) as [s|] eqn:E; [|discriminate E].
  pose proof (connections_served [] demo_conn s E) as (_ & _ & Hc & _).
  exists s. split; [reflexivity|]. injection E as <-. split; [reflexivity|]. exact (proj1 (Hc 0 eq_refl)).
Defined.
