(* ===== verification/Main.v ===== *)
(** The command [cmd/registar]: the handlers of its three servers.

    The HTTP/3 server serves the registar and the pages, the HTTPS server the
    pages only and says where HTTP/3 is, the HTTP server redirects; with a
    certificate manager it also answers the challenges of ACME, which is a
    parameter.  The life of the process is in [Process]. *)
From S2P Require Import Prelude Netip Http Mux RateLimit Config Pages Router.
From S2P Require Admin.
Local Open Scope Z_scope.

(** * The password of a parsed configuration *)

Lemma parseConfig_admin cfg env : parseConfig env = Some cfg -> AdminSecret cfg <> [].
Proof.
  unfold parseConfig. destruct env as [c|]; [|done]. cbn [mbind option_bind]. case_decide as Hd; [done|].
  intros [= <-]. cbn [AdminSecret]. destruct (decide (TrimSpace (AdminSecretFromFile c) <> [])); tauto.
Qed.

Lemma authorised_password cfg r env : parseConfig env = Some cfg ->
  (authorised (AdminSecret cfg) r <-> snd <$> BasicAuth r = Some (AdminSecret cfg)) /\
  forall user, bytes_ok (user ++ colon :: AdminSecret cfg) -> colon ∉ user ->
    Header r "Authorization" = bytes_of_string "Basic " ++ std_EncodeToString (user ++ colon :: AdminSecret cfg) ->
    authorised (AdminSecret cfg) r.
Proof.
  intros Hc. assert (authorised (AdminSecret cfg) r <-> snd <$> BasicAuth r = Some (AdminSecret cfg)) as Ha.
  { unfold authorised. rewrite Admin.basicAuth_Served. apply parseConfig_admin in Hc. naive_solver. }
  split; [done|]. intros user Hb Hu Hh. apply Ha. by rewrite (BasicAuth_sent r user (AdminSecret cfg)).
Qed.

(** * The servers *)

Inductive server := HTTP3 | HTTPS.

Section servers.
Context {D L R F : Type} `{TokenBucket L R}.
Local Abbreviation state := (@state D L).
Variable x : outside (F := F).
Variable cfg : config.

(** The multiplexer and the handler of the advertising server. *)
Definition advertise_routes : routes (A := Handler state) := with_pages x cfg [].
Definition advertise_handler : Handler state :=
  Wrap (ServeMux (redirect x) advertise_routes) [
    Some (limit_requests x);
    Some (AdvertiseHTTP3 (AdvertiseHTTP3Port cfg));
    Some log_requests;
    Some (AllowHosts (Domains cfg))].

(** The handler of the redirecting server; [mgr] is what [HTTPHandler] of the
    certificate manager does to a handler, if there is a manager. *)
Definition redirect_handler (mgr : option (Middleware state)) : Handler state :=
  let redirectHandler := Wrap (RedirectHTTPS (url_String x) (RedirectPort cfg)) [
    Some log_requests;
    Some (AllowHosts (Domains cfg))] in
  match mgr with Some HTTPHandler => HTTPHandler redirectHandler | None => redirectHandler end.

(** [HTTPHandler] of [autocert], as it is documented: it answers the paths of
    the challenge, in its own way, and leaves the others to the handler. *)
Definition challenge : str := bytes_of_string "/.well-known/acme-challenge/".
Definition acme_manager (answers : Handler state) : Middleware state := fun next w r =>
  if has_prefix (Path r) challenge then answers w r else next w r.

Definition server_routes (v : server) : routes (A := Handler state) :=
  match v with HTTP3 => registar_routes x cfg | HTTPS => advertise_routes end.
Definition server_handler (v : server) : Handler state :=
  match v with HTTP3 => registar_handler x cfg | HTTPS => advertise_handler end.

(** A request that gets to the multiplexer of a server. *)
Definition passes (v : server) (r : Request) (s : state) : Prop :=
  (exists rl, serve (clock s) (limits s) (RequestIP (parse_addr x) r) = Ret (Admit, rl)) /\
  (v = HTTPS -> (ProtoMajor r < 3)%nat) /\ host_part (Host r) ∈ Domains cfg.

(** What the handler of a server comes to. *)
Lemma server_cases v w r s w' s' : server_handler v w r s = Ret (w', s') ->
  (pages s' = pages s /\ (v = HTTPS -> calls s' = calls s) /\ ~ passes v r s) \/
  (passes v r s /\ exists w1 rl w2 s2,
     w_status w1 = w_status w /\ (v = HTTPS -> w_header w1 !! "Alt-Svc"%string <> None) /\
     ServeMux (redirect x) (server_routes v) w1 r (mkState rl (rlog s) (clock s) (calls s) (pages s)) = Ret (w2, s2) /\
     w' = w2 /\ pages s' = pages s2 /\ calls s' = calls s2).
Proof.
  intros Hh. destruct v; cbn [server_handler server_routes] in *.
  - unfold registar_handler in Hh. rewrite !wrap_cons in Hh. change (Wrap ?h []) with h in Hh.
    unfold limit_requests, RateLimit_handler in Hh.
    destruct (serve _ _ _) as [[[|d] rl]|] eqn:Es; cbn [mbind outcome_bind] in Hh; [| |done].
    2: { injection Hh as <- <-. left. split; [done|]. split; [done|]. intros [[rl' E] _]. by rewrite Es in E. }
    unfold log_requests, LogRequests, AllowHosts in Hh. case_decide as Hd; cbn [answer mbind outcome_bind] in Hh.
    2: { injection Hh as <- <-. left. split; [done|]. split; [done|]. by intros (_ & _ & ?). }
    destruct (ServeMux _ _ _ _ _) as [[rw s2]|] eqn:E; [|done]. cbn [mbind outcome_bind] in Hh. injection Hh as <- <-.
    right. split; [split; [by exists rl|done]|]. exists (newResponseWriterWithStatus w), rl, rw, s2. done.
  - unfold advertise_handler in Hh. rewrite !wrap_cons in Hh. change (Wrap ?h []) with h in Hh.
    unfold limit_requests, RateLimit_handler in Hh.
    destruct (serve _ _ _) as [[[|d] rl]|] eqn:Es; cbn [mbind outcome_bind] in Hh; [| |done].
    2: { injection Hh as <- <-. left. split; [done|]. split; [done|]. intros [[rl' E] _]. by rewrite Es in E. }
    unfold AdvertiseHTTP3 in Hh. destruct (ProtoMajor r <? 3)%nat eqn:Ep.
    2: { injection Hh as <- <-. left. split; [done|]. split; [done|]. intros (_ & Hp & _). apply Nat.ltb_ge in Ep.
         specialize (Hp eq_refl). lia. }
    apply Nat.ltb_lt in Ep. unfold log_requests, LogRequests, AllowHosts in Hh. case_decide as Hd; cbn [answer mbind outcome_bind] in Hh.
    2: { injection Hh as <- <-. left. split; [done|]. split; [done|]. by intros (_ & _ & ?). }
    destruct (ServeMux _ _ _ _ _) as [[rw s2]|] eqn:E; [|done]. cbn [mbind outcome_bind] in Hh. injection Hh as <- <-.
    right. split; [split; [by exists rl|done]|]. eexists _, rl, rw, s2. split; [|split; [|split; [exact E|done]]]; [done|].
    intros _. cbn [newResponseWriterWithStatus w_header header_Set]. by rewrite lookup_insert_eq.
Qed.

(** The routes of a server, before its pages. *)
Definition own_routes (v : server) : routes (A := Handler state) :=
  match v with HTTP3 => NewRouter x (cSecret cfg) | HTTPS => [] end.

Lemma server_routes_app v : server_routes v = own_routes v ++ with_pages x cfg [].
Proof. destruct v; [apply registar_routes_app|done]. Qed.

Lemma own_routes_post v : Forall (fun y => p_method y.1 = POST) (own_routes v).
Proof. destruct v; [apply NewRouter_post|constructor]. Qed.

(** What the multiplexer of a server does to the calls of the admin page. *)
Lemma mux_pages v w r s w' s' : ServeMux (redirect x) (server_routes v) w r s = Ret (w', s') ->
  (pages s' = pages s /\ (v = HTTPS -> calls s' = calls s)) \/
  exists p, admin_path r = Some p /\ authorised (AdminSecret cfg) r /\ s' = call_admin p (ID r) s.
Proof.
  destruct v; intros Hh; cbn [server_routes] in Hh.
  - apply registar_mux_cases in Hh as [[_ [->|(p & Hp)]]|[(_ & -> & _)|(k & l & _ & _ & [= _ <-])]]; [by left|right; by exists p|by left|by left].
  - unfold ServeMux in Hh. case_decide; [injection Hh as _ <-; by left|].
    destruct (findHandler advertise_routes r) as [p h vals| | |] eqn:E; try (injection Hh as _ <-; by left).
    pose proof E as E'. apply findHandler_sound in E' as (Hin & _).
    eapply (pages_exact _ _ _ call_admin _ _ []) in Hh as [->|Hp]; [by left|by right|exact E|exact Hin].
Qed.

(** A page a request is for is reached through the password check. *)
Lemma mux_admin v r p : admin_path r = Some p ->
  exists r1, Header r1 = Header r /\ ID r1 = ID r /\ forall w, exists h : Handler state,
    ServeMux (redirect x) (server_routes v) w r = Gzip (gzip x) h w r1 /\
    (forall w, h w r1 = basicAuth (AdminSecret cfg) (admin_handler call_admin p) w r1).
Proof.
  intros Hp. rewrite server_routes_app.
  destruct (admin_served (redirect x) (gzip x) (per_second x) call_admin (landing_template x) (FileServer x) (own_routes v)
    (AdminSecret cfg) (RateLimitEvery cfg) (Config.RateLimitBurst cfg) (own_routes_post v) r p Hp) as (r1 & H1 & H2 & H3 & H4).
  exists r1. split; [done|]. split; [done|]. intros w. eexists. split; [apply H3|done].
Qed.

(** With the password of the page it is called, without it the answer is a
    401. *)
Lemma mux_admin_result v r p w s w' s' : admin_path r = Some p -> w_status w = None ->
  ServeMux (redirect x) (server_routes v) w r s = Ret (w', s') ->
  (authorised (AdminSecret cfg) r -> s' = call_admin p (ID r) s) /\
  (~ authorised (AdminSecret cfg) r -> s' = s /\ w_status w' = Some 401).
Proof.
  intros Hp Hw Hh. destruct (mux_admin v r p Hp) as (r1 & H1 & H2 & H3). destruct (H3 w) as (h & E & Hb).
  rewrite E in Hh. clear E H3. unfold Gzip in Hh.
  assert (authorised (AdminSecret cfg) r1 <-> authorised (AdminSecret cfg) r) as Ha by (unfold authorised, BasicAuth; by rewrite H1).
  assert (forall w0 w0', w_status w0 = None -> h w0 r1 s = Ret (w0', s') ->
    (authorised (AdminSecret cfg) r -> s' = call_admin p (ID r) s) /\
    (~ authorised (AdminSecret cfg) r -> s' = s /\ w_status w0' = Some 401)) as Hr.
  { intros w0 w0' Hw0. rewrite Hb, <- !Ha, <- H2. unfold basicAuth, admin_handler, authorised.
    destruct (Admin.basicAuth _ _); [|by intros [= _ <-]].
    intros [= <- <-]. split; [done|]. intros _. split; [done|]. cbn. by rewrite Hw0. }
  destruct (negb _); [by eapply Hr|]. case_decide; [|by eapply Hr].
  destruct (h _ r1 s) as [[grw s1]|] eqn:E; [|done]. cbn [mbind outcome_bind] in Hh. injection Hh as <- <-.
  apply Hr in E as [E1 E2]; [|done]. split; [done|]. intros [-> Hs]%E2. split; [done|]. cbn. by rewrite Hs.
Qed.

Lemma health_found v r : Method r = GET -> EscapedPath r = bytes_of_string "/-/health" ->
  findHandler (server_routes v) r = Serve healthPattern healthHandler [].
Proof.
  intros Hm Hp. rewrite server_routes_app. unfold findHandler. rewrite Hm, Hp. rewrite decide_False by done.
  assert (cleanPath (bytes_of_string "/-/health") = bytes_of_string "/-/health") as -> by by vm_compute.
  unfold matchMethodAndPath, match_at. unfold tree. rewrite omap_app. fold (tree GET (own_routes v)).
  rewrite (tree_post (own_routes v) (own_routes_post v)) by done. reflexivity.
Qed.

(** C9. On both servers a handler of the admin page runs at most once for a
    request, and exactly for the requests that pass the limiter, the host check
    and, over TCP, are not of HTTP/3, that are a GET or HEAD for a clean path
    below /-/admin/, and whose basic authentication carries the admin secret;
    the page is the one of the path.  Without the secret the answer is a 401.
    With the secret of a parsed configuration this means the very password, and
    the header a client sends for it is accepted with any user name.  The HTTPS
    server never calls the registar; the health check is always answered. *)
Theorem pages_served (v : server) (w w' : ResponseWriter) (r : Request) (s s' : state)
    (Hw : w_status w = None) (Hh : server_handler v w r s = Ret (w', s')) :
  (pages s' = pages s \/ exists p, pages s' = pages s ++ [(p, ID r)]) /\
  (forall p, pages s' = pages s ++ [(p, ID r)] <->
     passes v r s /\ admin_path r = Some p /\ authorised (AdminSecret cfg) r) /\
  (forall p, passes v r s -> admin_path r = Some p -> ~ authorised (AdminSecret cfg) r -> w_status w' = Some 401) /\
  (forall env, parseConfig env = Some cfg ->
     (authorised (AdminSecret cfg) r <-> snd <$> BasicAuth r = Some (AdminSecret cfg)) /\
     forall user, bytes_ok (user ++ colon :: AdminSecret cfg) -> colon ∉ user ->
       Header r "Authorization" = bytes_of_string "Basic " ++ std_EncodeToString (user ++ colon :: AdminSecret cfg) ->
       authorised (AdminSecret cfg) r) /\
  (v = HTTPS -> calls s' = calls s) /\
  (passes v r s -> Method r = GET -> EscapedPath r = bytes_of_string "/-/health" ->
     w_status w' = Some 200 /\ w_header w' !! "Cache-Control"%string = Some [bytes_of_string "no-store"]).
Proof.
  assert (forall p, pages s ++ [(p, ID r)] <> pages s) as Hne.
  { intros p E. apply (f_equal length) in E. rewrite length_app in E. cbn in E. lia. }
  assert (forall env, parseConfig env = Some cfg -> AdminSecret cfg <> []) as Hsec by apply parseConfig_admin.
  apply server_cases in Hh as [(Hpg & Hc & Hnp)|(Hps & w1 & rl & w2 & s2 & Hw1 & _ & Hm & -> & Ep & Ec)].
  - split_and!; try done; [by left| |].
    + intros p. rewrite Hpg. split; [intros E; by destruct (Hne p)|by intros (? & _)].
    + by apply authorised_password.
  - pose proof (mux_pages _ _ _ _ _ _ Hm) as Hx. rewrite Ep. split_and!.
    + destruct Hx as [[-> _]|(p & _ & _ & ->)]; [by left|right; by exists p].
    + intros p. split.
      * destruct Hx as [[-> _]|(p' & Hp & Ha & ->)]; cbn [pages call_admin]; [intros E; by destruct (Hne p)|].
        intros [= <-]%app_inv_head. done.
      * intros (_ & Hp & Ha). destruct (mux_admin_result _ _ _ _ _ _ _ Hp ltac:(by rewrite Hw1) Hm) as [E _]. by rewrite (E Ha).
    + intros p _ Hp Ha. destruct (mux_admin_result _ _ _ _ _ _ _ Hp ltac:(by rewrite Hw1) Hm) as [_ E]. by apply E.
    + by apply authorised_password.
    + intros Hv. rewrite Ec. destruct Hx as [[_ E]|(p' & _ & _ & ->)]; [by apply E|done].
    + intros _ HG Hhp. unfold ServeMux in Hm. rewrite decide_False in Hm by (by rewrite Hhp). rewrite health_found in Hm by done.
      injection Hm as <- _. cbn [foldl WriteHeader set_status header_Set w_status w_header].
      rewrite lookup_insert_ne, lookup_insert_eq by done. by rewrite Hw1, Hw.
Qed.
(** ** What the TCP servers answer *)

(** A handler that leaves the advertisement in the header. *)
Definition alt_svc (w : ResponseWriter) : option (list str) := w_header w !! "Alt-Svc"%string.
Definition keeps {S} (h : Handler S) : Prop := forall w r s w' s', h w r s = Ret (w', s') -> alt_svc w' = alt_svc w.

Lemma http_Error_keeps w msg code : alt_svc (http_Error w msg code) = alt_svc w.
Proof. unfold alt_svc. cbn. rewrite !lookup_insert_ne, lookup_delete_ne by done. done. Qed.

Section keeps.
Context {S : Type}.
Variable rd : str -> str -> ResponseWriter -> ResponseWriter.
Hypothesis Hrd : forall p q w, alt_svc (rd p q w) = alt_svc w.

Lemma keeps_ServeMux (rs : routes (A := Handler S)) : Forall (fun y => keeps y.2) rs -> keeps (ServeMux rd rs).
Proof.
  intros Hrs w r s w' s'. unfold ServeMux. case_decide; [intros [= <- _]; destruct (_ <? _)%nat; [done|]; unfold alt_svc; cbn; by rewrite lookup_insert_ne|].
  destruct (findHandler rs r) as [p h vals|path|ms|] eqn:E.
  - apply findHandler_sound in E as [E _]. rewrite Forall_forall in Hrs. apply (Hrs _ E).
  - by intros [= <- _].
  - intros [= <- _]. unfold MethodNotAllowed. rewrite http_Error_keeps. unfold alt_svc. cbn. by rewrite lookup_insert_ne.
  - intros [= <- _]. apply http_Error_keeps.
Qed.

Lemma keeps_StripPrefix prefix (h : Handler S) : keeps h -> keeps (StripPrefix prefix h).
Proof.
  intros Hk w r s w' s'. unfold StripPrefix. destruct (_ && _); [apply Hk|]. intros [= <- _]. apply http_Error_keeps.
Qed.

Lemma keeps_Gzip gz (h : Handler S) : keeps h -> keeps (Gzip gz h).
Proof.
  intros Hk w r s w' s'. unfold Gzip. destruct (negb _); [apply Hk|]. case_decide; [|apply Hk].
  destruct (h _ r s) as [[grw s1]|] eqn:E; [|done]. cbn [mbind outcome_bind]. intros [= <- _]. apply Hk in E.
  unfold alt_svc in *. cbn in *. rewrite E. rewrite lookup_delete_ne, !lookup_insert_ne by done. done.
Qed.

Lemma keeps_CacheStaticFiles (h : Handler S) : keeps h -> keeps (CacheStaticFiles h).
Proof.
  intros Hk w r s w' s'. unfold CacheStaticFiles. case_decide; [|apply Hk]. intros E%Hk. rewrite E.
  unfold alt_svc. cbn. by rewrite lookup_insert_ne.
Qed.

Lemma keeps_basicAuth secret (h : Handler S) : keeps h -> keeps (basicAuth secret h).
Proof.
  intros Hk w r s w' s'. unfold basicAuth. destruct (Admin.basicAuth _ _); [|apply Hk]. intros [= <- _].
  rewrite http_Error_keeps. unfold alt_svc. cbn. by rewrite lookup_insert_ne.
Qed.
End keeps.

Section advertised.
(** The redirects of the multiplexer and the file server set other headers. *)
Hypothesis Hrd : forall p q w, alt_svc (redirect x p q w) = alt_svc w.
Hypothesis Hfs : forall w r, alt_svc (FileServer x w r) = alt_svc w.

Lemma advertise_keeps : keeps (ServeMux (redirect x) advertise_routes).
Proof.
  apply keeps_ServeMux; [done|]. unfold advertise_routes, with_pages, common_routes, addAdmin, addHealthCheck. cbn [app].
  repeat apply List.Forall_cons; [..|constructor]; cbn [snd].
  - intros w r s w' s' [= <- _]. unfold alt_svc. cbn. by rewrite !lookup_insert_ne.
  - apply keeps_StripPrefix, keeps_Gzip, keeps_CacheStaticFiles. intros w r s w' s' [= <- _]. apply Hfs.
  - apply keeps_StripPrefix, keeps_Gzip, keeps_ServeMux; [done|].
    repeat (apply List.Forall_cons; [apply keeps_basicAuth; by intros w r s w' s' [= <- _]|]). constructor.
  - apply keeps_Gzip, keeps_ServeMux; [done|]. apply List.Forall_cons; [|constructor]. intros w r s w' s'. cbn [snd].
    unfold newLandingHandler. destruct (landing_template x _) as [body [msg|]]; intros [= <- _]; rewrite ?http_Error_keeps; by case_decide.
Qed.
End advertised.

(** The value [AdvertiseHTTP3] sets. *)
Definition advert : str := bytes_of_string "h3=" ++ [34; colon] ++ Itoa (AdvertiseHTTP3Port cfg) ++ [34] ++ bytes_of_string "; ma=2592000".

Lemma advertise_admitted w r s w' s' rl :
  (forall p q w, alt_svc (redirect x p q w) = alt_svc w) -> (forall w r, alt_svc (FileServer x w r) = alt_svc w) ->
  advertise_handler w r s = Ret (w', s') -> serve (clock s) (limits s) (RequestIP (parse_addr x) r) = Ret (Admit, rl) ->
  if (ProtoMajor r <? 3)%nat then alt_svc w' = Some [advert] else w' = w.
Proof.
  intros Hrd Hfs Hh Es. unfold advertise_handler in Hh. rewrite !wrap_cons in Hh. change (Wrap ?h []) with h in Hh.
  unfold limit_requests, RateLimit_handler in Hh. rewrite Es in Hh. cbn [mbind outcome_bind] in Hh.
  unfold AdvertiseHTTP3 in Hh. destruct (ProtoMajor r <? 3)%nat; [|by injection Hh as <- _].
  unfold log_requests, LogRequests, AllowHosts in Hh. case_decide as Hd; cbn [answer mbind outcome_bind] in Hh.
  - destruct (ServeMux _ _ _ _ _) as [[rw s2]|] eqn:E; [|done]. cbn [mbind outcome_bind] in Hh. injection Hh as <- _.
    apply (advertise_keeps Hrd Hfs) in E. rewrite E. unfold alt_svc. cbn. by rewrite lookup_insert_eq.
  - injection Hh as <- _. rewrite http_Error_keeps. unfold alt_svc. cbn. by rewrite lookup_insert_eq.
Qed.

Lemma redirect_name w r s w' s' name : names_host r name -> 0 <= RedirectPort cfg -> w_status w = None ->
  redirect_handler None w r s = Ret (w', s') ->
  calls s' = calls s /\ pages s' = pages s /\
  if decide (name ∈ Domains cfg)
  then w_status w' = Some 301 /\ exists target,
    w_header w' !! "Location"%string = Some [url_String x (bytes_of_string "https") target (Path r) (RawQuery r)] /\
    if RedirectPort cfg =? 443 then target = name
    else exists digits, target = name ++ colon :: digits /\ Forall (fun c => 48 <= c <= 57) digits /\ digits_to 0 digits = RedirectPort cfg
  else w_status w' = Some 403.
Proof.
  intros Hn Hrp Hw. unfold redirect_handler. rewrite !wrap_cons. change (Wrap ?h []) with h.
  unfold log_requests, LogRequests. rewrite (AllowHosts_name _ _ _ _ name Hn). pose proof (targetHost_name _ r name Hn Hrp) as Ht.
  case_decide as Hd; cbn [answer mbind outcome_bind]; intros [= <- <-].
  - split; [done|]. split; [done|]. split; [cbn; by rewrite Hw|].
    exists (targetHost (RedirectPort cfg) (Host r)). split; [|done].
    cbn [WriteHeader set_status header_Set w_header]. by rewrite lookup_insert_eq.
  - split; [done|]. split; [done|]. cbn. by rewrite Hw.
Qed.

(** C23. The two TCP servers.  Every answer of the HTTPS server to a request
    that its limiter admits says where HTTP/3 is served, refusals of the host
    included; a request of HTTP/3 gets an empty answer.  The HTTP server calls
    nothing: the paths of an ACME challenge go to the certificate manager if
    there is one, and any other request is redirected to the same path under
    https when its host name is served, on the configured port, or gets a 403.
    For an IPv6 literal the redirect is wrong: the brackets are doubled, or
    lost.  Of the middleware the first is the outermost; the request log around
    the token check never names a key, and it reports the last status written
    where the client got the first. *)
Theorem tcp_servers (answers : Handler state) (w w' : ResponseWriter) (r : Request) (s s' : state) (name : str)
    (Hrd : forall p q w, alt_svc (redirect x p q w) = alt_svc w) (Hfs : forall w r, alt_svc (FileServer x w r) = alt_svc w)
    (Hname : names_host r name) (Hrp : 0 <= RedirectPort cfg) (Hw : w_status w = None) :
  (advertise_handler w r s = Ret (w', s') ->
     forall rl, serve (clock s) (limits s) (RequestIP (parse_addr x) r) = Ret (Admit, rl) ->
     if (ProtoMajor r <? 3)%nat then alt_svc w' = Some [advert] else w' = w) /\
  (forall mgr, mgr = None \/ mgr = Some (acme_manager answers) /\ has_prefix (Path r) challenge = false ->
     redirect_handler mgr w r s = Ret (w', s') -> calls s' = calls s /\ pages s' = pages s /\
     if decide (name ∈ Domains cfg)
     then w_status w' = Some 301 /\ exists target,
       w_header w' !! "Location"%string = Some [url_String x (bytes_of_string "https") target (Path r) (RawQuery r)] /\
       if RedirectPort cfg =? 443 then target = name
       else exists digits, target = name ++ colon :: digits /\ Forall (fun c => 48 <= c <= 57) digits /\ digits_to 0 digits = RedirectPort cfg
     else w_status w' = Some 403) /\
  (has_prefix (Path r) challenge = true -> redirect_handler (Some (acme_manager answers)) w r s = answers w r s) /\
  (targetHost 8443 (bytes_of_string "[::1]") = bytes_of_string "[[::1]]:8443" /\
   targetHost 443 (bytes_of_string "[::1]:80") = bytes_of_string "::1") /\
  (forall (h : Handler state) mw mws, Wrap h (Some mw :: mws) = mw (Wrap h mws)) /\
  (forall secret (h : Handler state) s0 w0 s1, log_requests (auth x secret h) w r s0 = Ret (w0, s1) -> CtxKey r = None ->
     exists entries status, rlog s1 = entries ++ [mkEntry None r status]) /\
  (forall l b msg, exists w0,
     LogRequests (fun e l => l ++ [e]) (fun w _ l => Ret (http_Error (Write w b) msg 500, l)) w r l
     = Ret (w0, l ++ [mkEntry (CtxKey r) r 500]) /\ w_status w0 = Some 200).
Proof.
  split_and!.
  - intros Hh rl. by eapply advertise_admitted.
  - intros mgr Hm Hh. eapply redirect_name; [done..|]. destruct Hm as [-> |[-> Hp]]; [done|].
    unfold redirect_handler, acme_manager in Hh. by rewrite Hp in Hh.
  - intros Hp. unfold redirect_handler, acme_manager. by rewrite Hp.
  - apply targetHost_ipv6.
  - apply targetHost_ipv6.
  - intros h mw mws. apply wrap_cons.
  - intros secret h s0 w0 s1 Hl Hk. apply log_names_no_key in Hl as (s2 & status & ->); [|done]. by exists (rlog s2), status.
  - intros l b msg. by apply log_last_status.
Qed.
End servers.

(** ** At concrete inputs *)

(** A GET with a token of basic authentication, over TCP. *)
Definition demo_get (path auth : str) : Request :=
  mkRequest (bytes_of_string "star.example:443") path [] 1
    (fun k => if String.eqb k "Authorization" then auth else []) (fun _ => []) None (bytes_of_string "10.0.0.1:4000") GET path 7%nat.

Definition demo_auth : str := bytes_of_string "Basic " ++ std_EncodeToString (bytes_of_string "me:p").

Lemma demo_page :
  (fun y => (w_status y.1, pages y.2)) <$>
    (match server_handler demo_outside demo_cfg HTTPS demo_writer (demo_get (bytes_of_string "/-/admin/") demo_auth) demo_state with
     | Ret y => Some y | Panic => None end) = Some (None, [(AdminIndex, 7%nat)]).
Proof. vm_compute. reflexivity. Qed.

Lemma pages_served_witness : authorised (AdminSecret demo_cfg) (demo_get (bytes_of_string "/-/admin/") demo_auth).
Proof.
  pose proof demo_page as Hp. destruct (server_handler _ _ _ _ _ _) as [[w' s']|] eqn:Hh; [|done]. injection Hp as _ Hp.
  by apply (proj1 (proj1 (proj2 (pages_served demo_outside demo_cfg HTTPS demo_writer w' (demo_get (bytes_of_string "/-/admin/") demo_auth)
    demo_state s' eq_refl Hh)) AdminIndex)).
Defined.

(** The request of the witness without its port, over plain HTTP. *)
Definition demo_plain : Request :=
  mkRequest (bytes_of_string "star.example") (bytes_of_string "/a") [] 1
    (fun _ => []) (fun _ => []) None (bytes_of_string "10.0.0.1:4000") GET (bytes_of_string "/a") 7%nat.

Lemma demo_named : names_host demo_plain (bytes_of_string "star.example").
Proof. split; [split_and!; by apply (bool_decide_unpack _)|]. split; [done|by left]. Qed.

Lemma tcp_servers_witness : exists w' s', redirect_handler demo_outside demo_cfg None demo_writer demo_plain demo_state = Ret (w', s') /\
  w_status w' = Some 301.
Proof.
  assert (exists o, redirect_handler demo_outside demo_cfg None demo_writer demo_plain demo_state = o) as [[[w' s']|] Hh] by eauto;
    [|vm_compute in Hh; done].
  exists w', s'. split; [exact Hh|].
  destruct (tcp_servers demo_outside demo_cfg (fun w _ s => Ret (w, s)) demo_writer w' demo_plain demo_state s' (bytes_of_string "star.example")
    (fun p q w => eq_refl) (fun w r => eq_refl) demo_named (ltac:(done)) eq_refl) as (_ & H & _).
  specialize (H None (or_introl eq_refl) Hh) as (_ & _ & H). by destruct H.
Defined.
