(* ===== verification/Process.v ===== *)
(** The life of the process of [cmd/registar]: [main] after the set-up, with
    [ListenAndServe], [Serve] and [init] of [internal/registar/server.go].

    Three goroutines of an errgroup serve; the main goroutine waits for its
    context, which a signal or the first error cancels, and shuts down.  What
    the system and the libraries answer comes with the steps.  [Server.Close] is
    taken call by call: it waits for the relays and for the connections that the
    server serves, whose goroutines are those of [Pump]; what it does to the
    hosts is in [Registar]. *)
From S2P Require Import Prelude Errors Pump.
From S2P Require CA Registar.
Local Open Scope Z_scope.

(** * Server.init and ListenAndServe *)

(** The fields of [Server] and [http3.Server] that [init] sets; a context is
    what it maps [quicConnContextKey] to, besides what it was made from. *)
Record server_setup := mkSetup {
  once_done : bool;
  ConnContext : option (option nat -> nat -> option nat);
  has_logger : bool;
  EnableDatagrams : bool;
}.

Definition init (s : server_setup) : server_setup :=
  if once_done s then s
  else mkSetup true
         (Some (fun ctx c =>
            let ctx := match ConnContext s with Some origConnContext => origConnContext ctx c | None => ctx end in
            Some c))
         true true.

(** After any number of calls the context of a connection holds it. *)
Lemma init_conn (s : server_setup) n ctx c : (0 < n)%nat -> once_done s = false ->
  (fun f => f ctx c) <$> ConnContext (Nat.iter n init s) = Some (Some c) /\
  EnableDatagrams (Nat.iter n init s) = true /\ has_logger (Nat.iter n init s) = true.
Proof.
  intros Hn Ho. assert (forall n, Nat.iter (S n) init s = init s) as Hi.
  { clear n Hn. intros n. induction n as [|n IH]; [done|]. cbn [Nat.iter nat_rect] in *. rewrite IH. unfold init. by rewrite Ho. }
  destruct n as [|n]; [lia|]. rewrite Hi. unfold init. by rewrite Ho.
Qed.

Section listen.
Context {A : Type}.
(** What [net.ResolveUDPAddr], [net.ListenUDP] and [quic.ListenEarly] answer. *)
Variable ResolveUDPAddr : string -> result goerror A.
Variable ListenUDP : A -> result goerror nat.
Variable ListenEarly : nat -> option goerror.

(** [Serve]: the connections it serves, and what it returns, if it does; the
    results of [ln.Accept] come as in [Pump]. *)
Definition Serve (conn : nat) (accepts : list (result goerror nat * bool)) : list nat * option goerror :=
  match ListenEarly conn with Some err => ([], Some err) | None => Serve_loop accepts end.

(** [ListenAndServe] *)
Definition ListenAndServe (addr : string) (accepts : list (result goerror nat * bool)) : list nat * option goerror :=
  let addr := if String.eqb addr "" then ":https"%string else addr in
  match ResolveUDPAddr addr with
  | Err err => ([], Some err)
  | Ok udpAddr => match ListenUDP udpAddr with Err err => ([], Some err) | Ok conn => Serve conn accepts end
  end.

(** [ListenAndServeTLS], for the certificates so far and the one that is
    loaded. *)
Definition ListenAndServeTLS (load : result goerror nat) (certs : list nat) (addr : string)
    (accepts : list (result goerror nat * bool)) : list nat * (list nat * option goerror) :=
  match load with
  | Err err => (certs, ([], Some err))
  | Ok cert => (certs ++ [cert], ListenAndServe addr accepts)
  end.
End listen.

(** * main *)

(** The servers of the errgroup, and what their goroutines do with what
    [ListenAndServe] returned. *)
Inductive service := HTTP3 | HTTPS | HTTP.

#[export] Instance service_eq_dec : EqDecision service.
Proof. solve_decision. Defined.

Definition services : list service := [HTTP3; HTTPS; HTTP].

Definition go_func (v : service) (err : goerror) : option goerror :=
  if Is err "http.ErrServerClosed" then None
  else Some (Wrapped (match v with
                      | HTTP3 => "listen and serve HTTP/3"
                      | HTTPS => "listen and serve TLS HTTP"
                      | HTTP => "listen and serve HTTP"
                      end) err).

(** A server is told to close, and it has returned. *)
Record status := mkStatus { closed : bool; returned : bool }.

(** The program counter of [main] after the set-up: waiting for the context,
    before and in [adminPage.Stop], before and in [Close] and the two calls of
    [Shutdown], in [eg.Wait], and the exit code.  In [Close] of the registar it
    is in [H3.Close], in [relayCount.Wait] and in [connsCount.Wait]. *)
Inductive pc :=
| Waiting | StopAdmin | InStop | Closing (v : service) | InClose (v : service)
| WaitRelays | WaitConns | EgWait | Exit (code : Z).

#[export] Instance pc_eq_dec : EqDecision pc.
Proof. solve_decision. Defined.

Record process := mkProcess {
  at_pc : pc;
  signalled : bool;
  servers : service -> status;
  eg_err : option goerror;          (* the first error of the group *)
  logged : list (string * goerror);
  scraping : bool;                  (* the scraper of the admin page runs *)
  conns : list serving;             (* calls of [ServeQUICConn], counted in [connsCount] *)
  relays : list pump;               (* calls of [relay], counted in [relayCount] *)
  h3_err : option goerror;          (* [err] of [Close] *)
}.

Definition start : process := mkProcess Waiting false (fun _ => mkStatus false false) None [] true [] [] None.

(** [ctx.Done()] of the group's context *)
Definition cancelled (p : process) : bool := signalled p || match eg_err p with Some _ => true | None => false end.

Definition set_pc (p : process) (c : pc) : process :=
  mkProcess c (signalled p) (servers p) (eg_err p) (logged p) (scraping p) (conns p) (relays p) (h3_err p).
Definition set_server (p : process) (v : service) (s : status) : process :=
  mkProcess (at_pc p) (signalled p) (fun v' => if decide (v' = v) then s else servers p v') (eg_err p) (logged p)
    (scraping p) (conns p) (relays p) (h3_err p).
Definition set_err (p : process) (e : option goerror) : process :=
  mkProcess (at_pc p) (signalled p) (servers p) e (logged p) (scraping p) (conns p) (relays p) (h3_err p).
Definition set_work (p : process) (cs : list serving) (rs : list pump) : process :=
  mkProcess (at_pc p) (signalled p) (servers p) (eg_err p) (logged p) (scraping p) cs rs (h3_err p).
Definition log_error (p : process) (msg : string) (e : option goerror) : process :=
  mkProcess (at_pc p) (signalled p) (servers p) (eg_err p)
    (match e with Some e => logged p ++ [(msg, e)] | None => logged p end) (scraping p) (conns p) (relays p) (h3_err p).

Definition all_returned (p : process) : bool := forallb (fun v => returned (servers p v)) services.

(** What the two [sync.WaitGroup]s of the registar wait for: the goroutines of
    [relay] and those of [ServeQUICConn]. *)
Definition conn_done (s : serving) : bool := negb (is_none (closed_with s)).
Definition relays_done (p : process) : bool := forallb relay_returned (relays p).
Definition conns_done (p : process) : bool := forallb conn_done (conns p).

(** [s.ctxCancel], for the relays that run; the context of the server is done
    when it has been told to close. *)
Definition relay_cancel (r : pump) : pump := default r (pump_step r ServerCloses).
Definition ctxCancel (p : process) : process := set_work p (conns p) (relay_cancel <$> relays p).
Definition ctx_done (p : process) : bool := closed (servers p HTTP3).

(** The next call after that for a server, and the message of its error. *)
Definition after_close (v : service) : pc :=
  match v with HTTP3 => Closing HTTPS | HTTPS => Closing HTTP | HTTP => EgWait end.
Definition close_msg (v : service) : string :=
  match v with
  | HTTP3 => "shutdown HTTP/3 server" | HTTPS => "shutdown HTTPS server" | HTTP => "shutdown HTTP server"
  end.

(** [Close], after [s.ctxCancel]: [None] where it waits.  The error is that of
    [H3.Close]. *)
Definition Close_step (p : process) (err : option goerror) : option process :=
  match at_pc p with
  | InClose HTTP3 =>
      Some (mkProcess WaitRelays (signalled p) (servers p) (eg_err p) (logged p) (scraping p) (conns p) (relays p) err)
  | WaitRelays => if relays_done p then Some (set_pc p WaitConns) else None
  | WaitConns =>
      if conns_done p then Some (set_pc (log_error p (close_msg HTTP3) (h3_err p)) (after_close HTTP3)) else None
  | _ => None
  end.

Definition main_step (p : process) (err : option goerror) : option process :=
  match at_pc p with
  | Waiting => if cancelled p then Some (set_pc p StopAdmin) else None
  | StopAdmin => Some (set_pc p InStop)
  | InStop => if scraping p then None else Some (set_pc p (Closing HTTP3))
  | Closing v =>
      let p := match v with HTTP3 => ctxCancel p | _ => p end in
      Some (set_pc (set_server p v (mkStatus true (returned (servers p v)))) (InClose v))
  | InClose HTTP3 | WaitRelays | WaitConns => Close_step p err
  | InClose v => Some (set_pc (log_error p (close_msg v) err) (after_close v))
  | EgWait =>
      if all_returned p
      then Some (set_pc (log_error p "shutdown" (eg_err p)) (Exit (match eg_err p with Some _ => 1 | None => 0 end)))
      else None
  | Exit _ => None
  end.

(** Steps: a signal, [ListenAndServe] of a server returns, the main goroutine
    goes on, with what its call returned; the scraper sees that it is stopped;
    the registar's server accepts a connection, which it serves unless
    [NewRawServerConn] fails, also while and after it is closed, as long as
    [Serve] has not returned; a goroutine of a connection; a handler of a
    connection's stream starts a relay; a goroutine of a relay. *)
Inductive label :=
| LSignal
| LReturns (v : service) (err : goerror)
| LMain (err : option goerror)
| LScraper
| LAccepts (raw_err : option goerror)
| LConn (i : nat) (l : serving_label)
| LPairs (i : nat)
| LCopies (j : nat) (from_a : bool) (a : answer).

(** A server that has not been told to close does not say it is closed. *)
Definition goroutine_step (p : process) (l : label) : option process :=
  match l with
  | LSignal =>
      Some (mkProcess (at_pc p) true (servers p) (eg_err p) (logged p) (scraping p) (conns p) (relays p) (h3_err p))
  | LReturns v err =>
      if returned (servers p v) || (Is err "http.ErrServerClosed" && negb (closed (servers p v))) then None
      else let p' := set_server p v (mkStatus (closed (servers p v)) true) in
           Some (set_err p' (match eg_err p' with Some e => Some e | None => go_func v err end))
  | LMain err => main_step p err
  | LScraper =>
      if scraping p && bool_decide (at_pc p = InStop)
      then Some (mkProcess (at_pc p) (signalled p) (servers p) (eg_err p) (logged p) false (conns p) (relays p) (h3_err p))
      else None
  | LAccepts raw_err =>
      if returned (servers p HTTP3) then None
      else Some (set_work p (match raw_err with Some _ => conns p | None => conns p ++ [new_serving] end) (relays p))
  | LConn i l => s ← conns p !! i; s' ← serving_step s l; Some (set_work p (<[i := s']> (conns p)) (relays p))
  | LPairs i =>
      s ← conns p !! i;
      if decide (handlers s = []) then None
      else Some (set_work p (conns p) (relays p ++ [new_pump (ctx_done p) 0]))
  | LCopies j from_a a =>
      r ← relays p !! j; r' ← pump_step r (if from_a : bool then FromA a else FromB a);
      Some (set_work p (conns p) (<[j := r']> (relays p)))
  end.

(** Nothing goes on after the exit. *)
Definition step (p : process) (l : label) : option process :=
  match at_pc p with Exit _ => None | _ => goroutine_step p l end.

Fixpoint run (p : process) (ls : list label) : option process :=
  match ls with [] => Some p | l :: ls => p' ← step p l; run p' ls end.

(** * Invariant *)

(** How far the shutdown has come. *)
Definition rank (c : pc) : nat :=
  match c with
  | Waiting => 0 | StopAdmin => 1 | InStop => 2
  | Closing HTTP3 => 3 | InClose HTTP3 => 4 | WaitRelays => 5 | WaitConns => 6
  | Closing HTTPS => 7 | InClose HTTPS => 8
  | Closing HTTP => 9 | InClose HTTP => 10
  | EgWait => 11 | Exit _ => 12
  end.
Definition close_rank (v : service) : nat := match v with HTTP3 => 4 | HTTPS => 8 | HTTP => 10 end.

(** The failures of a schedule: returns that are no closing. *)
Definition failures (ls : list label) : list goerror :=
  omap (fun l => match l with LReturns v err => go_func v err | _ => None end) ls.

Record proc_ok (ls : list label) (p : process) : Prop := {
  po_cancelled : at_pc p <> Waiting -> cancelled p = true;
  po_closed : forall v, closed (servers p v) = true <-> (close_rank v <= rank (at_pc p))%nat;
  po_err : eg_err p = head (failures ls);
  po_signal : signalled p = true <-> LSignal ∈ ls;
  po_exit : forall code, at_pc p = Exit code ->
    (forall v, returned (servers p v) = true) /\ code = (match eg_err p with Some _ => 1 | None => 0 end);
  po_conns : Forall (fun s => exists acc, serving_ok acc s) (conns p);
  po_relays : ctx_done p = true -> Forall (fun r => is_Some (ctx_err r)) (relays p);
}.

Lemma start_ok : proc_ok [] start.
Proof.
  constructor; cbn; [done| |done| |done|constructor|done].
  - intros v. split; [done|]. intros Hv. by destruct v; apply Nat.nle_succ_0 in Hv.
  - split; [done|]. by intros ?%not_elem_of_nil.
Qed.

Lemma failures_snoc ls l : failures (ls ++ [l]) = failures ls ++ failures [l].
Proof. unfold failures. by rewrite omap_app. Qed.

Lemma relay_cancel_ctx r : is_Some (ctx_err (relay_cancel r)).
Proof. apply first_error_Some. Qed.

(** A step of the main goroutine is one further, and leaves the connections. *)
Lemma main_step_rank p err p' : main_step p err = Some p' ->
  rank (at_pc p') = S (rank (at_pc p)) /\ signalled p' = signalled p /\ eg_err p' = eg_err p /\
  (forall v, returned (servers p' v) = returned (servers p v)) /\
  (forall v, closed (servers p' v) = closed (servers p v) || bool_decide (at_pc p = Closing v)) /\
  conns p' = conns p /\ scraping p' = scraping p /\
  relays p' = (if decide (at_pc p = Closing HTTP3) then relay_cancel <$> relays p else relays p).
Proof.
  unfold main_step, Close_step. destruct (at_pc p) as [| | |v|v| | | |] eqn:E;
    [destruct (cancelled p); [|done]| |destruct (scraping p) eqn:Es; [done|]| |destruct v|destruct (relays_done p); [|done]
    |destruct (conns_done p); [|done]|destruct (all_returned p); [|done]|done].
  4: { destruct v; intros [= <-]; cbn; split_and!; try done.
    all: intros v'; case_decide as Hv; [subst|]; cbn; try done.
    all: first [rewrite bool_decide_true by done; by rewrite orb_true_r|rewrite bool_decide_false by congruence; by rewrite orb_false_r]. }
  all: intros [= <-]; cbn; split_and!; try done.
  all: intros v'; rewrite bool_decide_false by done; by rewrite orb_false_r.
Qed.

#[export] Instance signal_dec l : Decision (l = LSignal).
Proof. destruct l; first [by left|by right]. Defined.

(** The step of any other goroutine. *)
Record aside (p : process) (l : label) (p' : process) : Prop := {
  as_pc : at_pc p' = at_pc p;
  as_signal : signalled p' = signalled p || bool_decide (l = LSignal);
  as_err : eg_err p' = head (option_list (eg_err p) ++ failures [l]);
  as_closed : forall v, closed (servers p' v) = closed (servers p v);
  as_scraping : scraping p = false -> scraping p' = false;
}.

Lemma step_inv p l p' : step p l = Some p' -> goroutine_step p l = Some p' /\ forall code, at_pc p <> Exit code.
Proof. unfold step. destruct (at_pc p); naive_solver. Qed.

Lemma goroutine_aside p l p' : goroutine_step p l = Some p' -> (forall err, l <> LMain err) -> aside p l p'.
Proof.
  intros Hs Hl. destruct l as [|v err|err| |raw|i l|i|j fa a]; [..|by destruct (Hl err)| | | | |]; cbn [goroutine_step] in Hs.
  - injection Hs as <-. constructor; cbn; [done|by rewrite orb_true_r|by destruct (eg_err p)|done..].
  - destruct (_ || _); [done|]. injection Hs as <-. constructor; cbn; [done|by rewrite orb_false_r| | |done].
    + destruct (eg_err p); [done|]. cbn. by destruct (go_func v err).
    + intros v'. by case_decide; subst.
  - destruct (_ && _); [|done]. injection Hs as <-. constructor; cbn; [done|by rewrite orb_false_r|by destruct (eg_err p)|done..].
  - destruct (returned _); [done|]. injection Hs as <-. constructor; cbn; [done|by rewrite orb_false_r|by destruct (eg_err p)|done..].
  - destruct (conns p !! i); [|done]. cbn in Hs. destruct (serving_step _ _); [|done]. injection Hs as <-.
    constructor; cbn; [done|by rewrite orb_false_r|by destruct (eg_err p)|done..].
  - destruct (conns p !! i); [|done]. cbn in Hs. case_decide; [done|]. injection Hs as <-.
    constructor; cbn; [done|by rewrite orb_false_r|by destruct (eg_err p)|done..].
  - destruct (relays p !! j); [|done]. cbn in Hs. destruct (pump_step _ _); [|done]. injection Hs as <-.
    constructor; cbn; [done|by rewrite orb_false_r|by destruct (eg_err p)|done..].
Qed.

(** What becomes of the connections and the relays. *)
Lemma conns_ok_step p l p' : goroutine_step p l = Some p' -> Forall (fun s => exists acc, serving_ok acc s) (conns p) ->
  Forall (fun s => exists acc, serving_ok acc s) (conns p').
Proof.
  intros Hs Hc. destruct l as [|v err|err| |raw|i l|i|j fa a]; cbn [goroutine_step] in Hs.
  - by injection Hs as <-.
  - destruct (_ || _); [done|]. by injection Hs as <-.
  - by destruct (main_step_rank _ _ _ Hs) as (_ & _ & _ & _ & _ & -> & _).
  - destruct (_ && _); [|done]. by injection Hs as <-.
  - destruct (returned _); [done|]. injection Hs as <-. cbn. destruct raw; [done|]. apply Forall_app. split; [done|].
    apply Forall_singleton. exists []. by constructor.
  - destruct (conns p !! i) as [s|] eqn:E; [|done]. cbn in Hs. destruct (serving_step s l) as [s'|] eqn:E'; [|done]. injection Hs as <-. cbn.
    apply Forall_insert; [done|]. rewrite Forall_lookup in Hc. destruct (Hc _ _ E) as [acc Ha]. eexists. by eapply serving_step_ok.
  - destruct (conns p !! i); [|done]. cbn in Hs. case_decide; [done|]. by injection Hs as <-.
  - destruct (relays p !! j); [|done]. cbn in Hs. destruct (pump_step _ _); [|done]. by injection Hs as <-.
Qed.

Lemma pump_step_ctx r l r' : pump_step r l = Some r' -> is_Some (ctx_err r) -> is_Some (ctx_err r').
Proof.
  intros Hs Hc. destruct l as [a|a| |n]; cbn in Hs.
  1-2: destruct (copy_step _ a) as [[[c e] n]|]; [|done]; cbn in Hs; destruct e; cbn in Hs; injection Hs as <-; cbn; [apply first_error_Some|done].
  - injection Hs as <-. apply first_error_Some.
  - by injection Hs as <-.
Qed.

Lemma relays_ok_step p l p' : goroutine_step p l = Some p' -> (ctx_done p = true -> Forall (fun r => is_Some (ctx_err r)) (relays p)) ->
  ctx_done p' = true -> Forall (fun r => is_Some (ctx_err r)) (relays p').
Proof.
  intros Hs Hr. destruct l as [|v err|err| |raw|i l|i|j fa a]; cbn [goroutine_step] in Hs.
  - by injection Hs as <-.
  - destruct (_ || _); [done|]. injection Hs as <-. unfold ctx_done in *. cbn. by case_decide; subst.
  - destruct (main_step_rank _ _ _ Hs) as (_ & _ & _ & _ & Hcl & _ & _ & ->). unfold ctx_done in *. rewrite Hcl. case_decide as Hd.
    + intros _. apply Forall_fmap, Forall_true. intros r. apply relay_cancel_ctx.
    + rewrite bool_decide_false by done. by rewrite orb_false_r.
  - destruct (_ && _); [|done]. by injection Hs as <-.
  - destruct (returned _); [done|]. by injection Hs as <-.
  - destruct (conns p !! i) as [s|] eqn:E; [|done]. cbn in Hs. destruct (serving_step s l) as [s'|] eqn:E'; [|done]. by injection Hs as <-.
  - destruct (conns p !! i); [|done]. cbn in Hs. case_decide; [done|]. injection Hs as <-. unfold ctx_done. cbn. intros Hd.
    apply Forall_app. split; [by apply Hr|]. apply Forall_singleton. unfold ctx_done. rewrite Hd. by eexists.
  - destruct (relays p !! j) as [r|] eqn:E; [|done]. cbn in Hs. destruct (pump_step r _) as [r'|] eqn:E'; [|done]. injection Hs as <-. unfold ctx_done in *. cbn.
    intros Hd%Hr. apply Forall_insert; [done|]. rewrite Forall_lookup in Hd. by eapply pump_step_ctx, Hd.
Qed.

Lemma proc_ok_step ls p l p' : proc_ok ls p -> step p l = Some p' -> proc_ok (ls ++ [l]) p'.
Proof.
  intros [H1 H2 H3 H4 H5 H6 H7] Hs. apply step_inv in Hs as [Hs Hne].
  pose proof (conns_ok_step _ _ _ Hs H6) as H6'. pose proof (relays_ok_step _ _ _ Hs H7) as H7'.
  assert ((exists err, l = LMain err) \/ forall err, l <> LMain err) as [[err ->]|Hl] by (destruct l; eauto).
  - cbn [goroutine_step] in Hs. pose proof (main_step_rank _ _ _ Hs) as (Hr & Hsg & He & Hret & Hcl & _). constructor; try done.
    + intros _. destruct (decide (at_pc p = Waiting)) as [E|E].
      * unfold main_step in Hs. rewrite E in Hs. destruct (cancelled p) eqn:Hc; [|done]. by injection Hs as <-.
      * specialize (H1 E). unfold cancelled in *. by rewrite Hsg, He.
    + intros v. rewrite Hcl, Hr, orb_true_iff, H2, bool_decide_eq_true. split.
      * intros [Hx| ->]; [lia|]. by destruct v; cbn.
      * intros Hx. destruct (decide (close_rank v = S (rank (at_pc p)))) as [Hy|Hy]; [right|left; lia].
        clear -Hy. destruct v, (at_pc p) as [| | |[]|[]| | | |]; cbn in Hy; try lia; done.
    + by rewrite He, H3, failures_snoc, app_nil_r.
    + rewrite Hsg, H4, elem_of_app. split; [by left|]. by intros [?|?%list_elem_of_singleton].
    + intros code Hx. rewrite Hx in Hr. assert (at_pc p = EgWait) as E by (destruct (at_pc p) as [| | |[]|[]| | | |]; cbn in Hr; try lia; done).
      unfold main_step in Hs. rewrite E in Hs. destruct (all_returned p) eqn:Ha; [|done]. injection Hs as <-. cbn in Hx. injection Hx as <-.
      split; [|done]. unfold all_returned in Ha. cbn in Ha. apply andb_true_iff in Ha as [Ha1 [Ha2 [Ha3 _]%andb_true_iff]%andb_true_iff].
      by intros [].
  - destruct (goroutine_aside _ _ _ Hs Hl) as [A1 A2 A3 A4 A5]. constructor; try done.
    + rewrite A1. intros Hw%H1. unfold cancelled in *. rewrite A2, A3. destruct (signalled p); [done|]. destruct (eg_err p); [cbn; by rewrite orb_true_r|done].
    + intros v. rewrite A4, A1. apply H2.
    + rewrite A3, H3, failures_snoc. by destruct (failures ls).
    + rewrite A2, orb_true_iff, H4, bool_decide_eq_true, elem_of_app, list_elem_of_singleton. naive_solver.
    + rewrite A1. intros code E. by destruct (Hne code).
Qed.

Lemma run_ok ls : forall ls0 p p', proc_ok ls0 p -> run p ls = Some p' -> proc_ok (ls0 ++ ls) p'.
Proof.
  induction ls as [|l ls IH]; intros ls0 p p' Hp; cbn [run]; [intros [= <-]; by rewrite app_nil_r|].
  destruct (step p l) as [p1|] eqn:E; [|done]. cbn [mbind option_bind]. intros Hr.
  replace (ls0 ++ l :: ls) with ((ls0 ++ [l]) ++ ls) by by rewrite <- (assoc_L (++)).
  eapply IH; [|exact Hr]. by eapply proc_ok_step.
Qed.

Lemma run_app p ls1 ls2 p1 : run p ls1 = Some p1 -> run p (ls1 ++ ls2) = run p1 ls2.
Proof.
  revert p. induction ls1 as [|l ls1 IH]; intros p; cbn [run app]; [by intros [= ->]|].
  destruct (step p l) as [p2|]; [|done]. cbn [mbind option_bind]. apply IH.
Qed.

Lemma run_snoc p ls l p' : run p (ls ++ [l]) = Some p' -> exists p1, run p ls = Some p1 /\ step p1 l = Some p'.
Proof.
  revert p. induction ls as [|x ls IH]; intros p; cbn [run app].
  - destruct (step p l) as [p1|] eqn:E; [|done]. cbn. intros [= ->]. by exists p.
  - destruct (step p x) as [p2|]; [|done]. cbn [mbind option_bind]. apply IH.
Qed.

(** ** Waiting for the relays and the connections *)

(** When [Close] has returned, there was a time when it found all relays
    returned and after that one when it found all connections closed. *)
Lemma waited (P : process -> Prop) (c : pc) :
  (forall p err p', at_pc p = c -> main_step p err = Some p' -> P p) ->
  (forall p l p', step p l = Some p' -> (rank c < rank (at_pc p'))%nat -> (rank c < rank (at_pc p))%nat \/ at_pc p = c /\ exists err, l = LMain err) ->
  forall ls p, run start ls = Some p -> (rank c < rank (at_pc p))%nat ->
  exists ls1 err ls2 p1, ls = ls1 ++ LMain err :: ls2 /\ run start ls1 = Some p1 /\ at_pc p1 = c /\ P p1.
Proof.
  intros HP Hc ls. induction ls as [|l ls IH] using rev_ind; intros p Hr Hk; [injection Hr as <-; by apply Nat.nlt_0_r in Hk|].
  apply run_snoc in Hr as (p1 & Hr & Hs). destruct (Hc _ _ _ Hs Hk) as [Hk1|[E [err ->]]].
  - destruct (IH p1 Hr Hk1) as (ls1 & err & ls2 & p2 & -> & H). exists ls1, err, (ls2 ++ [l]), p2. by rewrite <- (assoc_L (++)).
  - exists ls, err, [], p1. split_and!; try done. apply step_inv in Hs as [Hs _]. by eapply HP.
Qed.

Lemma one_further p l p' k : step p l = Some p' -> (k < rank (at_pc p'))%nat ->
  (k < rank (at_pc p))%nat \/ rank (at_pc p) = k /\ exists err, l = LMain err.
Proof.
  intros [Hs _]%step_inv Hk. assert ((exists err, l = LMain err) \/ forall err, l <> LMain err) as [[err ->]|Hl] by (destruct l; eauto).
  - apply main_step_rank in Hs as (Hr & _). destruct (decide (k < rank (at_pc p))%nat); [by left|right]. split; [lia|by eexists].
  - left. by rewrite <- (as_pc _ _ _ (goroutine_aside _ _ _ Hs Hl)).
Qed.

Lemma rank_waits c c' : c = WaitRelays \/ c = WaitConns -> rank c' = rank c -> c' = c.
Proof. intros [-> | ->]; destruct c' as [| | |[]|[]| | | |]; cbn; intros; try lia; done. Qed.

Lemma waited_relays ls p : run start ls = Some p -> (rank WaitRelays < rank (at_pc p))%nat ->
  exists ls1 err ls2 p1, ls = ls1 ++ LMain err :: ls2 /\ run start ls1 = Some p1 /\ at_pc p1 = WaitRelays /\
    Forall (fun r => relay_returned r = true) (relays p1).
Proof.
  apply waited.
  - intros q err q' E. unfold main_step, Close_step. rewrite E. destruct (relays_done q) eqn:Hd; [|done]. intros _.
    unfold relays_done in Hd. rewrite forallb_forall in Hd. rewrite Forall_forall. intros r Hr%list_elem_of_In. by apply Hd.
  - intros q l q' Hs [Hk|[Hk Hl]]%(one_further _ _ _ _ Hs); [by left|right]. split; [|done]. by apply (rank_waits WaitRelays); [left|].
Qed.

Lemma waited_conns ls p : run start ls = Some p -> (rank WaitConns < rank (at_pc p))%nat ->
  exists ls1 err ls2 p1, ls = ls1 ++ LMain err :: ls2 /\ run start ls1 = Some p1 /\ at_pc p1 = WaitConns /\
    Forall (fun s => handlers s = [] /\ is_Some (closed_with s)) (conns p1).
Proof.
  intros Hr Hk. destruct (waited (fun p => conns_done p = true) WaitConns) with (ls := ls) (p := p) as (ls1 & err & ls2 & p1 & E & Hr1 & Hpc & Hd); try done.
  - intros q err q' E. unfold main_step, Close_step. rewrite E. by destruct (conns_done q).
  - intros q l q' Hs [Hk'|[Hk' Hl]]%(one_further _ _ _ _ Hs); [by left|right]. split; [|done]. by apply (rank_waits WaitConns); [right|].
  - exists ls1, err, ls2, p1. split_and!; try done. pose proof (po_conns _ _ (run_ok ls1 [] start p1 start_ok Hr1)) as Hc.
    unfold conns_done in Hd. rewrite forallb_forall in Hd. rewrite Forall_forall in Hc |- *. intros s Hs. destruct (Hc s Hs) as (acc & Ha).
    apply list_elem_of_In, Hd in Hs. unfold conn_done in Hs. destruct (closed_with s) as [code|] eqn:Ec; [|done]. split; [|by eexists].
    by destruct (so_closed _ _ Ha code Ec).
Qed.

(** How many handlers of a connection return in a schedule. *)
Definition handlers_end (i : nat) (ls : list label) : nat :=
  sum_list_with (fun l => match l with LConn k (HandlerReturns _) => if decide (k = i) then 1 else 0 | _ => 0 end)%nat ls.

Lemma serving_step_handlers s l s' : serving_step s l = Some s' -> handlers s <> [] -> closed_with s = None ->
  closed_with s' = None /\
  (length (handlers s) <= length (handlers s') + match l with HandlerReturns _ => 1 | _ => 0 end)%nat.
Proof.
  intros Hs Hh Hc. destruct l as [[str|err]|[str|err]|k|]; cbn [serving_step] in Hs.
  1-2: destruct (str_ended s); [done|]. 3-4: destruct (uni_ended s); [done|].
  1-4: injection Hs as <-; cbn; rewrite ?length_app; split; [done|cbn; lia].
  - destruct (handlers s !! k) eqn:E; [|done]. injection Hs as <-. cbn. split; [done|].
    apply lookup_lt_Some in E. pose proof (length_delete (handlers s) k ltac:(by eapply lookup_lt_is_Some_2)). lia.
  - rewrite (bool_decide_false _ Hh) in Hs. by destruct (str_ended s), (uni_ended s).
Qed.

(** While a handler has not returned, [Close] does not. *)
Lemma handler_keeps i ls : forall p p' s, run p ls = Some p' -> (rank (at_pc p) <= rank WaitConns)%nat ->
  conns p !! i = Some s -> closed_with s = None -> (handlers_end i ls < length (handlers s))%nat ->
  (rank (at_pc p') <= rank WaitConns)%nat.
Proof.
  induction ls as [|l ls IH]; intros p p' s Hr Hk Hi Hc Hn; cbn [run] in Hr; [by injection Hr as <-|].
  destruct (step p l) as [p1|] eqn:E; [|done]. cbn in Hr. apply step_inv in E as [Es _].
  unfold handlers_end in Hn. cbn [sum_list_with] in Hn. fold (handlers_end i ls) in Hn.
  assert (handlers s <> []) as Hh by (intros E0; rewrite E0 in Hn; cbn in Hn; lia).
  assert (conns_done p = true -> False) as Hnd.
  { unfold conns_done. rewrite forallb_forall. intros Hd. specialize (Hd s). unfold conn_done in Hd. rewrite Hc in Hd.
    assert (In s (conns p)) as Hin by by eapply list_elem_of_In, list_elem_of_lookup_2. by specialize (Hd Hin). }
  assert ((rank (at_pc p1) <= rank WaitConns)%nat /\ exists s1, conns p1 !! i = Some s1 /\ closed_with s1 = None /\ (handlers_end i ls < length (handlers s1))%nat) as (Hk1 & s1 & Hi1 & Hc1 & Hn1);
    [|by eapply IH].
  assert ((exists err, l = LMain err) \/ forall err, l <> LMain err) as [[err ->]|Hl] by (destruct l; eauto).
  - destruct (main_step_rank _ _ _ Es) as (Hr1 & _ & _ & _ & _ & -> & _). cbn [goroutine_step] in Es. split; [|eexists; split_and!; [done..|lia]].
    destruct (decide (rank (at_pc p) = rank WaitConns)) as [Hw|Hw]; [|lia].
    apply (rank_waits WaitConns) in Hw; [|by right]. unfold main_step, Close_step in Es. rewrite Hw in Es. by destruct (conns_done p).
  - destruct (goroutine_aside _ _ _ Es Hl) as [-> _ _ _ _]. split; [done|].
    destruct l as [|v err|err| |raw|k l|k|j fa a]; [..|by destruct (Hl err)| | | | |]; cbn [goroutine_step] in Es.
    + injection Es as <-. by eexists.
    + destruct (_ || _); [done|]. injection Es as <-. by eexists.
    + destruct (_ && _); [|done]. injection Es as <-. by eexists.
    + destruct (returned _); [done|]. injection Es as <-. cbn. destruct raw; [by eexists|]. exists s. split; [by apply lookup_app_l_Some|]. by split; [|lia].
    + destruct (conns p !! k) as [s0|] eqn:Ek; [|done]. cbn in Es. destruct (serving_step s0 l) as [s'|] eqn:E'; [|done]. injection Es as <-. cbn.
      destruct (decide (k = i)) as [->|Hki].
      * rewrite Hi in Ek. injection Ek as <-. destruct (serving_step_handlers _ _ _ E' Hh Hc) as [Hc' Hl'].
        exists s'. rewrite list_lookup_insert_eq by by eapply lookup_lt_Some. split; [done|]. split; [done|]. destruct l; lia.
      * exists s. rewrite list_lookup_insert_ne by done. split; [done|]. split; [done|]. destruct l; lia.
    + destruct (conns p !! k); [|done]. cbn in Es. case_decide; [done|]. injection Es as <-. by eexists.
    + destruct (relays p !! j); [|done]. cbn in Es. destruct (pump_step _ _); [|done]. injection Es as <-. by eexists.
Qed.

(** * The end *)

(** Steps that ask of the world that a server that has been told to close
    returns, that receives and accepts under a context that is done fail, that
    sends and handlers return, and that the scraper sees that it is stopped. *)
Definition orderly (l : label) : Prop :=
  match l with
  | LMain err => err = None
  | LReturns _ err => err = ErrServerClosed
  | LScraper => True
  | LConn _ (AcceptStream r | AcceptUniStream r) => r = Err Canceled
  | LConn _ _ => True
  | LCopies _ _ a => a = Fails Canceled \/ a = Succeeds
  | LSignal | LAccepts _ | LPairs _ => False
  end.

(** The most steps that the relays and connections take to their end. *)
Definition conn_work (s : serving) : nat := 3 + length (handlers s).
Definition work (p : process) : nat := 4 * length (relays p) + sum_list_with conn_work (conns p).

Lemma step_any p l : (rank (at_pc p) < 12)%nat -> step p l = goroutine_step p l.
Proof. intros Hr. unfold step. destruct (at_pc p); cbn in *; [done..|lia]. Qed.

(** What the main goroutine needs to go from one wait to a later one. *)
Record can_climb (p : process) (k : nat) : Prop := {
  cc_cancelled : cancelled p = true;
  cc_scraping : (rank (at_pc p) <= 2 < k)%nat -> scraping p = false;
  cc_relays : (rank (at_pc p) <= 5 < k)%nat -> relays_done p = true;
  cc_conns : (rank (at_pc p) <= 6 < k)%nat -> conns_done p = true;
}.

Lemma relays_done_cancel (rs : list pump) : forallb relay_returned (relay_cancel <$> rs) = forallb relay_returned rs.
Proof. induction rs as [|r rs IH]; [done|]. cbn. f_equal. exact IH. Qed.

Lemma main_climbs p k : can_climb p k -> (rank (at_pc p) < k <= 11)%nat ->
  exists p', main_step p None = Some p' /\ can_climb p' k /\ rank (at_pc p') = S (rank (at_pc p)) /\
    conns p' = conns p /\ length (relays p') = length (relays p) /\ scraping p' = scraping p.
Proof.
  intros [C1 C2 C3 C4] Hk. assert (exists p', main_step p None = Some p') as [p' Hp].
  { unfold main_step, Close_step. rewrite C1. destruct (at_pc p) as [| | |[]|[]| | | |]; cbn in *; try (by eexists); try lia.
    - rewrite C2 by lia. by eexists.
    - rewrite C3 by lia. by eexists.
    - rewrite C4 by lia. by eexists. }
  exists p'. split; [done|]. destruct (main_step_rank _ _ _ Hp) as (Hr & Hs & He & _ & _ & Hc & Hsc & Hrl).
  assert (relays_done p' = relays_done p /\ length (relays p') = length (relays p)) as [Hd Hlen].
  { unfold relays_done. rewrite Hrl. case_decide; [|done]. by rewrite relays_done_cancel, length_fmap. }
  split; [|done]. constructor.
  - unfold cancelled in *. by rewrite Hs, He.
  - intros. rewrite Hsc. apply C2. lia.
  - intros. rewrite Hd. apply C3. lia.
  - intros. unfold conns_done. rewrite Hc. apply C4. lia.
Qed.

Lemma climb k n : forall p, can_climb p k -> (rank (at_pc p) + n = k)%nat -> (k <= 11)%nat ->
  exists p', run p (replicate n (LMain None)) = Some p' /\ rank (at_pc p') = k /\ cancelled p' = true /\
    conns p' = conns p /\ length (relays p') = length (relays p) /\ scraping p' = scraping p.
Proof.
  induction n as [|n IH]; intros p Hc Hr Hk.
  - exists p. split_and!; try done; [lia|by destruct Hc].
  - destruct (main_climbs p k Hc ltac:(lia)) as (p1 & Hp & Hc1 & Hr1 & E1 & E2 & E3).
    destruct (IH p1 Hc1 ltac:(lia) Hk) as (p' & Hrun & H1 & H2 & H3 & H4 & H5). exists p'.
    split; [|split_and!; congruence]. cbn [replicate run]. rewrite step_any by lia. cbn [goroutine_step]. by rewrite Hp.
Qed.

(** A relay whose context is done ends. *)
Definition to_copies (j : nat) (l : pump_label) : label :=
  match l with FromB a => LCopies j false a | FromA a => LCopies j true a | _ => LScraper end.
Definition from_copier (l : pump_label) : Prop := match l with FromA _ | FromB _ => True | _ => False end.

Lemma set_work_twice p cs rs cs' rs' : set_work (set_work p cs rs) cs' rs' = set_work p cs' rs'.
Proof. done. Qed.
Lemma set_work_id p : set_work p (conns p) (relays p) = p.
Proof. by destruct p. Qed.

Lemma insert_middle {X} (pre post : list X) x y : <[length pre := y]> (pre ++ x :: post) = pre ++ y :: post.
Proof. induction pre as [|z pre IH]; [done|]. cbn. f_equal. exact IH. Qed.

Lemma lift_relay ls : forall p pre r post r', (rank (at_pc p) < 12)%nat -> Forall from_copier ls -> pump_run r ls = Some r' ->
  run (set_work p (conns p) (pre ++ r :: post)) (to_copies (length pre) <$> ls) = Some (set_work p (conns p) (pre ++ r' :: post)).
Proof.
  induction ls as [|l ls IH]; intros p pre r post r' Hp Hf Hr; cbn [pump_run] in Hr; [by injection Hr as <-|].
  destruct (pump_step r l) as [r1|] eqn:E; [|done]. cbn in Hr. apply Forall_cons in Hf as [Hl Hf].
  cbn [fmap list_fmap run]. rewrite step_any by done.
  assert (goroutine_step (set_work p (conns p) (pre ++ r :: post)) (to_copies (length pre) l) = Some (set_work p (conns p) (pre ++ r1 :: post))) as ->.
  { destruct l as [a|a| |n]; try done; cbn [to_copies goroutine_step relays set_work]; rewrite list_lookup_middle by done; cbn [mbind option_bind];
      rewrite E; cbn; by rewrite insert_middle. }
  cbn [mbind option_bind]. by apply (IH p).
Qed.

Lemma relay_ends r : exists ls r', pump_run r ls = Some r' /\ relay_returned r' = true /\ (length ls <= 4)%nat /\
  Forall from_copier ls /\ forall j, Forall orderly (to_copies j <$> ls).
Proof.
  destruct (wind_up_ab r) as (r1 & E1 & H1 & Hba). destruct (wind_up_ba r1) as (r2 & E2 & H2 & Hab).
  exists ((FromA <$> wind_up (ab r)) ++ (FromB <$> wind_up (ba r1))), r2. split_and!.
  - by rewrite (pump_run_app _ _ _ _ E1).
  - unfold relay_returned. by rewrite Hab, H1, H2.
  - rewrite length_app, !length_fmap. pose proof (wind_up_length (ab r)). pose proof (wind_up_length (ba r1)). lia.
  - apply Forall_app. unfold wind_up. split; destruct (c_pc _); cbn; repeat constructor.
  - intros j. rewrite fmap_app. apply Forall_app. unfold wind_up. split; destruct (c_pc _); cbn; repeat (apply List.Forall_cons; [cbn; auto|]); constructor.
Qed.

Lemma relays_end todo : forall p ended, (rank (at_pc p) < 12)%nat -> Forall (fun r => relay_returned r = true) ended ->
  exists ls rs, run (set_work p (conns p) (ended ++ todo)) ls = Some (set_work p (conns p) rs) /\ Forall orderly ls /\
    (length ls <= 4 * length todo)%nat /\ Forall (fun r => relay_returned r = true) rs.
Proof.
  induction todo as [|r todo IH]; intros p ended Hp He.
  - exists [], ended. rewrite app_nil_r. split_and!; [done|constructor|cbn; lia|done].
  - destruct (relay_ends r) as (ls & r' & Hr & Hret & Hl & Hf & Ho).
    destruct (IH p (ended ++ [r']) Hp) as (ls2 & rs & Hr2 & Ho2 & Hl2 & Hd2); [apply Forall_app; split; [done|by apply Forall_singleton]|].
    rewrite <- (assoc_L (++)) in Hr2. exists ((to_copies (length ended) <$> ls) ++ ls2), rs. split_and!.
    + rewrite (run_app _ _ _ _ (lift_relay ls p ended r todo r' Hp Hf Hr)). exact Hr2.
    + by apply Forall_app.
    + rewrite length_app, length_fmap. cbn [length]. lia.
    + done.
Qed.

(** A connection whose context is done and whose handlers return is closed. *)
Lemma lift_conn ls : forall p pre s post s', (rank (at_pc p) < 12)%nat -> serving_run s ls = Some s' ->
  run (set_work p (pre ++ s :: post) (relays p)) (LConn (length pre) <$> ls) = Some (set_work p (pre ++ s' :: post) (relays p)).
Proof.
  induction ls as [|l ls IH]; intros p pre s post s' Hp Hr; cbn [serving_run] in Hr; [by injection Hr as <-|].
  destruct (serving_step s l) as [s1|] eqn:E; [|done]. cbn in Hr. cbn [fmap list_fmap run]. rewrite step_any by done.
  cbn [goroutine_step conns set_work]. rewrite list_lookup_middle by done. cbn [mbind option_bind]. rewrite E. cbn [mbind option_bind].
  rewrite insert_middle. by apply (IH p).
Qed.

Lemma handlers_return hs : forall str uni hd e, is_Some str -> is_Some uni ->
  exists s', serving_run (mkServing str uni hs hd e None) (replicate (length hs) (HandlerReturns 0) ++ [WaitReturns]) = Some s' /\ conn_done s' = true.
Proof.
  induction hs as [|h hs IH]; intros str uni hd e [x ->] [y ->]; [by eexists|].
  destruct (IH (Some x) (Some y) (hd ++ [h]) e) as (s' & Hr & Hd); [by eexists..|]. by exists s'.
Qed.

Lemma conn_ends s : exists ls s', serving_run s ls = Some s' /\ conn_done s' = true /\ (length ls <= conn_work s)%nat /\
  forall i, Forall orderly (LConn i <$> ls).
Proof.
  destruct (closed_with s) as [code|] eqn:Ec.
  { exists [], s. unfold conn_done. rewrite Ec. split_and!; [done..|cbn; lia|constructor]. }
  destruct s as [str uni hs hd e cl]. cbn in Ec. subst cl.
  set (l1 := match str with None => [AcceptStream (Err Canceled)] | Some _ => [] end).
  set (l2 := match uni with None => [AcceptUniStream (Err Canceled)] | Some _ => [] end).
  assert (exists str' uni' e', is_Some str' /\ is_Some uni' /\ forall ls,
    serving_run (mkServing str uni hs hd e None) (l1 ++ l2 ++ ls) = serving_run (mkServing str' uni' hs hd e' None) ls) as (str' & uni' & e' & Hs & Hu & Hr1).
  { destruct str as [x|], uni as [y|]; subst l1 l2; cbn; eexists _, _, _; (split; [by eexists|]); (split; [by eexists|]); reflexivity. }
  destruct (handlers_return hs str' uni' hd e' Hs Hu) as (s' & Hr & Hd).
  exists (l1 ++ l2 ++ replicate (length hs) (HandlerReturns 0) ++ [WaitReturns]), s'. split_and!; [by rewrite Hr1|done| |].
  - rewrite !length_app, length_replicate. unfold conn_work. cbn [handlers length]. subst l1 l2. destruct str, uni; cbn; lia.
  - intros i. rewrite !fmap_app, fmap_replicate. rewrite !Forall_app. split_and!; [subst l1; by destruct str; repeat constructor|subst l2; by destruct uni; repeat constructor| |by repeat constructor].
    by apply Forall_replicate.
Qed.

Lemma conns_end todo : forall p ended, (rank (at_pc p) < 12)%nat -> Forall (fun s => conn_done s = true) ended ->
  exists ls cs, run (set_work p (ended ++ todo) (relays p)) ls = Some (set_work p cs (relays p)) /\ Forall orderly ls /\
    (length ls <= sum_list_with conn_work todo)%nat /\ Forall (fun s => conn_done s = true) cs.
Proof.
  induction todo as [|s todo IH]; intros p ended Hp He.
  - exists [], ended. rewrite app_nil_r. split_and!; [done|constructor|cbn; lia|done].
  - destruct (conn_ends s) as (ls & s' & Hr & Hd & Hl & Ho).
    destruct (IH p (ended ++ [s']) Hp) as (ls2 & cs & Hr2 & Ho2 & Hl2 & Hd2); [apply Forall_app; split; [done|by apply Forall_singleton]|].
    rewrite <- (assoc_L (++)) in Hr2. exists ((LConn (length ended) <$> ls) ++ ls2), cs. split_and!.
    + rewrite (run_app _ _ _ _ (lift_conn ls p ended s todo s' Hp Hr)). exact Hr2.
    + by apply Forall_app.
    + rewrite length_app, length_fmap. cbn [sum_list_with]. lia.
    + done.
Qed.

(** Both together. *)
Lemma work_ends p : (rank (at_pc p) < 12)%nat ->
  exists ls cs rs, run p ls = Some (set_work p cs rs) /\ Forall orderly ls /\ (length ls <= work p)%nat /\
    relays_done (set_work p cs rs) = true /\ conns_done (set_work p cs rs) = true.
Proof.
  intros Hp. destruct (relays_end (relays p) p [] Hp) as (l1 & rs & R1 & O1 & L1 & D1); [constructor|].
  cbn [app] in R1. rewrite set_work_id in R1.
  destruct (conns_end (conns p) (set_work p (conns p) rs) [] Hp) as (l2 & cs & R2 & O2 & L2 & D2); [constructor|].
  exists (l1 ++ l2), cs, rs. split_and!.
  - rewrite (run_app _ _ _ _ R1). exact R2.
  - by apply Forall_app.
  - rewrite length_app. unfold work. lia.
  - unfold relays_done. cbn. rewrite forallb_forall. rewrite Forall_forall in D1. intros r Hr%list_elem_of_In. by apply D1.
  - unfold conns_done. cbn. rewrite forallb_forall. rewrite Forall_forall in D2. intros s Hs%list_elem_of_In. by apply D2.
Qed.

(** In the wait, a server that has not returned can return. *)
Lemma one_returns p v : at_pc p = EgWait -> closed (servers p v) = true ->
  exists ls p', Forall orderly ls /\ (length ls <= 1)%nat /\ run p ls = Some p' /\ at_pc p' = EgWait /\
    returned (servers p' v) = true /\ (forall v', closed (servers p' v') = closed (servers p v')) /\
    forall v', returned (servers p v') = true -> returned (servers p' v') = true.
Proof.
  intros Hpc Hc. destruct (returned (servers p v)) eqn:Hr; [exists [], p; split_and!; try done; cbn; lia|].
  eexists [LReturns v ErrServerClosed], _. split; [by apply Forall_singleton|]. split; [cbn; lia|].
  split; [cbn [run]; unfold step, goroutine_step; rewrite Hpc, Hr, Hc; reflexivity|]. split; [exact Hpc|]. cbn.
  split; [by rewrite decide_True|]. split; intros v'; case_decide as E; subst; done.
Qed.

Lemma wait_ends p : at_pc p = EgWait -> (forall v, closed (servers p v) = true) ->
  exists ls p' code, Forall orderly ls /\ (length ls <= 4)%nat /\ run p ls = Some p' /\ at_pc p' = Exit code.
Proof.
  intros Hpc Hc. destruct (one_returns p HTTP3 Hpc (Hc _)) as (l1 & p1 & F1 & L1 & R1 & P1 & D1 & C1 & K1).
  destruct (one_returns p1 HTTPS P1 ltac:(by rewrite C1)) as (l2 & p2 & F2 & L2 & R2 & P2 & D2 & C2 & K2).
  destruct (one_returns p2 HTTP P2 ltac:(by rewrite C2, C1)) as (l3 & p3 & F3 & L3 & R3 & P3 & D3 & C3 & K3).
  assert (all_returned p3 = true) as Hall by (unfold all_returned; cbn; by rewrite D3, (K3 _ D2), (K3 _ (K2 _ D1))).
  eexists (l1 ++ l2 ++ l3 ++ [LMain None]), _, _. split; [|split; [|split]].
  - rewrite !Forall_app. split_and!; try done. by apply Forall_singleton.
  - rewrite !length_app. cbn. lia.
  - rewrite (run_app _ _ _ _ R1), (run_app _ _ _ _ R2), (run_app _ _ _ _ R3). cbn [run]. rewrite step_any by (rewrite P3; cbn; lia).
    cbn [goroutine_step]. unfold main_step. rewrite P3, Hall. reflexivity.
  - reflexivity.
Qed.

(** To the wait for the scraper, past it, and to that for the relays. *)
Lemma to_relays p : cancelled p = true -> (rank (at_pc p) <= 11)%nat ->
  exists ls p', run p ls = Some p' /\ Forall orderly ls /\ (length ls <= 6 - rank (at_pc p))%nat /\ cancelled p' = true /\
    (5 <= rank (at_pc p') <= 11)%nat /\ (rank (at_pc p) <= rank (at_pc p'))%nat /\ work p' = work p.
Proof.
  intros Hc Hr. destruct (decide (5 <= rank (at_pc p)))%nat as [H5|H5]; [exists [], p; split_and!; try done; cbn; lia|].
  assert (forall n, Forall orderly (replicate n (LMain None))) as Ho by (intros n; by apply Forall_replicate).
  assert (forall q q', conns q' = conns q -> length (relays q') = length (relays q) -> work q' = work q) as Hw by (intros q q' E1 E2; unfold work; by rewrite E1, E2).
  assert (forall q, cancelled q = true -> (rank (at_pc q) <= 2 -> scraping q = false)%nat -> (rank (at_pc q) <= 5)%nat ->
    exists q', run q (replicate (5 - rank (at_pc q)) (LMain None)) = Some q' /\ rank (at_pc q') = 5%nat /\ cancelled q' = true /\ work q' = work q) as Hup.
  { intros q Hq Hs Hk. destruct (climb 5 (5 - rank (at_pc q)) q) as (q' & R & E1 & E2 & E3 & E4 & E5); [constructor; [done|intros [? _]; by apply Hs|lia..]|lia|lia|].
    exists q'. split_and!; try done. by apply Hw. }
  destruct (decide (rank (at_pc p) <= 2 /\ scraping p = true)%nat) as [[H2 Hs]|Hn].
  - destruct (climb 2 (2 - rank (at_pc p)) p) as (p1 & R1 & E1 & E2 & E3 & E4 & E5); [constructor; [done|lia..]|lia|lia|].
    assert (at_pc p1 = InStop) as Hpc by (destruct (at_pc p1) as [| | |[]|[]| | | |]; cbn in E1; try lia; done).
    set (p2 := mkProcess (at_pc p1) (signalled p1) (servers p1) (eg_err p1) (logged p1) false (conns p1) (relays p1) (h3_err p1)).
    assert (run p1 [LScraper] = Some p2) as R2 by (cbn [run]; unfold step, goroutine_step; rewrite Hpc, E5, Hs; unfold p2; by rewrite Hpc).
    destruct (Hup p2) as (p3 & R3 & F1 & F2 & F3); [done|done|cbn; lia|].
    exists (replicate (2 - rank (at_pc p)) (LMain None) ++ [LScraper] ++ replicate (5 - rank (at_pc p2)) (LMain None)), p3. split_and!; try done; try lia.
    + by rewrite (run_app _ _ _ _ R1), (run_app _ _ _ _ R2).
    + rewrite !Forall_app. split_and!; try apply Ho. by apply Forall_singleton.
    + rewrite !length_app, !length_replicate. cbn [length]. change (at_pc p2) with (at_pc p1). lia.
    + rewrite F3. by apply Hw.
  - destruct (Hup p) as (p3 & R3 & F1 & F2 & F3); [done|intros; destruct (scraping p); [exfalso; apply Hn|]; done|lia|].
    exists (replicate (5 - rank (at_pc p)) (LMain None)), p3. split_and!; try done; try lia. rewrite length_replicate. lia.
Qed.

Lemma shutdown_ends ls p : proc_ok ls p -> cancelled p = true -> (rank (at_pc p) <= 11)%nat ->
  exists ls' p' code, Forall orderly ls' /\ (length ls' <= 16 + work p)%nat /\ run p ls' = Some p' /\ at_pc p' = Exit code.
Proof.
  intros Hok Hc Hr. destruct (to_relays p Hc Hr) as (l1 & p1 & R1 & O1 & L1 & C1 & K1 & M1 & W1).
  destruct (work_ends p1 ltac:(lia)) as (l2 & cs & rs & R2 & O2 & L2 & D1 & D2). set (p2 := set_work p1 cs rs) in *.
  destruct (climb 11 (11 - rank (at_pc p2)) p2) as (p3 & R3 & E3 & _); [constructor; try done; cbn; lia|cbn; lia|lia|].
  assert (at_pc p3 = EgWait) as Hpc by (destruct (at_pc p3) as [| | |[]|[]| | | |]; cbn in E3; try lia; done).
  assert (run p (l1 ++ l2 ++ replicate (11 - rank (at_pc p2)) (LMain None)) = Some p3) as R by by rewrite (run_app _ _ _ _ R1), (run_app _ _ _ _ R2).
  pose proof (run_ok _ _ _ _ Hok R) as Hok3.
  destruct (wait_ends p3 Hpc) as (l4 & p4 & code & F4 & L4 & R4 & P4).
  { intros v. apply (po_closed _ _ Hok3). rewrite Hpc. destruct v; cbn; lia. }
  exists ((l1 ++ l2 ++ replicate (11 - rank (at_pc p2)) (LMain None)) ++ l4), p4, code. split_and!; [| |by rewrite (run_app _ _ _ _ R)|done].
  - rewrite !Forall_app. split_and!; try done. by apply Forall_replicate.
  - rewrite !length_app, length_replicate. change (at_pc p2) with (at_pc p1). lia.
Qed.

(** The waiter of [Relay] does not look at the context of the server. *)
Lemma waiter_waits {A D} `{CA.SessionAuthorityLaws A D} (w : Registar.Server) sid str ch c :
  str ∉ Registar.ended w -> ch ∉ Registar.ready_closed w ->
  Registar.task_step (Registar.Close w) (Registar.TRelayWait sid str ch) c = None.
Proof.
  intros Hs Hc. assert (forall ks w, Registar.ended (foldl Registar.Close_key w ks) = Registar.ended w) as He.
  { induction ks as [|k ks IH]; [done|]. intros v. cbn. by rewrite IH. }
  destruct (Registar.Close_spec w) as (_ & _ & _ & _ & _ & _ & Hrc & _).
  destruct c; cbn; try done; rewrite ?Hrc; unfold Registar.Close; rewrite ?He; by rewrite decide_False.
Qed.

(** ** What the goroutines return *)

(** The goroutine of the registar ends without an error exactly when an accept
    failed after the server had been closed, or with the very sentinel. *)
Lemma go_func_registar {A} (resolve : string -> result goerror A) listen early addr accepts conns e :
  ListenAndServe resolve listen early addr accepts = (conns, Some e) ->
  go_func HTTP3 e = None ->
  Is e "http.ErrServerClosed" = true /\
  (e = ErrServerClosed \/
   (exists a, resolve a = Err e) \/ (exists a, listen a = Err e) \/ (exists c, early c = Some e) \/ (Err e, false) ∈ accepts).
Proof.
  intros Hl Hg. split; [unfold go_func in Hg; by destruct (Is e _)|]. unfold ListenAndServe in Hl.
  set (a := if String.eqb addr "" then _ else _) in Hl.
  destruct (resolve a) as [udp|err] eqn:E1; [|injection Hl as <- <-; right; left; by exists a].
  destruct (listen udp) as [conn|err] eqn:E2; [|injection Hl as <- <-; right; right; left; by exists udp].
  unfold Serve in Hl. destruct (early conn) as [err|] eqn:E3; [injection Hl as <- <-; right; right; right; left; by exists conn|].
  apply Serve_loop_spec in Hl as (pre & post & -> & _ & err & c & rest & -> & ->). destruct c; [by left|].
  right. right. right. right. set_solver.
Qed.

(** * Correctness *)

(** C22. The process of the registar.  Whatever the servers and the signals do:
    no server is told to close before a signal has come or a server has failed;
    they are closed one after the other, after the admin page; when the process
    exits every server has been closed and has returned, and the code is 0
    exactly when none of them failed, in which case a signal has come.  The TCP
    servers are told to close only after [Close] of the registar has returned,
    which has found all relays ended, and then all connections closed, with
    every handler of their streams returned.  So as long as the handlers of one
    connection do not all return, the process neither goes on to the TCP servers
    nor exits, whatever else happens; and a handler of [Relay] that waits for
    the other side is none that [Close] makes return: its select has no case
    for the context of the server.  Once a signal has come or a server has
    failed, sixteen steps and those of the relays and connections that run, at
    most four for a relay and three and one for each handler for a connection,
    are enough to the exit, if handlers return, receives and accepts under a
    context that is done fail, and closed servers return.  The
    registar's goroutine reports no error exactly when what its server returned
    is that it is closed, and every connection it serves finds itself in its
    context, however often [init] runs. *)
Theorem shutdown (ls : list label) (p : process) (Hrun : run start ls = Some p) :
  (at_pc p <> Waiting -> LSignal ∈ ls \/ failures ls <> []) /\
  (forall v, closed (servers p v) = true -> (at_pc p <> Waiting /\ at_pc p <> StopAdmin /\ at_pc p <> InStop)) /\
  ((closed (servers p HTTPS) = true -> closed (servers p HTTP3) = true) /\
   (closed (servers p HTTP) = true -> closed (servers p HTTPS) = true)) /\
  (forall code, at_pc p = Exit code ->
     (forall v, closed (servers p v) = true /\ returned (servers p v) = true) /\
     (code = 0 <-> failures ls = []) /\ (code = 0 -> LSignal ∈ ls)) /\
  (closed (servers p HTTPS) = true ->
     (exists ls1 err ls2 p1, ls = ls1 ++ LMain err :: ls2 /\ run start ls1 = Some p1 /\ at_pc p1 = WaitRelays /\
        Forall (fun r => relay_returned r = true) (relays p1)) /\
     (exists ls1 err ls2 p1, ls = ls1 ++ LMain err :: ls2 /\ run start ls1 = Some p1 /\ at_pc p1 = WaitConns /\
        Forall (fun s => handlers s = [] /\ is_Some (closed_with s)) (conns p1))) /\
  (forall i s ls' p', conns p !! i = Some s -> (rank (at_pc p) <= rank WaitConns)%nat ->
     (handlers_end i ls' < length (handlers s))%nat -> run p ls' = Some p' ->
     closed (servers p' HTTPS) = false /\ closed (servers p' HTTP) = false /\ forall code, at_pc p' <> Exit code) /\
  (forall A D (HA : CA.SessionAuthority A D) (HL : CA.SessionAuthorityLaws A D) (w : Registar.Server (A := A)) sid str ch c,
     str ∉ Registar.ended w -> ch ∉ Registar.ready_closed w ->
     Registar.task_step (Registar.Close w) (Registar.TRelayWait sid str ch) c = None) /\
  (ctx_done p = true -> Forall (fun r => is_Some (ctx_err r)) (relays p)) /\
  (LSignal ∈ ls \/ failures ls <> [] -> (forall code, at_pc p <> Exit code) ->
     exists ls' p' code, Forall orderly ls' /\ (length ls' <= 16 + work p)%nat /\ run p ls' = Some p' /\ at_pc p' = Exit code) /\
  (forall A (resolve : string -> result goerror A) listen early addr accepts conns e,
     ListenAndServe resolve listen early addr accepts = (conns, Some e) -> go_func HTTP3 e = None ->
     Is e "http.ErrServerClosed" = true /\
     (e = ErrServerClosed \/ (exists a, resolve a = Err e) \/ (exists a, listen a = Err e) \/ (exists c, early c = Some e) \/ (Err e, false) ∈ accepts)) /\
  (forall s n ctx c, (0 < n)%nat -> once_done s = false ->
     (fun f => f ctx c) <$> ConnContext (Nat.iter n init s) = Some (Some c)).
Proof.
  pose proof (run_ok ls [] start p start_ok Hrun) as Hok. cbn [app] in Hok. pose proof Hok as [H1 H2 H3 H4 H5 H6 H7].
  assert (cancelled p = true <-> LSignal ∈ ls \/ failures ls <> []) as Hcanc.
  { unfold cancelled. rewrite orb_true_iff, H4, H3. destruct (failures ls); naive_solver. }
  split_and!.
  - intros Hw. by apply Hcanc, H1.
  - intros v Hv. apply H2 in Hv. split_and!; intros E; rewrite E in Hv; destruct v; cbn in Hv; lia.
  - rewrite !H2. cbn. lia.
  - rewrite !H2. cbn. lia.
  - intros code E. destruct (H5 code E) as [Hret ->]. split_and!.
    + intros v. split; [apply H2; rewrite E; destruct v; cbn; lia|apply Hret].
    + rewrite H3. by destruct (failures ls); split.
    + rewrite H3. intros Hz. assert (failures ls = []) as Hf by by destruct (failures ls).
      destruct (proj1 Hcanc) as [|]; [apply H1; by rewrite E|done|done].
  - intros Hcl%H2. cbn in Hcl. split; [apply (waited_relays ls p Hrun)|apply (waited_conns ls p Hrun)]; cbn; lia.
  - intros i s ls' p' Hi Hk Hn Hr'. pose proof (run_ok _ _ _ _ Hok Hr') as [_ G2 _ _ _ _ _].
    assert (closed_with s = None) as Hc.
    { rewrite Forall_lookup in H6. destruct (H6 i s Hi) as (acc & Ha). destruct (closed_with s) as [code|] eqn:Ec; [|done].
      destruct (so_closed _ _ Ha code Ec) as (Hh & _). rewrite Hh in Hn. cbn in Hn. lia. }
    pose proof (handler_keeps i ls' p p' s Hr' Hk Hi Hc Hn) as Hk'. cbn in Hk'. split_and!.
    + apply not_true_iff_false. rewrite G2. cbn. lia.
    + apply not_true_iff_false. rewrite G2. cbn. lia.
    + intros code E. rewrite E in Hk'. cbn in Hk'. lia.
  - intros A D HA HL w sid str ch c. apply waiter_waits.
  - done.
  - intros Hc Hne. eapply shutdown_ends; [done|by apply Hcanc|]. destruct (at_pc p) as [| | |[]|[]| | | |code]; cbn; try lia. by destruct (Hne code).
  - intros A resolve listen early addr accepts conns e. apply go_func_registar.
  - intros s n ctx c Hn Ho. by apply init_conn.
Qed.

(** A connection with a stream whose handler starts a relay, a signal, and an
    orderly end; the same, before the handler has returned. *)
Definition demo_waits : list label :=
  [LAccepts None; LConn 0 (AcceptStream (Ok 7%nat)); LPairs 0; LSignal; LMain None; LMain None; LScraper; LMain None; LMain None; LMain None;
   LConn 0 (AcceptStream (Err Canceled)); LCopies 0 true (Fails Canceled); LConn 0 (AcceptUniStream (Err Canceled));
   LCopies 0 false (Fails Canceled); LMain None].
Definition demo_signal : list label :=
  demo_waits ++ [LConn 0 (HandlerReturns 0); LConn 0 WaitReturns] ++ replicate 5 (LMain None) ++
  [LReturns HTTP ErrServerClosed; LReturns HTTP3 ErrServerClosed; LReturns HTTPS ErrServerClosed; LMain None].

Lemma shutdown_witness :
  (exists p, run start demo_signal = Some p /\ at_pc p = Exit 0 /\ forall v, closed (servers p v) = true /\ returned (servers p v) = true) /\
  exists p, run start demo_waits = Some p /\ at_pc p = WaitConns /\
    forall ls p', handlers_end 0 ls = 0%nat -> run p ls = Some p' -> forall code, at_pc p' <> Exit code.
Proof.
  split.
  - destruct (run start demo_signal) as [p|] eqn:E; [|vm_compute in E; discriminate E].
    assert (at_pc <$> run start demo_signal = Some (Exit 0)) as Hpc by (vm_compute; reflexivity).
    rewrite E in Hpc. cbn in Hpc. injection Hpc as Hpc. exists p. split; [reflexivity|]. split; [exact Hpc|].
    exact (proj1 (proj1 (proj2 (proj2 (proj2 (shutdown demo_signal p E)))) 0 Hpc)).
  - destruct (run start demo_waits) as [p|] eqn:E; [|vm_compute in E; discriminate E].
    assert ((fun p => (at_pc p, handlers <$> conns p !! 0%nat)) <$> run start demo_waits = Some (WaitConns, Some [7%nat])) as Hpc by (vm_compute; reflexivity).
    rewrite E in Hpc. cbn in Hpc. injection Hpc as Hpc Hh. exists p. split; [reflexivity|]. split; [exact Hpc|].
    intros ls p' Hn Hr. destruct (conns p !! 0%nat) as [s|] eqn:Es; [|discriminate Hh]. injection Hh as Hh.
    pose proof (shutdown demo_waits p E) as (_ & _ & _ & _ & _ & Hkeep & _).
    apply (Hkeep 0%nat s ls p' Es); [rewrite Hpc; cbn; lia|rewrite Hn, Hh; cbn; lia|exact Hr].
Defined.
