(* ===== verification/Setup.v ===== *)
(** The set-up of [cmd/registar]: [main] of [main.go] up to its servers, with
    [newTLSConfig].

    The configuration is parsed, the authority and the certificate are made, the
    admin page is started; what comes out are the three servers, with the
    handlers of [Main], which [Process] runs.  The certificate manager of ACME is
    a library's: of it the configuration is kept. *)
From S2P Require Import Prelude Netip Errors Auth CA Http Forms RateLimit Config Hostname Router Main.
From S2P Require Admin Cert Models.
Local Open Scope Z_scope.

(** * newTLSConfig *)

(** [type certConfig struct], whose domains are in [config], and the addresses to
    listen on. *)
Record certConfig := mkCertConfig { SelfSigned : bool; Dir : str }.
Record listens := mkListens { HTTPListen : str; HTTPSListen : str }.

(** [autocert.Manager], with its [DirCache] and its [HostWhitelist]. *)
Record Manager := mkManager { CacheDir : str; Whitelist : list str }.

(** A [tls.Config] of a server: its certificates, and what it offers. *)
Inductive certificates := Certificates (chain : list str) (key : keyid) | GetCertificate (m : Manager).
Record server_TLS := mkServerConf { certs : certificates; protos : list string }.

(** [Manager.TLSConfig], as it is documented: HTTP/2 and the ACME challenge. *)
Definition manager_TLSConfig (m : Manager) : server_TLS := mkServerConf (GetCertificate m) ["h2"; "http/1.1"; "acme-tls/1"]%string.

(** The text of bytes, where a field of a certificate is one. *)
Definition string_of_bytes (b : str) : string :=
  String.string_of_list_ascii (map (fun c => Ascii.ascii_of_nat (Z.to_nat c)) b).

Lemma bytes_of_string_of_bytes s : bytes_ok s -> bytes_of_string (string_of_bytes s) = s.
Proof.
  unfold bytes_of_string, string_of_bytes. rewrite String.list_ascii_of_string_of_list_ascii, map_map.
  induction 1 as [|c s Hc Hs IH]; [done|]. cbn [map]. rewrite IH. f_equal. unfold is_byte in Hc.
  rewrite Ascii.nat_ascii_embedding; lia.
Qed.

Lemma domains_text l : Forall bytes_ok l -> bytes_of_string <$> (string_of_bytes <$> l) = l.
Proof. induction 1 as [|d l Hd Hl IH]; [done|]. cbn. by rewrite IH, bytes_of_string_of_bytes. Qed.

(** The choice of [crypto/tls] between the protocols of server and client. *)
Definition negotiate (server client : list string) : option string := snd <$> list_find (.∈ client) server.

Section setup.
Variable Raw : Certificate -> str.
Variable ParseCertificate : str -> option Certificate.
Variable pem_Encode : str -> str -> str.
Variable pem_Decode : str -> option (str * str).
Variable AddYear : Z -> Z.

(** What the system gives while the certificates are made: keys, serial numbers
    and times, and the results of files. *)
Record draws := mkDraws { k_root : keyid; d_root : draw; k_ca : keyid; k_srv : keyid; d_ca : draw; d_srv : draw; d_cert : draw; d_io : Cert.io }.

(** [newTLSConfig], with the file it writes; an error is an [abort]. *)
Definition newTLSConfig (cc : certConfig) (cfg : config) (ds : draws) : result goerror (server_TLS * option Manager * option str) :=
  if SelfSigned cc then
    '(t, file) ← wrap_err "create self signed cert"
      (Cert.selfSigned Raw ParseCertificate pem_Encode AddYear (string_of_bytes <$> Domains cfg) (k_ca ds) (k_srv ds) (d_ca ds) (d_srv ds) (d_cert ds) (d_io ds));
    Ok (mkServerConf (Certificates (Cert.st_certificate t) (Cert.st_key t)) (Cert.st_protos t), None, Some file)
  else
    let mgr := mkManager (Dir cc) (Domains cfg) in
    Ok (manager_TLSConfig mgr, Some mgr, None).

(** * main *)

(** [NewAdmin] as far as it can panic: the division for the ring, [make] of a
    negative length, and the ticker of its goroutine. *)
Definition NewAdmin (scrapeInterval : Z) : outcome nat :=
  if scrapeInterval =? 0 then Panic
  else
    let size := Z.quot Admin.bwWindow scrapeInterval in
    if size <? 0 then Panic
    else if scrapeInterval <=? 0 then Panic
    else Ret (Z.to_nat size).

Section main.
Context {D L R F : Type} `{TokenBucket L R}.
Local Abbreviation state := (@state D L).
Variable x : outside (F := F).
Variable manager_HTTPHandler : Manager -> Middleware state.   (* Manager.HTTPHandler *)

(** A server that is ready to serve. *)
Record server_ready := mkReady { addr : str; tls : option server_TLS; handler : Handler state }.

(** What [main] has made when it starts the errgroup. *)
Record registar := mkRegistar {
  authority : Authority;
  ring : nat;                       (* the buckets of the admin page *)
  srvHTTP3 : server_ready;
  advertiseHTTP3Srv : server_ready;
  redirectHTTPSSrv : server_ready;
  ca_file : option str;             (* written to ca.crt *)
}.

(** [abort] exits with 1. *)
Inductive setup := Aborted (code : Z) | Started (r : registar).

Definition main (env : option config) (cc : certConfig) (ls : listens) (ds : draws) : outcome setup :=
  match parseConfig env with
  | None => Ret (Aborted 1)
  | Some cfg =>
      match wrap_err "create root CA" (NewRootCA (k_root ds) (d_root ds)) with
      | Err _ => Ret (Aborted 1)
      | Ok rootCA =>
          match newTLSConfig cc cfg ds with
          | Err _ => Ret (Aborted 1)
          | Ok (tlsConf, acmeMgr, file) =>
              size ← NewAdmin (ScrapeInterval cfg);
              Ret (Started (mkRegistar (NewAuthority rootCA) size
                (mkReady (HTTPSListen ls) (Some (mkServerConf (certs tlsConf) [NextProtoH3])) (registar_handler x cfg))
                (mkReady (HTTPSListen ls) (Some tlsConf) (advertise_handler x cfg))
                (mkReady (HTTPListen ls) None (redirect_handler x cfg (manager_HTTPHandler <$> acmeMgr)))
                file))
          end
      end
  end.

(** ** Lemmas *)

Lemma NewAdmin_spec interval :
  (0 < interval -> NewAdmin interval = Ret (Admin.ring_size interval)) /\ (interval <= 0 -> NewAdmin interval = Panic).
Proof.
  unfold NewAdmin, Admin.ring_size. split; intros Hi.
  - rewrite (proj2 (Z.eqb_neq interval 0)) by lia. rewrite Z.quot_div_nonneg by (unfold Admin.bwWindow; lia).
    assert (0 <= Admin.bwWindow / interval) by (apply Z.div_pos; unfold Admin.bwWindow; lia).
    rewrite (proj2 (Z.ltb_ge _ _)) by done. by rewrite (proj2 (Z.leb_gt _ _)) by lia.
  - destruct (Z.eqb_spec interval 0); [done|]. destruct (_ <? 0); [done|]. by rewrite (proj2 (Z.leb_le _ _)) by lia.
Qed.

(** The certificate of the servers, for a client that was given the file. *)
Lemma setup_trusted `{!Cert.Encodings Raw ParseCertificate pem_Encode pem_Decode AddYear} cc cfg ds t mgr file path
    (read_file : str -> option str) (Hs : SelfSigned cc = true) (Hbytes : Forall bytes_ok (Domains cfg)) (Ht : newTLSConfig cc cfg ds = Ok (t, mgr, file))
    (Hpath : path <> []) (Hfile : read_file path = file)
    (Hd1 : d_now1 (d_ca ds) <= d_now1 (d_cert ds)) (Hd2 : d_now2 (d_cert ds) <= d_now2 (d_ca ds) + day) :
  mgr = None /\ exists ca chain, certs t = Certificates chain (k_srv ds) /\
    Config.loadTLSConfig read_file pem_Decode ParseCertificate path = Some (mkTLS (Some [ca]) [NextProtoH3]) /\
    (forall name now, Cert.VerifyServer ParseCertificate [ca] name chain now
       = VerifyHostname (Domains cfg) name && (d_now1 (d_cert ds) <=? now) && (now <=? d_now2 (d_cert ds) + 3 * hour)) /\
    (forall c name now, SignedBy c <> k_ca ds -> ExtKeyUsageServerAuth c = true ->
       Cert.VerifyServer ParseCertificate [ca] name [Raw c] now = false).
Proof.
  unfold newTLSConfig in Ht. rewrite Hs in Ht.
  destruct (Cert.selfSigned _ _ _ _ _ _ _ _ _ _ _) as [[srv f]|e] eqn:E; [|done]. injection Ht as <- <- <-. split; [done|].
  destruct (Cert.selfsigned_client _ _ _ _ _ _ _ _ _ _ _ _ srv f path read_file E Hfile Hpath Hd1 Hd2) as (ca & Hl & Hk & Hv & Hf).
  rewrite (domains_text _ Hbytes) in Hv. exists ca, (Cert.st_certificate srv). cbn. by rewrite Hk.
Qed.

(** The secret is the file's, or the variable's, without blanks; nothing asks
    that there is one. *)
Lemma parseConfig_secret env cfg : parseConfig (Some env) = Some cfg ->
  (cSecret cfg = [] <-> TrimSpace (SecretFromFile env) = [] /\ TrimSpace (cSecret env) = []).
Proof.
  unfold parseConfig. cbn [mbind option_bind]. case_decide; [done|]. intros [= <-]. cbn [cSecret].
  destruct (decide (TrimSpace (SecretFromFile env) <> [])) as [Hf|Hf].
  - tauto.
  - apply dec_stable in Hf. tauto.
Qed.

(** * Property *)

End main.
End setup.

(** * Witness *)

Definition demo_env : config := mkConfig [] [] 100 1 443 443 [bytes_of_string "star.example"] [] [112] Admin.bwWindow.

Definition demo_draws : draws :=
  mkDraws (RegistarKey 9) (mkDraw (Ok 1) (Ok ()) 100 100) (RegistarKey 0) (RegistarKey 1)
    (mkDraw (Ok 1) (Ok ()) 100 100) (mkDraw (Ok 1) (Ok ()) 100 100) (mkDraw (Ok 2) (Ok ()) 101 101)
    (Cert.mkIO (Ok ()) (Ok ()) (Ok ()) (Ok ())).

#[local] Existing Instance Cert.encodings1.

Definition aborts (r : outcome (setup (D := draw * draw) (L := bucket))) : bool := match r with Ret (Aborted _) => true | _ => false end.

