(* ===== verification/Logs.v ===== *)
(** The log stream of the web page: [handleLogs] of
    [internal/webserver/server.go], over the broadcaster of [Sse].

    The broadcaster and any number of requests to [/logs] run concurrently.  A
    request is at a program counter; its steps are the subscription with the
    replay, one round of the select, and the deferred [Unsubscribe].  What it
    has written is kept with it, a line for every [Fprintf]. *)
From S2P Require Import Prelude Ring Sse.
From S2P Require Events.

(** * The machine *)

(** Before the flusher is looked up, in the select, before the deferred
    [Unsubscribe], and returned, with the channel it had if it had one. *)
Inductive pc := Arrived | Selecting (ch : nat) | Leaving (ch : nat) | Returned (ch : option nat).

(** A request: whether its writer is a [Flusher], whether its client has gone,
    the history it was given, the lines written after it, and the status; and
    what had been logged since the last reset when it subscribed. *)
Record reader := mkReader {
  r_pc : pc;
  r_flusher : bool;
  r_gone : bool;
  r_history : list string;
  r_written : list string;
  r_status : option Z;
  r_recent : list string;
}.

Definition new_reader (flusher : bool) : reader := mkReader Arrived flusher false [] [] None [].
Definition at_pc (r : reader) (p : pc) : reader :=
  mkReader p (r_flusher r) (r_gone r) (r_history r) (r_written r) (r_status r) (r_recent r).

Record logs := mkLogs { sse : SSEHandler; hist : trace; readers : list reader }.

Definition start (cap : nat) : logs := mkLogs (NewSSEHandler cap) (mkTrace [] [] ∅) [].

(** What the select of a request finds ready. *)
Inductive ready := Line | Gone.

Definition set_reader (l : logs) (i : nat) (r : reader) : logs :=
  mkLogs (sse l) (hist l) (<[i := r]> (readers l)).

(** [handleLogs], one step. *)
Definition handleLogs (l : logs) (i : nat) (r : reader) (x : ready) : option (outcome logs) :=
  match r_pc r with
  | Arrived =>
      if r_flusher r then Some (
        '(h, (history, ch)) ← Subscribe (sse l);
        Ret (mkLogs h (mkTrace (lines (hist l)) (recent (hist l)) (<[ch := length (lines (hist l))]> (subs_at (hist l))))
               (<[i := mkReader (Selecting ch) true (r_gone r) history [] (Some 200%Z) (recent (hist l))]> (readers l))))
      else Some (Ret (set_reader l i (mkReader (Returned None) false (r_gone r) [] [] (Some 500%Z) [])))
  | Selecting ch =>
      match x with
      | Line =>
          '(h, o) ← Receive (sse l) ch;
          Some (Ret (mkLogs h (hist l) (<[i := match o with
            | Some line => mkReader (Selecting ch) (r_flusher r) (r_gone r) (r_history r) (r_written r ++ [line]) (r_status r) (r_recent r)
            | None => at_pc r (Leaving ch)
            end]> (readers l))))
      | Gone => if r_gone r then Some (Ret (set_reader l i (at_pc r (Leaving ch)))) else None
      end
  | Leaving ch =>
      Some (h ← Unsubscribe (sse l) ch; Ret (mkLogs h (hist l) (<[i := at_pc r (Returned (Some ch))]> (readers l))))
  | Returned _ => None
  end.

(** A record is logged, the log is reset, a request comes, its client goes, or
    it makes a step. *)
Inductive label := LLog (line : string) | LReset | LConnect (flusher : bool) | LGone (i : nat) | LStep (i : nat) (x : ready).

Definition step (l : logs) (a : label) : option (outcome logs) :=
  match a with
  | LLog line => Some ('(h, t) ← apply_op (sse l) (hist l) (OpHandle line); Ret (mkLogs h t (readers l)))
  | LReset => Some ('(h, t) ← apply_op (sse l) (hist l) OpReset; Ret (mkLogs h t (readers l)))
  | LConnect flusher => Some (Ret (mkLogs (sse l) (hist l) (readers l ++ [new_reader flusher])))
  | LGone i =>
      r ← readers l !! i;
      Some (Ret (set_reader l i (mkReader (r_pc r) (r_flusher r) true (r_history r) (r_written r) (r_status r) (r_recent r))))
  | LStep i x => r ← readers l !! i; handleLogs l i r x
  end.

(** A schedule: [None] when a step is not possible. *)
Fixpoint run (l : logs) (xs : list label) : option (outcome logs) :=
  match xs with
  | [] => Some (Ret l)
  | x :: xs => match step l x with Some (Ret l') => run l' xs | Some Panic => Some Panic | None => None end
  end.

(** What the client of a request has been sent. *)
Definition sent (r : reader) : list Z :=
  flat_map (fun line => Events.frame (bytes_of_string line)) (r_history r ++ r_written r).

(** * Invariant *)

(** The channel of a request, and the one it still has to give back. *)
Definition had (r : reader) : option nat :=
  match r_pc r with Selecting ch | Leaving ch => Some ch | Returned o => o | Arrived => None end.
Definition owned (r : reader) : option nat :=
  match r_pc r with Selecting ch | Leaving ch => Some ch | _ => None end.

(** What a request has got: of its channel, or nothing. *)
Definition reader_ok (cap : nat) (l : logs) (r : reader) : Prop :=
  match had r with
  | Some ch =>
      r_flusher r = true /\ r_status r = Some 200%Z /\ r_history r = lastn cap (r_recent r) /\
      exists c, chans (sse l) !! ch = Some c /\ r_written r = ch_received c
  | None =>
      r_history r = [] /\ r_written r = [] /\ (r_pc r <> Arrived -> r_flusher r = false /\ r_status r = Some 500%Z)
  end.

Record logs_ok (cap : nat) (l : logs) : Prop := {
  lo_sse : sse_inv cap (sse l) (hist l);
  lo_reader : forall i r, readers l !! i = Some r -> reader_ok cap l r;
  lo_owner : forall s, s ∈ subscribers (sse l) -> exists i r, readers l !! i = Some r /\ owned r = Some s;
  lo_own : forall i j r r' ch, readers l !! i = Some r -> readers l !! j = Some r' ->
    had r = Some ch -> had r' = Some ch -> i = j;
}.

Lemma logs_start_ok cap : (0 < cap)%nat -> logs_ok cap (start cap).
Proof. intros Hc. constructor; cbn; [by apply new_inv|done|set_solver|done]. Qed.

(** Channels keep what has been received from them. *)
Definition same_received (h h' : SSEHandler) : Prop :=
  forall s c, chans h !! s = Some c -> exists c', chans h' !! s = Some c' /\ ch_received c' = ch_received c.

Lemma updated_received f subs cs cs' : (forall c, ch_received (f c) = ch_received c) -> updated f subs cs cs' ->
  forall s c, cs !! s = Some c -> exists c', cs' !! s = Some c' /\ ch_received c' = ch_received c.
Proof.
  intros Hf Hu s c Hc. rewrite Hu. case_decide; rewrite Hc; cbn; eexists; (split; [done|]); [apply Hf|done].
Qed.

Lemma Handle_received cap h t line h' : sse_inv cap h t -> Handle h line = Ret h' ->
  same_received h h' /\ subscribers h' = subscribers h.
Proof.
  intros Hi Hh. unfold Handle in Hh. destruct (add_wf _ _ line (si_ring _ _ _ Hi)) as (rb & E & _). rewrite E in Hh. cbn in Hh.
  destruct (broadcast_updated line (elements (subscribers h)) (chans h)) as (cs & Eb & Hu);
    [apply NoDup_elements|by eapply open_subs|]. rewrite Eb in Hh. injection Hh as <-. split; [|done].
  intros s c Hc. eapply updated_received; [|exact Hu|exact Hc]. intros c0. unfold pushed. by case_decide.
Qed.

Lemma Reset_received cap h t h' : sse_inv cap h t -> Reset h = Ret h' -> same_received h h' /\ subscribers h' = ∅.
Proof.
  intros Hi Hh. unfold Reset in Hh.
  destruct (close_all_updated (elements (subscribers h)) (chans h)) as (cs & Eb & Hu);
    [apply NoDup_elements|by eapply open_subs|]. rewrite Eb in Hh. injection Hh as <-. split; [|done].
  intros s c Hc. by eapply updated_received; [|exact Hu|exact Hc].
Qed.

(** A reset leaves every channel closed, with what is queued in it. *)
Lemma reset_chan cap h t h' ch c : sse_inv cap h t -> Reset h = Ret h' -> chans h !! ch = Some c ->
  exists c', chans h' !! ch = Some c' /\ ch_buf c' = ch_buf c /\ ch_received c' = ch_received c /\ ch_closed c' = true.
Proof.
  intros Hi Hh Hc. unfold Reset in Hh.
  destruct (close_all_updated (elements (subscribers h)) (chans h)) as (cs & Eb & Hu);
    [apply NoDup_elements|by eapply open_subs|]. rewrite Eb in Hh. injection Hh as <-. cbn [chans]. rewrite Hu, Hc.
  destruct (decide (ch ∈ elements (subscribers h))) as [Hin|Hin]; [by exists (closed_of c)|]. exists c. split_and!; try done.
  destruct (ch_closed c) eqn:E; [done|]. destruct Hin. apply elem_of_elements, (si_open _ _ _ Hi). by exists c.
Qed.

Lemma Unsubscribe_received h s h' : Unsubscribe h s = Ret h' ->
  same_received h h' /\ forall s', s' ∈ subscribers h' -> s' ∈ subscribers h /\ s' <> s.
Proof.
  unfold Unsubscribe. case_decide as Hs; [|intros [= <-]; split; [intros s' c Hc; by exists c|set_solver]].
  unfold close_chan. destruct (chans h !! s) as [c|] eqn:Hc; [cbn|done]. destruct (ch_closed c); [done|]. intros [= <-]. cbn.
  split; [|set_solver]. intros s' c' Hc'. cbn [chans]. destruct (decide (s = s')) as [<-|Hne].
  - rewrite lookup_insert_eq. simplify_eq. by eexists.
  - rewrite lookup_insert_ne by done. by exists c'.
Qed.

Lemma Receive_received h s h' o : Receive h s = Some (h', o) ->
  subscribers h' = subscribers h /\ (forall s', s' <> s -> chans h' !! s' = chans h !! s') /\
  exists c c', chans h !! s = Some c /\ chans h' !! s = Some c' /\
    ch_received c' = match o with Some line => ch_received c ++ [line] | None => ch_received c end.
Proof.
  unfold Receive. destruct (chans h !! s) as [c|] eqn:Hc; [cbn|done]. destruct (ch_buf c) as [|line rest].
  - destruct (ch_closed c); [|done]. intros [= <- <-]. split; [done|]. split; [done|]. by exists c, c.
  - intros [= <- <-]. cbn. split; [done|]. split; [intros s' Hne; by rewrite lookup_insert_ne|].
    eexists _, _. split; [done|]. split; [by rewrite lookup_insert_eq|done].
Qed.

(** A step that leaves the requests alone, and one of a single request. *)
Lemma logs_ok_keep cap l h t : logs_ok cap l -> sse_inv cap h t -> same_received (sse l) h ->
  (forall s, s ∈ subscribers h -> s ∈ subscribers (sse l)) -> logs_ok cap (mkLogs h t (readers l)).
Proof.
  intros [H1 H2 H3 H4] Hi Hr Hs. constructor; cbn; [done| |by intros s Hin%Hs; apply H3|done].
  intros i r Hri. specialize (H2 i r Hri). unfold reader_ok in *. destruct (had r) as [ch|]; [|done].
  destruct H2 as (E1 & E2 & E3 & c & Hc & E4). destruct (Hr ch c Hc) as (c' & Hc' & Erc).
  split; [done|]. split; [done|]. split; [done|]. exists c'. split; [done|]. by rewrite Erc.
Qed.

Lemma logs_ok_reader cap l i r r' h t : logs_ok cap l -> readers l !! i = Some r -> sse_inv cap h t ->
  (forall j r0 ch c, j <> i -> readers l !! j = Some r0 -> had r0 = Some ch -> chans (sse l) !! ch = Some c ->
     exists c', chans h !! ch = Some c' /\ ch_received c' = ch_received c) ->
  reader_ok cap (mkLogs h t (<[i := r']> (readers l))) r' ->
  (forall s, s ∈ subscribers h -> s ∈ subscribers (sse l) /\ (owned r = Some s -> owned r' = Some s) \/ owned r' = Some s) ->
  (had r' = had r \/ exists ch, had r' = Some ch /\ forall j r0, readers l !! j = Some r0 -> had r0 <> Some ch) ->
  logs_ok cap (mkLogs h t (<[i := r']> (readers l))).
Proof.
  intros [H1 H2 H3 H4] Hi Hinv Hother Hok Hsub Hhad.
  assert (forall j r0, <[i := r']> (readers l) !! j = Some r0 -> j = i /\ r0 = r' \/ j <> i /\ readers l !! j = Some r0) as Hl.
  { intros j r0 [(-> & -> & _)|[Hne Hj]]%list_lookup_insert_Some; [by left|by right]. }
  assert (<[i := r']> (readers l) !! i = Some r') as Hii by (apply list_lookup_insert_eq; by eapply lookup_lt_Some).
  constructor; cbn; [done| | |].
  - intros j r0 [[-> ->]|[Hne Hj]]%Hl; [done|]. pose proof (H2 j r0 Hj) as Hok0. unfold reader_ok in *.
    destruct (had r0) as [ch|] eqn:Hh; [|done]. destruct Hok0 as (E1 & E2 & E3 & c & Hc & E4).
    destruct (Hother j r0 ch c Hne Hj Hh Hc) as (c' & Hc' & Erc).
    split; [done|]. split; [done|]. split; [done|]. exists c'. split; [done|]. by rewrite Erc.
  - intros s [[Hin Ho]|Ho]%Hsub; [|by exists i, r']. destruct (H3 s Hin) as (j & r0 & Hj & Hr0).
    destruct (decide (j = i)) as [->|Hne].
    + rewrite Hi in Hj. injection Hj as <-. exists i, r'. split; [done|by apply Ho].
    + exists j, r0. split; [by rewrite list_lookup_insert_ne|done].
  - assert (forall j r0 ch, j <> i -> readers l !! j = Some r0 -> had r' = Some ch -> had r0 = Some ch -> False) as Hu.
    { intros j r0 ch Hne Hj Ha Hb. destruct Hhad as [E|(ch' & E & Hfresh)]; rewrite E in Ha.
      - by apply Hne, (H4 j i r0 r ch).
      - injection Ha as ->. by eapply Hfresh. }
    intros j k r0 r1 ch [[-> ->]|[Hj Hr0]]%Hl [[-> ->]|[Hk Hr1]]%Hl Ha Hb; [done| | |by eapply H4].
    + by destruct (Hu k r1 ch Hk Hr1 Ha Hb).
    + by destruct (Hu j r0 ch Hj Hr0 Hb Ha).
Qed.

Lemma owned_had r ch : owned r = Some ch -> had r = Some ch.
Proof. unfold owned, had. by destruct (r_pc r). Qed.

(** No request panics, and a step keeps the invariant. *)
Lemma handleLogs_ok cap l i r x o : logs_ok cap l -> readers l !! i = Some r -> handleLogs l i r x = Some o ->
  exists l', o = Ret l' /\ logs_ok cap l'.
Proof.
  intros Hok Hi Hh. pose proof Hok as [H1 H2 H3 H4]. pose proof (H2 i r Hi) as Hr. unfold handleLogs in Hh.
  destruct (r_pc r) as [|ch|ch|o'] eqn:Hp; [| | |done].
  - destruct (r_flusher r) eqn:Hf; injection Hh as <-.
    + destruct (Subscribe_inv cap _ _ H1) as (h & Es & Hinv). rewrite Es. cbn. eexists. split; [done|].
      pose proof Es as Es'. unfold Subscribe in Es'. destruct (entries (history (sse l))); [|done]. injection Es' as <- Eh.
      assert (chans (sse l) !! next (sse l) = None) as Hfresh.
      { destruct (chans (sse l) !! next (sse l)) eqn:E; [|done].
        assert (is_Some (chans (sse l) !! next (sse l))) as Hx by eauto. apply (si_dom _ _ _ H1) in Hx. lia. }
      eapply logs_ok_reader; [done|done|exact Hinv| | | |].
      * intros j r0 ch c _ _ _ Hc. exists c. cbn. rewrite lookup_insert_ne; [done|]. intros <-. congruence.
      * unfold reader_ok. cbn. split; [done|]. split; [done|]. split; [done|]. eexists. by rewrite lookup_insert_eq.
      * cbn. intros s [->%elem_of_singleton|Hs]%elem_of_union; [by right|]. left. split; [done|]. unfold owned. by rewrite Hp.
      * right. exists (next (sse l)). split; [done|]. intros j r0 Hj Hhad. pose proof (H2 j r0 Hj) as Hr0. unfold reader_ok in Hr0.
        rewrite Hhad in Hr0. destruct Hr0 as (_ & _ & _ & c & Hc & _). congruence.
    + eexists. split; [done|]. eapply logs_ok_reader; [done|done|exact H1| | | |].
      * intros j r0 ch c _ _ _ Hc. by exists c.
      * unfold reader_ok. cbn. done.
      * intros s Hs. left. split; [done|]. unfold owned. by rewrite Hp.
      * left. unfold had. cbn. by rewrite Hp.
  - assert (had r = Some ch) as Hhad by (unfold had; by rewrite Hp). destruct x.
    + destruct (Receive (sse l) ch) as [[h o']|] eqn:Er; [|done]. cbn in Hh. injection Hh as <-. eexists. split; [done|].
      destruct (Receive_received _ _ _ _ Er) as (Hsub & Hoth & c & c' & Hc & Hc' & Hrec).
      unfold reader_ok in Hr. rewrite Hhad in Hr. destruct Hr as (E1 & E2 & E3 & c0 & Hc0 & E4). simplify_eq.
      eapply logs_ok_reader; [done|done|by eapply Receive_inv| | | |].
      * intros j r0 ch0 c1 Hne Hj Hh0 Hc1. exists c1. rewrite Hoth; [done|]. intros ->. by apply Hne, (H4 j i r0 r ch).
      * unfold reader_ok, had. destruct o' as [line|]; cbn; split_and!; try done; exists c'; (split; [done|]); by rewrite Hrec, E4.
      * rewrite Hsub. intros s Hs. left. split; [done|]. unfold owned. rewrite Hp. by destruct o'.
      * left. rewrite Hhad. unfold had. by destruct o'.
    + destruct (r_gone r); [|done]. injection Hh as <-. eexists. split; [done|].
      eapply logs_ok_reader; [done|done|exact H1| | | |].
      * intros j r0 ch0 c _ _ _ Hc. by exists c.
      * unfold reader_ok in *. unfold had in *. cbn in *. by rewrite Hp in Hr.
      * intros s Hs. left. split; [done|]. unfold owned. by rewrite Hp.
      * left. by rewrite Hhad.
  - assert (had r = Some ch) as Hhad by (unfold had; by rewrite Hp). injection Hh as <-.
    destruct (Unsubscribe_inv cap _ _ ch H1) as (h & Eu & Hinv). rewrite Eu. cbn. eexists. split; [done|].
    destruct (Unsubscribe_received _ _ _ Eu) as [Hrec Hsub].
    eapply logs_ok_reader; [done|done|exact Hinv| | | |].
    + intros j r0 ch0 c _ _ _ Hc. by apply Hrec.
    + unfold reader_ok in *. rewrite Hhad in Hr. cbn. destruct Hr as (E1 & E2 & E3 & c & Hc & E4).
      destruct (Hrec ch c Hc) as (c' & Hc' & Erc). split; [done|]. split; [done|]. split; [done|]. exists c'. split; [done|]. by rewrite Erc.
    + intros s [Hs Hne]%Hsub. left. split; [done|]. unfold owned. rewrite Hp. congruence.
    + left. by rewrite Hhad.
Qed.

Lemma logs_ok_step cap l a o : (0 < cap)%nat -> logs_ok cap l -> step l a = Some o -> exists l', o = Ret l' /\ logs_ok cap l'.
Proof.
  intros Hcap Hok Hs. pose proof Hok as [H1 H2 H3 H4]. destruct a as [line| |flusher|i|i x]; cbn [step apply_op] in Hs.
  - destruct (Handle_inv cap _ _ line H1) as (h & Eh & Hinv). rewrite Eh in Hs. cbn in Hs. injection Hs as <-. eexists. split; [done|].
    destruct (Handle_received _ _ _ _ _ H1 Eh) as [Hr Hsub]. apply logs_ok_keep; [done|done|done|by rewrite Hsub].
  - destruct (Reset_inv cap _ _ Hcap H1) as (h & Eh & Hinv). rewrite Eh in Hs. cbn in Hs. injection Hs as <-. eexists. split; [done|].
    destruct (Reset_received _ _ _ _ H1 Eh) as [Hr Hsub]. apply logs_ok_keep; [done|done|done|rewrite Hsub; set_solver].
  - injection Hs as <-. eexists. split; [done|].
    assert (forall i r, (readers l ++ [new_reader flusher]) !! i = Some r -> readers l !! i = Some r \/ r = new_reader flusher) as Hl.
    { intros i r [?|[_ [_ <-]%list_lookup_singleton_Some]]%lookup_app_Some; [by left|by right]. }
    constructor; cbn; [done| | |].
    + intros i r [Hr| ->]%Hl; [by apply (H2 i)|]. by unfold reader_ok.
    + intros s Hin. destruct (H3 s Hin) as (i & r & Hi & Ho). exists i, r. split; [by apply lookup_app_l_Some|done].
    + intros i j r r' ch Hri Hrj Hh Hh'. destruct (Hl _ _ Hri) as [Hi| ->]; [|done]. destruct (Hl _ _ Hrj) as [Hj| ->]; [|done]. by eapply H4.
  - destruct (readers l !! i) as [r|] eqn:Hi; [cbn in Hs|done]. injection Hs as <-. eexists. split; [done|].
    pose proof (H2 i r Hi) as Hr. eapply logs_ok_reader; [done|done|exact H1| | | |].
    + intros j r0 ch c _ _ _ Hc. by exists c.
    + unfold reader_ok, had in *. cbn. done.
    + intros s Hs. left. split; [done|]. by unfold owned.
    + left. by unfold had.
  - destruct (readers l !! i) as [r|] eqn:Hi; [cbn in Hs|done]. by eapply handleLogs_ok.
Qed.

Lemma logs_run_ok cap xs : (0 < cap)%nat -> forall l o, logs_ok cap l -> run l xs = Some o -> exists l', o = Ret l' /\ logs_ok cap l'.
Proof.
  intros Hcap. induction xs as [|x xs IH]; intros l o Hok; cbn [run]; [intros [= <-]; by exists l|].
  destruct (step l x) as [o1|] eqn:E; [|done]. destruct (logs_ok_step cap l x o1 Hcap Hok E) as (l1 & -> & Hok1). by apply IH.
Qed.

(** * What a client reads, and the end of a stream *)

(** [slog.TextHandler] ends a record with a line feed, and the client reads the
    records of a stream one by one, the line feeds left out. *)
Lemma read_records texts : Forall (Forall Events.unbroken) texts ->
  Events.read_events (flat_map (fun t => Events.frame (t ++ [10%Z])) texts) = texts.
Proof.
  induction 1 as [|t texts Ht Hts IH]; [done|]. cbn [flat_map].
  assert (Events.frame (t ++ [10%Z]) = Events.frame t ++ [10%Z]) as -> by (unfold Events.frame; by rewrite <- !(assoc_L (++))).
  rewrite <- (assoc_L (++)), Events.read_frame_app by done. cbn [app]. rewrite Events.read_blank. by rewrite IH.
Qed.

Lemma sent_records r texts : bytes_of_string <$> r_history r ++ r_written r = (fun t => t ++ [10%Z]) <$> texts ->
  Forall (Forall Events.unbroken) texts -> Events.read_events (sent r) = texts.
Proof.
  intros Hb Ht. unfold sent. transitivity (Events.read_events (flat_map (fun t => Events.frame (t ++ [10%Z])) texts)); [f_equal|by apply read_records].
  revert texts Hb Ht. induction (r_history r ++ r_written r) as [|line ls IH]; intros texts Hb Ht; [by destruct texts|].
  destruct texts as [|t texts]; [done|]. injection Hb as E Hb. apply Forall_cons in Ht as [_ Ht]. cbn [flat_map]. by rewrite E, (IH texts Hb Ht).
Qed.

Lemma drain_stream n : forall l i r ch c, readers l !! i = Some r -> r_pc r = Selecting ch ->
  chans (sse l) !! ch = Some c -> ch_closed c = true -> length (ch_buf c) = n -> r_written r = ch_received c ->
  exists l' r', run l (replicate (n + 1) (LStep i Line)) = Some (Ret l') /\ readers l' !! i = Some r' /\
    r_pc r' = Leaving ch /\ r_history r' = r_history r /\ r_written r' = r_written r ++ ch_buf c.
Proof.
  induction n as [|n IH]; intros l i r ch c Hi Hp Hc Hcl Hn Hw.
  - apply nil_length_inv in Hn. eexists _, (at_pc r (Leaving ch)).
    split; [cbn [replicate Nat.add run step]; rewrite Hi; cbn [mbind option_bind]; unfold handleLogs; rewrite Hp; unfold Receive;
      rewrite Hc; cbn [mbind option_bind]; rewrite Hn, Hcl; reflexivity|].
    split; [cbn; apply list_lookup_insert_eq; by eapply lookup_lt_Some|]. split; [done|]. split; [done|]. cbn. by rewrite Hn, app_nil_r.
  - destruct (ch_buf c) as [|line rest] eqn:Eb; [done|].
    set (c1 := mkChan rest (ch_closed c) (ch_received c ++ [line])).
    set (r1 := mkReader (Selecting ch) (r_flusher r) (r_gone r) (r_history r) (r_written r ++ [line]) (r_status r) (r_recent r)).
    set (l1 := mkLogs (mkSSE (history (sse l)) (subscribers (sse l)) (<[ch := c1]> (chans (sse l))) (next (sse l))) (hist l)
      (<[i := r1]> (readers l))).
    destruct (IH l1 i r1 ch c1) as (l' & r' & Hrun & Hi' & Hp' & Hh' & Hw').
    + cbn. apply list_lookup_insert_eq. by eapply lookup_lt_Some.
    + done.
    + cbn. by rewrite lookup_insert_eq.
    + done.
    + by injection Hn.
    + cbn. by rewrite Hw.
    + exists l', r'. split; [|split; [done|split; [done|split; [done|cbn in Hw'; by rewrite Hw', <- (assoc_L (++))]]]].
      change (S n + 1) with (S (n + 1)). cbn [replicate run step]. rewrite Hi. cbn [mbind option_bind]. unfold handleLogs. rewrite Hp.
      unfold Receive. rewrite Hc. cbn [mbind option_bind]. rewrite Eb. cbn [mbind option_bind]. exact Hrun.
Qed.

Lemma logs_run_snoc l xs x l1 : run l xs = Some (Ret l1) -> run l (xs ++ [x]) = run l1 [x].
Proof.
  revert l. induction xs as [|y xs IH]; intros l; cbn [run app]; [by intros [= ->]|].
  destruct (step l y) as [[l2|]|]; [apply IH|done..].
Qed.

(** A reset ends every stream that is in its select. *)
Lemma reset_ends cap l : (0 < cap)%nat -> logs_ok cap l ->
  exists l', step l LReset = Some (Ret l') /\ subscribers (sse l') = ∅ /\ readers l' = readers l /\
    forall i r ch, readers l !! i = Some r -> r_pc r = Selecting ch ->
      exists c l'' r'', chans (sse l) !! ch = Some c /\
        run l' (replicate (length (ch_buf c) + 1) (LStep i Line) ++ [LStep i Line]) = Some (Ret l'') /\
        readers l'' !! i = Some r'' /\ r_pc r'' = Returned (Some ch) /\ r_written r'' = r_written r ++ ch_buf c.
Proof.
  intros Hcap Hok. pose proof Hok as [H1 H2 _ _].
  destruct (Reset_inv cap _ _ Hcap H1) as (h & Eh & Hinv).
  destruct (Reset_received _ _ _ _ H1 Eh) as [_ Hsub].
  set (l1 := mkLogs h (mkTrace (lines (hist l)) [] (subs_at (hist l))) (readers l)).
  assert (step l LReset = Some (Ret l1)) as Hst by (cbn [step apply_op]; by rewrite Eh).
  exists l1. split; [done|]. split; [done|]. split; [done|]. intros i r ch Hi Hp.
  assert (had r = Some ch) as Hh by (unfold had; by rewrite Hp). pose proof (H2 i r Hi) as Hrk. unfold reader_ok in Hrk. rewrite Hh in Hrk.
  destruct Hrk as (_ & _ & _ & c & Hc & E4). destruct (reset_chan _ _ _ _ _ _ H1 Eh Hc) as (c' & Hc' & Hb & Hrc & Hcl).
  destruct (drain_stream (length (ch_buf c)) l1 i r ch c') as (l2 & r2 & Hrun2 & Hi2 & Hp2 & _ & Hw2);
    [done|done|done|done|by rewrite Hb|by rewrite Hrc|].
  destruct (logs_ok_step cap l LReset _ Hcap Hok Hst) as (l1' & [= <-] & Hok1).
  destruct (logs_run_ok cap _ Hcap _ _ Hok1 Hrun2) as (l2' & [= <-] & Hok2).
  destruct (Unsubscribe_inv cap _ _ ch (lo_sse _ _ Hok2)) as (h3 & Eu & _).
  eexists c, _, (at_pc r2 (Returned (Some ch))). split; [done|]. split; [|split; [|split]].
  - rewrite (logs_run_snoc _ _ _ _ Hrun2). cbn [run step]. rewrite Hi2. cbn [mbind option_bind]. unfold handleLogs. rewrite Hp2, Eu. reflexivity.
  - cbn. apply list_lookup_insert_eq. by eapply lookup_lt_Some.
  - done.
  - cbn. by rewrite Hw2, Hb.
Qed.

(** * Correctness *)

(** C26. The log stream.  With a buffer of at least one line, whatever is logged
    and however resets, requests and their steps interleave, nothing panics: no
    send on or close of a closed channel.  A subscription is live exactly while
    its channel is open, at most 100 lines are queued in a channel, and the next
    subscriber would be given the last [cap] lines since the last reset.  A request gets the last [cap]
    lines logged since the last reset, and then, in order, lines logged after
    it subscribed: all of them as long as its channel is open and there have
    been no more than 100.  What its client reads from the stream are the
    records, one by one.  A request without a flusher gets a 500 and does not
    subscribe.  Channels are not shared, and one that is still subscribed
    belongs to a request that has not returned, so none is left behind when all
    have.  A reset closes every stream: the request writes what is queued and
    returns. *)
Theorem log_stream (cap : nat) (xs : list label) (o : outcome logs) (Hcap : (0 < cap)%nat) (Hrun : run (start cap) xs = Some o) :
  exists l, o = Ret l /\
  ((exists h', Subscribe (sse l) = Ret (h', (lastn cap (recent (hist l)), next (sse l)))) /\
   (forall s, s ∈ subscribers (sse l) <-> open_in (chans (sse l)) s) /\
   (forall s c, chans (sse l) !! s = Some c -> (length (ch_buf c) <= 100)%nat)) /\
  (forall i r ch, readers l !! i = Some r -> had r = Some ch ->
     r_status r = Some 200%Z /\ r_history r = lastn cap (r_recent r) /\
     exists c since, chans (sse l) !! ch = Some c /\ subs_at (hist l) !! ch = Some since /\
       r_written r `sublist_of` drop since (lines (hist l)) /\
       (ch_closed c = false -> (length (lines (hist l)) <= since + 100)%nat -> r_written r ++ ch_buf c = drop since (lines (hist l)))) /\
  (forall i r texts, readers l !! i = Some r ->
     bytes_of_string <$> r_history r ++ r_written r = (fun t => t ++ [10%Z]) <$> texts -> Forall (Forall Events.unbroken) texts ->
     Events.read_events (sent r) = texts) /\
  (forall i r, readers l !! i = Some r -> r_pc r <> Arrived -> had r = None -> r_status r = Some 500%Z /\ sent r = []) /\
  (forall i j r r' ch, readers l !! i = Some r -> readers l !! j = Some r' -> had r = Some ch -> had r' = Some ch -> i = j) /\
  ((forall i r, readers l !! i = Some r -> owned r = None) -> subscribers (sse l) = ∅) /\
  (exists l', step l LReset = Some (Ret l') /\ subscribers (sse l') = ∅ /\ readers l' = readers l /\
     forall i r ch, readers l !! i = Some r -> r_pc r = Selecting ch ->
       exists c l'' r'', chans (sse l) !! ch = Some c /\
         run l' (replicate (length (ch_buf c) + 1) (LStep i Line) ++ [LStep i Line]) = Some (Ret l'') /\
         readers l'' !! i = Some r'' /\ r_pc r'' = Returned (Some ch) /\ r_written r'' = r_written r ++ ch_buf c).
Proof.
  destruct (logs_run_ok cap xs Hcap _ o (logs_start_ok cap Hcap) Hrun) as (l & -> & Hok). exists l. split; [done|].
  pose proof Hok as [H1 H2 H3 H4]. split_and!.
  - destruct (Subscribe_inv cap _ _ H1) as (h' & Hs & _). by exists h'.
  - apply (si_open _ _ _ H1).
  - intros s c Hc. by destruct (si_chan _ _ _ H1 s c Hc) as (since & _ & [_ _ Hl _]).
  - intros i r ch Hi Hh. pose proof (H2 i r Hi) as Hr. unfold reader_ok in Hr. rewrite Hh in Hr.
    destruct Hr as (_ & E2 & E3 & c & Hc & E4). split; [done|]. split; [done|].
    destruct (si_chan _ _ _ H1 ch c Hc) as (since & Hs & [_ Hsub _ Hex]). exists c, since. rewrite E4. split; [done|]. split; [done|].
    split; [|exact Hex]. etransitivity; [|exact Hsub]. by apply sublist_inserts_r.
  - intros i r texts _. apply sent_records.
  - intros i r Hi Hp Hh. pose proof (H2 i r Hi) as Hr. unfold reader_ok in Hr. rewrite Hh in Hr. destruct Hr as (E1 & E2 & E3).
    split; [by apply E3|]. unfold sent. by rewrite E1, E2.
  - done.
  - intros Hn. apply set_eq. intros s. split; [|set_solver]. intros (i & r & Hi & Ho)%H3. by rewrite (Hn i r Hi) in Ho.
  - by apply (reset_ends cap).
Qed.

(** Two requests, a record, a reset: the first request gets the record and
    ends, the second has no flusher. *)
Lemma log_stream_witness :
  let xs := [LConnect true; LStep 0 Line; LLog "a"; LConnect false; LStep 1 Line; LStep 0 Line; LReset; LStep 0 Line; LStep 0 Line] in
  (exists o, run (start 2) xs = Some o) /\
  forall o, run (start 2) xs = Some o -> exists l, o = Ret l /\ ((forall i r, readers l !! i = Some r -> owned r = None) -> subscribers (sse l) = ∅).
Proof.
  cbn zeta. split; [eexists; vm_compute; reflexivity|]. intros o Ho.
  destruct (log_stream 2 _ o (ltac:(lia)) Ho) as (l & -> & _ & _ & _ & _ & _ & H & _). exists l. split; [done|exact H].
Defined.
