(* ===== verification/WebSite.v ===== *)
(** The web page as a site and a process: [routes.go], [render] and
    [parseTemplates] of [internal/webserver], and [runWeb] of [cmd/star/main.go],
    over the machine of [Web].

    The multiplexer of [Mux] chooses a handler for a request; a response of
    [Web] is a redirect to a route or a page with the name of its template.
    The life of the process is a machine over that of [Web]: its main goroutine
    waits for a signal, stops the sessions, and closes the HTTP server. *)
From S2P Require Import Prelude Text Errors Pump Http Mux Forms Web.
Local Open Scope Z_scope.

(** * Routes *)

(** What is behind a route: the embedded files, a handler of [Web], the log
    stream of [Logs]. *)
Inductive endpoint := Static | Page (q : Request -> Web.request) | LogStream.

Section routes.
(** The form of a request, parsed as in [Forms], and the random source. *)
Variable form : Request -> form_request.
Variable random : Request -> result unit (list Z).

Definition lit (s : string) : Mux.segment := Lit (bytes_of_string s).

(** [NewRouter] *)
Definition NewRouter : routes (A := endpoint) := [
  (mkPattern GET [lit "static"; Multi] [], Static);
  (mkPattern GET [lit "/"] [], Page (fun _ => GetIndex));
  (mkPattern POST [lit "setup"] [], Page (fun r => PostSetup (form r)));
  (mkPattern GET [lit "host"] [], Page (fun _ => GetHost));
  (mkPattern POST [lit "host"] [], Page (fun r => PostHost (random r) (form r)));
  (mkPattern GET [lit "host"; lit "running"] [], Page (fun _ => GetHostRunning));
  (mkPattern POST [lit "host"; lit "stop"] [], Page (fun _ => PostHostStop));
  (mkPattern GET [lit "peer"] [], Page (fun _ => GetPeer));
  (mkPattern POST [lit "peer"] [], Page (fun r => PostPeer (form r)));
  (mkPattern GET [lit "peer"; lit "connected"] [], Page (fun _ => GetPeerConnected));
  (mkPattern POST [lit "peer"; lit "stop"] [], Page (fun _ => PostPeerStop));
  (mkPattern GET [lit "logs"] [], LogStream)].

(** The requests of the pages one looks at. *)
Definition is_get (q : Web.request) : bool :=
  match q with GetIndex | GetHost | GetHostRunning | GetPeer | GetPeerConnected => true | _ => false end.

(** The requests of the forms and the buttons. *)
Definition posts (r : Request) : list Web.request :=
  [PostSetup (form r); PostHost (random r) (form r); PostHostStop; PostPeer (form r); PostPeerStop].

(** A handler that is reached is one of the methods' own. *)
Lemma routed_method r p q vs : findHandler NewRouter r = Serve p (Page q) vs ->
  (Method r = GET \/ Method r = HEAD -> is_get (q r) = true) /\ (Method r = POST -> q r ∈ posts r) /\
  (Method r = GET \/ Method r = HEAD \/ Method r = POST) /\ q r <> StopServer.
Proof.
  intros (Hin & Hm & _ & _)%findHandler_sound. unfold for_method in Hm. unfold NewRouter in Hin.
  rewrite !elem_of_cons in Hin. destruct_or! Hin; try (injection Hin as -> ->); try discriminate Hin; try by apply not_elem_of_nil in Hin.
  all: cbn [p_method is_get] in *.
  all: destruct Hm as [Hm%eq_sym|[[Hm Hg]|Hm]]; try discriminate Hm; try discriminate Hg.
  all: rewrite Hm; split_and!; try done; try (by auto); try (intros [?|?]; discriminate); try (intros ?; discriminate).
  all: intros _; unfold posts; rewrite !elem_of_cons; tauto.
Qed.

(** The two stop buttons. *)
Lemma stop_found route q r : (route, q) ∈ [("/host/stop", PostHostStop); ("/peer/stop", PostPeerStop)]%string ->
  Method r = POST -> EscapedPath r = bytes_of_string route -> exists p, findHandler NewRouter r = Serve p (Page (fun _ => q)) [].
Proof.
  intros Hr Hm He. unfold findHandler. rewrite Hm, He. rewrite decide_False by done.
  rewrite !elem_of_cons in Hr. destruct_or! Hr; [injection Hr as -> ->..|by apply not_elem_of_nil in Hr].
  all: eexists; vm_compute; reflexivity.
Qed.

(** The routes that redirects lead to. *)
Definition targets : list string := [routeIndex; routeHost; routeHostRunning; routePeer; routePeerConnected].

Lemma target_found route r : route ∈ targets -> Method r = GET -> EscapedPath r = bytes_of_string route ->
  exists p q, findHandler NewRouter r = Serve p (Page q) [] /\ is_get (q r) = true.
Proof.
  intros Hr Hm He. unfold findHandler. rewrite Hm, He. rewrite decide_False by done.
  unfold targets in Hr. rewrite !elem_of_cons in Hr. destruct_or! Hr; try subst route; [..|by apply not_elem_of_nil in Hr].
  all: eexists _, _; split; [vm_compute; reflexivity|done].
Qed.
End routes.

(** * Pages *)

(** The name of the template a handler renders. *)
Definition page_name (a : response) : option string :=
  match a with
  | Redirect _ | Stopped => None
  | RenderIndex _ _ => Some "index.html"
  | RenderHost _ _ => Some "host.html"
  | RenderHostRunning _ _ => Some "host-running.html"
  | RenderPeer _ _ => Some "peer.html"
  | RenderPeerConnected _ => Some "peer-connected.html"
  end%string.

Section pages.
Context {T : Type}.
(** [template.ParseFS] of the base, [ParseFS] on its clone for a file, and
    [ExecuteTemplate]: what it writes, and whether it fails. *)
Variable ParseFS : string -> result goerror T.
Variable ParseClone : T -> string -> result goerror T.
Variable ExecuteTemplate : T -> response -> str * bool.

Definition pages : list string :=
  ["index.html"; "host.html"; "host-running.html"; "peer.html"; "peer-connected.html"; "error.html"]%string.

(** The loop of [parseTemplates]. *)
Fixpoint parse_pages (base : T) (templates : gmap string T) (ps : list string) : result goerror (gmap string T) :=
  match ps with
  | [] => Ok templates
  | page :: ps =>
      match ParseClone base ("templates/" ++ page) with
      | Err err => Err (Wrapped ("parse template " ++ page) err)
      | Ok t => parse_pages base (<[page := t]> templates) ps
      end
  end%string.

(** [parseTemplates] *)
Definition parseTemplates : result goerror (gmap string T) :=
  match ParseFS "templates/base.html" with Err err => Err err | Ok base => parse_pages base ∅ pages end.

(** [render] *)
Definition render (templates : gmap string T) (w : ResponseWriter) (name : string) (data : response) : ResponseWriter :=
  match templates !! name with
  | None => http_Error w (bytes_of_string "template not found") 500
  | Some tmpl =>
      let w := header_Set w "Content-Type" (bytes_of_string "text/html; charset=utf-8") in
      let '(body, fails) := ExecuteTemplate tmpl data in
      let w := if decide (body = []) then w else Write w body in
      if fails : bool then http_Error w (bytes_of_string "internal error") 500 else w
  end.

(** What a handler of [Web] writes in the end. *)
Definition respond (templates : gmap string T) (w : ResponseWriter) (a : response) : ResponseWriter :=
  match a with
  | Redirect route => Mux.Redirect w (bytes_of_string route) 303
  | _ => match page_name a with Some name => render templates w name a | None => w end
  end.

Lemma parse_pages_ok base ps : forall m m', parse_pages base m ps = Ok m' ->
  (forall name, is_Some (m !! name) -> is_Some (m' !! name)) /\ forall name, name ∈ ps -> is_Some (m' !! name).
Proof.
  induction ps as [|page ps IH]; intros m m'; cbn [parse_pages].
  - intros [= <-]. split; [done|by intros name ?%not_elem_of_nil].
  - destruct (ParseClone _ _) as [t|]; [|done]. intros [H1 H2]%IH. split.
    + intros name Hn. apply H1. destruct (decide (page = name)) as [<-|Hne]; [by rewrite lookup_insert_eq|by rewrite lookup_insert_ne].
    + intros name [->|Hin]%elem_of_cons; [|by apply H2]. apply H1. by rewrite lookup_insert_eq.
Qed.

(** The templates that handlers render are among the parsed ones. *)
Lemma parsed_page templates a name : parseTemplates = Ok templates -> page_name a = Some name -> is_Some (templates !! name).
Proof.
  unfold parseTemplates. destruct (ParseFS _) as [base|]; [|done]. intros [_ H]%parse_pages_ok Hn. apply H. unfold pages.
  destruct a; cbn in Hn; try done; injection Hn as <-; set_solver.
Qed.
End pages.

(** * Before the process waits *)

Section setup.
(** What [exec.Command(...).Start()] and [net.Listen] answer. *)
Variable Start : string -> list string -> option goerror.
Variable Listen : string -> result goerror string.

(** [openBrowser] *)
Definition openBrowser (GOOS url : string) : option goerror :=
  if String.eqb GOOS "linux" then Start "xdg-open" [url]
  else if String.eqb GOOS "darwin" then Start "open" [url]
  else if String.eqb GOOS "windows" then Start "rundll32" ["url.dll,FileProtocolHandler"%string; url]
  else Some (OtherError ("unsupported platform: " ++ GOOS)).

(** [runWeb] to the point where it serves: the exit code, or the URL it tells
    the user and the error of the browser, which it only logs. *)
Definition runWeb_setup (LISTEN_ADDR GOOS : string) (New : option goerror) : Z + (string * option goerror) :=
  let addr := if String.eqb LISTEN_ADDR "" then "127.0.0.1:0"%string else LISTEN_ADDR in
  match New with
  | Some err => inl 1
  | None =>
      match Listen addr with
      | Err err => inl 1
      | Ok l => let url := ("http://" ++ l)%string in inr (url, openBrowser GOOS url)
      end
  end.

(** It serves on the listener, whose address the user is told, if it serves at
    all; the browser does not matter. *)
Lemma setup_serves LISTEN_ADDR GOOS New url b : runWeb_setup LISTEN_ADDR GOOS New = inr (url, b) <->
  New = None /\ (exists l, Listen (if String.eqb LISTEN_ADDR "" then "127.0.0.1:0"%string else LISTEN_ADDR) = Ok l /\ url = ("http://" ++ l)%string) /\
  b = openBrowser GOOS url.
Proof.
  unfold runWeb_setup. destruct New as [err|]; [naive_solver|]. destruct (Listen _) as [l|err]; [|naive_solver].
  split; [intros [= <- <-]; eauto|]. intros (_ & (l' & [= <-] & ->) & ->). done.
Qed.
End setup.

(** * The process *)

Section process.
Context {URL Cert : Type}.
Variable url_Parse : list Z -> option URL.
Variable url_Scheme : URL -> list Z.
Variable pem_Decode : list Z -> option (list Z * list Z).
Variable ParseCertificate : list Z -> option Cert.
Variable upper : Z -> Z.
Local Abbreviation Server := (@Server URL Cert).
Local Abbreviation task := (@Web.task URL Cert).
Local Abbreviation web_step := (Web.step url_Parse url_Scheme pem_Decode ParseCertificate upper).
Local Abbreviation web_run := (Web.run url_Parse url_Scheme pem_Decode ParseCertificate upper).
Local Abbreviation web_task_step := (Web.task_step url_Parse url_Scheme pem_Decode ParseCertificate upper).
Local Abbreviation reachable := (Web.reachable url_Parse url_Scheme pem_Decode ParseCertificate upper).

(** The main goroutine: at [<-ctx.Done()], in [srv.Stop()], which is a task of
    the web machine, at [httpSrv.Close()], in [eg.Wait()], and the exit code. *)
Inductive pc := Waiting | Stopping (i : nat) | Closing | EgWait | Exit (code : Z).

Record process := mkProcess {
  web : Server;
  at_pc : pc;
  signalled : bool;
  http_closed : bool;
  serve_returned : option goerror;
}.

Definition start (cfg : @sharedConfig URL Cert) : process := mkProcess (New cfg) Waiting false false None.

Definition set_web (p : process) (w : Server) : process :=
  mkProcess w (at_pc p) (signalled p) (http_closed p) (serve_returned p).
Definition set_pc (p : process) (c : pc) : process :=
  mkProcess (web p) c (signalled p) (http_closed p) (serve_returned p).

(** [err != http.ErrServerClosed], negated *)
Definition is_closed (err : goerror) : bool :=
  match err with Sentinel n => String.eqb n "http.ErrServerClosed" | _ => false end.

(** [runWeb] from [<-ctx.Done()] on. *)
Definition main_step (p : process) : option process :=
  match at_pc p with
  | Waiting =>
      if signalled p
      then Some (mkProcess (set_tasks (web p) (tasks (web p) ++ [TRequest StopServer])) (Stopping (length (tasks (web p))))
                   true (http_closed p) (serve_returned p))
      else None
  | Stopping i =>
      match tasks (web p) !! i with Some (TDone Stopped) => Some (set_pc p Closing) | _ => None end
  | Closing => Some (mkProcess (web p) EgWait (signalled p) true (serve_returned p))
  | EgWait => err ← serve_returned p; Some (set_pc p (Exit (if is_closed err then 0 else 1)))
  | Exit _ => None
  end.

(** A signal, a request that arrives while the HTTP server is open, a step of
    the web server, the return of [httpSrv.Serve], which says that the server
    is closed only when it is, and a step of the main goroutine. *)
Inductive label := LSignal | LWeb (l : Web.label) | LServe (err : goerror) | LMain.

Definition admitted (p : process) (l : Web.label) : bool :=
  match l with LArrive StopServer => false | LArrive _ => negb (http_closed p) | LTask _ _ => true end.

Definition step (p : process) (l : label) : option process :=
  match at_pc p with
  | Exit _ => None
  | _ =>
      match l with
      | LSignal => Some (mkProcess (web p) (at_pc p) true (http_closed p) (serve_returned p))
      | LWeb l => if admitted p l then set_web p <$> web_step (web p) l else None
      | LServe err =>
          match serve_returned p with
          | Some _ => None
          | None => if is_closed err && negb (http_closed p) then None
                    else Some (mkProcess (web p) (at_pc p) (signalled p) (http_closed p) (Some err))
          end
      | LMain => main_step p
      end
  end.

Fixpoint run (p : process) (ls : list label) : option process :=
  match ls with [] => Some p | l :: ls => p' ← step p l; run p' ls end.

(** ** Of the web machine *)

(** A step of a task, and what becomes of the tasks. *)
Lemma web_step_task w i e w' : web_step w (LTask i e) = Some w' ->
  exists t w1 t' new, tasks w !! i = Some t /\ web_task_step w t e = Some (w1, t', new) /\
    w' = set_tasks w1 (<[i := t']> (tasks w) ++ new).
Proof.
  cbn. destruct (tasks w !! i) as [t|]; [cbn|done]. destruct (web_task_step w t e) as [[[w1 t'] new]|] eqn:E; [cbn|done].
  intros [= <-]. by exists t, w1, t', new.
Qed.

Ltac task_cases t e H :=
  unfold Web.task_step, redirectIfSession, handle_rest, handleHostStart, handlePeerStart, take_session,
    stop_select, stop_close, link_returns, watch_done, start_session, redirectToSession, continue, mbind, option_bind in H;
  repeat (case_match; try discriminate H); simplify_eq.

(** The tasks that a request can become, whatever the others have done to the
    server in between; and a request that, in none of its steps, changes the
    server or starts a goroutine. *)
Inductive descends (q : Web.request) : task -> Prop :=
| desc_start : descends q (TRequest q)
| desc_step w t e w' t' new : descends q t -> web_task_step w t e = Some (w', t', new) -> descends q t'.

Definition read_only (q : Web.request) : Prop :=
  forall w t e w' t' new, descends q t -> web_task_step w t e = Some (w', t', new) -> w' = w /\ new = [].

(** What a request of the pages becomes. *)
Definition viewing (t : task) : Prop :=
  match t with TRequest q | TContinue q => is_get q = true | TRedirect | TDone _ | TEnd | TPanicked _ => True | _ => False end.

Lemma viewing_step w t e w' t' new : viewing t -> web_task_step w t e = Some (w', t', new) -> viewing t' /\ w' = w /\ new = [].
Proof.
  assert (viewing (redirectToSession w)) as Hrd by (unfold redirectToSession; repeat case_match; done).
  intros Hv Hs. destruct t as [[]| |[]| | | | | | | | | | |]; try done; cbn [Web.task_step] in Hs; unfold redirectIfSession, handle_rest, continue in Hs;
    repeat (case_match; try discriminate Hs); simplify_eq; done.
Qed.

Lemma get_read_only q : is_get q = true -> read_only q.
Proof.
  intros Hq. assert (forall t, descends q t -> viewing t) as Hd.
  { induction 1 as [|w t e w' t' new _ IH Hs]; [exact Hq|]. by apply (viewing_step _ _ _ _ _ _ IH Hs). }
  intros w t e w' t' new Ht%Hd Hs. by apply (viewing_step _ _ _ _ _ _ Ht Hs).
Qed.

(** The goroutines a step starts are those of a session. *)
Lemma new_tasks w t e w1 t' new : web_task_step w t e = Some (w1, t', new) ->
  Forall (fun x => match x with TLink _ | TWatch _ => True | _ => False end) new.
Proof. intros Hs. task_cases t e Hs; repeat constructor. Qed.

(** Redirects go to routes that are pages. *)
Lemma redirect_target w t e w1 t' new route : web_task_step w t e = Some (w1, t', new) -> t' = TDone (Redirect route) -> route ∈ targets.
Proof.
  intros Hs Ht. unfold targets, handleHostRunning, handlePeerConnected, after, setup_route in *.
  task_cases t e Hs; unfold handleHostRunning, handlePeerConnected, after, setup_route in *; repeat (case_match; simplify_eq); set_solver.
Qed.

Lemma redirects_reachable cfg w : reachable cfg w -> forall route, TDone (Redirect route) ∈ tasks w -> route ∈ targets.
Proof.
  intros Hr. refine (star_invariant _ (fun w => forall route, TDone (Redirect route) ∈ tasks w -> route ∈ targets) _ _ _ Hr _).
  - intros w1 w2 H1 [[r|i e] Hs] route Hin.
    + injection Hs as <-. cbn in Hin. apply elem_of_app in Hin as [Hin|Hin%list_elem_of_singleton]; [by apply H1|done].
    + apply web_step_task in Hs as (t & w' & t' & new & Ht & Hs & ->). cbn in Hin. apply elem_of_app in Hin as [Hin|Hin].
      * apply list_elem_of_lookup in Hin as [j [(_ & E & _)|[_ Hj]]%list_lookup_insert_Some]; [by eapply redirect_target|].
        apply H1. by eapply list_elem_of_lookup_2.
      * apply new_tasks in Hs. rewrite Forall_forall in Hs. by apply Hs in Hin.
  - intros route Hin. by apply not_elem_of_nil in Hin.
Qed.

(** Only a session that is done is cancelled. *)
Lemma cancelled_done cfg w : reachable cfg w -> Forall (fun s => cancelled s = true -> done s = true) (sessions w).
Proof.
  intros Hr. refine (star_invariant _ (fun w => Forall (fun s => cancelled s = true -> done s = true) (sessions w)) _ _ _ Hr _); [|constructor].
  intros w1 w2 H1 [[r|i e] Hs]; [by injection Hs as <-|].
  apply web_step_task in Hs as (t & w' & t' & new & Ht & Hs & ->). cbn [set_tasks sessions].
  task_cases t e Hs; cbn [sessions set_session set_sessions set_shared set_wg cacheForm Reset]; try done;
    try (apply Forall_app; split; [done|by repeat constructor]); by apply Forall_insert.
Qed.

(** As long as a session is current the wait group is not empty. *)
Lemma current_counted cfg w : reachable cfg w -> session w <> None -> (0 < wg w)%nat.
Proof.
  intros Hr Hs. pose proof (web_reachable_inv _ _ _ _ _ _ _ Hr) as Hi. destruct (session w) as [sid|] eqn:E; [|done].
  destruct (i_current _ _ Hi sid E) as (s & Hl & Hd). destruct (i_watched _ _ Hi sid s Hl) as [Hc|Hw].
  - pose proof (Forall_lookup_1 _ _ _ _ (cancelled_done _ _ Hr) Hl Hc). congruence.
  - rewrite (i_wg _ _ Hi). apply list_elem_of_omap in Hw as (t & Hin & Hw). clear -Hin Hw.
    unfold running. induction (tasks w) as [|t0 ts IH]; [by apply not_elem_of_nil in Hin|]. cbn.
    apply elem_of_cons in Hin as [<-|Hin]; [destruct t; try discriminate Hw; cbn; lia|]. specialize (IH Hin). lia.
Qed.

(** The task of [srv.Stop()]. *)
Definition stop_task (t : task) : Prop :=
  match t with
  | TRequest StopServer | TStop _ ThenWait | TClose _ ThenWait | TReset ThenWait | TWait | TDone Stopped => True
  | _ => False
  end.
Definition stop_rest (t : task) : nat :=
  match t with TRequest _ => 5 | TStop _ _ => 4 | TClose _ _ => 3 | TReset _ => 2 | TWait => 1 | _ => 0 end.

(** It goes on to be one, and it can go on as soon as the wait group allows. *)
Lemma stop_task_step cfg w i e w1 t t' new : reachable cfg w -> tasks w !! i = Some t -> stop_task t ->
  web_task_step w t e = Some (w1, t', new) -> stop_task t'.
Proof.
  intros Hr Ht Hst Hs. pose proof (web_reachable_inv _ _ _ _ _ _ _ Hr) as Hi.
  destruct t as [[]| | | |sid []|sid []|[]| | | | |[]| |]; try done; cbn [Web.task_step] in Hs.
  - unfold take_session, continue in Hs. by case_match; simplify_eq.
  - destruct (held_lookup _ w i sid _ Hi Ht eq_refl) as (s & Hl & Hd). unfold stop_select in Hs. rewrite Hl in Hs. cbn in Hs.
    rewrite Hd in Hs. by injection Hs as <- <- <-.
  - destruct (held_lookup _ w i sid _ Hi Ht eq_refl) as (s & Hl & Hd). unfold stop_close in Hs. rewrite Hl in Hs. cbn in Hs.
    rewrite Hd in Hs. by injection Hs as <- <- <-.
  - by injection Hs as <- <- <-.
  - by case_decide; [injection Hs as <- <- <-|].
Qed.

Lemma stop_task_goes cfg w i t : reachable cfg w -> tasks w !! i = Some t -> stop_task t -> session w = None -> wg w = 0%nat ->
  (0 < stop_rest t)%nat ->
  exists w' t', web_step w (LTask i Go) = Some w' /\ tasks w' !! i = Some t' /\ stop_task t' /\ session w' = None /\ wg w' = 0%nat /\
    (stop_rest t' < stop_rest t)%nat.
Proof.
  intros Hr Ht Hst Hn Hw Hpos. pose proof (web_reachable_inv _ _ _ _ _ _ _ Hr) as Hi.
  assert (forall w1 t', web_task_step w t Go = Some (w1, t', []) -> session w1 = None -> wg w1 = 0%nat -> (stop_rest t' < stop_rest t)%nat ->
    exists w' t', web_step w (LTask i Go) = Some w' /\ tasks w' !! i = Some t' /\ stop_task t' /\ session w' = None /\ wg w' = 0%nat /\
    (stop_rest t' < stop_rest t)%nat) as Hgo.
  { intros w1 t' Hs H1 H2 H3. exists (set_tasks w1 (<[i := t']> (tasks w) ++ [])), t'. split_and!; try done.
    - cbn. rewrite Ht. cbn. by rewrite Hs.
    - cbn. rewrite app_nil_r. apply list_lookup_insert_eq. by eapply lookup_lt_Some.
    - by eapply stop_task_step. }
  destruct t as [[]| | | |sid []|sid []|[]| | | | |[]| |]; try done; cbn [stop_rest] in *; try lia.
  - eapply (Hgo w TWait); [cbn; unfold take_session, continue; by rewrite Hn|done..|cbn; lia].
  - destruct (held_lookup _ w i sid _ Hi Ht eq_refl) as (s & Hl & Hd). eapply (Hgo w (TClose sid ThenWait)); [|done..|cbn; lia].
    cbn. unfold stop_select. rewrite Hl. cbn. by rewrite Hd.
  - destruct (held_lookup _ w i sid _ Hi Ht eq_refl) as (s & Hl & Hd). 
    eapply Hgo; [cbn; unfold stop_close; rewrite Hl; cbn; rewrite Hd; reflexivity|done|done|cbn; lia].
  - eapply (Hgo (Reset w) TWait); [done..|cbn; lia].
  - eapply (Hgo w (TDone Stopped)); [cbn; by rewrite decide_True|done..|cbn; lia].
Qed.

Lemma stop_task_ends cfg n : forall w i t, reachable cfg w -> tasks w !! i = Some t -> stop_task t -> session w = None ->
  wg w = 0%nat -> (stop_rest t <= n)%nat ->
  exists k w', web_run w (replicate k (LTask i Go)) = Some w' /\ tasks w' !! i = Some (TDone Stopped).
Proof.
  induction n as [|n IH]; intros w i t Hr Ht Hst Hn Hw Hle; destruct (decide (stop_rest t = 0%nat)) as [E|E]; try lia.
  1, 2: exists 0%nat, w; split; [done|]; destruct t as [[]| | | |sid []|sid []|[]| | | | |[]| |]; done.
  destruct (stop_task_goes cfg w i t Hr Ht Hst Hn Hw ltac:(lia)) as (w1 & t1 & Hs & Ht1 & Hst1 & Hn1 & Hw1 & Hlt).
  destruct (IH w1 i t1) as (k & w' & Hrun & Hd); [|done..|lia|].
  - eapply star_trans; [exact Hr|]. apply star_one. by exists (LTask i Go).
  - exists (S k), w'. split; [|done]. cbn [replicate Web.run]. by rewrite Hs.
Qed.

(** Other tasks do not touch it. *)
Lemma stop_task_kept cfg w l w' i t : reachable cfg w -> tasks w !! i = Some t -> stop_task t -> web_step w l = Some w' ->
  exists t', tasks w' !! i = Some t' /\ stop_task t'.
Proof.
  intros Hr Ht Hst Hs. destruct l as [r|j e].
  - injection Hs as <-. exists t. split; [by apply lookup_app_l_Some|done].
  - apply web_step_task in Hs as (t0 & w1 & t' & new & Ht0 & Hs & ->). cbn.
    destruct (decide (j = i)) as [->|Hne].
    + rewrite Ht in Ht0. injection Ht0 as <-. exists t'. split; [|by eapply stop_task_step].
      apply lookup_app_l_Some, list_lookup_insert_eq. by eapply lookup_lt_Some.
    + exists t. split; [|done]. apply lookup_app_l_Some. by rewrite list_lookup_insert_ne.
Qed.

(** ** Invariant of the process *)

Record proc_ok (cfg : @sharedConfig URL Cert) (ls : list label) (p : process) : Prop := {
  po_web : reachable cfg (web p);
  po_waiting : at_pc p <> Waiting -> signalled p = true;
  po_signal : signalled p = true <-> LSignal ∈ ls;
  po_stop : forall i, at_pc p = Stopping i -> exists t, tasks (web p) !! i = Some t /\ stop_task t;
  po_closed : http_closed p = true <-> at_pc p = EgWait \/ exists code, at_pc p = Exit code;
  po_exit : forall code, at_pc p = Exit code ->
    exists err, serve_returned p = Some err /\ LServe err ∈ ls /\ code = if is_closed err then 0 else 1;
  po_serve : forall err, serve_returned p = Some err -> LServe err ∈ ls /\ (is_closed err = true -> http_closed p = true);
}.

Lemma site_starts cfg : proc_ok cfg [] (start cfg).
Proof.
  constructor; cbn; try done; [constructor| |].
  - split; [done|by intros ?%not_elem_of_nil].
  - split; [done|]. by intros [?|[? ?]].
Qed.

Lemma site_main_ok cfg ls p p' : proc_ok cfg ls p -> main_step p = Some p' -> proc_ok cfg (ls ++ [LMain]) p'.
Proof.
  intros [H1 H2 H3 H4 H5 H6 H7] Hm. unfold main_step in Hm.
  assert (forall l, l <> LMain -> l ∈ ls ++ [LMain] <-> l ∈ ls) as Hin by (intros l Hl; set_solver).
  destruct (at_pc p) as [|i| | |] eqn:E; [destruct (signalled p) eqn:Hs; [|done]|destruct (tasks _ !! i) as [[]|]; try done; case_match; try done| | |done].
  - injection Hm as <-. constructor; cbn; rewrite ?Hin by done; try done.
    + eapply star_trans; [exact H1|]. apply star_one. by exists (LArrive StopServer).
    + intros i [= <-]. exists (TRequest StopServer). split; [|done]. by apply list_lookup_middle.
    + split; [intros [?|[? ?]]%H5; done|by intros [?|[? ?]]].
    + intros err Hx. rewrite Hin by done. by apply H7.
  - injection Hm as <-. constructor; cbn; rewrite ?Hin by done; try done.
    + intros _. by apply H2.
    + split; [intros [?|[? ?]]%H5; done|by intros [?|[? ?]]].
    + intros err Hx. rewrite Hin by done. by apply H7.
  - injection Hm as <-. constructor; cbn; rewrite ?Hin by done; try done.
    + intros _. by apply H2.
    + split; [by left|done].
    + intros err Hx. rewrite Hin by done. split; [by apply H7|done].
  - destruct (serve_returned p) as [err|] eqn:Hsr; [|done]. cbn in Hm. injection Hm as <-.
    assert (http_closed p = true) as Hc by (apply H5; by left).
    constructor; cbn; rewrite ?Hin by done; try done.
    + intros _. by apply H2.
    + split; [intros _; right; by eexists|done].
    + intros code [= <-]. exists err. split; [done|]. rewrite Hin by done. split; [by apply H7|done].
    + intros err' Hx. rewrite Hin by done. apply H7. congruence.
Qed.

Lemma site_not_exit p l p' : step p l = Some p' -> forall code, at_pc p <> Exit code.
Proof. intros Hs code E. unfold step in Hs. by rewrite E in Hs. Qed.

Lemma site_ok_step cfg ls p l p' : proc_ok cfg ls p -> step p l = Some p' -> proc_ok cfg (ls ++ [l]) p'.
Proof.
  intros Hok Hs. pose proof Hok as [H1 H2 H3 H4 H5 H6 H7]. pose proof (site_not_exit _ _ _ Hs) as Hne.
  destruct l as [|l|err|].
  - assert (p' = mkProcess (web p) (at_pc p) true (http_closed p) (serve_returned p)) as ->
      by (unfold step in Hs; destruct (at_pc p); congruence).
    constructor; cbn; try done; [| |].
    + split; [intros _; set_solver|done].
    + intros code E. by destruct (Hne code).
    + intros err Hx. destruct (H7 err Hx) as [? ?]. split; [set_solver|done].
  - assert (exists w', web_step (web p) l = Some w' /\ p' = set_web p w') as (w' & Hw & ->).
    { unfold step in Hs. destruct (at_pc p); try done; (destruct (admitted p l); [|done]);
        destruct (web_step (web p) l) as [w'|]; try done; injection Hs as <-; eauto. }
    assert (forall l', (forall x, l' <> LWeb x) -> l' ∈ ls ++ [LWeb l] <-> l' ∈ ls) as Hin
      by (intros l' Hl; rewrite elem_of_app, list_elem_of_singleton; split; [intros [?| ->]; [done|by destruct (Hl l)]|by left]).
    constructor; cbn; rewrite ?Hin by done; try done.
    + eapply star_trans; [exact H1|]. apply star_one. by exists l.
    + intros i (t & Ht & Hst)%H4. by eapply stop_task_kept.
    + intros code E. by destruct (Hne code).
    + intros err Hx. rewrite Hin by done. by apply H7.
  - assert (serve_returned p = None /\ (is_closed err = true -> http_closed p = true) /\
      p' = mkProcess (web p) (at_pc p) (signalled p) (http_closed p) (Some err)) as (Hn & Hc & ->).
    { unfold step in Hs. destruct (at_pc p); try done; (destruct (serve_returned p); [done|]);
        destruct (is_closed err), (http_closed p); cbn in Hs; try done; by injection Hs as <-. }
    assert (LSignal ∈ ls ++ [LServe err] <-> LSignal ∈ ls) as Hin by set_solver.
    constructor; cbn; rewrite ?Hin by done; try done.
    + intros code E. by destruct (Hne code).
    + intros err' [= <-]. split; [set_solver|done].
  - apply (site_main_ok _ _ p); [done|]. unfold step in Hs. by destruct (at_pc p).
Qed.

Lemma site_run_ok cfg ls : forall ls0 p p', proc_ok cfg ls0 p -> run p ls = Some p' -> proc_ok cfg (ls0 ++ ls) p'.
Proof.
  induction ls as [|l ls IH]; intros ls0 p p' Hp; cbn [run]; [intros [= <-]; by rewrite app_nil_r|].
  destruct (step p l) as [p1|] eqn:E; [|done]. cbn [mbind option_bind]. intros Hr.
  replace (ls0 ++ l :: ls) with ((ls0 ++ [l]) ++ ls) by by rewrite <- (assoc_L (++)).
  eapply IH; [|exact Hr]. by eapply site_ok_step.
Qed.

(** ** The end *)

(** Steps that ask nothing of the world but that a closed server returns. *)
Definition orderly (l : label) : Prop :=
  match l with LMain => True | LWeb (LTask _ Go) => True | LServe err => is_closed err = true | _ => False end.

Lemma site_run_app p ls1 ls2 p1 : run p ls1 = Some p1 -> run p (ls1 ++ ls2) = run p1 ls2.
Proof.
  revert p. induction ls1 as [|l ls1 IH]; intros p; cbn [run app]; [by intros [= ->]|].
  destruct (step p l) as [p2|]; [|done]. cbn [mbind option_bind]. apply IH.
Qed.

Lemma step_web p l w' : (forall code, at_pc p <> Exit code) -> (exists i e, l = LTask i e) -> web_step (web p) l = Some w' ->
  step p (LWeb l) = Some (set_web p w').
Proof.
  intros Hne (i & e & ->) Hs. unfold step. cbn [admitted]. rewrite Hs. destruct (at_pc p); try done. by destruct (Hne code).
Qed.

Lemma run_web_tasks ls : forall p w', (forall code, at_pc p <> Exit code) -> Forall (fun l => exists i, l = LTask i Go) ls ->
  web_run (web p) ls = Some w' -> run p (LWeb <$> ls) = Some (set_web p w') /\ Forall orderly (LWeb <$> ls).
Proof.
  induction ls as [|l ls IH]; intros p w' Hne Hl Hr; [injection Hr as <-; by destruct p|].
  apply Forall_cons in Hl as [(i & ->) Hl]. cbn [Web.run] in Hr. destruct (web_step (web p) (LTask i Go)) as [w1|] eqn:E; [|done].
  cbn [mbind option_bind] in Hr. destruct (IH (set_web p w1) w' Hne Hl Hr) as [Hrun Ho]. split; [|by constructor].
  cbn [fmap list_fmap run]. rewrite (step_web _ _ _ Hne ltac:(eauto) E). exact Hrun.
Qed.

(** From [httpSrv.Close()] on. *)
Lemma closing_ends cfg ls p : proc_ok cfg ls p -> at_pc p = Closing \/ at_pc p = EgWait ->
  exists ls' p' code, Forall orderly ls' /\ run p ls' = Some p' /\ at_pc p' = Exit code.
Proof.
  intros Hok Hpc. assert (forall q, at_pc q = EgWait -> http_closed q = true ->
    exists ls' p' code, Forall orderly ls' /\ run q ls' = Some p' /\ at_pc p' = Exit code) as Hw.
  { intros q Hq Hc. destruct (serve_returned q) as [err|] eqn:E.
    - eexists [LMain], _, _. split; [by repeat constructor|]. split; [cbn; unfold step, main_step; rewrite Hq, E; reflexivity|done].
    - eexists [LServe ErrServerClosed; LMain], _, _. split; [by repeat constructor|].
      split; [cbn [run]; unfold step, main_step; rewrite Hq, E, Hc; cbn; rewrite ?Hq; cbn; reflexivity|done]. }
  destruct Hpc as [Hpc|Hpc]; [|apply Hw; [done|apply (po_closed _ _ _ Hok); by left]].
  destruct (Hw (mkProcess (web p) EgWait (signalled p) true (serve_returned p)) eq_refl eq_refl) as (ls' & p' & code & Ho & Hr & He).
  exists (LMain :: ls'), p', code. split; [by constructor|]. split; [|done]. cbn [run]. unfold step, main_step. rewrite Hpc. exact Hr.
Qed.

(** In [srv.Stop()], once no session is current. *)
Lemma stopping_ends cfg ls p i : proc_ok cfg ls p -> at_pc p = Stopping i -> session (web p) = None ->
  exists ls' p' code, Forall orderly ls' /\ run p ls' = Some p' /\ at_pc p' = Exit code.
Proof.
  intros Hok Hpc Hn. pose proof (po_web _ _ _ Hok) as Hr.
  assert (forall q, at_pc q = Stopping i -> forall code, at_pc q <> Exit code) as Hne by (intros q E code; by rewrite E).
  destruct (stop_terminates _ _ _ _ _ _ _ Hr Hn) as (l1 & w1 & Hl1 & Hr1 & Hn1 & Hw1 & _).
  destruct (run_web_tasks l1 p w1 (Hne _ Hpc) Hl1 Hr1) as [R1 O1].
  pose proof (site_run_ok _ _ _ _ _ Hok R1) as Hok1.
  destruct (po_stop _ _ _ Hok1 i Hpc) as (t & Ht & Hst). cbn [web set_web] in Ht.
  destruct (stop_task_ends cfg (stop_rest t) w1 i t (po_web _ _ _ Hok1) Ht Hst Hn1 Hw1 (le_n _)) as (k & w2 & Hr2 & Hd).
  destruct (run_web_tasks (replicate k (LTask i Go)) (set_web p w1) w2 (Hne _ Hpc)) as [R2 O2];
    [apply Forall_replicate; by eexists|exact Hr2|].
  pose proof (site_run_ok _ _ _ _ _ Hok1 R2) as Hok2.
  assert (step (set_web (set_web p w1) w2) LMain = Some (set_pc (set_web p w2) Closing)) as R3.
  { unfold step, main_step. cbn [at_pc set_web web]. rewrite Hpc, Hd. done. }
  destruct (closing_ends cfg _ (set_pc (set_web p w2) Closing) (site_ok_step _ _ _ _ _ Hok2 R3)) as (l4 & p' & code & O4 & R4 & E); [by left|].
  exists ((LWeb <$> l1) ++ (LWeb <$> replicate k (LTask i Go)) ++ LMain :: l4), p', code. split; [|split; [|done]].
  - rewrite !Forall_app. split_and!; [done..|by constructor].
  - rewrite (site_run_app _ _ _ _ R1), (site_run_app _ _ _ _ R2). cbn [run]. by rewrite R3.
Qed.

(** The first step of [srv.Stop()] takes the session. *)
Lemma stop_begins cfg ls p i : proc_ok cfg ls p -> at_pc p = Stopping i -> tasks (web p) !! i = Some (TRequest StopServer) ->
  exists p1, step p (LWeb (LTask i Go)) = Some p1 /\ at_pc p1 = Stopping i /\ session (web p1) = None.
Proof.
  intros Hok Hpc Ht. assert (exists w1 t', web_task_step (web p) (TRequest StopServer) Go = Some (w1, t', []) /\ session w1 = None) as (w1 & t' & Hs & Hn).
  { cbn. unfold take_session, continue. destruct (session (web p)) eqn:E; eexists _, _; split; try reflexivity; done. }
  exists (set_web p (set_tasks w1 (<[i := t']> (tasks (web p)) ++ []))). split; [|done].
  apply step_web; [intros code E; congruence|by eexists _, _|]. cbn [Web.step]. rewrite Ht. cbn [mbind option_bind]. by rewrite Hs.
Qed.

Lemma site_ends cfg ls p : proc_ok cfg ls p -> signalled p = true -> (forall code, at_pc p <> Exit code) ->
  (forall i, at_pc p = Stopping i -> session (web p) = None \/ tasks (web p) !! i = Some (TRequest StopServer)) ->
  exists ls' p' code, Forall orderly ls' /\ run p ls' = Some p' /\ at_pc p' = Exit code.
Proof.
  intros Hok Hs Hne Hst.
  assert (forall q ls0 i, proc_ok cfg ls0 q -> at_pc q = Stopping i -> session (web q) = None \/ tasks (web q) !! i = Some (TRequest StopServer) ->
    exists ls' p' code, Forall orderly ls' /\ run q ls' = Some p' /\ at_pc p' = Exit code) as Hstop.
  { intros q ls0 i Hq E [Hn|Ht]; [by eapply stopping_ends|]. destruct (stop_begins _ _ _ _ Hq E Ht) as (q1 & S1 & E1 & N1).
    destruct (stopping_ends cfg _ q1 i (site_ok_step _ _ _ _ _ Hq S1) E1 N1) as (l' & p' & code & O & R & Ex).
    exists (LWeb (LTask i Go) :: l'), p', code. split; [by constructor|]. split; [|done]. cbn [run]. by rewrite S1. }
  destruct (at_pc p) as [|i| | |code] eqn:E; [|by eapply Hstop; [|exact E|apply Hst]|eapply closing_ends; eauto..|by destruct (Hne code)].
  assert (exists q, step p LMain = Some q /\ at_pc q = Stopping (length (tasks (web p))) /\
    tasks (web q) !! length (tasks (web p)) = Some (TRequest StopServer)) as (q & S1 & E1 & T1).
  { eexists. split; [unfold step, main_step; rewrite E, Hs; reflexivity|]. split; [done|]. by apply list_lookup_middle. }
  destruct (Hstop q _ _ (site_ok_step _ _ _ _ _ Hok S1) E1 (or_intror T1)) as (l' & p' & code & O & R & Ex).
  exists (LMain :: l'), p', code. split; [by constructor|]. split; [|done]. cbn [run]. by rewrite S1.
Qed.

(** ** The wait of [Stop] *)

Definition stop_request (r : Web.request) : bool :=
  match r with PostHostStop | PostPeerStop | StopServer => true | _ => false end.
Definition no_stop (t : task) : Prop := match t with TRequest r => stop_request r = false | _ => True end.

Lemma session_stays w l w' : session w <> None -> Forall no_stop (tasks w) -> web_step w l = Some w' ->
  (forall r, l = LArrive r -> stop_request r = false) -> session w' = session w /\ Forall no_stop (tasks w').
Proof.
  intros Hs Hf Hst Hl. destruct l as [r|i e].
  - injection Hst as <-. split; [done|]. cbn. apply Forall_app. split; [done|]. apply Forall_singleton. by apply Hl.
  - apply web_step_task in Hst as (t & w1 & t' & new & Ht & Hst & ->). cbn [session tasks set_tasks].
    pose proof (Forall_lookup_1 _ _ _ _ Hf Ht) as Hno.
    assert (session w1 = session w /\ no_stop t') as [-> Hno'].
    { destruct (session w) as [sid|] eqn:E; [|done].
      task_cases t e Hst; cbn [session set_session set_sessions set_shared set_wg cacheForm Reset]; try done.
      all: unfold after; try (by case_match); try (split; [congruence|by case_match]). }
    split; [done|]. apply Forall_app. split; [by apply Forall_insert|].
    eapply Forall_impl; [by eapply new_tasks|]. by intros [].
Qed.

(** A session that has started after [Stop] took the last one keeps it. *)
Lemma stop_waits cfg ls' : forall ls p p' i, proc_ok cfg ls p -> at_pc p = Stopping i -> tasks (web p) !! i <> Some (TDone Stopped) ->
  session (web p) <> None -> Forall no_stop (tasks (web p)) ->
  (forall r, LWeb (LArrive r) ∈ ls' -> stop_request r = false) -> run p ls' = Some p' ->
  at_pc p' = Stopping i /\ session (web p') = session (web p).
Proof.
  induction ls' as [|l ls' IH]; intros ls p p' i Hok Hpc Ht Hs Hf Hl; cbn [run]; [by intros [= <-]|].
  destruct (step p l) as [p1|] eqn:E; [|done]. cbn [mbind option_bind]. intros Hr.
  assert (at_pc p1 = Stopping i /\ session (web p1) = session (web p) /\ Forall no_stop (tasks (web p1)) /\
    tasks (web p1) !! i <> Some (TDone Stopped)) as (Hpc1 & Hs1 & Hf1 & Ht1).
  { pose proof E as Est. unfold step in E. rewrite Hpc in E. destruct l as [|l|err|].
    - injection E as <-. done.
    - destruct (admitted p l); [|done]. destruct (web_step (web p) l) as [w1|] eqn:Ew; [|done]. injection E as <-. split; [done|].
      destruct (session_stays _ _ _ Hs Hf Ew) as [Es1 Ef1]; [intros r ->; apply Hl; by left|]. split; [done|]. split; [done|].
      cbn [web set_web]. destruct (po_stop _ _ _ Hok i Hpc) as (t & Hti & Hst). destruct l as [r|j e].
      + injection Ew as <-. cbn. rewrite lookup_app_l by (by eapply lookup_lt_Some). done.
      + apply web_step_task in Ew as (t0 & w2 & t' & new & Ht0 & Hts & ->). cbn.
        rewrite lookup_app_l by (rewrite length_insert; by eapply lookup_lt_Some).
        destruct (decide (j = i)) as [->|Hne]; [|by rewrite list_lookup_insert_ne].
        rewrite list_lookup_insert_eq by (by eapply lookup_lt_Some). intros [= ->].
        pose proof (current_counted _ _ (po_web _ _ _ Hok) Hs) as Hwg.
        rewrite Hti in Ht0. injection Ht0 as <-.
        destruct t as [[]| | | |sid []|sid []|[]| | | | |[]| |]; try done; cbn [Web.task_step] in Hts.
        * unfold take_session, continue in Hts. by case_match; simplify_eq.
        * unfold stop_select in Hts. destruct (_ !! sid) as [s0|]; [|done]. cbn in Hts. by destruct (done s0).
        * unfold stop_close in Hts. destruct (_ !! sid) as [s0|]; [|done]. cbn in Hts. by destruct (done s0).
        * case_decide; [lia|done].
    - destruct (serve_returned p); [done|]. destruct (_ && _); [done|]. injection E as <-. done.
    - unfold main_step in E. rewrite Hpc in E. destruct (tasks (web p) !! i) as [[]|]; try done. by case_match. }
  rewrite <- Hs1. eapply (IH (ls ++ [l])); try done; [by eapply site_ok_step|congruence|].
  intros r Hin. apply Hl. by right.
Qed.
End process.

(** * Correctness *)


(** ** Schedules *)

Definition demo_process (ls : list label) : option process :=
  run (URL := list Z) (Cert := unit) Some (take 4) (fun _ => None) (fun _ => None) id (start zero_shared) ls.

(** A host session, and a signal: the session is taken, and before it has been
    told to stop another one starts. *)
Definition start_while_stopping : list label :=
  (LWeb <$> start_host) ++ [LSignal; LMain; LWeb (LTask 4 Go); LWeb (LArrive demo_host); LWeb (LTask 5 (Forward (Ok ""%string)))].

(** The signal comes first, and a session starts between the return of [Stop]
    and [Close]. *)
Definition start_before_close : list label :=
  [LSignal; LMain; LWeb (LTask 0 Go); LWeb (LTask 0 Go); LMain] ++
  [LWeb (LArrive demo_setup); LWeb (LTask 1 Go); LWeb (LTask 1 Go); LWeb (LTask 1 Go);
   LWeb (LArrive demo_host); LWeb (LTask 2 (Forward (Ok ""%string)))] ++
  [LMain; LServe ErrServerClosed; LMain].

Lemma start_while_stopping_hangs : exists p, demo_process start_while_stopping = Some p /\ at_pc p = Stopping 4 /\
  tasks (web p) !! 4%nat = Some (TStop 0 ThenWait) /\ session (web p) = Some 1%nat /\ Forall no_stop (tasks (web p)).
Proof.
  assert ((fun p => (at_pc p, tasks (web p) !! 4%nat, session (web p),
      forallb (fun t => match t with TRequest r => negb (stop_request r) | _ => true end) (tasks (web p)))) <$> demo_process start_while_stopping
    = Some (Stopping 4, Some (TStop 0 ThenWait), Some 1%nat, true)) as E by (vm_compute; reflexivity).
  destruct (demo_process start_while_stopping) as [p|]; [|done]. injection E as E1 E2 E3 E4. exists p. split_and!; try done.
  apply Forall_forall. intros t Ht. rewrite forallb_forall in E4. specialize (E4 t (proj1 (list_elem_of_In _ _) Ht)).
  unfold no_stop. destruct t; try done. by apply negb_true_iff in E4.
Qed.

Lemma start_before_close_remains : exists p, demo_process start_before_close = Some p /\ at_pc p = Exit 0 /\
  session (web p) = Some 0%nat /\ wg (web p) = 2%nat /\ done <$> sessions (web p) !! 0%nat = Some false.
Proof.
  assert ((fun p => (at_pc p, session (web p), wg (web p), done <$> sessions (web p) !! 0%nat)) <$> demo_process start_before_close
    = Some (Exit 0, Some 0%nat, 2%nat, Some false)) as E by (vm_compute; reflexivity).
  destruct (demo_process start_before_close) as [p|]; [|done]. injection E as E1 E2 E3 E4. by exists p.
Qed.

(** C15. The process of the web page.  Its web server only does what the machine
    of [Web] does.  The main goroutine leaves its wait only for a signal, so a
    server that fails is noticed no earlier; the exit code is 0 exactly when
    the server returned that it is closed, and it has been closed then.  After
    a signal the process can end with nothing more from outside than the
    return of the closed server, unless a session has started since [Stop]
    took the current one.  Such a session is never stopped by the process: as
    long as no other stop is asked for, [Stop] does not return, and this can
    happen.  A session can also start between [Stop] and [Close], and the
    process then exits with code 0 and the session alive. *)
Theorem run_web {URL Cert : Type} (url_Parse : list Z -> option URL) (url_Scheme : URL -> list Z)
    (pem_Decode : list Z -> option (list Z * list Z)) (ParseCertificate : list Z -> option Cert) (upper : Z -> Z)
    (cfg : sharedConfig) (ls : list label) (p : process)
    (Hrun : run url_Parse url_Scheme pem_Decode ParseCertificate upper (start cfg) ls = Some p) :
  let runs := run url_Parse url_Scheme pem_Decode ParseCertificate upper in
  Web.reachable url_Parse url_Scheme pem_Decode ParseCertificate upper cfg (web p) /\
  (at_pc p <> Waiting -> LSignal ∈ ls) /\
  (forall code, at_pc p = Exit code -> http_closed p = true /\
     exists err, serve_returned p = Some err /\ LServe err ∈ ls /\ (code = 0 <-> is_closed err = true) /\ (code = 0 \/ code = 1)) /\
  (LSignal ∈ ls -> (forall code, at_pc p <> Exit code) ->
     (forall i, at_pc p = Stopping i -> session (web p) = None \/ tasks (web p) !! i = Some (TRequest StopServer)) ->
     exists ls' p' code, Forall orderly ls' /\ runs p ls' = Some p' /\ at_pc p' = Exit code) /\
  (forall i ls' p', at_pc p = Stopping i -> tasks (web p) !! i <> Some (TDone Stopped) ->
     session (web p) <> None -> Forall no_stop (tasks (web p)) ->
     (forall r, LWeb (LArrive r) ∈ ls' -> stop_request r = false) -> runs p ls' = Some p' ->
     at_pc p' = Stopping i /\ session (web p') = session (web p)) /\
  (exists p, demo_process start_while_stopping = Some p /\ at_pc p = Stopping 4 /\
     tasks (web p) !! 4%nat = Some (TStop 0 ThenWait) /\ session (web p) = Some 1%nat /\ Forall no_stop (tasks (web p))) /\
  (exists p, demo_process start_before_close = Some p /\ at_pc p = Exit 0 /\
     session (web p) = Some 0%nat /\ wg (web p) = 2%nat /\ done <$> sessions (web p) !! 0%nat = Some false).
Proof.
  intros runs. pose proof (site_run_ok _ _ _ _ _ cfg ls [] (start cfg) p (site_starts _ _ _ _ _ cfg) Hrun) as Hok.
  cbn [app] in Hok. split_and!.
  - apply (po_web _ _ _ _ _ _ _ _ Hok).
  - intros Hw. apply (po_signal _ _ _ _ _ _ _ _ Hok). by apply (po_waiting _ _ _ _ _ _ _ _ Hok).
  - intros code E. split; [apply (po_closed _ _ _ _ _ _ _ _ Hok); right; by eexists|].
    destruct (po_exit _ _ _ _ _ _ _ _ Hok code E) as (err & H1 & H2 & ->). exists err. split; [done|]. split; [done|].
    destruct (is_closed err); (split; [done|]); auto.
  - intros Hs. exact (site_ends _ _ _ _ _ cfg ls p Hok (proj2 (po_signal _ _ _ _ _ _ _ _ Hok) Hs)).
  - intros i ls' p'. by eapply (stop_waits _ _ _ _ _ cfg ls' ls).
  - apply start_while_stopping_hangs.
  - apply start_before_close_remains.
Qed.

(** A template is its name, and a page says which template it is. *)
Definition demo_templates : gmap string string :=
  match parseTemplates (fun _ => Ok ""%string) (fun _ file => Ok file) with Ok m => m | Err _ => ∅ end.


Lemma run_web_witness : exists p, demo_process ((LWeb <$> start_host) ++ [LSignal]) = Some p /\ session (web p) = Some 0%nat /\
  exists ls' p' code, Forall orderly ls' /\
    run Some (take 4) (fun _ => None) (fun _ => None) id p ls' = Some p' /\ at_pc p' = Exit code.
Proof.
  assert ((fun p => (at_pc p, session (web p))) <$> demo_process ((LWeb <$> start_host) ++ [LSignal]) = Some (Waiting, Some 0%nat)) as E
    by (vm_compute; reflexivity).
  destruct (demo_process ((LWeb <$> start_host) ++ [LSignal])) as [p|] eqn:Hp; [|discriminate E]. injection E as E1 E2.
  exists p. split; [reflexivity|]. split; [exact E2|].
  destruct (run_web Some (take 4) (fun _ => None) (fun _ => None) id zero_shared _ p Hp) as (_ & _ & _ & H & _).
  apply H; [set_solver| |]; intros; congruence.
Defined.
