(* ===== verification/Reach.v ===== *)
(** The requests of the registar client, as the registar's router sees them:
    [resolvePath] of [internal/registar/client.go] and [newSessionID] of
    [internal/registar/server.go].

    The URL of a request is the base URL with a path under its own; [path.Join]
    and [URL.ResolveReference] of the standard library are written out, the
    escaping of paths is in [Url], and the multiplexer of [Mux] reads the
    result. *)
From S2P Require Import Prelude Text Auth Netip Models Registar Http Mux Url RateLimit Config Pages Router.
Local Open Scope Z_scope.

(** * The path of a request *)

(** [path.Join]: empty elements are left out at the beginning. *)
Definition path_Join (elems : list str) : str :=
  let buf := foldl (fun buf e => match buf with [] => e | _ => buf ++ slash :: e end) [] elems in
  match buf with [] => [] | _ => path_Clean buf end.

(** [resolvePath] of [net/url]: what has been written after the first slash,
    and whether the next element is the first one. *)
Definition resolve_step (st : str * bool) (elem : str) : str * bool :=
  let '(dst, first) := st in
  if decide (elem = dot) then (dst, false)
  else if decide (elem = dotdot) then
    match last_index_byte slash dst with Some i => (take i dst, first) | None => ([], true) end
  else (dst ++ (if first then [] else [slash]) ++ elem, false).

Definition url_resolvePath (base ref : str) : str :=
  let full := match ref with
              | [] => base
              | c :: _ => if c =? slash then ref
                          else match last_index_byte slash base with Some i => take (S i) base ++ ref | None => ref end
              end in
  match full with
  | [] => []
  | _ =>
      let elems := split full in
      let dst := (foldl resolve_step ([], true) elems).1 in
      let tail := match last elems with Some e => if decide (e = dot \/ e = dotdot) then [slash] else [] | None => [] end in
      match dst ++ tail with c :: r => if c =? slash then c :: r else slash :: c :: r | [] => [slash] end
  end.

(** [resolvePath] of the client: the path of the URL it returns, for the path
    of the base URL, its escaped form, and the path of the call. *)
Definition resolvePath (base base_escaped sub : str) : str := url_resolvePath base_escaped (EscapePath (path_Join [base; sub])).

(** [newSessionID], for sixteen random bytes. *)
Definition newSessionID (b : list Z) : str := hex_encode b.

(** * Lemmas *)

(** The segments of the base URL's path, cleaned. *)
Definition base_segs (base : str) : list str :=
  match base with [] => [] | _ :: q => rev (foldl (clean_step true) [] (split q)) end.

Lemma split_app_any x s : split (x ++ slash :: s) = split x ++ split s.
Proof.
  induction x as [|c x IH]; cbn [app]; rewrite !split_cons, ?IH; [done|].
  destruct (c =? slash); [done|]. pose proof (split_nonempty x). by destruct (split x).
Qed.

(** Joining a base with clean segments. *)
Lemma join_base base l : base = [] \/ (exists q, base = slash :: q) -> l <> [] -> Forall proper l -> Forall no_slash l ->
  path_Join [base; slash :: join l] = slash :: join (base_segs base ++ l).
Proof.
  intros Hb Hne Hp Hn. assert (forall p, foldl (clean_step true) p l = rev l ++ p) as Hl by (intros p; by apply clean_fold_id).
  unfold path_Join. destruct Hb as [->|[q ->]]; cbn [foldl base_segs app].
  - rewrite path_Clean_rooted, split_join, Hl, app_nil_r, rev_involutive by done. done.
  - rewrite path_Clean_rooted. rewrite split_app_any.
    assert (split (slash :: join l) = [] :: l) as E by (rewrite split_cons; cbn [Z.eqb]; by rewrite split_join).
    rewrite E, foldl_app. cbn [foldl]. rewrite Hl, rev_app_distr, rev_involutive. do 2 f_equal.
Qed.

Lemma base_segs_ok base : Forall proper (base_segs base) /\ Forall no_slash (base_segs base).
Proof.
  destruct base as [|c q]; cbn; [done|].
  destruct (clean_fold_proper (split q) [] (List.Forall_nil _) (List.Forall_nil _) (split_no_slash q)) as [Hp Hn].
  split; by apply Forall_rev.
Qed.

(** ** Resolving and reading a clean path *)

Lemma flat_map_join l : l <> [] -> flat_map (cons slash) l = slash :: join l.
Proof.
  induction l as [|x [|y l] IH]; [done| |]; intros _; [cbn; by rewrite app_nil_r|]. rewrite join_cons.
  change (flat_map (cons slash) (x :: y :: l)) with ((slash :: x) ++ flat_map (cons slash) (y :: l)). by rewrite IH.
Qed.

Lemma resolve_fold l : forall d, Forall proper l -> foldl resolve_step (d, false) l = (d ++ flat_map (cons slash) l, false).
Proof.
  induction l as [|x l IH]; intros d Hl; [cbn; by rewrite app_nil_r|]. apply Forall_cons in Hl as [(_ & H2 & H3) Hl]. cbn [foldl flat_map].
  unfold resolve_step at 2. rewrite decide_False by done. rewrite decide_False by done. rewrite IH by done.
  f_equal. by rewrite <- !(assoc_L (++)).
Qed.

Lemma url_resolvePath_clean base l : l <> [] -> Forall proper l -> Forall no_slash l -> url_resolvePath base (slash :: join l) = slash :: join l.
Proof.
  intros Hne Hp Hn. unfold url_resolvePath. rewrite Z.eqb_refl, split_cons, Z.eqb_refl, split_join by done.
  cbn [foldl]. change (resolve_step ([], true) []) with (@nil Z, false). rewrite resolve_fold by done. cbn [fst app].
  rewrite flat_map_join by done. rewrite last_cons. destruct (last l) as [e|] eqn:El; [|by apply last_None in El].
  apply last_Some in El as (l' & ->). apply Forall_app in Hp as [_ [(_ & H2 & H3) _]%Forall_cons].
  rewrite (decide_False (P := e = dot \/ e = dotdot)) by tauto. rewrite app_nil_r, Z.eqb_refl. done.
Qed.

Lemma clean_fold_all P segs : forall st, Forall P st -> Forall P segs -> Forall P (foldl (clean_step true) st segs).
Proof.
  induction segs as [|x segs IH]; intros st Hst Hs; [done|]. apply Forall_cons in Hs as [Hx Hs]. cbn [foldl]. apply IH; [|done].
  unfold clean_step. case_decide; [done|]. case_decide; [|by constructor]. destruct st as [|y st]; [constructor|].
  apply Forall_cons in Hst as [Hy Hst]. case_decide; [by repeat constructor|done].
Qed.

Lemma split_all P s : Forall P s -> Forall (Forall P) (split s).
Proof.
  induction 1 as [|c s Hc Hs IH]; [by repeat constructor|]. rewrite split_cons. destruct (c =? slash); [by constructor|].
  destruct (split s) as [|x xs]; [done|]. apply Forall_cons in IH as [Hx Hxs]. by repeat constructor.
Qed.

Lemma base_segs_seg_ok base : bytes_ok base -> Forall seg_ok (base_segs base).
Proof.
  intros Hb. destruct (base_segs_ok base) as [Hp Hn]. assert (Forall bytes_ok (base_segs base)) as Hbs.
  { destruct base as [|c q]; [constructor|]. apply Forall_cons in Hb as [_ Hb]. cbn. apply Forall_rev, clean_fold_all; [constructor|by apply split_all]. }
  apply Forall_forall. intros x Hx. rewrite Forall_forall in Hp, Hn, Hbs. split; [by apply Hp|]. split; [by apply Hn|by apply Hbs].
Qed.

Lemma resolvePath_segs base base_escaped l : bytes_ok base -> base = [] \/ (exists q, base = slash :: q) -> l <> [] -> Forall seg_ok l ->
  resolvePath base base_escaped (slash :: join l) = slash :: join (escape <$> base_segs base ++ l).
Proof.
  intros Hb Hr Hne Hl. unfold resolvePath. destruct (segs_split l Hl) as (Hp & Hn & _). rewrite join_base by done.
  unfold EscapePath. rewrite decide_False by done. unfold escape. cbn [flat_map]. fold (escape (join (base_segs base ++ l))).
  change (escape_byte slash) with [slash]. cbn [app]. rewrite escape_join. assert (Forall seg_ok (escape <$> base_segs base ++ l)) as Hs.
  { apply escape_segs, Forall_app. split; [by apply base_segs_seg_ok|done]. }
  apply segs_split in Hs as (Hsp & Hsn & _). apply url_resolvePath_clean; [|done..]. by destruct (base_segs base), l.
Qed.

(** ** Session identifiers *)

Lemma newSessionID_seg b : bytes_ok b -> length b = 16%nat -> seg_ok (newSessionID b) /\ length (newSessionID b) = 32%nat.
Proof.
  intros Hb Hl. unfold newSessionID. pose proof (hex_encode_chars b Hb) as Hc. pose proof (hex_encode_length b) as Hlen.
  rewrite Hl in Hlen. split; [|done]. split; [|split].
  - split_and!; intros E; rewrite E in Hlen; discriminate Hlen.
  - unfold no_slash, slash. rewrite Forall_forall in Hc. intros Hx%Hc. lia.
  - eapply Forall_impl; [exact Hc|]. unfold is_byte. cbn. lia.
Qed.

(** * The client and the router *)

Definition host_path : str := bytes_of_string "/host".
Definition join_path : str := bytes_of_string "/join".
Definition relay_path (sid : str) : str := bytes_of_string "/relay/" ++ sid.

(** A request of [register] or of the relay callback, as the server gets it:
    the method, the path and the token. *)
Definition client_call (base base_escaped sub : str) (t : Token) (r : Request) : Prop :=
  Method r = POST /\ EscapedPath r = resolvePath base base_escaped sub /\ TokenFromHeader headerToken r = Token_String t.

(** The parts of the three paths. *)
Inductive sub_segs : str -> list str -> Prop :=
| sub_host : sub_segs host_path [bytes_of_string "host"]
| sub_join : sub_segs join_path [bytes_of_string "join"]
| sub_relay sid : seg_ok sid -> sub_segs (relay_path sid) [bytes_of_string "relay"; sid].

Lemma literal_seg_ok s : bool_decide (seg_ok s) = true -> seg_ok s.
Proof. by intros ?%bool_decide_eq_true. Qed.

Lemma sub_segs_ok sub l : sub_segs sub l -> l <> [] /\ Forall seg_ok l /\ sub = slash :: join l.
Proof.
  intros [| |sid Hs]; (split; [done|]); (split; [|done]).
  1, 2: apply Forall_singleton, literal_seg_ok; vm_compute; reflexivity.
  apply List.Forall_cons; [apply literal_seg_ok; vm_compute; reflexivity|by apply Forall_singleton].
Qed.

Lemma call_segs base base_escaped sub l t r : bytes_ok base -> base = [] \/ (exists q, base = slash :: q) -> sub_segs sub l ->
  client_call base base_escaped sub t r ->
  cleanPath (EscapedPath r) = EscapedPath r /\ path_segs (EscapedPath r) = base_segs base ++ l.
Proof.
  intros Hb Hr (Hne & Hl & ->)%sub_segs_ok (_ & -> & _). rewrite resolvePath_segs by done.
  apply server_reads; [by destruct (base_segs base), l|]. apply Forall_app. split; [by apply base_segs_seg_ok|done].
Qed.

Section reach.
Context {D L R F : Type} `{TokenBucket L R}.
Local Abbreviation state := (@state D L).
Variable x : outside (F := F).
Variable cfg : config.

(** The call a path stands for, at the root. *)
Definition call_of (r : Request) (k : Key) (segs : list str) : @Registar.label D :=
  match segs with
  | [s] => register_call x r k (bool_decide (s = bytes_of_string "host"))
  | [_; sid] => relay_call x r sid
  | _ => register_call x r k false
  end.

Lemma root_routed base base_escaped sub l t r k : bytes_ok base -> base = [] \/ (exists q, base = slash :: q) -> base_segs base = [] ->
  sub_segs sub l -> client_call base base_escaped sub t r -> routed x r k (call_of r k l).
Proof.
  intros Hb Hr He Hs Hc. destruct (call_segs _ _ _ _ _ _ Hb Hr Hs Hc) as [H1 H2]. rewrite He in H2. cbn [app] in H2.
  destruct Hc as (Hm & _). destruct Hs as [| |sid Hs]; cbn [call_of]; constructor; unfold matches;
    (rewrite decide_True by (split; [exact Hm|exact H1])); rewrite H2; try reflexivity.
  destruct Hs as ((Hne & _) & Hn & _). cbn. rewrite decide_True by done.
  rewrite decide_False by (intros ->; apply Hn; set_solver). cbn. by rewrite decide_False.
Qed.

(** Below the root a registration reaches neither [Register], and nothing but
    the path relay/host or relay/join reaches [Relay]. *)
Lemma elsewhere_unrouted base base_escaped sub l t r k isHost : bytes_ok base -> base = [] \/ (exists q, base = slash :: q) -> base_segs base <> [] ->
  sub_segs sub l -> client_call base base_escaped sub t r -> ~ routed (D := D) x r k (register_call x r k isHost).
Proof.
  intros Hb Hr Hne Hs Hc Hro. destruct (call_segs _ _ _ _ _ _ Hb Hr Hs Hc) as [_ H2]. apply sub_segs_ok in Hs as (Hl & _ & _).
  assert (2 <= length (path_segs (EscapedPath r)))%nat as Hlen.
  { rewrite H2, length_app. destruct (base_segs base), l; cbn; try done. lia. }
  assert (forall s, matches (mkPattern POST [Lit s] []) r <> Some []) as Hno.
  { intros s. unfold matches. case_decide; [|done]. cbn [p_segments p_names].
    destruct (path_segs (EscapedPath r)) as [|a [|b segs]]; cbn in Hlen; try lia. cbn. by case_decide. }
  inversion Hro; by eapply Hno.
Qed.

(** C7. From the client to the server.  When the base URL has no path but the
    root, the requests of a client with the token of a key, made under the
    server's secret, call [Register] as host or as peer, and [Relay] with the
    very identifier the server has chosen, with that key, once each, provided
    the limiter admits the address and the host of the URL is served: paths
    survive being joined, escaped, resolved, cleaned and split.  When the base
    URL has another path, which the client does not refuse, no registration can
    reach a registar.  The identifiers the server makes are paths of that kind,
    and different random bytes make different ones. *)
Theorem client_reaches_registar (base base_escaped sub : str) (l : list str) (k : Key) (r : Request)
    (w : ResponseWriter) (s : state) (rl : RateLimit)
    (Hk : Key_wf k) (Hb : bytes_ok base) (Hr : base = [] \/ exists q, base = slash :: q) (Hs : sub_segs sub l)
    (Hc : client_call base base_escaped sub (NewToken k (cSecret cfg)) r) :
  (base_segs base = [] ->
     serve (clock s) (limits s) (RequestIP (parse_addr x) r) = Ret (Admit, rl) -> host_part (Host r) ∈ Domains cfg ->
     exists w' s', registar_handler x cfg w r s = Ret (w', s') /\ calls s' = calls s ++ [call_of r k l]) /\
  (base_segs base <> [] -> forall k' isHost, ~ routed (D := D) x r k' (register_call x r k' isHost)) /\
  (forall b, bytes_ok b -> length b = 16%nat ->
     sub_segs (relay_path (newSessionID b)) [bytes_of_string "relay"; newSessionID b] /\ length (newSessionID b) = 32%nat /\
     forall b', bytes_ok b' -> newSessionID b = newSessionID b' -> b = b').
Proof.
  split_and!.
  - intros He Hsv Hd. destruct Hc as (Hm & Hp & Ht) eqn:E. eapply registar_handler_makes; [done|done| |by eapply root_routed].
    split; [done|]. rewrite Ht. by apply NewToken_parses.
  - intros Hne k' isHost. by eapply elsewhere_unrouted.
  - intros b Hbb Hl. destruct (newSessionID_seg b Hbb Hl) as [H1 H2]. split; [by constructor|]. split; [done|].
    intros b' Hb' E. by apply hex_encode_inj.
Qed.
End reach.

(** A base URL without a path, and one with a path that resolves to a relay. *)
Lemma client_reaches_registar_witness : exists w' s' rl,
  serve (clock demo_state) (limits demo_state) (RequestIP (parse_addr demo_outside) demo_post) = Ret (Admit, rl) /\
  registar_handler demo_outside demo_cfg demo_writer demo_post demo_state = Ret (w', s') /\
  calls s' = [register_call demo_outside demo_post [1; 2; 3; 4; 5] true].
Proof.
  assert (exists rl, serve (clock demo_state) (limits demo_state) (RequestIP (parse_addr demo_outside) demo_post) = Ret (Admit, rl)) as [rl Hs]
    by (eexists; vm_compute; reflexivity).
  destruct (client_reaches_registar demo_outside demo_cfg [] [] host_path [bytes_of_string "host"] [1; 2; 3; 4; 5] demo_post
    demo_writer demo_state rl) as [H _].
  - split; [reflexivity|]. apply (bool_decide_unpack _). vm_compute. exact I.
  - constructor.
  - by left.
  - constructor.
  - split; [reflexivity|]. split; vm_compute; reflexivity.
  - destruct (H eq_refl Hs) as (w' & s' & Hh & Hc).
    + apply (bool_decide_unpack _). vm_compute. exact I.
    + exists w', s', rl. split; [exact Hs|]. split; [exact Hh|]. rewrite Hc. vm_compute. reflexivity.
Defined.

Example relay_base : resolvePath (bytes_of_string "/relay") (bytes_of_string "/relay") host_path = bytes_of_string "/relay/host".
Proof. vm_compute. reflexivity. Qed.
