(* ===== verification/Commands.v ===== *)
(** The commands [star host] and [star peer]: [runHost] and [runPeer] of
    [cmd/star/main.go] from the call of the forwarder to the exit status, with
    the end of [main].

    The connections are those of [Dial], the loops those of [Forwarder], and a
    host's [Accept] is the one of [Client].  [os.Exit] ends the process at once,
    without the deferred calls.  Which arguments lead here is in [Config]; the
    command without arguments is in [WebSite].  Debug messages are left out. *)
From S2P Require Import Prelude Netip Errors Control CA Http Client Forwarder Dial.
Local Open Scope Z_scope.

(** * The process *)

(** What is printed and logged. *)
Inductive output :=
| InviteCode (key : str)
| ConnectTo (listener : nat)
| Logged (msg : string) (err : goerror)
| Bye.

(** The exit status, the output, and the sockets and transports as the program
    has left them. *)
Record ended := mkEnded { code : Z; out : list output; at_end : world }.

(** What happens while a host accepts: a callback of the agent delivers a
    connection, or the select of [Accept] takes a case. *)
Inductive host_event := Arrives (conn : nat) | Takes (c : accept_case).

(** The calls of [hoster.Accept] that [Host.AcceptAndLink] makes, up to the first
    that fails; [None]: a case was not ready. *)
Fixpoint accept_loop (h : Hoster) (es : list host_event) : option (Hoster * list (result goerror nat)) :=
  match es with
  | [] => Some (h, [])
  | Arrives conn :: es => accept_loop (mkHoster (conns h ++ [conn]) (done h) (eg h)) es
  | Takes c :: es =>
      '(h, r) ← Accept h c;
      match r with
      | Err err => Some (h, [Err err])
      | Ok conn => '(h, rs) ← accept_loop h es; Some (h, Ok conn :: rs)
      end
  end.

Section commands.
Variable closes_conn : bool.
Variable ResolveUDPAddr : str -> result goerror AddrPort.

(** [runHost], from [fwdCfg.Register]; [None]: it goes on. *)
Definition runHost (w : world) (port : Z) (host gameKey : str) (an : answers) (s : register_script) (serve_err : goerror)
    (es : list host_event) : option (outcome ended) :=
  match HostConfig_Register closes_conn ResolveUDPAddr w port host an s serve_err with
  | (w, Err err) => Some (Ret (mkEnded 1 [Logged "register host" err] w))
  | (w, Ok h) =>
      '(h', rs) ← accept_loop (h_state h) es;
      '(_, err) ← Host_AcceptAndLink rs;
      match err with
      | Some err => Some (Ret (mkEnded 1 [InviteCode gameKey; Logged "run host" err] w))
      | None =>
          Some ('(w, _, _) ← Host_Close closes_conn w (mkHosterOf (h_transport h) h');
                Ret (mkEnded 0 [InviteCode gameKey; Bye] w))
      end
  end.

(** [peer.AcceptAndLink]: linking a game to a nil connection panics. *)
Definition accept_and_link (hostConn : option nat) (rounds : list round) : option (outcome (option goerror)) :=
  match hostConn, rounds with
  | Some conn, _ => '(_, err) ← Peer_AcceptAndLink conn rounds; Some (Ret err)
  | None, AcceptFails _ _ :: _ => '(_, err) ← Peer_AcceptAndLink 0 rounds; Some (Ret err)
  | None, Accepted _ _ _ :: _ => Some Panic
  | None, [] => None
  end.

(** [runPeer], from [fwdCfg.Join]; [lerr] and [terr] are what [Close] gets. *)
Definition runPeer (w : world) (port : Z) (host : str) (an : answers) (s : register_script) (ev : join_event)
    (listen : result goerror nat) (rounds : list round) (lerr terr : option goerror) : option (outcome ended) :=
  match PeerConfig_Join closes_conn ResolveUDPAddr w port host an s ev listen with
  | (w, Err err) => Some (Ret (mkEnded 1 [Logged "register peer" err] w))
  | (w, Ok p) =>
      r ← accept_and_link (p_hostConn p) rounds;
      Some (err ← r;
            match err with
            | Some err => Ret (mkEnded 1 [ConnectTo (p_listener p); Logged "accept and link" err] w)
            | None => Ret (mkEnded 0 [ConnectTo (p_listener p); Bye] (Peer_Close closes_conn w p lerr terr).1)
            end)
  end.

(** * The host *)

(** As long as the host is not closed, which its own command does only after the
    loop, the loop fails with the error of the context alone. *)
Lemma accept_loop_open es : forall h h' rs, done h = false -> accept_loop h es = Some (h', rs) ->
  Forall (fun r => is_ok r = true) rs \/
  exists cs err, rs = (Ok <$> cs) ++ [Err err] /\ Takes (CaseCtx err) ∈ es.
Proof.
  induction es as [|[conn|c] es IH]; intros h h' rs Hd; cbn [accept_loop].
  - intros [= <- <-]. by left.
  - intros H. apply IH in H as [H|(cs & err & -> & H)]; [by left| |done]. right. exists cs, err. set_solver.
  - destruct c as [| |err]; cbn [Accept].
    + destruct (conns h) as [|conn rest]; cbn; [done|]. destruct (accept_loop _ _) as [[h1 rs1]|] eqn:E; cbn; [|done].
      intros [= <- <-]. apply IH in E as [H|(cs & err & -> & H)]; [left; by constructor| |done].
      right. exists (conn :: cs), err. set_solver.
    + rewrite Hd. done.
    + cbn. intros [= <- <-]. right. exists [], err. set_solver.
Qed.

Lemma Host_AcceptAndLink_ok rs : Forall (fun r => is_ok r = true) rs -> Host_AcceptAndLink rs = None.
Proof. induction 1 as [|[c|e] rs Hr _ IH]; [done| |done]. cbn. by rewrite IH. Qed.

Lemma Host_AcceptAndLink_err cs err :
  Host_AcceptAndLink ((Ok <$> cs) ++ [Err err])
  = Some (cs, if Is err ErrHosterClosed_name then None else Some (Wrapped "accept peer connection" err)).
Proof. induction cs as [|c cs IH]; [done|]. cbn. by rewrite IH. Qed.

(** Nothing stops the loop before the context is done. *)
Lemma accept_loop_app es : forall h h' rs es', Forall (fun r => is_ok r = true) rs -> accept_loop h es = Some (h', rs) ->
  accept_loop h (es ++ es') = '(h2, rs') ← accept_loop h' es'; Some (h2, rs ++ rs').
Proof.
  induction es as [|[conn|c] es IH]; intros h h' rs es' Hrs; cbn [accept_loop app].
  - intros [= <- <-]. by destruct (accept_loop h es') as [[? ?]|].
  - by apply IH.
  - destruct (Accept h c) as [[h1 [conn|err]]|]; cbn; [| |done].
    + destruct (accept_loop h1 es) as [[h2 rs2]|] eqn:E; cbn; [|done]. intros [= <- <-].
      apply Forall_cons in Hrs as [_ Hrs]. rewrite (IH _ _ _ es' Hrs E).
      by destruct (accept_loop h2 es') as [[? ?]|].
    + intros [= <- <-]. by apply Forall_cons in Hrs as [? _].
Qed.

(** ** The peer *)

(** The loop ends without an error only when a link says that the transport was
    closed. *)
Lemma Peer_AcceptAndLink_nil rounds : forall conn cs, Peer_AcceptAndLink conn rounds = Some (cs, None) ->
  exists g err j, Accepted g (Some err) j ∈ rounds /\ Is err quic_ErrTransportClosed = true.
Proof.
  induction rounds as [|[e d|g [err|] j] rounds IH]; intros conn cs; cbn; [done|done| |].
  - destruct (Is err errLinkIdleTimeout_name) eqn:Ei.
    + destruct j as [h|e]; [|done]. destruct (Peer_AcceptAndLink h rounds) as [[cs' r]|] eqn:E; cbn; [|done].
      intros [= _ ->]. apply IH in E as (g' & err' & j' & ? & ?). exists g', err', j'. set_solver.
    + destruct (Is err quic_ErrTransportClosed) eqn:Et; [|done]. intros _. exists g, err, j. set_solver.
  - destruct (Peer_AcceptAndLink conn rounds) as [[cs' r]|] eqn:E; cbn; [|done].
    intros [= _ ->]. apply IH in E as (g' & err' & j' & ? & ?). exists g', err', j'. set_solver.
Qed.

(** A loop that goes on reaches its next round, with the connection it has then. *)
Lemma Peer_AcceptAndLink_app rounds : forall conn more, Peer_AcceptAndLink conn rounds = None ->
  exists conn' cs, Peer_AcceptAndLink conn (rounds ++ more)
    = '(cs', r) ← Peer_AcceptAndLink conn' more; Some (cs ++ cs', r).
Proof.
  induction rounds as [|[e d|g [err|] j] rounds IH]; intros conn more; cbn [Peer_AcceptAndLink app].
  - intros _. exists conn, []. by destruct (Peer_AcceptAndLink conn more) as [[? ?]|].
  - done.
  - destruct (Is err errLinkIdleTimeout_name).
    + destruct j as [h|e]; [|done]. destruct (Peer_AcceptAndLink h rounds) as [[? ?]|] eqn:E; cbn; [done|].
      intros _. destruct (IH h more E) as (conn' & cs & ->). exists conn', (Link g conn :: CloseGame g :: cs).
      by destruct (Peer_AcceptAndLink conn' more) as [[? ?]|].
    + by destruct (Is err quic_ErrTransportClosed).
  - destruct (Peer_AcceptAndLink conn rounds) as [[? ?]|] eqn:E; cbn; [done|].
    intros _. destruct (IH conn more E) as (conn' & cs & ->). exists conn', (Link g conn :: cs).
    by destruct (Peer_AcceptAndLink conn' more) as [[? ?]|].
Qed.

(** ** How the commands end *)

(** The context of a command is cancelled by a signal. *)
Definition ctx_Canceled (e : host_event) : Prop := forall err, e = Takes (CaseCtx err) -> err = Canceled.

(** The transport of the command is left open, or there is none. *)
Definition left_open (w w' : world) (t : option nat) : Prop :=
  match t with Some t => t ∈ transports w' | None => transports w' = transports w end.

Lemma attempt_closed w port p : next w ∉ transports w ->
  transports (Transport_Close closes_conn (attempt w port p) (next w)) = transports w.
Proof. intros Hw. cbn. set_solver. Qed.

Lemma runHost_ends w port host key an s serve_err es r : next w ∉ transports w -> Forall ctx_Canceled es ->
  runHost w port host key an s serve_err es = Some r ->
  exists w' reg msg err, HostConfig_Register closes_conn ResolveUDPAddr w port host an s serve_err = (w', reg) /\
    r = Ret (mkEnded 1 ((if is_ok reg then [InviteCode key] else []) ++ [Logged msg err]) w') /\
    left_open w w' (match reg with Ok h => Some (h_transport h) | Err _ => None end).
Proof.
  intros Hw Hes. unfold runHost. destruct (HostConfig_Register _ _ _ _ _ _ _ _) as [w1 reg] eqn:E.
  apply Register_cases in E as [(-> & e & ->)|[(p & _ & -> & e & ->)|(p & h & _ & -> & -> & Ht & Hd)]].
  - intros [= <-]. eexists w, (Err e), _, _. split; [done|]. split; [done|]. done.
  - intros [= <-]. eexists _, (Err e), _, _. split; [done|]. split; [done|]. by apply attempt_closed.
  - destruct (accept_loop (h_state h) es) as [[h' rs]|] eqn:El; cbn [mbind option_bind]; [|done].
    apply accept_loop_open in El as [Hrs|(cs & err & -> & Hin)]; [| |done].
    { by rewrite (Host_AcceptAndLink_ok _ Hrs). }
    rewrite Forall_forall in Hes. assert (err = Canceled) as -> by by apply (Hes _ Hin).
    rewrite Host_AcceptAndLink_err. cbn. intros [= <-].
    eexists _, (Ok h), _, _. split; [done|]. split; [done|]. cbn. rewrite Ht. set_solver.
Qed.

Lemma runHost_signal w port host key an s serve_err w' h es h' rs :
  HostConfig_Register closes_conn ResolveUDPAddr w port host an s serve_err = (w', Ok h) ->
  accept_loop (h_state h) es = Some (h', rs) -> Forall (fun r => is_ok r = true) rs ->
  runHost w port host key an s serve_err es = None /\
  runHost w port host key an s serve_err (es ++ [Takes (CaseCtx Canceled)])
  = Some (Ret (mkEnded 1 [InviteCode key; Logged "run host" (Wrapped "accept peer connection" Canceled)] w')).
Proof.
  intros E El Hrs. unfold runHost. rewrite E, El, (accept_loop_app _ _ _ _ _ Hrs El). cbn [mbind option_bind].
  rewrite (Host_AcceptAndLink_ok _ Hrs). split; [done|]. cbn.
  assert (exists cs, rs = Ok <$> cs) as [cs ->].
  { clear El. induction Hrs as [|[c|e] rs Hr _ [cs ->]]; [by exists []|by exists (c :: cs)|done]. }
  by rewrite Host_AcceptAndLink_err.
Qed.

Lemma accept_and_link_nil hostConn rounds : accept_and_link hostConn rounds = Some (Ret None) ->
  exists g err j, Accepted g (Some err) j ∈ rounds /\ Is err quic_ErrTransportClosed = true.
Proof.
  unfold accept_and_link. destruct hostConn as [conn|].
  - destruct (Peer_AcceptAndLink conn rounds) as [[cs r]|] eqn:E; cbn; [|done].
    intros [= ->]. by eapply Peer_AcceptAndLink_nil.
  - by destruct rounds as [|[e d|g err j] rounds].
Qed.

Lemma runPeer_ends w port host an s ev listen rounds lerr terr e : next w ∉ transports w ->
  runPeer w port host an s ev listen rounds lerr terr = Some (Ret e) ->
  exists w' join, PeerConfig_Join closes_conn ResolveUDPAddr w port host an s ev listen = (w', join) /\
    ((exists msg err, code e = 1 /\ at_end e = w' /\ last (out e) = Some (Logged msg err) /\ (Bye ∉ out e) /\
       left_open w w' (match join with Ok p => Some (j_transport (p_joiner p)) | Err _ => None end)) \/
     (exists g err j, code e = 0 /\ Bye ∈ out e /\ transports (at_end e) = transports w /\
       Accepted g (Some err) j ∈ rounds /\ Is err quic_ErrTransportClosed = true)).
Proof.
  intros Hw. unfold runPeer. destruct (PeerConfig_Join _ _ _ _ _ _ _ _ _) as [w1 join] eqn:E.
  apply Join_cases in E as [(-> & err & ->)|[(p & _ & -> & err & ->)|(p & pr & _ & -> & -> & Ht)]].
  - intros [= <-]. eexists w, (Err err). split; [done|]. left. eexists _, err. cbn. split_and!; [done..|set_solver|done].
  - intros [= <-]. eexists _, (Err err). split; [done|]. left. eexists _, err. split_and!; [done..|cbn; set_solver|by apply attempt_closed].
  - destruct (accept_and_link _ rounds) as [[[err|]|]|] eqn:Ea; cbn [mbind option_bind outcome_bind]; [| |done|done];
      intros [= <-]; eexists _, (Ok pr); (split; [done|]).
    + left. eexists _, err. cbn. rewrite Ht. split_and!; [done..|set_solver|set_solver].
    + right. apply accept_and_link_nil in Ea as (g & err & j & Hin & He). exists g, err, j.
      cbn. rewrite Ht. split_and!; [done|set_solver|set_solver|done|done].
Qed.

Lemma runPeer_signal w port host an s ev listen w' p conn rounds lerr terr g j :
  PeerConfig_Join closes_conn ResolveUDPAddr w port host an s ev listen = (w', Ok p) -> p_hostConn p = Some conn ->
  Peer_AcceptAndLink conn rounds = None ->
  runPeer w port host an s ev listen (rounds ++ [AcceptFails (Sentinel ErrClosedListener_name) true]) lerr terr
    = Some (Ret (mkEnded 1 [ConnectTo (p_listener p); Logged "accept and link" Canceled] w')) /\
  runPeer w port host an s ev listen (rounds ++ [Accepted g (Some Canceled) j]) lerr terr
    = Some (Ret (mkEnded 1 [ConnectTo (p_listener p); Logged "accept and link" (Wrapped "link with game" Canceled)] w')).
Proof.
  intros E Hp Hn. unfold runPeer. rewrite E, Hp. unfold accept_and_link.
  destruct (Peer_AcceptAndLink_app rounds conn [AcceptFails (Sentinel ErrClosedListener_name) true] Hn) as (c1 & cs1 & ->).
  destruct (Peer_AcceptAndLink_app rounds conn [Accepted g (Some Canceled) j] Hn) as (c2 & cs2 & ->).
  done.
Qed.

(** * Property *)

(** C37. How [star host] and [star peer] end.  The host command ends only with
    status 1 and an error in the log: an interrupt makes [AcceptAndLink] return
    the error of the context, so [os.Exit] is reached, the deferred [Close] is
    not, the transport stays open and the server is not told; the [bye] of
    [main] is never logged.  An interrupt ends the peer command in the same way,
    while it waits for a game and while it links one; it ends with status 0, its
    transport closed, only when a link finds the transport closed.  A command
    that cannot register or join ends with status 1 and leaves no transport.
    A host that has lost the registar waits on: without a connection its
    [Accept] is ready only when the context is done, whatever its agent
    returned. *)
Theorem commands_end (w : world) (Hw : next w ∉ transports w) :
  (forall port host key an s serve_err es r, Forall ctx_Canceled es ->
     runHost w port host key an s serve_err es = Some r ->
     exists w' reg msg err, HostConfig_Register closes_conn ResolveUDPAddr w port host an s serve_err = (w', reg) /\
       r = Ret (mkEnded 1 ((if is_ok reg then [InviteCode key] else []) ++ [Logged msg err]) w') /\
       left_open w w' (match reg with Ok h => Some (h_transport h) | Err _ => None end)) /\
  (forall port host key an s serve_err w' h es h' rs,
     HostConfig_Register closes_conn ResolveUDPAddr w port host an s serve_err = (w', Ok h) ->
     accept_loop (h_state h) es = Some (h', rs) -> Forall (fun r => is_ok r = true) rs ->
     runHost w port host key an s serve_err es = None /\
     runHost w port host key an s serve_err (es ++ [Takes (CaseCtx Canceled)])
     = Some (Ret (mkEnded 1 [InviteCode key; Logged "run host" (Wrapped "accept peer connection" Canceled)] w'))) /\
  (forall agent c, Accept (mkHoster [] false agent) c <> None <-> exists err, c = CaseCtx err) /\
  (forall port host an s ev listen rounds lerr terr e,
     runPeer w port host an s ev listen rounds lerr terr = Some (Ret e) ->
     exists w' join, PeerConfig_Join closes_conn ResolveUDPAddr w port host an s ev listen = (w', join) /\
       ((exists msg err, code e = 1 /\ at_end e = w' /\ last (out e) = Some (Logged msg err) /\ (Bye ∉ out e) /\
          left_open w w' (match join with Ok p => Some (j_transport (p_joiner p)) | Err _ => None end)) \/
        (exists g err j, code e = 0 /\ Bye ∈ out e /\ transports (at_end e) = transports w /\
          Accepted g (Some err) j ∈ rounds /\ Is err quic_ErrTransportClosed = true))) /\
  (forall port host an s ev listen w' p conn rounds lerr terr g j,
     PeerConfig_Join closes_conn ResolveUDPAddr w port host an s ev listen = (w', Ok p) -> p_hostConn p = Some conn ->
     Peer_AcceptAndLink conn rounds = None ->
     runPeer w port host an s ev listen (rounds ++ [AcceptFails (Sentinel ErrClosedListener_name) true]) lerr terr
       = Some (Ret (mkEnded 1 [ConnectTo (p_listener p); Logged "accept and link" Canceled] w')) /\
     runPeer w port host an s ev listen (rounds ++ [Accepted g (Some Canceled) j]) lerr terr
       = Some (Ret (mkEnded 1 [ConnectTo (p_listener p); Logged "accept and link" (Wrapped "link with game" Canceled)] w'))).
Proof.
  split; [|split; [|split; [|split]]].
  - intros. by apply runHost_ends with (s := s) (es := es).
  - intros. by apply runHost_signal with (h := h) (h' := h') (rs := rs).
  - intros agent c. split; [by destruct c; eauto|]. by intros [err ->].
  - intros. by eapply runPeer_ends.
  - intros. by apply runPeer_signal with (conn := conn).
Qed.
End commands.

(** * Witness *)

(** A host on port 7000 that has accepted a peer is interrupted: its transport is
    open at the end, although closing it would have closed its socket. *)
Lemma commands_end_witness :
  exists w', runHost true demo_resolve (mkWorld ∅ 0 ∅) 7000 demo_host (bytes_of_string "KEY") demo_answers demo_script
      ErrHosterClosed [Arrives 5; Takes CaseConn; Takes (CaseCtx Canceled)]
    = Some (Ret (mkEnded 1 [InviteCode (bytes_of_string "KEY"); Logged "run host" (Wrapped "accept peer connection" Canceled)] w'))
  /\ 0%nat ∈ transports w' /\ sockets w' !! 0%nat = Some 7000.
Proof.
  pose (w := mkWorld ∅ 0 ∅).
  assert (next w ∉ transports w) as Hw by (vm_compute; discriminate).
  eexists. split.
  - exact (proj2 (proj1 (proj2 (commands_end true demo_resolve w Hw)) 7000 demo_host (bytes_of_string "KEY") demo_answers
      demo_script ErrHosterClosed _ _ [Arrives 5; Takes CaseConn] _ [Ok 5%nat] eq_refl eq_refl ltac:(by repeat constructor))).
  - split; [|reflexivity]. cbn. set_solver.
Defined.
