(* ===== verification/Play.v ===== *)
(** A game played through Star: the game and the link of a peer, the registar
    that relays or the direct connection, and the link of its host, composed.

    The machines are those of the components: the listener of [Udp] with the
    peer's game on one of its connections, the two links of [Forwarder], and the
    pump of [Pump] unless the connection is direct.  Between them is the
    network, which loses datagrams, and delivers them in order or not; QUIC does
    not duplicate them.  A datagram is in the network from the success of
    [SendDatagram] to the success of [ReceiveDatagram]. *)
From S2P Require Import Prelude Netip Errors Forwarder.
From S2P Require Udp Pump.
Local Open Scope Z_scope.

(** * Delivery *)

(** [b] was sent and [a] delivered: nothing made up or duplicated, and when the
    order is kept nothing reordered. *)
Definition delivers (ordered : bool) (a b : list datagram) : Prop :=
  if ordered then a `sublist_of` b else a ⊆+ b.

#[local] Instance delivers_preorder ordered : PreOrder (delivers ordered).
Proof. destruct ordered; unfold delivers; apply _. Qed.

Lemma delivers_app_r o a b c : delivers o a b -> delivers o (a ++ c) (b ++ c).
Proof. destruct o; cbn; intros H; [by apply sublist_app|by apply submseteq_skips_r]. Qed.

Lemma delivers_prefix o a c : delivers o a (a ++ c).
Proof. destruct o; cbn; [by apply sublist_inserts_r|by apply submseteq_inserts_r]. Qed.

(** Losing a datagram, and delivering one. *)
Lemma delivers_lose o g n i : delivers o (g ++ delete i n) (g ++ n).
Proof.
  destruct o; cbn; [apply sublist_app; [done|apply sublist_delete]|apply submseteq_skips_l, submseteq_delete].
Qed.

Lemma delivers_take o g n i dg : n !! i = Some dg -> (o = true -> i = 0%nat) ->
  delivers o ((g ++ [dg]) ++ delete i n) (g ++ n).
Proof.
  intros Hi Ho. rewrite <- app_assoc. destruct o; cbn.
  - rewrite Ho in * by done. destruct n as [|x n]; [done|]. by injection Hi as ->.
  - apply submseteq_skips_l. by rewrite <- (delete_Permutation n i dg).
Qed.

(** * The machines together *)

(** The stretches of the network: from the peer, from the server to the host,
    from the host, from the server to the peer.  On a direct connection there
    are two. *)
Inductive leg := PeerUp | ServerUp | HostDown | ServerDown.

#[export] Instance leg_eq_dec : EqDecision leg.
Proof. solve_decision. Defined.

Record play := mkPlay {
  udp : Udp.Listener;             (* of the peer *)
  peer : link;
  host : link;
  server : option Pump.pump;      (* None: the connection is direct *)
  net : leg -> list datagram;     (* in flight *)
}.

Section play.
Variable game : nat.              (* the peer's game, a connection of its listener *)
Variable peer_is_a : bool.        (* which stream of the session is the peer's *)

Definition up (p : Pump.pump) : Pump.copier := if peer_is_a then Pump.ab p else Pump.ba p.
Definition down (p : Pump.pump) : Pump.copier := if peer_is_a then Pump.ba p else Pump.ab p.
Definition up_label (a : Pump.answer) : Pump.pump_label := if peer_is_a then Pump.FromA a else Pump.FromB a.
Definition down_label (a : Pump.answer) : Pump.pump_label := if peer_is_a then Pump.FromB a else Pump.FromA a.

(** What has been put on a leg, and taken from it. *)
Definition put (s : play) (k : leg) : list datagram :=
  match k, server s with
  | PeerUp, _ => sent (peer s)
  | HostDown, _ => sent (host s)
  | ServerUp, Some p => Pump.c_sent (up p)
  | ServerDown, Some p => Pump.c_sent (down p)
  | _, None => []
  end.

Definition got (s : play) (k : leg) : list datagram :=
  match k, server s with
  | PeerUp, Some p => Pump.c_received (up p)
  | HostDown, Some p => Pump.c_received (down p)
  | PeerUp, None | ServerUp, Some _ => from_conn (host s)
  | HostDown, None | ServerDown, Some _ => from_conn (peer s)
  | _, None => []
  end.

Definition set_udp (s : play) (l : Udp.Listener) : play := mkPlay l (peer s) (host s) (server s) (net s).
Definition set_peer (s : play) (l : link) : play := mkPlay (udp s) l (host s) (server s) (net s).
Definition set_host (s : play) (l : link) : play := mkPlay (udp s) (peer s) l (server s) (net s).
Definition set_server (s : play) (p : Pump.pump) : play := mkPlay (udp s) (peer s) (host s) (Some p) (net s).
Definition set_net (s : play) (n : leg -> list datagram) : play := mkPlay (udp s) (peer s) (host s) (server s) n.

(** What a step has sent goes into the network. *)
Definition transmit (s s' : play) : play :=
  set_net s' (fun k => net s' k ++ drop (length (put s k)) (put s' k)).

(** A call that receives from the network. *)
Definition receive (s : play) (k : leg) (dg : datagram) : option play :=
  match k, server s with
  | PeerUp, Some p => set_server s <$> Pump.pump_step p (up_label (Pump.Gives dg))
  | HostDown, Some p => set_server s <$> Pump.pump_step p (down_label (Pump.Gives dg))
  | PeerUp, None | ServerUp, Some _ => set_host s <$> link_step (host s) (LWriter (Gives dg))
  | HostDown, None | ServerDown, Some _ => set_peer s <$> link_step (peer s) (LWriter (Gives dg))
  | _, None => None
  end.

(** Steps: the peer's listener and its other connections; the read of the peer's
    link from its game; other steps of the links and the pump, where the game of
    the host gives what it likes; and the network. *)
Inductive play_label :=
| OnUdp (x : Udp.label)
| PeerReads
| OnPeer (x : label)
| OnHost (x : label)
| OnServer (x : Pump.pump_label)
| Delivers (k : leg) (i : nat)
| Loses (k : leg) (i : nat).

Definition gives (x : label) : bool := match x with LReader (Gives _) | LWriter (Gives _) => true | _ => false end.
Definition receives (x : label) : bool := match x with LWriter (Gives _) => true | _ => false end.
Definition reads_game (x : Udp.label) : bool := match x with Udp.LRd c => bool_decide (c = game) | _ => false end.
Definition pump_receives (x : Pump.pump_label) : bool :=
  match x with Pump.FromA (Pump.Gives _) | Pump.FromB (Pump.Gives _) => true | _ => false end.

Definition play_step (s : play) (x : play_label) : option play :=
  match x with
  | OnUdp x => if reads_game x then None else set_udp s <$> Udp.step (udp s) x
  | PeerReads =>
      match rd (peer s) with
      | RRead =>
          cn ← Udp.heap (udp s) !! game;
          dg ← head (Udp.reads cn);
          l ← Udp.Read (udp s) game;
          p ← link_step (peer s) (LReader (Gives dg));
          Some (set_peer (set_udp s l) p)
      | _ => None
      end
  | OnPeer x => if gives x then None else transmit s ∘ set_peer s <$> link_step (peer s) x
  | OnHost x => if receives x then None else transmit s ∘ set_host s <$> link_step (host s) x
  | OnServer x =>
      if pump_receives x then None
      else p ← server s; transmit s ∘ set_server s <$> Pump.pump_step p x
  | Delivers k i =>
      dg ← net s k !! i;
      receive (set_net s (fun k' => if decide (k' = k) then delete i (net s k) else net s k')) k dg
  | Loses k i => Some (set_net s (fun k' => if decide (k' = k) then delete i (net s k) else net s k'))
  end.

Fixpoint play_run (s : play) (xs : list play_label) : option play :=
  match xs with [] => Some s | x :: xs => s' ← play_step s x; play_run s' xs end.

(** * Invariant *)

(** What a step on the listener leaves alone: the address of a connection, and
    what others have not read of it. *)
Lemma udp_step_conn l x l' cn : Udp.delivery l -> Udp.step l x = Some l' -> Udp.heap l !! game = Some cn ->
  exists cn', Udp.heap l' !! game = Some cn' /\ Udp.writeAddr cn' = Udp.writeAddr cn.
Proof.
  intros Hd Hs Hg. destruct l as [bl rb dn sc lk cs hp nx aq r ts lg], x as [i| | |c|c| |i]; cbn in Hs, Hg.
  - assert (game <> nx) as Hne.
    { intros ->. pose proof (Udp.dl_fresh _ Hd nx ltac:(by eexists)) as Hlt. cbn in Hlt. lia. }
    unfold Udp.readLoop_step in Hs. cbn in Hs. repeat case_match; try discriminate Hs; injection Hs as <-; cbn; eauto.
    + destruct (decide (c = game)) as [->|]; [rewrite lookup_insert_eq|rewrite lookup_insert_ne by done; by eauto].
      eexists. split; [done|]. cbn. congruence.
    + rewrite lookup_insert_ne by done. eauto.
  - unfold Udp.dispatch_closed in Hs. cbn in Hs. repeat case_match; try discriminate Hs; injection Hs as <-; cbn; eauto.
  - unfold Udp.Accept in Hs. cbn in Hs. destruct aq; [done|]. injection Hs as <-. cbn. eauto.
  - unfold Udp.Read in Hs. cbn in Hs. destruct (hp !! c) as [cn1|] eqn:E; cbn in Hs; [|done].
    destruct (Udp.reads cn1); [done|]. injection Hs as <-. cbn.
    destruct (decide (c = game)) as [->|]; [rewrite lookup_insert_eq|rewrite lookup_insert_ne by done; by eauto].
    eexists. split; [done|]. cbn. congruence.
  - unfold Udp.Conn_Close in Hs. cbn in Hs. case_decide; [done|]. destruct (hp !! c) as [cn1|] eqn:E; cbn in Hs; [|done].
    destruct (Udp.c_done cn1); injection Hs as <-; cbn; [by eauto|].
    destruct (decide (c = game)) as [->|]; [rewrite lookup_insert_eq|rewrite lookup_insert_ne by done; by eauto].
    eexists. split; [done|]. cbn. congruence.
  - injection Hs as <-. cbn. eauto.
  - unfold Udp.task_step, Udp.tryCloseConn in Hs. cbn in Hs. destruct (ts !! i) as [tk|]; cbn in Hs; [|done].
    repeat case_match; try discriminate Hs; injection Hs as <-; cbn; eauto.
Qed.

(** What a step records: reads by their label, packets cut to the MTU. *)
Lemma udp_step_log l x l' : Udp.step l x = Some l' -> exists ev, Udp.log l' = Udp.log l ++ ev /\
  Forall (fun e => match e with Udp.EvRead c _ => x = Udp.LRd c | Udp.EvPacket _ dg => (length dg <= Udp.MTU)%nat | _ => True end) ev.
Proof.
  intros Hs.
  assert (Udp.log l = Udp.log l ++ []) as Hn by by rewrite app_nil_r.
  destruct x as [i| | |c|c| |i]; cbn in Hs.
  - unfold Udp.readLoop_step in Hs. repeat case_match; try discriminate Hs; injection Hs as <-; cbn; eexists; (split; [first [reflexivity|exact Hn|by rewrite <- app_assoc]|]); try done.
    constructor; [|done]. apply firstn_le_length.
  - unfold Udp.dispatch_closed in Hs. repeat case_match; try discriminate Hs; injection Hs as <-; by eexists.
  - unfold Udp.Accept in Hs. destruct (Udp.acceptQueue l); [done|]. injection Hs as <-. eexists. split; [done|]. by constructor.
  - unfold Udp.Read in Hs. destruct (Udp.heap l !! c) as [cn|]; cbn in Hs; [|done].
    destruct (Udp.reads cn); [done|]. injection Hs as <-. eexists. split; [done|]. by constructor.
  - unfold Udp.Conn_Close in Hs. case_decide; [done|]. destruct (Udp.heap l !! c) as [cn|]; cbn in Hs; [|done].
    destruct (Udp.c_done cn); injection Hs as <-; eexists; (split; [done|]); by repeat constructor.
  - injection Hs as <-. eexists. split; [done|]. done.
  - unfold Udp.task_step, Udp.tryCloseConn in Hs. destruct (Udp.tasks l !! i) as [tk|]; cbn in Hs; [|done].
    repeat case_match; try discriminate Hs; injection Hs as <-; cbn; eexists; (split; [done|]); by repeat constructor.
Qed.

Lemma udp_step_read l x l' : Udp.step l x = Some l' -> reads_game x = false ->
  Udp.read_of game (Udp.log l') = Udp.read_of game (Udp.log l).
Proof.
  intros Hs Hx. destruct (udp_step_log _ _ _ Hs) as (ev & -> & He). rewrite Udp.read_of_app.
  assert (Udp.read_of game ev = []) as ->; [|by rewrite app_nil_r].
  unfold Udp.read_of. induction He as [|e ev He _ IH]; [done|]. destruct e as [|c data| |]; cbn; try done.
  subst x. cbn in Hx. apply bool_decide_eq_false in Hx. by rewrite decide_False by congruence.
Qed.

Lemma udp_step_short l x l' a : Udp.step l x = Some l' ->
  Forall (fun dg => length dg <= Udp.MTU)%nat (Udp.packets_of a (Udp.log l)) ->
  Forall (fun dg => length dg <= Udp.MTU)%nat (Udp.packets_of a (Udp.log l')).
Proof.
  intros Hs Hf. destruct (udp_step_log _ _ _ Hs) as (ev & -> & He). rewrite Udp.packets_of_app.
  apply Forall_app. split; [done|]. unfold Udp.packets_of.
  induction He as [|e ev He _ IH]; [done|]. destruct e as [b dg| | |]; cbn; try done. case_decide; [by constructor|done].
Qed.

(** What a step of a link adds to its traffic. *)
Lemma link_step_io l x l' : link_step l x = Some l' ->
  (exists new, sent l' = sent l ++ new) /\
  from_conn l' = from_conn l ++ (match x with LWriter (Gives dg) => [dg] | _ => [] end) /\
  (gives x = false -> from_udp l' = from_udp l) /\
  (receives x = true -> sent l' = sent l /\ from_udp l' = from_udp l).
Proof.
  intros Hs. assert (forall ds : list datagram, exists new, ds = ds ++ new) as Hn by (intros ds; exists []; by rewrite app_nil_r).
  destruct x as [a|a|d|e]; cbn in Hs.
  - unfold reader_step in Hs. repeat case_match; try discriminate Hs; injection Hs as <-; cbn;
      rewrite ?app_nil_r; (split_and!; [eauto..|try done|done]).
  - unfold writer_step in Hs. repeat case_match; try discriminate Hs; injection Hs as <-; cbn;
      rewrite ?app_nil_r; (split_and!; [eauto..|done|try done]).
  - injection Hs as <-. cbn. rewrite app_nil_r. split_and!; by eauto.
  - injection Hs as <-. cbn. rewrite app_nil_r. split_and!; by eauto.
Qed.

Lemma link_reads l dg : rd l = RRead -> exists l', link_step l (LReader (Gives dg)) = Some l' /\
  rd l' = RSend (take buf_len dg) /\ from_udp l' = from_udp l ++ [take buf_len dg] /\
  sent l' = sent l /\ from_conn l' = from_conn l /\ wr l' = wr l /\ written l' = written l /\ ctx_Err l' = ctx_Err l.
Proof. intros E. cbn. unfold reader_step. rewrite E. by eexists. Qed.

(** What a step of the pump adds. *)
Lemma copy_step_io c a c' e n : Pump.copy_step c a = Some (c', e, n) ->
  (exists new, Pump.c_sent c' = Pump.c_sent c ++ new /\
     (match a with Pump.Gives _ => new = [] | _ => True end)) /\
  Pump.c_received c' = Pump.c_received c ++ (match a with Pump.Gives dg => [dg] | _ => [] end).
Proof.
  intros Hs. unfold Pump.copy_step in Hs. destruct (Pump.c_pc c), a; try discriminate Hs; injection Hs as <- <- <-; cbn;
    rewrite ?app_nil_r; (split; [|done]); eexists; (split; [first [reflexivity|by rewrite app_nil_r]|done]).
Qed.

Lemma pump_step_io p x p' : Pump.pump_step p x = Some p' -> pump_receives x = false ->
  (Pump.c_received (up p') = Pump.c_received (up p) /\ exists new, Pump.c_sent (up p') = Pump.c_sent (up p) ++ new) /\
  (Pump.c_received (down p') = Pump.c_received (down p) /\ exists new, Pump.c_sent (down p') = Pump.c_sent (down p) ++ new).
Proof.
  intros Hs Hx.
  assert (forall c : Pump.copier, exists new, Pump.c_sent c = Pump.c_sent c ++ new) as Hn
    by (intros c; exists []; by rewrite app_nil_r).
  assert (forall c a c' e n, Pump.copy_step c a = Some (c', e, n) -> match a with Pump.Gives _ => false | _ => true end = true ->
    Pump.c_received c' = Pump.c_received c /\ exists new, Pump.c_sent c' = Pump.c_sent c ++ new) as Hc.
  { intros c a c' e n H Ha. apply copy_step_io in H as ((new & E & _) & ->). split; [|by eauto]. destruct a; by rewrite ?app_nil_r. }
  unfold up, down. destruct x as [a|a| |n]; cbn in Hs.
  - destruct (Pump.copy_step (Pump.ab p) a) as [[[c e] n]|] eqn:E; [|done]. cbn in Hs.
    destruct (Pump.returns p e) as [ge ce]. injection Hs as <-. cbn.
    pose proof (Hc _ _ _ _ _ E ltac:(by destruct a)). destruct peer_is_a; by eauto.
  - destruct (Pump.copy_step (Pump.ba p) a) as [[[c e] n]|] eqn:E; [|done]. cbn in Hs.
    destruct (Pump.returns p e) as [ge ce]. injection Hs as <-. cbn.
    pose proof (Hc _ _ _ _ _ E ltac:(by destruct a)). destruct peer_is_a; by eauto.
  - injection Hs as <-. cbn. destruct peer_is_a; by eauto.
  - injection Hs as <-. cbn. destruct peer_is_a; by eauto.
Qed.

(** A receive of the pump. *)
Lemma pump_gets p dg p' :
  (Pump.pump_step p (up_label (Pump.Gives dg)) = Some p' ->
     Pump.c_received (up p') = Pump.c_received (up p) ++ [dg] /\ Pump.c_sent (up p') = Pump.c_sent (up p) /\ down p' = down p) /\
  (Pump.pump_step p (down_label (Pump.Gives dg)) = Some p' ->
     Pump.c_received (down p') = Pump.c_received (down p) ++ [dg] /\ Pump.c_sent (down p') = Pump.c_sent (down p) /\ up p' = up p).
Proof.
  assert (forall c c' e n, Pump.copy_step c (Pump.Gives dg) = Some (c', e, n) ->
    Pump.c_received c' = Pump.c_received c ++ [dg] /\ Pump.c_sent c' = Pump.c_sent c) as Hc.
  { intros c c' e n H. apply copy_step_io in H as ((new & E & ->) & H). by rewrite app_nil_r in E. }
  unfold up, down, up_label, down_label. destruct peer_is_a; split; intros Hs; cbn in Hs.
  all: destruct (Pump.copy_step _ _) as [[[c e] n]|] eqn:E in Hs; [|done]; cbn in Hs;
    destruct (Pump.returns p e) as [ge ce]; injection Hs as <-; cbn; destruct (Hc _ _ _ _ E); by split_and!.
Qed.

(** ** The composition *)

Section inv.
Variable ordered : bool.
Variable cfg : Udp.ListenConfig.
Variables pc hc : linkConfig.
Variable a : AddrPort.            (* the game of the peer *)

(** Errors come from outside, as for a link; the network keeps the order, if it
    does. *)
Definition play_label_ok (x : play_label) : Prop :=
  match x with
  | OnPeer x | OnHost x => label_ok x
  | Delivers _ i => ordered = true -> i = 0%nat
  | _ => True
  end.

Record play_ok (s : play) : Prop := {
  pk_udp : Udp.reachable cfg (udp s);
  pk_game : exists cn, Udp.heap (udp s) !! game = Some cn /\ Udp.writeAddr cn = a;
  pk_short : Forall (fun dg => length dg <= Udp.MTU)%nat (Udp.packets_of a (Udp.log (udp s)));
  pk_peer : link_reachable pc (peer s);
  pk_host : link_reachable hc (host s);
  pk_pump : forall p, server s = Some p -> Pump.copier_ok (up p) /\ Pump.copier_ok (down p);
  pk_read : from_udp (peer s) = take buf_len <$> Udp.read_of game (Udp.log (udp s));
  pk_net : forall k, delivers ordered (got s k ++ net s k) (put s k);
}.

Lemma link_reachable_step c l x l' : link_reachable c l -> label_ok x -> link_step l x = Some l' -> link_reachable c l'.
Proof.
  intros (t & ctx & Hc & Hs) Hx Hl. exists t, ctx. split; [done|]. eapply star_trans; [exact Hs|]. apply star_one. by exists x.
Qed.

Lemma grows_refl (l : list datagram) : exists new, l = l ++ new.
Proof. exists []. by rewrite app_nil_r. Qed.

(** Sending keeps the network as it should be. *)
Lemma net_transmit s s' : (forall k, delivers ordered (got s k ++ net s k) (put s k)) ->
  net s' = net s -> (forall k, got s' k = got s k) -> (forall k, exists new, put s' k = put s k ++ new) ->
  forall k, delivers ordered (got (transmit s s') k ++ net (transmit s s') k) (put (transmit s s') k).
Proof.
  intros Hn En Hg Hp k. unfold transmit, set_net. cbn [net].
  change (got (mkPlay _ _ _ _ _) k) with (got s' k). change (put (mkPlay _ _ _ _ _) k) with (put s' k).
  destruct (Hp k) as [new E]. rewrite En, Hg, E, drop_app_length, app_assoc. by apply delivers_app_r.
Qed.

(** A delivery adds to what one leg has given. *)
Lemma receive_got s k dg s' : receive s k dg = Some s' ->
  (forall k', got s' k' = got s k' ++ (if decide (k' = k) then [dg] else [])) /\ (forall k', put s' k' = put s k') /\
  net s' = net s /\ udp s' = udp s.
Proof.
  assert (forall l l', link_step l (LWriter (Gives dg)) = Some l' -> from_conn l' = from_conn l ++ [dg] /\ sent l' = sent l) as Hl.
  { intros l l' H. apply link_step_io in H as (_ & E & _ & H). split; [done|]. by apply H. }
  unfold receive. destruct s as [u p h [q|] n]; destruct k; cbn [server peer host]; try done.
  - destruct (Pump.pump_step q _) as [q'|] eqn:E; [|done]. intros [= <-]. apply pump_gets in E as (E1 & E2 & E3).
    split_and!; [| |done|done]; intros k'; destruct k'; cbn; rewrite ?app_nil_r, ?E1, ?E2, ?E3; done.
  - destruct (link_step h _) as [l'|] eqn:E; [|done]. intros [= <-]. destruct (Hl _ _ E) as [E1 E2].
    split_and!; [| |done|done]; intros k'; destruct k'; cbn; rewrite ?app_nil_r, ?E1, ?E2; done.
  - destruct (Pump.pump_step q _) as [q'|] eqn:E; [|done]. intros [= <-]. apply pump_gets in E as (E1 & E2 & E3).
    split_and!; [| |done|done]; intros k'; destruct k'; cbn; rewrite ?app_nil_r, ?E1, ?E2, ?E3; done.
  - destruct (link_step p _) as [l'|] eqn:E; [|done]. intros [= <-]. destruct (Hl _ _ E) as [E1 E2].
    split_and!; [| |done|done]; intros k'; destruct k'; cbn; rewrite ?app_nil_r, ?E1, ?E2; done.
  - destruct (link_step h _) as [l'|] eqn:E; [|done]. intros [= <-]. destruct (Hl _ _ E) as [E1 E2].
    split_and!; [| |done|done]; intros k'; destruct k'; cbn; rewrite ?app_nil_r, ?E1, ?E2; done.
  - destruct (link_step p _) as [l'|] eqn:E; [|done]. intros [= <-]. destruct (Hl _ _ E) as [E1 E2].
    split_and!; [| |done|done]; intros k'; destruct k'; cbn; rewrite ?app_nil_r, ?E1, ?E2; done.
Qed.

Lemma net_receive s k i dg s' : (forall k, delivers ordered (got s k ++ net s k) (put s k)) ->
  net s k !! i = Some dg -> (ordered = true -> i = 0%nat) ->
  receive (set_net s (fun k' => if decide (k' = k) then delete i (net s k) else net s k')) k dg = Some s' ->
  forall k', delivers ordered (got s' k' ++ net s' k') (put s' k').
Proof.
  intros Hn Hi Ho Hr k'. apply receive_got in Hr as (Hg & Hp & En & _). rewrite Hg, Hp, En. cbn [net set_net].
  change (got (set_net s _) k') with (got s k'). change (put (set_net s _) k') with (put s k').
  case_decide as Hk; [subst k'|rewrite app_nil_r; apply Hn].
  etrans; [by eapply delivers_take|apply Hn].
Qed.

Lemma pump_step_copiers p x p' : Pump.pump_step p x = Some p' ->
  Pump.copier_ok (up p) /\ Pump.copier_ok (down p) -> Pump.copier_ok (up p') /\ Pump.copier_ok (down p').
Proof.
  intros Hs Hp.
  assert (Pump.copier_ok (Pump.ab p) /\ Pump.copier_ok (Pump.ba p)) as [Ha Hb] by (unfold up, down in Hp; destruct peer_is_a; tauto).
  assert (Pump.copier_ok (Pump.ab p') /\ Pump.copier_ok (Pump.ba p')) as [Ha' Hb'].
  2: { unfold up, down. destruct peer_is_a; tauto. }
  destruct x as [b|b| |n]; cbn in Hs; [..|injection Hs as <-; by split|injection Hs as <-; by split].
  - destruct (Pump.copy_step (Pump.ab p) b) as [[[c e] n]|] eqn:E; [|done]. cbn in Hs.
    destruct (Pump.returns p e) as [ge ce]. injection Hs as <-. cbn. split; [|done]. by eapply (Pump.copy_step_ok (Pump.ab p)).
  - destruct (Pump.copy_step (Pump.ba p) b) as [[[c e] n]|] eqn:E; [|done]. cbn in Hs.
    destruct (Pump.returns p e) as [ge ce]. injection Hs as <-. cbn. split; [done|]. by eapply (Pump.copy_step_ok (Pump.ba p)).
Qed.

(** A delivery is a step of one machine. *)
Lemma receive_ok s k dg s' : receive s k dg = Some s' ->
  link_reachable pc (peer s) -> link_reachable hc (host s) ->
  (forall p, server s = Some p -> Pump.copier_ok (up p) /\ Pump.copier_ok (down p)) ->
  link_reachable pc (peer s') /\ link_reachable hc (host s') /\
  (forall p, server s' = Some p -> Pump.copier_ok (up p) /\ Pump.copier_ok (down p)) /\
  from_udp (peer s') = from_udp (peer s).
Proof.
  unfold receive. destruct s as [u p h [q|] n]; destruct k; cbn [server peer host]; try done; intros Hr Hp Hh Hq.
  1, 3: destruct (Pump.pump_step q _) as [q'|] eqn:E; [|done]; injection Hr as <-; cbn; split_and!; [done|done| |done];
    intros ? [= <-]; by eapply pump_step_copiers; [exact E|apply Hq].
  all: match type of Hr with context [link_step ?l ?x] => destruct (link_step l x) as [l'|] eqn:E; [|done] end;
    injection Hr as <-; destruct (link_step_io _ _ _ E) as (_ & _ & _ & Hio); cbn; split_and!; try done;
    first [by eapply link_reachable_step; [| |exact E]|by apply Hio].
Qed.

Lemma udp_reachable_step l x l' : Udp.reachable cfg l -> Udp.step l x = Some l' -> Udp.reachable cfg l'.
Proof. intros Hr Hs. eapply star_trans; [exact Hr|]. apply star_one. by exists x. Qed.

Lemma play_ok_udp s x l' : play_ok s -> Udp.step (udp s) x = Some l' ->
  Udp.reachable cfg l' /\ (exists cn, Udp.heap l' !! game = Some cn /\ Udp.writeAddr cn = a) /\
  Forall (fun dg => length dg <= Udp.MTU)%nat (Udp.packets_of a (Udp.log l')).
Proof.
  intros [H1 (cn & Hg & Ha) H3 _ _ _ _ _] Hs. split_and!; [by eapply udp_reachable_step| |by eapply udp_step_short].
  destruct (udp_step_conn _ _ _ _ (Udp.udp_reachable_delivery _ _ H1) Hs Hg) as (cn' & ? & ?). exists cn'. split; [done|congruence].
Qed.

Lemma play_ok_step s x s' : play_ok s -> play_label_ok x -> play_step s x = Some s' -> play_ok s'.
Proof.
  intros Hok Hx Hs. pose proof Hok as [H1 H2 H3 H4 H5 H6 H7 H8]. destruct x as [x| |x|x|x|k i|k i]; cbn in Hs, Hx.
  - destruct (reads_game x) eqn:Eg; [done|]. destruct (Udp.step (udp s) x) as [l'|] eqn:E; [|done]. injection Hs as <-.
    destruct (play_ok_udp _ _ _ Hok E) as (? & ? & ?). constructor; cbn; try done. by rewrite (udp_step_read _ _ _ E).
  - destruct (rd (peer s)) eqn:Er; try done. destruct H2 as (cn & Hg & Ha). rewrite Hg in Hs. cbn in Hs.
    destruct (Udp.reads cn) as [|dg rest] eqn:Ed; [done|]. cbn in Hs.
    destruct (Udp.Read (udp s) game) as [l'|] eqn:El; [|done]. cbn in Hs.
    destruct (reader_step (peer s) (Gives dg)) as [p'|] eqn:Ep; [|done]. injection Hs as <-.
    assert (Udp.step (udp s) (Udp.LRd game) = Some l') as El' by done.
    assert (link_step (peer s) (LReader (Gives dg)) = Some p') as Ep' by done.
    destruct (play_ok_udp _ _ _ Hok El') as (? & ? & ?).
    destruct (link_reads _ dg Er) as (p1 & Ep1 & _ & Eu & Es & Ec & _).
    rewrite Ep' in Ep1. injection Ep1 as <-. constructor; cbn; try done.
    + by eapply (link_reachable_step _ _ (LReader (Gives dg))).
    + rewrite Eu, H7. unfold Udp.Read in El. rewrite Hg in El. cbn in El. rewrite Ed in El. injection El as <-. cbn.
      rewrite Udp.read_of_app, fmap_app. unfold Udp.read_of at 3. cbn. by rewrite decide_True by done.
    + intros k. specialize (H8 k). destruct k; cbn in *; rewrite ?Es, ?Ec; done.
  - destruct (gives x) eqn:Eg; [done|]. destruct (link_step (peer s) x) as [l'|] eqn:E; [|done]. injection Hs as <-.
    destruct (link_step_io _ _ _ E) as (Hsent & Hconn & Hudp & _).
    assert (from_conn l' = from_conn (peer s)) as Hc by (rewrite Hconn; destruct x as [[]|[]| |]; by rewrite ?app_nil_r). constructor; cbn; try done.
    + by eapply link_reachable_step.
    + by rewrite Hudp.
    + apply net_transmit; [done..| |]; intros k; unfold got, put, set_peer; cbn; destruct k, (server s); eauto using grows_refl.
  - destruct (receives x) eqn:Eg; [done|]. destruct (link_step (host s) x) as [l'|] eqn:E; [|done]. injection Hs as <-.
    destruct (link_step_io _ _ _ E) as (Hsent & Hconn & _).
    assert (from_conn l' = from_conn (host s)) as Hc by (rewrite Hconn; destruct x as [[]|[]| |]; by rewrite ?app_nil_r). constructor; cbn; try done.
    + by eapply link_reachable_step.
    + apply net_transmit; [done..| |]; intros k; unfold got, put, set_host; cbn; destruct k, (server s); eauto using grows_refl.
  - destruct (pump_receives x) eqn:Eg; [done|]. destruct (server s) as [p|] eqn:Ep; [|done]. cbn in Hs.
    destruct (Pump.pump_step p x) as [p'|] eqn:E; [|done]. injection Hs as <-.
    destruct (pump_step_io _ _ _ E Eg) as ((Hu & Hu') & (Hd & Hd')). constructor; cbn; try done.
    + intros ? [= <-]. eapply pump_step_copiers; [exact E|by apply H6].
    + apply net_transmit; [done..| |]; intros k; unfold got, put, set_server; cbn; rewrite Ep; destruct k; eauto using grows_refl.
  - destruct (net s k !! i) as [dg|] eqn:Ei; [|done]. cbn in Hs.
    destruct (receive_ok _ _ _ _ Hs H4 H5 H6) as (? & ? & ? & Eu). destruct (receive_got _ _ _ _ Hs) as (_ & _ & _ & Eudp).
    constructor; rewrite ?Eudp, ?Eu; try done. by eapply net_receive.
  - injection Hs as <-. constructor; cbn; try done. intros k'. specialize (H8 k').
    change (got (set_net s _) k') with (got s k'). change (put (set_net s _) k') with (put s k').
    case_decide; [subst k'|done]. etrans; [apply delivers_lose|exact H8].
Qed.
End inv.

(** ** Progress *)

(** A leg on which one datagram is in flight, and no leg else. *)
Definition in_flight (s : play) (k : leg) (dg : datagram) : Prop :=
  net s k = [dg] /\ forall k', k' <> k -> net s k' = [].

Definition link_ready (l : link) : Prop := rd l = RRead /\ wr l = WReceive /\ ctx_Err l = None.

(** Both sides play: nothing is on the way, and every goroutine waits for the
    next datagram. *)
Record playing (a : AddrPort) (s : play) : Prop := {
  py_loop : Udp.rd (udp s) = Udp.LRead /\ Udp.sock_closed (udp s) = false /\ Udp.lock (udp s) = false;
  py_conn : Udp.conns (udp s) !! a = Some game /\
    exists cn, Udp.heap (udp s) !! game = Some cn /\ Udp.writeAddr cn = a /\ Udp.reads cn = [];
  py_buffer : (0 < Udp.readBufferSize (udp s))%nat;
  py_peer : link_ready (peer s);
  py_host : link_ready (host s);
  py_server : forall p, server s = Some p -> Pump.c_pc (up p) = Pump.Receiving /\ Pump.c_pc (down p) = Pump.Receiving;
  py_net : forall k, net s k = [];
}.

(** The listener takes a packet of the game, and the peer's link reads it. *)
Definition game_sends (a : AddrPort) (data : datagram) : list play_label :=
  [OnUdp (Udp.LReadLoop (Udp.Packet a data)); OnUdp (Udp.LReadLoop Udp.ReadError); OnUdp (Udp.LReadLoop Udp.ReadError); PeerReads].

Lemma game_sends_run a s data : playing a s -> exists l' p', 
  play_run s (game_sends a data) = Some (set_peer (set_udp s l') p') /\
  (Udp.rd l' = Udp.LRead /\ Udp.sock_closed l' = false /\ Udp.lock l' = false) /\
  (Udp.conns l' !! a = Some game /\ exists cn, Udp.heap l' !! game = Some cn /\ Udp.writeAddr cn = a /\ Udp.reads cn = []) /\
  (0 < Udp.readBufferSize l')%nat /\
  rd p' = RSend (take buf_len (take Udp.MTU data)) /\ from_udp p' = from_udp (peer s) ++ [take buf_len (take Udp.MTU data)] /\
  sent p' = sent (peer s) /\ from_conn p' = from_conn (peer s) /\ wr p' = WReceive /\ written p' = written (peer s) /\ ctx_Err p' = None.
Proof.
  intros [(H1 & H2 & H3) (H4 & cn & H5 & H6 & H7) H8 (H9 & H10 & H11) _ _ _].
  destruct s as [u p h q n]. cbn in *. unfold game_sends. cbn [play_run play_step reads_game].
  unfold Udp.step, Udp.readLoop_step. cbn. rewrite H1, H2. cbn. rewrite H3, H4. cbn. rewrite H5. cbn.
  rewrite H7. cbn. rewrite decide_True by done. cbn. rewrite H9, lookup_insert_eq. cbn.
  unfold Udp.Read. cbn. rewrite lookup_insert_eq. cbn. unfold reader_step. rewrite H9. cbn.
  eexists _, _. split; [reflexivity|]. cbn. split_and!; try done.
  eexists. split; [apply lookup_insert_eq|]. by cbn.
Qed.

(** The rest of the reading goroutine's round, and a round of the writing one. *)
Lemma link_sends l dg : rd l = RSend dg -> ctx_Err l = None -> exists l1 l2,
  link_step l (LReader Succeeds) = Some l1 /\ link_step l1 (LReader Succeeds) = Some l2 /\
  sent l1 = sent l ++ [dg] /\ sent l2 = sent l1 /\ rd l2 = RRead /\ wr l2 = wr l /\ written l2 = written l /\
  ctx_Err l2 = None /\ from_udp l2 = from_udp l.
Proof.
  intros H1 H2. assert ((UDPIdleTimeout (lc l) <? now l - now l) = true -> (0 <? UDPIdleTimeout (lc l)) = false) as Ht
    by (rewrite Z.ltb_lt, Z.ltb_ge; lia).
  eexists _, _. split; [cbn; unfold reader_step; by rewrite H1|]. cbn [link_step]. unfold reader_step, ctx_Err in *. cbn [rd ctx_done lc now lastRead].
  rewrite H2. destruct (UDPIdleTimeout (lc l) <? now l - now l); [rewrite Ht by done|rewrite andb_false_r]; cbn; by split_and!.
Qed.

Lemma link_writes l dg : wr l = WReceive -> exists l1 l2,
  link_step l (LWriter (Gives dg)) = Some l1 /\ link_step l1 (LWriter Succeeds) = Some l2 /\
  written l2 = written l ++ [dg] /\ wr l2 = WReceive /\ rd l2 = rd l /\ ctx_Err l2 = ctx_Err l /\ sent l2 = sent l /\ sent l1 = sent l /\
  from_udp l2 = from_udp l.
Proof. intros H1. cbn. unfold writer_step. rewrite H1. eexists. cbn. eexists. by split_and!. Qed.

(** What a step that sends one datagram, or none, puts into the network. *)
Lemma transmit_one s s' k dg : (forall k', net s k' = []) -> net s' = net s -> put s' k = put s k ++ [dg] ->
  (forall k', k' <> k -> put s' k' = put s k') -> in_flight (transmit s s') k dg.
Proof.
  intros Hn En Hk Ho. unfold in_flight, transmit. cbn [net set_net]. split.
  - by rewrite En, Hn, Hk, drop_app_length.
  - intros k' Hne. by rewrite En, Hn, Ho, drop_all.
Qed.

Lemma transmit_none s s' k : net s' = net s -> put s' k = put s k -> net (transmit s s') k = net s k.
Proof. intros En Hp. cbn. by rewrite En, Hp, drop_all, app_nil_r. Qed.

(** One datagram crosses: from a side into the network, through the server, and
    to the other side. *)
Lemma side_sends s dg : (forall k, net s k = []) ->
  (rd (peer s) = RSend dg -> ctx_Err (peer s) = None -> exists s' p',
     play_run s [OnPeer (LReader Succeeds); OnPeer (LReader Succeeds)] = Some s' /\ in_flight s' PeerUp dg /\
     udp s' = udp s /\ host s' = host s /\ server s' = server s /\ peer s' = p' /\
     rd p' = RRead /\ wr p' = wr (peer s) /\ written p' = written (peer s) /\ ctx_Err p' = None) /\
  (rd (host s) = RSend dg -> ctx_Err (host s) = None -> exists s' h',
     play_run s [OnHost (LReader Succeeds); OnHost (LReader Succeeds)] = Some s' /\ in_flight s' HostDown dg /\
     udp s' = udp s /\ peer s' = peer s /\ server s' = server s /\ host s' = h' /\
     rd h' = RRead /\ wr h' = wr (host s) /\ written h' = written (host s) /\ ctx_Err h' = None).
Proof.
  intros Hn. split; intros H1 H2; destruct (link_sends _ _ H1 H2) as (l1 & l2 & E1 & E2 & Hs1 & Hs2 & Hr & Hw & Hwr & Hc & _);
    cbn [play_run play_step gives receives]; rewrite E1; cbn.
  - change (reader_step l1 Succeeds) with (link_step l1 (LReader Succeeds)). rewrite E2. cbn. eexists _, l2. split; [reflexivity|].
    assert (in_flight (transmit s (set_peer s l1)) PeerUp dg) as [F1 F2]
      by (apply transmit_one; [done|done|done|intros [] ?; done]).
    split_and!; [|done..]. split.
    + rewrite transmit_none; [done..|]. by cbn.
    + intros k' Hk'. rewrite transmit_none; [by apply F2|done|]. by destruct k'.
  - change (reader_step l1 Succeeds) with (link_step l1 (LReader Succeeds)). rewrite E2. cbn. eexists _, l2. split; [reflexivity|].
    assert (in_flight (transmit s (set_host s l1)) HostDown dg) as [F1 F2]
      by (apply transmit_one; [done|done|done|intros [] ?; done]).
    split_and!; [|done..]. split.
    + rewrite transmit_none; [done..|]. by cbn.
    + intros k' Hk'. rewrite transmit_none; [by apply F2|done|]. by destruct k'.
Qed.

(** A delivery: the datagram leaves the network. *)
Lemma deliver s k dg : in_flight s k dg ->
  exists n, (forall k', n k' = []) /\ play_step s (Delivers k 0) = receive (set_net s n) k dg.
Proof.
  intros [H1 H2]. cbn. rewrite H1. cbn. eexists. split; [|reflexivity]. intros k'. cbn. case_decide; [done|by apply H2].
Qed.

Lemma pump_relays p dg :
  (Pump.c_pc (up p) = Pump.Receiving -> exists p1 p2,
     Pump.pump_step p (up_label (Pump.Gives dg)) = Some p1 /\ Pump.pump_step p1 (up_label Pump.Succeeds) = Some p2 /\
     Pump.c_sent (up p2) = Pump.c_sent (up p1) ++ [dg] /\ down p1 = down p /\ down p2 = down p /\ Pump.c_pc (up p2) = Pump.Receiving) /\
  (Pump.c_pc (down p) = Pump.Receiving -> exists p1 p2,
     Pump.pump_step p (down_label (Pump.Gives dg)) = Some p1 /\ Pump.pump_step p1 (down_label Pump.Succeeds) = Some p2 /\
     Pump.c_sent (down p2) = Pump.c_sent (down p1) ++ [dg] /\ up p1 = up p /\ up p2 = up p /\ Pump.c_pc (down p2) = Pump.Receiving).
Proof.
  unfold up, down, up_label, down_label. destruct peer_is_a; split; intros H; cbn; unfold Pump.copy_step; rewrite H; cbn;
    do 2 eexists; (split; [reflexivity|]); by split_and!.
Qed.

Lemma server_relays s p dg : server s = Some p ->
  (in_flight s PeerUp dg -> Pump.c_pc (up p) = Pump.Receiving -> exists s' p',
     play_run s [Delivers PeerUp 0; OnServer (up_label Pump.Succeeds)] = Some s' /\ in_flight s' ServerUp dg /\
     udp s' = udp s /\ host s' = host s /\ peer s' = peer s /\ server s' = Some p' /\
     Pump.c_pc (up p') = Pump.Receiving /\ down p' = down p) /\
  (in_flight s HostDown dg -> Pump.c_pc (down p) = Pump.Receiving -> exists s' p',
     play_run s [Delivers HostDown 0; OnServer (down_label Pump.Succeeds)] = Some s' /\ in_flight s' ServerDown dg /\
     udp s' = udp s /\ host s' = host s /\ peer s' = peer s /\ server s' = Some p' /\
     Pump.c_pc (down p') = Pump.Receiving /\ up p' = up p).
Proof.
  assert (forall a, a = Pump.Succeeds -> pump_receives (up_label a) = false /\ pump_receives (down_label a) = false) as Hl
    by (intros ? ->; unfold up_label, down_label; by destruct peer_is_a).
  destruct (Hl _ eq_refl) as [Hu Hd]. clear Hl. intros Hp. split; intros Hf Hc; destruct (deliver _ _ _ Hf) as (n & Hn & E).
  - destruct (proj1 (pump_relays p dg) Hc) as (p1 & p2 & E1 & E2 & Hs & Hd1 & Hd2 & Hr).
    cbn [play_run]. rewrite E. unfold receive. cbn [server set_net]. rewrite Hp, E1. cbn. rewrite Hu, E2. cbn.
    eexists _, p2. split; [reflexivity|]. split_and!; [|done..].
    apply transmit_one; cbn; [done..|]. intros [] ?; cbn; by rewrite ?Hd1, ?Hd2.
  - destruct (proj2 (pump_relays p dg) Hc) as (p1 & p2 & E1 & E2 & Hs & Hd1 & Hd2 & Hr).
    cbn [play_run]. rewrite E. unfold receive. cbn [server set_net]. rewrite Hp, E1. cbn. rewrite Hd, E2. cbn.
    eexists _, p2. split; [reflexivity|]. split_and!; [|done..].
    apply transmit_one; cbn; [done..|]. intros [] ?; cbn; by rewrite ?Hd1, ?Hd2.
Qed.

(** The last leg of either direction. *)
Definition up_leg (s : play) : leg := match server s with Some _ => ServerUp | None => PeerUp end.
Definition down_leg (s : play) : leg := match server s with Some _ => ServerDown | None => HostDown end.

Lemma side_writes s dg :
  (in_flight s (up_leg s) dg -> link_ready (host s) -> exists s',
     play_run s [Delivers (up_leg s) 0; OnHost (LWriter Succeeds)] = Some s' /\ (forall k, net s' k = []) /\
     udp s' = udp s /\ peer s' = peer s /\ server s' = server s /\ link_ready (host s') /\
     written (host s') = written (host s) ++ [dg]) /\
  (in_flight s (down_leg s) dg -> link_ready (peer s) -> exists s',
     play_run s [Delivers (down_leg s) 0; OnPeer (LWriter Succeeds)] = Some s' /\ (forall k, net s' k = []) /\
     udp s' = udp s /\ host s' = host s /\ server s' = server s /\ link_ready (peer s') /\
     written (peer s') = written (peer s) ++ [dg]).
Proof.
  split; intros Hf (H1 & H2 & H3); destruct (deliver _ _ _ Hf) as (n & Hn & E).
  - destruct (link_writes (host s) dg H2) as (l1 & l2 & E1 & E2 & Hw & W2 & R2 & C2 & S2 & S1 & _).
    cbn [play_run]. rewrite E. unfold receive, up_leg. cbn [server set_net host].
    assert (play_step (set_host (set_net s n) l1) (OnHost (LWriter Succeeds))
      = Some (transmit (set_host (set_net s n) l1) (set_host (set_net s n) l2))) as E3
      by (cbn [play_step receives set_host set_net host]; by rewrite E2).
    exists (transmit (set_host (set_net s n) l1) (set_host (set_net s n) l2)). split.
    { destruct (server s) eqn:Es; rewrite E1; cbn [fmap option_fmap option_map mbind option_bind]; by rewrite E3. }
    unfold link_ready. split_and!; [|first [done|cbn; congruence]..]. intros k. rewrite transmit_none; [apply Hn|done|].
    destruct k; cbn; destruct (server s); congruence.
  - destruct (link_writes (peer s) dg H2) as (l1 & l2 & E1 & E2 & Hw & W2 & R2 & C2 & S2 & S1 & _).
    cbn [play_run]. rewrite E. unfold receive, down_leg. cbn [server set_net peer].
    assert (play_step (set_peer (set_net s n) l1) (OnPeer (LWriter Succeeds))
      = Some (transmit (set_peer (set_net s n) l1) (set_peer (set_net s n) l2))) as E3
      by (cbn [play_step gives set_peer set_net peer]; by rewrite E2).
    exists (transmit (set_peer (set_net s n) l1) (set_peer (set_net s n) l2)). split.
    { destruct (server s) eqn:Es; rewrite E1; cbn [fmap option_fmap option_map mbind option_bind]; by rewrite E3. }
    unfold link_ready. split_and!; [|first [done|cbn; congruence]..]. intros k. rewrite transmit_none; [apply Hn|done|].
    destruct k; cbn; destruct (server s); congruence.
Qed.

Lemma play_run_app xs ys s : play_run s (xs ++ ys) = s' ← play_run s xs; play_run s' ys.
Proof. revert s. induction xs as [|x xs IH]; intros s; [done|]. cbn. destruct (play_step s x); [apply IH|done]. Qed.

(** A run without errors and reordering. *)
Definition clean_run (s : play) (xs : list play_label) (s' : play) : Prop :=
  play_run s xs = Some s' /\ Forall (play_label_ok true) xs.

Lemma clean_run_app s xs s1 ys s2 : clean_run s xs s1 -> clean_run s1 ys s2 -> clean_run s (xs ++ ys) s2.
Proof. intros [E1 H1] [E2 H2]. split; [by rewrite play_run_app, E1|]. by apply Forall_app. Qed.

(** A datagram in flight from the peer, or from the host, is written on the
    other side. *)
Lemma crosses_up s dg : in_flight s PeerUp dg -> link_ready (host s) ->
  (forall p, server s = Some p -> Pump.c_pc (up p) = Pump.Receiving /\ Pump.c_pc (down p) = Pump.Receiving) ->
  exists xs s', clean_run s xs s' /\ (forall k, net s' k = []) /\ udp s' = udp s /\ peer s' = peer s /\ link_ready (host s') /\
    (forall p, server s' = Some p -> Pump.c_pc (up p) = Pump.Receiving /\ Pump.c_pc (down p) = Pump.Receiving) /\
    written (host s') = written (host s) ++ [dg].
Proof.
  intros Hf Hh Hp. destruct (server s) as [p|] eqn:Es.
  - destruct (Hp p eq_refl) as [Hu Hd].
    destruct (proj1 (server_relays _ _ dg Es) Hf Hu) as (s1 & p1 & E1 & Hf1 & U1 & H1 & P1 & S1 & R1 & D1).
    assert (up_leg s1 = ServerUp) as El by (unfold up_leg; by rewrite S1).
    destruct (proj1 (side_writes s1 dg)) as (s2 & E2 & N2 & U2 & P2 & S2 & R2 & W2); [by rewrite El|by rewrite H1|].
    eexists _, s2. split; [eapply clean_run_app; (split; [eassumption|]); by repeat constructor|].
    split_and!; [done|congruence|congruence|done| |by rewrite W2, H1].
    intros q Hq. assert (q = p1) as -> by congruence. by rewrite D1.
  - assert (up_leg s = PeerUp) as El by (unfold up_leg; by rewrite Es).
    destruct (proj1 (side_writes s dg)) as (s2 & E2 & N2 & U2 & P2 & S2 & R2 & W2); [by rewrite El|done|].
    eexists _, s2. split; [split; [exact E2|by repeat constructor]|].
    split_and!; try done. intros q Hq. congruence.
Qed.

Lemma crosses_down s dg : in_flight s HostDown dg -> link_ready (peer s) ->
  (forall p, server s = Some p -> Pump.c_pc (up p) = Pump.Receiving /\ Pump.c_pc (down p) = Pump.Receiving) ->
  exists xs s', clean_run s xs s' /\ (forall k, net s' k = []) /\ udp s' = udp s /\ host s' = host s /\ link_ready (peer s') /\
    (forall p, server s' = Some p -> Pump.c_pc (up p) = Pump.Receiving /\ Pump.c_pc (down p) = Pump.Receiving) /\
    written (peer s') = written (peer s) ++ [dg].
Proof.
  intros Hf Hh Hp. destruct (server s) as [p|] eqn:Es.
  - destruct (Hp p eq_refl) as [Hu Hd].
    destruct (proj2 (server_relays _ _ dg Es) Hf Hd) as (s1 & p1 & E1 & Hf1 & U1 & H1 & P1 & S1 & R1 & D1).
    assert (down_leg s1 = ServerDown) as El by (unfold down_leg; by rewrite S1).
    destruct (proj2 (side_writes s1 dg)) as (s2 & E2 & N2 & U2 & P2 & S2 & R2 & W2); [by rewrite El|by rewrite P1|].
    eexists _, s2. split; [eapply clean_run_app; (split; [eassumption|]); by repeat constructor|].
    split_and!; [done|congruence|congruence|done| |by rewrite W2, P1].
    intros q Hq. assert (q = p1) as -> by congruence. by rewrite D1.
  - assert (down_leg s = HostDown) as El by (unfold down_leg; by rewrite Es).
    destruct (proj2 (side_writes s dg)) as (s2 & E2 & N2 & U2 & P2 & S2 & R2 & W2); [by rewrite El|done|].
    eexists _, s2. split; [split; [exact E2|by repeat constructor]|].
    split_and!; try done. intros q Hq. congruence.
Qed.

(** What the listener gives fits the buffer of the link. *)
Lemma mtu_fits (data : datagram) : take buf_len (take Udp.MTU data) = take Udp.MTU data.
Proof. rewrite take_take. f_equal. Qed.

(** A datagram of either game reaches the other. *)
Lemma plays_up a s data : playing a s -> exists xs s', clean_run s xs s' /\ playing a s' /\
  written (host s') = written (host s) ++ [take Udp.MTU data] /\ written (peer s') = written (peer s).
Proof.
  intros Hp. rewrite <- (mtu_fits data). destruct (game_sends_run a s data Hp) as (l & p & E1 & Hl & Hc & Hb & Hrd & _ & _ & _ & Hw & Hwr & Hcx).
  destruct Hp as [_ _ _ _ Hh Hs Hn].
  destruct (proj1 (side_sends (set_peer (set_udp s l) p) _ Hn) Hrd Hcx)
    as (s1 & p1 & E2 & Hf & U1 & H1 & S1 & P1 & R1 & W1 & Wr1 & C1). cbn in U1, H1, S1, W1, Wr1. subst p1.
  destruct (crosses_up s1 (take buf_len (take Udp.MTU data))) as (xs & s2 & E3 & N2 & U2 & P2 & R2 & S2 & W2);
    [done|by rewrite H1|by rewrite S1|].
  eexists _, s2. split.
  { eapply clean_run_app; [split; [exact E1|by repeat constructor]|].
    eapply clean_run_app; [split; [exact E2|by repeat constructor]|exact E3]. }
  split; [constructor; rewrite ?U2, ?U1, ?P2; cbn; try done; unfold link_ready; split_and!; congruence|].
  split; [by rewrite W2, H1|congruence].
Qed.

Lemma plays_down a s dg : playing a s -> exists xs s', clean_run s xs s' /\ playing a s' /\
  written (peer s') = written (peer s) ++ [take buf_len dg] /\ written (host s') = written (host s).
Proof.
  intros [Hl Hc Hb Hp (H1 & H2 & H3) Hs Hn]. destruct (link_reads _ dg H1) as (h & E1 & Rd & _ & Se & _ & W & Wr & Cx).
  assert (forall k, put (set_host s h) k = put s k) as Hput by (intros []; cbn; by rewrite ?Se).
  assert (play_step s (OnHost (LReader (Gives dg))) = Some (transmit s (set_host s h))) as E1'
    by (cbn [play_step receives]; by rewrite E1).
  assert (forall k, net (transmit s (set_host s h)) k = []) as Hn1 by (intros k; rewrite transmit_none; [apply Hn|done|apply Hput]).
  destruct (proj2 (side_sends (transmit s (set_host s h)) _ Hn1) Rd (eq_trans Cx H3))
    as (s1 & h1 & E2 & Hf & U1 & P1' & S1 & G1 & R1 & W1 & Wr1 & C1). cbn in U1, P1', S1, W1, Wr1. subst h1.
  rename P1' into P1.
  destruct (crosses_down s1 (take buf_len dg)) as (xs & s2 & E3 & N2 & U2 & P2 & R2 & S2 & W2);
    [done|by rewrite P1|by rewrite S1|].
  eexists _, s2. split.
  { eapply (clean_run_app _ [_]); [split; [cbn [play_run]; by rewrite E1'|by repeat constructor]|].
    eapply clean_run_app; [split; [exact E2|by repeat constructor]|exact E3]. }
  split; [constructor; rewrite ?U2, ?U1, ?P2; cbn; try done; unfold link_ready; split_and!; congruence|].
  split; [by rewrite W2, P1|congruence].
Qed.

(** Any number of them. *)
Lemma plays_on (f : datagram -> datagram) (w w0 : play -> list datagram) a :
  (forall s dg, playing a s -> exists xs s', clean_run s xs s' /\ playing a s' /\ w s' = w s ++ [f dg] /\ w0 s' = w0 s) ->
  forall dgs s, playing a s -> exists xs s', clean_run s xs s' /\ playing a s' /\ w s' = w s ++ (f <$> dgs) /\ w0 s' = w0 s.
Proof.
  intros Hf dgs. induction dgs as [|dg dgs IH]; intros s Hp.
  - exists [], s. rewrite app_nil_r. split; [split; [done|constructor]|done].
  - destruct (Hf s dg Hp) as (xs & s1 & E1 & Hp1 & W1 & V1). destruct (IH s1 Hp1) as (ys & s2 & E2 & Hp2 & W2 & V2).
    exists (xs ++ ys), s2. split; [by eapply clean_run_app|]. split; [done|]. split; [|congruence].
    rewrite W2, W1, fmap_cons. by rewrite <- app_assoc.
Qed.

(** ** The property *)

(** A game connection that nobody has read, links that start, and a network
    without datagrams. *)
Record play_start (cfg : Udp.ListenConfig) (pc hc : linkConfig) (a : AddrPort) (s : play) : Prop := {
  ps_udp : Udp.reachable cfg (udp s);
  ps_game : exists cn, Udp.heap (udp s) !! game = Some cn /\ Udp.writeAddr cn = a;
  ps_unread : Udp.read_of game (Udp.log (udp s)) = [];
  ps_peer : exists t, peer s = new_link pc t None;
  ps_host : exists t, host s = new_link hc t None;
  ps_server : server s = None \/ exists closed b, server s = Some (Pump.new_pump closed b);
  ps_net : forall k, net s k = [];
}.

Definition play_steps (ordered : bool) (s s' : play) : Prop := exists x, play_label_ok ordered x /\ play_step s x = Some s'.

Lemma udp_reachable_short cfg l a : Udp.reachable cfg l ->
  Forall (fun dg => length dg <= Udp.MTU)%nat (Udp.packets_of a (Udp.log l)).
Proof.
  intros Hr. eapply (star_invariant Udp.steps_to (fun l => Forall (fun dg => length dg <= Udp.MTU)%nat (Udp.packets_of a (Udp.log l))));
    [|exact Hr|by constructor].
  intros x y Hx [lab Hl]. by eapply udp_step_short.
Qed.

Lemma play_start_ok ordered cfg pc hc a s : play_start cfg pc hc a s -> play_ok ordered cfg pc hc a s.
Proof.
  intros [H1 H2 H3 [t4 H4] [t5 H5] H6 H7]. constructor; try done.
  - by eapply udp_reachable_short.
  - rewrite H4. exists t4, None. split; [done|constructor].
  - rewrite H5. exists t5, None. split; [done|constructor].
  - intros p Hp. destruct H6 as [H6|(c & b & H6)]; [congruence|]. assert (p = Pump.new_pump c b) as -> by congruence.
    unfold up, down. destruct peer_is_a; split; by (constructor; exists []).
  - by rewrite H3, H4.
  - intros k. assert (got s k ++ net s k = []) as ->; [|by rewrite <- (app_nil_l (put s k)); apply delivers_prefix].
    rewrite H7, app_nil_r. unfold got, up, down. rewrite H4, H5.
    destruct H6 as [->|(c & b & ->)]; destruct k, peer_is_a; done.
Qed.

Lemma delivers_Forall o (P : datagram -> Prop) x y : delivers o x y -> Forall P y -> Forall P x.
Proof.
  intros H. rewrite !Forall_forall. intros Hy dg Hd. apply Hy. destruct o; cbn in H; [|by eapply elem_of_submseteq].
  by eapply elem_of_submseteq, sublist_submseteq.
Qed.

Lemma got_put ordered cfg pc hc a s k : play_ok ordered cfg pc hc a s -> delivers ordered (got s k) (put s k).
Proof. intros H. etrans; [apply (delivers_prefix _ _ (net s k))|apply (pk_net _ _ _ _ _ _ H)]. Qed.

Lemma copier_delivers o c : Pump.copier_ok c -> delivers o (Pump.c_sent c) (Pump.c_received c).
Proof. intros [(rest & -> & _)]. apply delivers_prefix. Qed.

Lemma link_delivers o c l : link_reachable c l -> delivers o (sent l) (from_udp l) /\ delivers o (written l) (from_conn l).
Proof.
  intros Hr. destruct (link_reachable_inv _ _ Hr) as [_ _ _ (r1 & -> & _) (r2 & -> & _) _ _ _ _].
  split; apply delivers_prefix.
Qed.

(** Through the network, from what one link has sent to what the other got. *)
Lemma crossed ordered cfg pc hc a s : play_ok ordered cfg pc hc a s ->
  delivers ordered (from_conn (host s)) (sent (peer s)) /\ delivers ordered (from_conn (peer s)) (sent (host s)).
Proof.
  intros H. pose proof (fun k => got_put _ _ _ _ _ _ k H) as Hk. unfold got, put in Hk.
  pose proof (pk_pump _ _ _ _ _ _ H) as Hp. destruct (server s) as [p|].
  - destruct (Hp p eq_refl) as [Hu Hd]. split.
    + etrans; [apply (Hk ServerUp)|]. etrans; [by apply copier_delivers|]. apply (Hk PeerUp).
    + etrans; [apply (Hk ServerDown)|]. etrans; [by apply copier_delivers|]. apply (Hk HostDown).
  - split; [apply (Hk PeerUp)|apply (Hk HostDown)].
Qed.

(** What the peer's link has read are packets of its game. *)
Lemma peer_read ordered cfg pc hc a s : play_ok ordered cfg pc hc a s ->
  from_udp (peer s) `sublist_of` Udp.packets_of a (Udp.log (udp s)).
Proof.
  intros [H1 (cn & Hg & Ha) H3 _ _ _ H7 _]. pose proof (Udp.udp_reachable_delivery _ _ H1) as Hd.
  destruct (Udp.dl_order _ Hd _ _ Hg) as (ps & Hps & Hs). destruct (Udp.handled_grows _ _ _ Hps) as (ps' & E). rewrite Ha in E.
  assert (Udp.read_of game (Udp.log (udp s)) `sublist_of` Udp.packets_of a (Udp.log (udp s))) as Hsub.
  { rewrite E. etrans; [|apply sublist_inserts_r, Hs]. by apply sublist_inserts_r. }
  rewrite H7. replace (take buf_len <$> _) with (Udp.read_of game (Udp.log (udp s))); [done|].
  symmetry. rewrite <- (list_fmap_id (Udp.read_of game (Udp.log (udp s)))) at 2. apply list_fmap_ext. intros i dg Hi. cbn.
  apply take_ge. assert (length dg <= Udp.MTU)%nat as Hl.
  { rewrite Forall_forall in H3. apply H3. eapply elem_of_submseteq; [|by apply sublist_submseteq]. by eapply list_elem_of_lookup_2. }
  unfold Udp.MTU, buf_len in *. lia.
Qed.

(** C6. From game to game.  Whatever the schedule, the errors and the losses,
    relayed or directly connected: the datagrams the host's link has written to
    its game are datagrams the peer's game sent, each at most once and none made
    up or changed, except that the listener cuts them to the MTU of 1200 bytes;
    the datagrams the peer's link has written to its game are the host's, cut
    to the 1500 bytes of its buffer.  In either direction they are in the order
    they were sent in if the network keeps the order.  While both sides play,
    any sequence of datagrams can cross in either direction, without a loss and
    in order, and both play on. *)
Theorem game_played (ordered : bool) (cfg : Udp.ListenConfig) (pc hc : linkConfig) (a : AddrPort) (s0 s : play)
    (Hs : play_start cfg pc hc a s0) (Hr : star (play_steps ordered) s0 s) :
  delivers ordered (written (host s)) (Udp.packets_of a (Udp.log (udp s))) /\
  Forall (fun dg => length dg <= Udp.MTU)%nat (written (host s)) /\
  delivers ordered (written (peer s)) (from_udp (host s)) /\
  Forall (fun dg => length dg <= buf_len)%nat (written (peer s)) /\
  (playing a s ->
     (forall dgs, exists xs s', clean_run s xs s' /\ playing a s' /\
        written (host s') = written (host s) ++ (take Udp.MTU <$> dgs) /\
        written (peer s') = written (peer s)) /\
     (forall dgs, exists xs s', clean_run s xs s' /\ playing a s' /\
        written (peer s') = written (peer s) ++ (take buf_len <$> dgs) /\ written (host s') = written (host s))).
Proof.
  assert (play_ok ordered cfg pc hc a s) as Hok.
  { eapply (star_invariant (play_steps ordered)); [|exact Hr|by apply play_start_ok].
    intros x y Hx (lab & Hl & Hy). by eapply play_ok_step. }
  destruct (link_delivers ordered _ _ (pk_peer _ _ _ _ _ _ Hok)) as [Ps Pw].
  destruct (link_delivers ordered _ _ (pk_host _ _ _ _ _ _ Hok)) as [Hsn Hw].
  destruct (crossed _ _ _ _ _ _ Hok) as [Cu Cd].
  assert (delivers ordered (written (host s)) (Udp.packets_of a (Udp.log (udp s)))) as Hup.
  { etrans; [exact Hw|]. etrans; [exact Cu|]. etrans; [exact Ps|].
    pose proof (peer_read _ _ _ _ _ _ Hok) as Hp. destruct ordered; [done|by apply sublist_submseteq]. }
  assert (delivers ordered (written (peer s)) (from_udp (host s))) as Hdown
    by (etrans; [exact Pw|]; by etrans).
  split_and!; [done|by eapply delivers_Forall; [|apply (pk_short _ _ _ _ _ _ Hok)]|done| |].
  - eapply delivers_Forall; [exact Hdown|]. by destruct (link_reachable_inv _ _ (pk_host _ _ _ _ _ _ Hok)).
  - intros Hp. split; intros dgs.
    + apply plays_on with (a := a); [|done]. intros s1 dg. apply plays_up.
    + apply plays_on with (a := a); [|done]. intros s1 dg. apply plays_down.
Qed.
End play.

(** * Witness *)

(** The peer's game has sent a first datagram, whose connection was accepted; it
    is relayed. *)
Definition demo_game : AddrPort := Udp.udp_demo_addr.

Definition demo_listener : option Udp.Listener :=
  Udp.run Udp.udp_demo (replicate 5 (Udp.LReadLoop (Udp.Packet demo_game [1])) ++ [Udp.LAccept]).

Definition demo_play (l : Udp.Listener) : play :=
  mkPlay l (new_link (mkLinkConfig 10000) 0 None) (new_link (mkLinkConfig 10000) 5 None) (Some (Pump.new_pump false 7)) (fun _ => []).

(** It is forwarded to the game of the host. *)
Definition demo_steps : list play_label :=
  [OnPeer (LReader Succeeds); PeerReads; OnPeer (LReader Succeeds); Delivers PeerUp 0; OnServer (Pump.FromA Pump.Succeeds);
   OnHost (LReader Succeeds); Delivers ServerUp 0; OnHost (LWriter Succeeds); OnPeer (LReader Succeeds)].

Lemma play_run_star game peer_is_a ordered xs : forall s s', Forall (play_label_ok ordered) xs ->
  play_run game peer_is_a s xs = Some s' -> star (play_steps game peer_is_a ordered) s s'.
Proof.
  induction xs as [|x xs IH]; intros s s' Hx; cbn; [by intros [= <-]; constructor|]. apply Forall_cons in Hx as [Hx Hxs].
  destruct (play_step game peer_is_a s x) as [s1|] eqn:E; [|done]. intros H. eapply star_step; [by exists x|by apply IH].
Qed.

Lemma game_played_witness :
  exists s, written (host s) = [[1]] /\ delivers true (written (host s)) (Udp.packets_of demo_game (Udp.log (udp s))) /\
    exists xs s', clean_run 0 true s xs s' /\ written (host s') = [[1]; [2; 3]].
Proof.
  destruct demo_listener as [l|] eqn:El; [|vm_compute in El; discriminate El].
  destruct (play_run 0 true (demo_play l) demo_steps) as [s|] eqn:E.
  2: { vm_compute in El. injection El as <-. vm_compute in E. discriminate E. }
  assert (play_start 0 (Udp.mkConfig 0 0) (mkLinkConfig 10000) (mkLinkConfig 10000) demo_game (demo_play l)) as Hs.
  { split; try by eexists.
    - exact (Udp.udp_run_star _ _ _ El).
    - vm_compute in El. injection El as <-. exists (Udp.mkConn demo_game [[1]] false). by split; vm_compute.
    - vm_compute in El. injection El as <-. vm_compute. reflexivity.
    - right. by eexists _, _. }
  pose proof (play_run_star 0 true true demo_steps _ _ ltac:(by repeat constructor) E) as Hr.
  destruct (game_played 0 true true _ _ _ _ _ _ Hs Hr) as (H1 & _ & _ & _ & H5).
  assert (playing 0 true demo_game s) as Hp.
  { vm_compute in El. injection El as <-. vm_compute in E. injection E as <-. constructor.
    - by split_and!; vm_compute.
    - split; [by vm_compute|]. exists (Udp.mkConn demo_game [] false). by split_and!; vm_compute.
    - apply Nat.ltb_lt. by vm_compute.
    - by split_and!; vm_compute.
    - by split_and!; vm_compute.
    - intros p [= <-]. by split; vm_compute.
    - intros []; by vm_compute. }
  assert (written (host s) = [[1]]) as Hw.
  { vm_compute in El. injection El as <-. vm_compute in E. injection E as <-. reflexivity. }
  exists s. split; [exact Hw|]. split; [exact H1|].
  destruct (proj1 (H5 Hp) [[2; 3]]) as (xs & s' & Hc & _ & Hw' & _). exists xs, s'. split; [exact Hc|]. rewrite Hw', Hw. reflexivity.
Defined.
